(** * docgrab: documentation discovery and retrieval

    A shallow embedding of [services/mpc/docs/doc.py] (the "docgrab" script)
    and the properties of its URL normaliser, fetch client, discovery
    strategies, HTML converter, download orchestrator and selection parser.

    Conventions of the embedding.
    - A Python [str] is a list of code points ([list N]); a [bytes] value is
      a list of byte values ([list N], each below 256).
    - The library functions the script relies on are written out on code
      points where the script's behaviour hangs on them: [str.strip] and
      [str.isspace], the regular-expression classes and flags, [int],
      [urlsplit] and [urlunsplit] (as in CPython 3.11), UTF-8 with
      replacement, [json.dumps] of the run manifest.
    - The rest of the world is a [World] record that the functions receive:
      the network, gzip, the codec registry, the XML parser, the calls the
      HTML parser makes, the two regular expressions of the HTML
      pre-filter, compiled user patterns, [urljoin], the clock.
    - A Python exception is the [Raise] of the [res] type; [try ... except
      Exception] lets a [BaseException] (an interrupt) through.
    - Where the script has no answer of its own the world is taken at its
      best: [mkdir] and the file writes succeed, the HTML tokenizer makes
      its handler calls without an error of its own, and a user pattern
      compiles or is refused with [re.error]. What is proved of a run that
      goes through these is stated for the run that returns.
    - Effects are explicit: a [State] holds the requests issued, the
      arguments of [time.sleep] (seconds, as rationals), the directories
      made, the files written and the lines left on standard input, and [M]
      threads it. Calls of [print] are left out.
    - A function of the script keeps its name; the methods of a class are
      in a module with the name of the class. A loop of a function is a
      recursive function of its own, named after what it computes, and a
      [while True] loop that reads input counts its rounds. *)

From Stdlib Require Import ZArith NArith List Ascii String Bool Lia QArith.
From stdpp Require Import base option list gmap sorting.

Open Scope string_scope.
Open Scope Z_scope.
Open Scope list_scope.

Set Warnings "-register-all".

(* ===================================================================== *)
(** ** Text primitives *)
(* ===================================================================== *)

Definition str := list N.
Definition bytes := list N.

(** One character of a literal, and a string literal of the script. *)
Definition ch (c : ascii) : N := N_of_ascii c.
Definition lit (s : string) : str := map ch (list_ascii_of_string s).

Fixpoint str_eqb (a b : str) : bool :=
  match a, b with
  | [], [] => true
  | x :: a', y :: b' => N.eqb x y && str_eqb a' b'
  | _, _ => false
  end.

(** The double quote, the single quote and the line feed, by code. *)
Definition dquote : N := 34%N.
Definition squote : N := 39%N.
Definition LF : N := 10%N.
Definition NL : str := [LF].

Definition in_range (lo hi n : N) : bool := ((lo <=? n) && (n <=? hi))%N.

(** [str.isspace] on one code point; the class [\s] of a [str] pattern. *)
Definition is_space (n : N) : bool :=
  in_range 9 13 n || in_range 28 32 n || (n =? 133)%N || (n =? 160)%N
  || (n =? 5760)%N || in_range 8192 8202 n || (n =? 8232)%N
  || (n =? 8233)%N || (n =? 8239)%N || (n =? 8287)%N || (n =? 12288)%N.

(** [c in chars] for a string of characters. *)
Definition in_chars (chars : str) (c : N) : bool :=
  existsb (N.eqb c) chars.

(** [s.lstrip(...)]: drop the leading characters that satisfy [p]. *)
Fixpoint lstrip_by (p : N -> bool) (s : str) : str :=
  match s with
  | [] => []
  | c :: s' => if p c then lstrip_by p s' else s
  end.

(** [s.rstrip(...)]: drop the trailing characters that satisfy [p]. *)
Fixpoint rstrip_by (p : N -> bool) (s : str) : str :=
  match s with
  | [] => []
  | c :: s' =>
      match rstrip_by p s' with
      | [] => if p c then [] else [c]
      | r => c :: r
      end
  end.

Definition strip_by (p : N -> bool) (s : str) : str :=
  rstrip_by p (lstrip_by p s).

(** [s.strip()], [s.lstrip()], [s.strip(chars)], [s.rstrip(chars)]. *)
Definition strip (s : str) : str := strip_by is_space s.
Definition lstrip (s : str) : str := lstrip_by is_space s.
Definition strip_chars (chars s : str) : str := strip_by (in_chars chars) s.
Definition rstrip_chars (chars s : str) : str := rstrip_by (in_chars chars) s.

(** [str.lower] on one code point. Written out for the code points below
    256 and for the two code points above them whose lower case holds an
    ASCII letter (U+0130, U+212A); every other code point is kept, and none
    of those lowers to text with an ASCII letter, so the script's tests of
    lowered text against ASCII keywords read the same. *)
Definition lower_chr (n : N) : str :=
  if in_range 65 90 n then [(n + 32)%N]
  else if in_range 192 222 n && negb (n =? 215)%N then [(n + 32)%N]
  else if (n =? 304)%N then [105%N; 775%N]
  else if (n =? 8490)%N then [107%N]
  else [n].

Definition lower (s : str) : str := flat_map lower_chr s.

(** [s.startswith(p)]. *)
Fixpoint startswith (p s : str) : bool :=
  match p, s with
  | [], _ => true
  | x :: p', y :: s' => N.eqb x y && startswith p' s'
  | _ :: _, [] => false
  end.

Definition endswith (p s : str) : bool := startswith (rev p) (rev s).

(** One pattern letter against one character under [re.IGNORECASE]: the
    pattern letter is ASCII lower case; beside its two ASCII cases, [s] also
    matches U+017F and [k] also matches U+212A, and [i] the code points
    U+0130 and U+0131. *)
Definition ci_eqb (x y : N) : bool :=
  (x =? y)%N
  || in_range 97 122 x && (y + 32 =? x)%N
  || (x =? 115)%N && (y =? 383)%N
  || (x =? 107)%N && (y =? 8490)%N
  || (x =? 105)%N && ((y =? 304)%N || (y =? 305)%N).

(** A literal (lower-case) pattern at the start of [s] under
    [re.IGNORECASE]. *)
Fixpoint startswith_ci (p s : str) : bool :=
  match p, s with
  | [], _ => true
  | x :: p', y :: s' => ci_eqb x y && startswith_ci p' s'
  | _ :: _, [] => false
  end.

(** [needle in s]. *)
Fixpoint contains (needle s : str) : bool :=
  startswith needle s ||
  match s with
  | [] => false
  | _ :: s' => contains needle s'
  end.

(** [s.replace(a, b)] for a one-character [a]. *)
Definition replace_chr (a : N) (b : str) (s : str) : str :=
  flat_map (fun c => if (c =? a)%N then b else [c]) s.

(** [s.split(sep, 1)] for a one-character separator: the text before the
    first separator and the text after it ([None] when there is none). *)
Fixpoint split_once (sep : N) (s : str) : option (str * str) :=
  match s with
  | [] => None
  | c :: s' =>
      if (c =? sep)%N then Some ([], s')
      else match split_once sep s' with
           | Some (a, b) => Some (c :: a, b)
           | None => None
           end
  end.

(** [s.split(sep)] for a one-character separator. *)
Fixpoint split_on (sep : N) (s : str) : list str :=
  match s with
  | [] => [[]]
  | c :: s' =>
      if (c =? sep)%N then [] :: split_on sep s'
      else match split_on sep s' with
           | [] => [[c]]
           | w :: ws => (c :: w) :: ws
           end
  end.

(** [sep.join(parts)] and plain concatenation. *)
Definition join (parts : list str) : str := concat parts.

(* ===================================================================== *)
(** ** URL normaliser *)
(* ===================================================================== *)

(** [re.match(r"^https?://", raw, re.IGNORECASE)]. *)
Definition has_http_scheme (raw : str) : bool :=
  startswith_ci (lit "http://") raw || startswith_ci (lit "https://") raw.

Definition quotes : str := [squote; dquote].

Definition normalize_url (raw : str) : str :=
  let raw := strip raw in
  let raw := rstrip_chars quotes (strip_chars quotes (strip raw)) in
  if str_eqb raw [] then []
  else
    let raw := if has_http_scheme raw then raw else lit "https://" ++ raw in
    rstrip_chars (lit "/") raw.

(* ===================================================================== *)
(** ** Exceptions *)
(* ===================================================================== *)

(** The exception classes the script meets. All but [KeyboardInterrupt]
    derive from [Exception]; [KeyboardInterrupt] stands for the
    [BaseException]s that [except Exception] does not catch. *)
Inductive exn : Type :=
| ValueError
| HTTPError
| URLError
| LookupError
| ParseError
| EOFError
| OtherException
| KeyboardInterrupt.

Definition is_Exception (e : exn) : bool :=
  match e with
  | KeyboardInterrupt => false
  | _ => true
  end.

(** The outcome of evaluating an expression: a value or a raised
    exception. *)
Inductive res (A : Type) : Type :=
| Ret (a : A)
| Raise (e : exn).
Arguments Ret {A} a.
Arguments Raise {A} e.

Definition res_bind {A B} (m : res A) (k : A -> res B) : res B :=
  match m with
  | Ret a => k a
  | Raise e => Raise e
  end.

(* ===================================================================== *)
(** ** The world outside the script *)
(* ===================================================================== *)

Record FetchResult := mkFetchResult {
  fr_url : str;
  fr_status : Z;
  fr_headers : gmap str str;
  fr_body : bytes
}.

(** What [urlopen] hands back once the response has been read:
    [getattr(resp, "status", 200)], [dict(resp.headers.items())] and
    [resp.read()]. *)
Record Response := mkResponse {
  resp_status : Z;
  resp_headers : gmap str str;
  resp_body : bytes
}.

(** An XML element as [xml.etree.ElementTree] builds it: the tag (with its
    namespace in braces in front), the text, the child elements. *)
Inductive Element : Type :=
| Elem (tag : str) (text : option str) (children : list Element).

(** The events [HTMLParser.feed] delivers to the handlers. *)
Inductive HtmlEvent : Type :=
| StartTag (tag : str) (attrs : list (str * option str))
| EndTag (tag : str)
| Data (data : str).

Record World := mkWorld {
  (** [urllib.parse._check_bracketed_netloc]: [false] is a [ValueError]. *)
  bracketed_netloc_ok : str -> bool;
  (** [urllib.parse._checknetloc] (NFKC check of a non-ASCII netloc). *)
  nfkc_netloc_ok : str -> bool;
  (** [urllib.parse.urljoin]; it splits its arguments and raises what
      [urlsplit] raises. *)
  urljoin : str -> str -> res str;
  (** [re.compile(pattern)] with the [search] of the compiled pattern;
      [None] is [re.error]. *)
  re_compile : str -> option (str -> bool);
  (** The request numbered [n] (counting every [urlopen] call of the run)
      for [url] with a timeout: the response once read, or what was raised
      on the way. *)
  urlopen : nat -> str -> Z -> res Response;
  (** [gzip.decompress]; [None] is any exception it raises. *)
  gzip_decompress : bytes -> option bytes;
  (** [body.decode(enc, errors="replace")] for a declared charset; [None]
      is any exception (an unknown codec raises [LookupError]). *)
  codec_decode : str -> bytes -> option str;
  (** [ET.fromstring] on bytes and on text; [None] is a parse error. *)
  xml_fromstring : bytes -> option Element;
  xml_fromstring_text : str -> option Element;
  (** The handler calls [HTMLParser.feed] makes for a document
      ([convert_charrefs=True]). *)
  html_events : str -> list HtmlEvent;
  (** The regular expressions of the HTML pre-filter:
      [re.sub(r"(?is)<(nav|aside|footer)\b.*?>.*?</\1>", " ", html)] and
      the groups of [re.finditer(rf"(?is)<{tag}\b[^>]*>(.*?)</{tag}>", html)]
      for a tag. *)
  strip_layout_blocks : str -> str;
  find_tag_bodies : str -> str -> list str;
  (** [int(time.time())] at request count [n]. *)
  unix_time : nat -> Z;
  (** [Path.cwd()]. *)
  cwd : str
}.

(** What a run changes: the requests issued ([Request]/[urlopen] calls,
    oldest first, each with its timeout), the arguments of [time.sleep]
    (oldest first, in seconds), the directories made and the files written,
    and the lines still to be read from standard input. *)
Record State := mkState {
  st_requests : list (str * Z);
  st_sleeps : list Q;
  st_dirs : gset str;
  st_files : gmap str bytes;
  st_stdin : list str
}.

Definition init_state (stdin : list str) : State :=
  mkState [] [] ∅ ∅ stdin.

(** Computations with effects on the [State] that may raise. *)
Definition M (A : Type) : Type := State -> res A * State.

Definition ret {A} (a : A) : M A := fun st => (Ret a, st).
Definition raise {A} (e : exn) : M A := fun st => (Raise e, st).

Definition bind {A B} (m : M A) (k : A -> M B) : M B :=
  fun st =>
    match m st with
    | (Ret a, st') => k a st'
    | (Raise e, st') => (Raise e, st')
    end.

Definition lift {A} (r : res A) : M A := fun st => (r, st).

(** [try: m except Exception: handler]. *)
Definition try_except {A} (m : M A) (handler : exn -> M A) : M A :=
  fun st =>
    match m st with
    | (Ret a, st') => (Ret a, st')
    | (Raise e, st') =>
        if is_Exception e then handler e st' else (Raise e, st')
    end.

Notation "'let*' x ':=' m 'in' k" := (bind m (fun x => k))
  (at level 10, x pattern, m at level 100, k at level 200).
Notation "m ';;' k" := (bind m (fun _ => k))
  (at level 100, k at level 200, right associativity).

(** [for x in xs: body x]. *)
Fixpoint for_each {A} (xs : list A) (body : A -> M unit) : M unit :=
  match xs with
  | [] => ret tt
  | x :: xs' => body x ;; for_each xs' body
  end.

(** [time.sleep(seconds)]. *)
Definition sleep (seconds : Q) : M unit :=
  fun st => (Ret tt, mkState (st_requests st) (st_sleeps st ++ [seconds])
                             (st_dirs st) (st_files st) (st_stdin st)).

(* ===================================================================== *)
(** ** URL splitting *)
(* ===================================================================== *)

Record SplitResult := mkSplit {
  scheme : str;
  netloc : str;
  path : str;
  query : str;
  fragment : str
}.

Definition is_ascii_alpha (n : N) : bool := in_range 65 90 n || in_range 97 122 n.
Definition is_ascii_digit (n : N) : bool := in_range 48 57 n.

(** [c in scheme_chars]. *)
Definition is_scheme_char (n : N) : bool :=
  is_ascii_alpha n || is_ascii_digit n || in_chars (lit "+-.") n.

(** The characters [urlsplit] strips from the left and removes. *)
Definition is_c0_or_space (n : N) : bool := (n <=? 32)%N.
Definition is_unsafe_url_byte (n : N) : bool := in_chars [9; 13; 10]%N n.

(** The text before the first character satisfying [p], and the rest. *)
Fixpoint span_until (p : N -> bool) (s : str) : str * str :=
  match s with
  | [] => ([], [])
  | c :: s' =>
      if p c then ([], s)
      else let '(a, b) := span_until p s' in (c :: a, b)
  end.

(** The scheme of [urlsplit]: [url[:i].lower()] and [url[i+1:]] when the
    text before the first colon is a scheme. *)
Definition split_scheme (url : str) : str * str :=
  match url with
  | c :: _ =>
      if is_ascii_alpha c then
        match split_once (ch ":") url with
        | Some (a, b) =>
            if forallb is_scheme_char a then (lower a, b) else ([], url)
        | None => ([], url)
        end
      else ([], url)
  | [] => ([], url)
  end.

Definition uses_netloc : list str :=
  map lit ["ftp"; "http"; "gopher"; "nntp"; "telnet"; "imap"; "wais";
           "file"; "mms"; "https"; "shttp"; "snews"; "prospero"; "rtsp";
           "rtspu"; "rsync"; "svn"; "svn+ssh"; "sftp"; "nfs"; "git";
           "git+ssh"; "ws"; "wss"]%string.

(** [urlunsplit((scheme, netloc, url, query, fragment))]. *)
Definition urlunsplit (p : SplitResult) : str :=
  let url := path p in
  let url :=
    if negb (str_eqb (netloc p) [])
       || (negb (str_eqb (scheme p) [])
           && existsb (str_eqb (scheme p)) uses_netloc
           && negb (startswith (lit "//") url))
    then
      let url :=
        if negb (str_eqb url []) && negb (startswith (lit "/") url)
        then lit "/" ++ url else url in
      lit "//" ++ netloc p ++ url
    else url in
  let url := if str_eqb (scheme p) [] then url else scheme p ++ lit ":" ++ url in
  let url := if str_eqb (query p) [] then url else url ++ lit "?" ++ query p in
  if str_eqb (fragment p) [] then url else url ++ lit "#" ++ fragment p.

Section Url.
Context (w : World).

(** [urlsplit(url)]. *)
Definition urlsplit (url : str) : res SplitResult :=
  let url := lstrip_by is_c0_or_space url in
  let url := filter (fun c => negb (is_unsafe_url_byte c)) url in
  let '(sch, url) := split_scheme url in
  let '(loc, url) :=
    if startswith (lit "//") url
    then span_until (in_chars (lit "/?#")) (drop 2 url)
    else ([], url) in
  let has_open := in_chars loc (ch "[") in
  let has_close := in_chars loc (ch "]") in
  if has_open && negb has_close || has_close && negb has_open
  then Raise ValueError
  else if has_open && has_close && negb (bracketed_netloc_ok w loc)
  then Raise ValueError
  else
    let '(url, frag) :=
      match split_once (ch "#") url with
      | Some (a, b) => (a, b)
      | None => (url, [])
      end in
    let '(url, qry) :=
      match split_once (ch "?") url with
      | Some (a, b) => (a, b)
      | None => (url, [])
      end in
    if forallb (fun c => (c <? 128)%N) loc || nfkc_netloc_ok w loc
    then Ret (mkSplit sch loc url qry frag)
    else Raise ValueError.

Definition split_root_and_base (url : str) : res (str * str) :=
  res_bind (urlsplit url) (fun parts =>
  let root := urlunsplit (mkSplit (scheme parts) (netloc parts) [] [] []) in
  let base := urlunsplit (mkSplit (scheme parts) (netloc parts) (path parts) [] []) in
  let base := rstrip_chars (lit "/") base in
  Ret (root, base)).

End Url.

(* ===================================================================== *)
(** ** Slugs *)
(* ===================================================================== *)

(** The class [[A-Za-z0-9._-]]. *)
Definition is_slug_char (n : N) : bool :=
  is_ascii_alpha n || is_ascii_digit n || in_chars (lit "._-") n.

(** [re.sub(r"[^A-Za-z0-9._-]+", "_", s)]: every maximal run of characters
    outside the class becomes one underscore; [in_run] tells that the
    previous character was outside it. *)
Fixpoint sub_unsafe_runs (in_run : bool) (s : str) : str :=
  match s with
  | [] => []
  | c :: s' =>
      if is_slug_char c then c :: sub_unsafe_runs false s'
      else if in_run then sub_unsafe_runs true s'
      else ch "_" :: sub_unsafe_runs true s'
  end.

Definition safe_slug (s : str) : str :=
  let s := sub_unsafe_runs false s in
  let s := strip_chars (lit "_") s in
  if str_eqb s [] then lit "site" else s.

Section Slugs.
Context (w : World).

Definition slug_from_url (url : str) : res str :=
  res_bind (urlsplit w url) (fun parts =>
  let host := replace_chr (ch ":") (lit "_") (netloc parts) in
  let path := strip_chars (lit "/") (path parts) in
  if negb (str_eqb path [])
  then Ret (safe_slug (host ++ lit "__" ++ path))
  else Ret (safe_slug host)).

Definition url_to_page_slug (url : str) : res str :=
  res_bind (urlsplit w url) (fun parts =>
  let path := strip_chars (lit "/") (path parts) in
  let path := if str_eqb path [] then lit "index" else path in
  let slug := safe_slug path in
  let slug := if (140 <? Z.of_nat (length slug)) then take 140 slug else slug in
  Ret slug).

End Slugs.

(* ===================================================================== *)
(** ** Fetch client *)
(* ===================================================================== *)

Definition TIMEOUT_SEC : Z := 30.
Definition DELAY_SEC : Q := 15 # 100.
Definition MAX_PAGES_DEFAULT : Z := 250.

(** [headers.get(key, "")]. *)
Definition headers_get (headers : gmap str str) (key : str) : str :=
  default [] (headers !! key).

(** [0.4 * (attempt + 1)], in seconds. *)
Definition backoff (attempt : Z) : Q := (4 # 10) * inject_Z (attempt + 1).

Section Fetch.
Context (w : World).

(** [Request(url, ...)] and [urlopen(req, timeout=timeout)]: the call is
    recorded and the world answers it. *)
Definition do_urlopen (url : str) (timeout : Z) : M Response :=
  fun st =>
    (urlopen w (length (st_requests st)) url timeout,
     mkState (st_requests st ++ [(url, timeout)]) (st_sleeps st)
             (st_dirs st) (st_files st) (st_stdin st)).

(** [try: body = gzip.decompress(body) except Exception: pass]. *)
Definition gunzip_or_keep (body : bytes) : bytes :=
  match gzip_decompress w body with
  | Some b => b
  | None => body
  end.

(** The body of the [with urlopen(...)] block of [fetch]. *)
Definition read_response (url : str) (resp : Response) : FetchResult :=
  let status := resp_status resp in
  let headers := resp_headers resp in
  let body := resp_body resp in
  let ce := lower (headers_get headers (lit "Content-Encoding")) in
  let body := if contains (lit "gzip") ce then gunzip_or_keep body else body in
  let body :=
    if endswith (lit ".gz") url && negb (startswith (lit "<?xml") body)
    then gunzip_or_keep body else body in
  mkFetchResult url status headers body.

(** The loop [for attempt in range(retries + 1)] of [fetch], with [n]
    attempts left. Both [except] clauses do the same: sleep and go on. *)
Fixpoint fetch_loop (n : nat) (attempt : Z) (url : str) (timeout : Z)
  : M (option FetchResult) :=
  match n with
  | O => ret None
  | S n' =>
      try_except
        (let* resp := do_urlopen url timeout in
         ret (Some (read_response url resp)))
        (fun _ =>
           sleep (backoff attempt) ;;
           fetch_loop n' (attempt + 1) url timeout)
  end.

Definition fetch (url : str) (timeout : Z) (retries : Z) : M (option FetchResult) :=
  fetch_loop (Z.to_nat (retries + 1)) 0 url timeout.

(** [fetch(url)] with the default arguments. *)
Definition fetch_default (url : str) : M (option FetchResult) :=
  fetch url TIMEOUT_SEC 2.

End Fetch.

(** [if not r or r.status != 200 or not r.body: continue]: the response
    that passes, if any. *)
Definition usable (r : option FetchResult) : option FetchResult :=
  match r with
  | Some fr =>
      if negb (fr_status fr =? 200) || str_eqb (fr_body fr) [] then None
      else Some fr
  | None => None
  end.

Definition looks_textlike (headers : gmap str str) (body : bytes) : bool :=
  let ctype := lower (headers_get headers (lit "Content-Type")) in
  if contains (lit "text/") ctype || contains (lit "application/json") ctype
     || contains (lit "application/xml") ctype
     || contains (lit "application/xhtml") ctype
  then true
  else
    let sample := take 2048 body in
    if in_chars sample 0%N then false else true.

(* ===================================================================== *)
(** ** Charset decoding *)
(* ===================================================================== *)

Definition REPLACEMENT : N := 65533%N.

Definition is_cont (b : N) : bool := in_range 128 191 b.

(** The number of continuation bytes a UTF-8 lead byte asks for (0 for a
    byte that cannot start a sequence). *)
Definition utf8_width (b0 : N) : nat :=
  if in_range 194 223 b0 then 1%nat
  else if in_range 224 239 b0 then 2%nat
  else if in_range 240 244 b0 then 3%nat
  else 0%nat.

(** The second byte of a sequence has a narrower range after some leads
    (no overlong forms, no surrogates, nothing above U+10FFFF). *)
Definition second_ok (b0 b1 : N) : bool :=
  if (b0 =? 224)%N then in_range 160 191 b1
  else if (b0 =? 237)%N then in_range 128 159 b1
  else if (b0 =? 240)%N then in_range 144 191 b1
  else if (b0 =? 244)%N then in_range 128 143 b1
  else is_cont b1.

Definition cp2 (b0 b1 : N) : N := ((b0 - 192) * 64 + (b1 - 128))%N.
Definition cp3 (b0 b1 b2 : N) : N :=
  ((b0 - 224) * 4096 + (b1 - 128) * 64 + (b2 - 128))%N.
Definition cp4 (b0 b1 b2 b3 : N) : N :=
  ((b0 - 240) * 262144 + (b1 - 128) * 4096 + (b2 - 128) * 64 + (b3 - 128))%N.

(** [body.decode("utf-8", errors="replace")]: every maximal ill-formed
    part becomes one U+FFFD. *)
Fixpoint utf8_decode_replace (bs : bytes) : str :=
  match bs with
  | [] => []
  | b0 :: t0 =>
      if (b0 <? 128)%N then b0 :: utf8_decode_replace t0
      else
        match utf8_width b0, t0 with
        | O, _ => REPLACEMENT :: utf8_decode_replace t0
        | _, [] => [REPLACEMENT]
        | S k, b1 :: t1 =>
            if negb (second_ok b0 b1) then REPLACEMENT :: utf8_decode_replace t0
            else
              match k, t1 with
              | O, _ => cp2 b0 b1 :: utf8_decode_replace t1
              | _, [] => [REPLACEMENT]
              | S k', b2 :: t2 =>
                  if negb (is_cont b2) then REPLACEMENT :: utf8_decode_replace t1
                  else
                    match k', t2 with
                    | O, _ => cp3 b0 b1 b2 :: utf8_decode_replace t2
                    | _, [] => [REPLACEMENT]
                    | S _, b3 :: t3 =>
                        if negb (is_cont b3)
                        then REPLACEMENT :: utf8_decode_replace t2
                        else cp4 b0 b1 b2 b3 :: utf8_decode_replace t3
                    end
              end
        end
  end.

(** The UTF-8 encoding of one code point; [None] for a surrogate (and for
    a number that is no code point). *)
Definition utf8_encode_chr (c : N) : option bytes :=
  if (c <? 128)%N then Some [c]
  else if (c <? 2048)%N then Some [192 + c / 64; 128 + c mod 64]%N
  else if in_range 55296 57343 c then None
  else if (c <? 65536)%N
       then Some [224 + c / 4096; 128 + (c / 64) mod 64; 128 + c mod 64]%N
  else if (c <? 1114112)%N
       then Some [240 + c / 262144; 128 + (c / 4096) mod 64;
                  128 + (c / 64) mod 64; 128 + c mod 64]%N
  else None.

(** [text.encode("utf-8", errors="ignore")]. *)
Definition utf8_encode_ignore (s : str) : bytes :=
  flat_map (fun c => default [] (utf8_encode_chr c)) s.

(** [text.encode("utf-8")]: [None] is a [UnicodeEncodeError]. *)
Fixpoint utf8_encode_strict (s : str) : option bytes :=
  match s with
  | [] => Some []
  | c :: s' =>
      match utf8_encode_chr c, utf8_encode_strict s' with
      | Some b, Some bs => Some (b ++ bs)
      | _, _ => None
      end
  end.

(** The class [[A-Za-z0-9._-]] under [re.IGNORECASE]. *)
Definition is_charset_char (n : N) : bool :=
  is_slug_char n || in_chars [304; 305; 383; 8490]%N n.

Fixpoint take_while (p : N -> bool) (s : str) : str :=
  match s with
  | [] => []
  | c :: s' => if p c then c :: take_while p s' else []
  end.

(** Group 1 of [re.search(r"charset=([A-Za-z0-9._-]+)", ctype,
    re.IGNORECASE)]. *)
Fixpoint search_charset (ctype : str) : option str :=
  let here :=
    if startswith_ci (lit "charset=") ctype
    then match take_while is_charset_char (drop 8 ctype) with
         | [] => None
         | g => Some g
         end
    else None in
  match here with
  | Some g => Some g
  | None =>
      match ctype with
      | [] => None
      | _ :: rest => search_charset rest
      end
  end.

(** [try: m except Exception: handler] for an expression without effects. *)
Definition try_except_res {A} (m : res A) (handler : exn -> res A) : res A :=
  match m with
  | Ret a => Ret a
  | Raise e => if is_Exception e then handler e else Raise e
  end.

Section Decode.
Context (w : World).

(** [body.decode(enc, errors="replace")]. *)
Definition decode_with (enc : str) (body : bytes) : res str :=
  match codec_decode w enc body with
  | Some s => Ret s
  | None => Raise LookupError
  end.

Definition decode_bytes (body : bytes) (headers : gmap str str) : res str :=
  let ctype := headers_get headers (lit "Content-Type") in
  let fallback :=
    try_except_res (Ret (utf8_decode_replace body))
                   (fun _ => Ret (utf8_decode_replace body)) in
  match search_charset ctype with
  | Some g =>
      let enc := strip g in
      try_except_res (decode_with enc body) (fun _ => fallback)
  | None => fallback
  end.

End Decode.

(* ===================================================================== *)
(** ** Sitemap probe *)
(* ===================================================================== *)

Definition el_tag (e : Element) : str := match e with Elem t _ _ => t end.
Definition el_text (e : Element) : option str := match e with Elem _ t _ => t end.
Definition el_children (e : Element) : list Element :=
  match e with Elem _ _ cs => cs end.

(** [el.findall(tag)] and [el.find(tag)] for a plain (possibly namespaced)
    tag: the direct children with that tag, and the first of them. *)
Definition findall (tag : str) (e : Element) : list Element :=
  filter (fun c => str_eqb (el_tag c) tag = true) (el_children e).
Definition find (tag : str) (e : Element) : option Element :=
  head (findall tag e).

(** The namespace prefix of an element:
    [tag.split("}")[0] + "}"] when the tag starts with a brace. *)
Definition ns_of (e : Element) : str :=
  if startswith (lit "{") (el_tag e)
  then match split_once (ch "}") (el_tag e) with
       | Some (a, _) => a ++ lit "}"
       | None => el_tag e ++ lit "}"
       end
  else [].

(** [get_loc(el)]. *)
Definition get_loc (ns : str) (el : Element) : str :=
  match find (ns ++ lit "loc") el with
  | Some loc => strip (default [] (el_text loc))
  | None => []
  end.

(** The [<url><loc>] texts of one sitemap document: the loop
    [for uel in root.findall(ns + "url")] with its [append]. *)
Definition url_locs (ns : str) (root_el : Element) : list str :=
  flat_map (fun uel =>
    match find (ns ++ lit "loc") uel with
    | Some loc =>
        match el_text loc with
        | Some t => if str_eqb t [] then [] else [strip t]
        | None => []
        end
    | None => []
    end) (findall (ns ++ lit "url") root_el).

(** The four places a sitemap is looked for, in the order tried. *)
Definition sitemap_candidates (root base : str) : list str :=
  [base ++ lit "/sitemap.xml"; root ++ lit "/sitemap.xml";
   base ++ lit "/sitemap.xml.gz"; root ++ lit "/sitemap.xml.gz"].

(** The filter at the end of [fetch_sitemap_urls], with the [seen] set and
    the [out] list it builds. *)
Fixpoint filter_sitemap_urls (w : World) (base_norm base_path : str)
    (urls : list str) (seen : gset str) (out : list str) : res (list str) :=
  match urls with
  | [] => Ret out
  | u :: rest =>
      let u := normalize_url u in
      if str_eqb u [] then filter_sitemap_urls w base_norm base_path rest seen out
      else
        res_bind (urlsplit w u) (fun pu =>
        res_bind (urlsplit w base_norm) (fun pb =>
        if negb (str_eqb (netloc pu) (netloc pb))
        then filter_sitemap_urls w base_norm base_path rest seen out
        else if negb (str_eqb base_path [])
                && negb (startswith base_path (path pu))
        then filter_sitemap_urls w base_norm base_path rest seen out
        else if bool_decide (u ∈ seen)
        then filter_sitemap_urls w base_norm base_path rest seen out
        else filter_sitemap_urls w base_norm base_path rest
               ({[u]} ∪ seen) (out ++ [u])))
  end.

Section Sitemap.
Context (w : World).

(** The loop over the candidates: the decoded text of the first candidate
    that is fetched with status 200 and a body ([None] when the loop ends
    without one). *)
Fixpoint first_sitemap_text (candidates : list str) : M (option str) :=
  match candidates with
  | [] => ret None
  | s :: rest =>
      let* r := fetch_default w s in
      match usable r with
      | None => first_sitemap_text rest
      | Some fr =>
          try_except
            (let* t := lift (decode_bytes w (fr_body fr) (fr_headers fr)) in
             ret (Some t))
            (fun _ => first_sitemap_text rest)
      end
  end.

(** [try: ET.fromstring(text.encode("utf-8", errors="ignore"))
     except Exception: try: ET.fromstring(text) except Exception: ...]. *)
Definition parse_sitemap_root (xml_text : str) : option Element :=
  match xml_fromstring w (utf8_encode_ignore xml_text) with
  | Some e => Some e
  | None => xml_fromstring_text w xml_text
  end.

(** One round of the loop over the [<sitemap>] children of an index: the
    [<url><loc>] texts of the document the child points to. *)
Definition sub_sitemap_locs (ns : str) (sm : Element) : M (list str) :=
  let loc := get_loc ns sm in
  if str_eqb loc [] then ret []
  else
    let* sub := fetch_default w loc in
    match usable sub with
    | None => ret []
    | Some fr =>
        try_except
          (let* sub_text := lift (decode_bytes w (fr_body fr) (fr_headers fr)) in
           match xml_fromstring w (utf8_encode_ignore sub_text) with
           | Some sub_root => ret (url_locs (ns_of sub_root) sub_root)
           | None => raise ParseError
           end)
          (fun _ => ret [])
    end.

Fixpoint index_locs (ns : str) (sms : list Element) : M (list str) :=
  match sms with
  | [] => ret []
  | sm :: rest =>
      let* here := sub_sitemap_locs ns sm in
      let* more := index_locs ns rest in
      ret (here ++ more)
  end.

(** The list [urls] of [fetch_sitemap_urls] before the filter. *)
Definition collect_locs (root_el : Element) : M (list str) :=
  let ns := ns_of root_el in
  if endswith (lit "sitemapindex") (el_tag root_el)
  then index_locs ns (findall (ns ++ lit "sitemap") root_el)
  else ret (url_locs ns root_el).

Definition fetch_sitemap_urls (base_url : str) : M (list str) :=
  let* (root, base) := lift (split_root_and_base w base_url) in
  let* pb := lift (urlsplit w base) in
  let base_path := rstrip_chars (lit "/") (path pb) in
  let* xml_text := first_sitemap_text (sitemap_candidates root base) in
  match xml_text with
  | None => ret []
  | Some xml_text =>
      if str_eqb xml_text [] then ret []
      else
        match parse_sitemap_root xml_text with
        | None => ret []
        | Some root_el =>
            let* urls := collect_locs root_el in
            let base_norm := rstrip_chars (lit "/") base in
            lift (filter_sitemap_urls w base_norm base_path urls ∅ [])
        end
  end.

End Sitemap.

(* ===================================================================== *)
(** ** HTML to markdown-ish text *)
(* ===================================================================== *)

(** [tag in {...}] for a set of literal tag names. *)
Definition tag_in (tag : str) (names : list string) : bool :=
  existsb (fun n => str_eqb tag (lit n)) names.


(** The fields of a [MarkdownishParser]. *)
Record MarkdownishParser := mkMd {
  md_out : list str;
  md_ignore_depth : Z;
  md_in_pre : bool;
  md_in_code_inline : bool;
  md_pending_heading : option Z;
  md_li_prefix_pending : bool
}.

Module MarkdownishParser.

Definition IGNORE_TAGS : list string := ["script"; "style"; "noscript"]%string.
Definition HEADING_TAGS : list string :=
  ["h1"; "h2"; "h3"; "h4"; "h5"; "h6"]%string.

(** [__init__]. *)
Definition init : MarkdownishParser := mkMd [] 0 false false None false.

(** [self.out.append(s)]. *)
Definition out_append (s : str) (p : MarkdownishParser) : MarkdownishParser :=
  mkMd (md_out p ++ [s]) (md_ignore_depth p) (md_in_pre p)
       (md_in_code_inline p) (md_pending_heading p) (md_li_prefix_pending p).

(** [int(tag[1])] for a heading tag [h1] .. [h6]. *)
Definition heading_level (tag : str) : Z :=
  match tag with
  | _ :: d :: _ => Z.of_N d - 48
  | _ => 0
  end.

Definition handle_starttag (tag : str) (p : MarkdownishParser)
  : MarkdownishParser :=
  let tag := lower tag in
  if tag_in tag IGNORE_TAGS then
    mkMd (md_out p) (md_ignore_depth p + 1) (md_in_pre p)
         (md_in_code_inline p) (md_pending_heading p) (md_li_prefix_pending p)
  else if 0 <? md_ignore_depth p then p
  else if tag_in tag ["p"; "div"; "section"; "article"; "header"; "table"; "tr"]%string
  then out_append (NL ++ NL) p
  else if tag_in tag ["br"]%string then out_append NL p
  else if tag_in tag ["ul"; "ol"]%string then out_append (NL ++ NL) p
  else if str_eqb tag (lit "li") then
    let p := out_append (NL ++ lit "- ") p in
    mkMd (md_out p) (md_ignore_depth p) (md_in_pre p)
         (md_in_code_inline p) (md_pending_heading p) true
  else if tag_in tag HEADING_TAGS then
    let p := out_append (NL ++ NL) p in
    mkMd (md_out p) (md_ignore_depth p) (md_in_pre p)
         (md_in_code_inline p) (Some (heading_level tag)) (md_li_prefix_pending p)
  else if str_eqb tag (lit "pre") then
    let p := mkMd (md_out p) (md_ignore_depth p) true
                  (md_in_code_inline p) (md_pending_heading p)
                  (md_li_prefix_pending p) in
    out_append (NL ++ NL ++ lit "```text" ++ NL) p
  else if str_eqb tag (lit "code") then
    if negb (md_in_pre p) then
      let p := mkMd (md_out p) (md_ignore_depth p) (md_in_pre p)
                    true (md_pending_heading p) (md_li_prefix_pending p) in
      out_append (lit "`") p
    else p
  else p.

Definition handle_endtag (tag : str) (p : MarkdownishParser)
  : MarkdownishParser :=
  let tag := lower tag in
  if tag_in tag IGNORE_TAGS then
    if 0 <? md_ignore_depth p then
      mkMd (md_out p) (md_ignore_depth p - 1) (md_in_pre p)
           (md_in_code_inline p) (md_pending_heading p) (md_li_prefix_pending p)
    else p
  else if 0 <? md_ignore_depth p then p
  else if tag_in tag ["p"; "div"; "section"; "article"; "header"]%string
  then out_append (NL ++ NL) p
  else if tag_in tag HEADING_TAGS then
    let p := out_append (NL ++ NL) p in
    mkMd (md_out p) (md_ignore_depth p) (md_in_pre p)
         (md_in_code_inline p) None (md_li_prefix_pending p)
  else if str_eqb tag (lit "pre") then
    let p := mkMd (md_out p) (md_ignore_depth p) false
                  (md_in_code_inline p) (md_pending_heading p)
                  (md_li_prefix_pending p) in
    out_append (NL ++ lit "```" ++ NL ++ NL) p
  else if str_eqb tag (lit "code") then
    if md_in_code_inline p then
      let p := out_append (lit "`") p in
      mkMd (md_out p) (md_ignore_depth p) (md_in_pre p)
           false (md_pending_heading p) (md_li_prefix_pending p)
    else p
  else if str_eqb tag (lit "li") then out_append NL p
  else p.

(** [re.sub(r"\s+", " ", data)]: every run of whitespace becomes one
    space; [in_run] tells that the previous character was whitespace. *)
Fixpoint collapse_ws (in_run : bool) (s : str) : str :=
  match s with
  | [] => []
  | c :: s' =>
      if is_space c then
        if in_run then collapse_ws true s' else ch " " :: collapse_ws true s'
      else c :: collapse_ws false s'
  end.

(** ["#" * max(1, min(6, level))]. *)
Definition heading_prefix (level : Z) : str :=
  repeat (ch "#") (Z.to_nat (Z.max 1 (Z.min 6 level))).

Definition handle_data (data : str) (p : MarkdownishParser)
  : MarkdownishParser :=
  if 0 <? md_ignore_depth p then p
  else if str_eqb data [] then p
  else
    let p :=
      match md_pending_heading p with
      | Some level =>
          if negb (md_in_pre p) then
            let prefix := heading_prefix level in
            match last (md_out p) with
            | Some l =>
                if startswith (prefix ++ lit " ") l then p
                else out_append (prefix ++ lit " ") p
            | None => out_append (prefix ++ lit " ") p
            end
          else p
      | None => p
      end in
    if md_in_pre p then out_append data p
    else
      let s := collapse_ws false data in
      if md_li_prefix_pending p then
        let s := lstrip s in
        let p := mkMd (md_out p) (md_ignore_depth p) (md_in_pre p)
                      (md_in_code_inline p) (md_pending_heading p) false in
        out_append s p
      else out_append s p.

(** One handler call. *)
Definition handle (ev : HtmlEvent) (p : MarkdownishParser)
  : MarkdownishParser :=
  match ev with
  | StartTag tag _ => handle_starttag tag p
  | EndTag tag => handle_endtag tag p
  | Data data => handle_data data p
  end.

(** The handler calls of [feed], in order. *)
Definition feed (events : list HtmlEvent) (p : MarkdownishParser)
  : MarkdownishParser :=
  fold_left (fun p ev => handle ev p) events p.

(** [re.sub(r"[ \t]+\n", "\n", txt)]: spaces and tabs that run up to a
    line feed go. *)
Fixpoint drop_blanks_before_newline (s : str) : str :=
  match s with
  | [] => []
  | c :: s' =>
      let r := drop_blanks_before_newline s' in
      if in_chars [32; 9]%N c && startswith NL r then r else c :: r
  end.

(** [re.sub(r"\n{4,}", "\n\n\n", txt)]: a run of four or more line feeds
    becomes three; [run] counts the line feeds just written. *)
Fixpoint cap_newlines (run : nat) (s : str) : str :=
  match s with
  | [] => []
  | c :: s' =>
      if (c =? LF)%N then
        if (run <? 3)%nat then LF :: cap_newlines (S run) s'
        else cap_newlines run s'
      else c :: cap_newlines 0 s'
  end.

Definition get_text (p : MarkdownishParser) : str :=
  let txt := join (md_out p) in
  let txt := drop_blanks_before_newline txt in
  let txt := cap_newlines 0 txt in
  strip txt ++ NL.

End MarkdownishParser.

(** [max(candidates, key=len)]: the first of the longest. *)
Fixpoint longest (best : str) (candidates : list str) : str :=
  match candidates with
  | [] => best
  | c :: rest =>
      if (length best <? length c)%nat then longest c rest
      else longest best rest
  end.

Section Converter.
Context (w : World).

Definition extract_main_html (html : str) : str :=
  let candidates :=
    flat_map (fun tag => find_tag_bodies w (lit tag) html)
             ["main"; "article"]%string in
  match candidates with
  | [] => html
  | c :: rest => longest c rest
  end.

Definition html_to_markdownish (html : str) : str :=
  let html := strip_layout_blocks w html in
  let main := extract_main_html html in
  MarkdownishParser.get_text
    (MarkdownishParser.feed (html_events w main) MarkdownishParser.init).

End Converter.

(* ===================================================================== *)
(** ** Manifest probe *)
(* ===================================================================== *)

(** The manifest files found: a [dict] from file name to response, in
    insertion order, without repeated keys. *)
Definition Manifests := list (str * FetchResult).

Fixpoint manifest_get (name : str) (found : Manifests) : option FetchResult :=
  match found with
  | [] => None
  | (k, v) :: rest => if str_eqb k name then Some v else manifest_get name rest
  end.

Definition variants : list str :=
  [lit "llms-full.txt"; lit "llms.txt"; lit "llms-small.txt"].

(** A match of [\[[^\]]+\]\(([^)]+)\)] that starts at the head of [s]: its
    group and the text after the match. *)
Definition md_link_at (s : str) : option (str * str) :=
  match s with
  | c :: rest =>
      if (c =? ch "[")%N then
        let '(label, after) := span_until (N.eqb (ch "]")) rest in
        if negb (str_eqb label []) && startswith (lit "](") after then
          let '(target, after') := span_until (N.eqb (ch ")")) (drop 2 after) in
          if negb (str_eqb target []) && startswith (lit ")") after'
          then Some (target, drop 1 after')
          else None
        else None
      else None
  | [] => None
  end.

(** The class of the bare-URL pattern: anything but whitespace, angle
    brackets, parentheses and the two quote characters. *)
Definition is_bare_url_char (n : N) : bool :=
  negb (is_space n || in_chars (lit "<>()") n || in_chars quotes n).

(** A match of the bare-URL pattern ([https?://] and one or more characters
    of the class above) that starts at the head of [s]: the match and the
    text after it. *)
Definition bare_url_at (s : str) : option (str * str) :=
  let with_prefix (p : str) :=
    let body := take_while is_bare_url_char (drop (length p) s) in
    if str_eqb body [] then None
    else Some (p ++ body, drop (length p + length body) s) in
  if startswith (lit "https://") s then with_prefix (lit "https://")
  else if startswith (lit "http://") s then with_prefix (lit "http://")
  else None.

(** [re.findall] for a pattern given by its matcher at a position: the
    matches from left to right, none overlapping. A match is not empty, so
    [S (length s)] rounds are enough. *)
Fixpoint findall_from (fuel : nat) (match_at : str -> option (str * str))
    (s : str) : list str :=
  match fuel with
  | O => []
  | S fuel' =>
      match s with
      | [] => []
      | _ :: s' =>
          match match_at s with
          | Some (g, rest) => g :: findall_from fuel' match_at rest
          | None => findall_from fuel' match_at s'
          end
      end
  end.

Definition re_findall (match_at : str -> option (str * str)) (s : str) : list str :=
  findall_from (S (length s)) match_at s.

(** The order [sorted] puts strings in: by code point, the shorter first. *)
Fixpoint str_leb (a b : str) : bool :=
  match a, b with
  | [], _ => true
  | _ :: _, [] => false
  | x :: a', y :: b' => (x <? y)%N || (x =? y)%N && str_leb a' b'
  end.

Definition str_le (a b : str) : Prop := str_leb a b = true.

#[global] Instance str_le_dec : RelDecision str_le.
Proof. intros a b. unfold str_le. apply _. Defined.

(** [sorted(out)] for a set of strings. *)
Definition sorted_strs (out : gset str) : list str :=
  merge_sort str_le (elements out).

(** [base_prefix == path or path.startswith(base_prefix + "/")]. *)
Definition under_prefix (base_prefix p : str) : bool :=
  str_eqb p base_prefix || startswith (base_prefix ++ lit "/") p.

Section Manifest.
Context (w : World).

(** One round of the loop over the candidates of
    [extract_urls_from_llms_txt]: the URL it adds to [out], if any. *)
Definition manifest_candidate (base_url base_host base_prefix raw : str)
  : res (option str) :=
  let u := strip_chars (lit ".,;:") (strip raw) in
  let absolute :=
    if startswith (lit "/") u
    then res_bind (urljoin w base_url u) (fun u => Ret (Some u))
    else if negb (startswith (lit "http://") u || startswith (lit "https://") u)
    then Ret None
    else Ret (Some u) in
  res_bind absolute (fun ou =>
  match ou with
  | None => Ret None
  | Some u =>
      match urlsplit w u with
      | Raise ValueError => Ret None
      | Raise e => Raise e
      | Ret parts =>
          if negb (str_eqb (netloc parts) base_host) then Ret None
          else if negb (under_prefix base_prefix (path parts)) then Ret None
          else Ret (Some (urlunsplit
                 (mkSplit (scheme parts) (netloc parts) (path parts)
                          (query parts) [])))
      end
  end).

Fixpoint manifest_scan (base_url base_host base_prefix : str)
    (candidates : list str) (out : gset str) : res (gset str) :=
  match candidates with
  | [] => Ret out
  | raw :: rest =>
      res_bind (manifest_candidate base_url base_host base_prefix raw) (fun o =>
      manifest_scan base_url base_host base_prefix rest
        (match o with Some u => {[u]} ∪ out | None => out end))
  end.

Definition extract_urls_from_llms_txt (text base_url : str) : res (list str) :=
  res_bind (urlsplit w base_url) (fun base =>
  let base_host := netloc base in
  let base_prefix :=
    let p := rstrip_chars (lit "/") (path base) in
    if str_eqb p [] then lit "/" else p in
  let candidates := re_findall md_link_at text ++ re_findall bare_url_at text in
  res_bind (manifest_scan base_url base_host base_prefix candidates ∅) (fun out =>
  Ret (sorted_strs out))).

(** The loop of [try_llms_files] over the candidate URLs. *)
Fixpoint try_llms_loop (candidates : list str) (seen : gset str)
    (found : Manifests) : M Manifests :=
  match candidates with
  | [] => ret found
  | u :: rest =>
      if bool_decide (u ∈ seen) then try_llms_loop rest seen found
      else
        let seen := {[u]} ∪ seen in
        let* r := fetch_default w u in
        match usable r with
        | None => try_llms_loop rest seen found
        | Some fr =>
            if negb (looks_textlike (fr_headers fr) (fr_body fr))
            then try_llms_loop rest seen found
            else
              let fname :=
                default [] (last (split_on (ch "/") (rstrip_chars (lit "/") u))) in
              match manifest_get fname found with
              | Some _ => try_llms_loop rest seen found
              | None => try_llms_loop rest seen (found ++ [(fname, fr)])
              end
        end
  end.

Definition try_llms_files (base_url : str) : M Manifests :=
  let* (root, base) := lift (split_root_and_base w base_url) in
  let under (prefix : str) := map (fun v => prefix ++ lit "/" ++ v) variants in
  let* pb := lift (urlsplit w base) in
  let candidates :=
    under base ++ under root
    ++ (if str_eqb (strip_chars (lit "/") (path pb)) []
        then under (root ++ lit "/docs") else []) in
  try_llms_loop candidates ∅ [].

End Manifest.

(* ===================================================================== *)
(** ** Navigation scrape *)
(* ===================================================================== *)

(** The fields of a [SidebarLinkParser]. *)
Record SidebarLinkParser := mkSb {
  sb_root : str;
  sb_base : str;
  sb_base_host : str;
  sb_base_path : str;
  sb_stack : list (str * gmap str str);
  sb_urls : list str;
  sb_seen : gset str;
  sb_ignore_depth : Z
}.

Module SidebarLinkParser.

Definition KEYWORDS : list str :=
  map lit ["sidebar"; "menu"; "nav"; "toc"; "docs"; "navigation"]%string.

(** [{k.lower(): (v or "") for k, v in attrs}]. *)
Definition attrs_dict (attrs : list (str * option str)) : gmap str str :=
  fold_left (fun d kv => <[lower (fst kv) := default [] (snd kv)]> d) attrs ∅.

(** [self._in_candidate()]. *)
Definition _in_candidate (p : SidebarLinkParser) : bool :=
  existsb (fun entry =>
    let '(tag, attrs) := entry in
    tag_in tag ["nav"; "aside"]%string
    || let cls := lower (headers_get attrs (lit "class")) in
       let _id := lower (headers_get attrs (lit "id")) in
       let blob := cls ++ lit " " ++ _id in
       existsb (fun k => contains k blob) KEYWORDS) (sb_stack p).

Section Navigation.
Context (w : World).

(** [SidebarLinkParser(root, base)]. *)
Definition init (root base : str) : res SidebarLinkParser :=
  res_bind (urlsplit w root) (fun pr =>
  res_bind (urlsplit w base) (fun pb =>
  Ret (mkSb root base (netloc pr) (rstrip_chars (lit "/") (path pb))
            [] [] ∅ 0))).

Definition handle_starttag (tag : str) (attrs : list (str * option str))
    (p : SidebarLinkParser) : res SidebarLinkParser :=
  let tag := lower tag in
  let attrs_dict := attrs_dict attrs in
  if tag_in tag ["script"; "style"; "noscript"]%string then
    Ret (mkSb (sb_root p) (sb_base p) (sb_base_host p) (sb_base_path p)
              (sb_stack p) (sb_urls p) (sb_seen p) (sb_ignore_depth p + 1))
  else if 0 <? sb_ignore_depth p then Ret p
  else
    let p := mkSb (sb_root p) (sb_base p) (sb_base_host p) (sb_base_path p)
                  (sb_stack p ++ [(tag, attrs_dict)]) (sb_urls p) (sb_seen p)
                  (sb_ignore_depth p) in
    if str_eqb tag (lit "a") && _in_candidate p then
      let href := strip (headers_get attrs_dict (lit "href")) in
      if str_eqb href [] || startswith (lit "#") href
         || startswith (lit "javascript:") (lower href)
      then Ret p
      else
        res_bind (if startswith (lit "/") href
                  then urljoin w (sb_root p) href
                  else urljoin w (sb_base p ++ lit "/") href) (fun href =>
        let href := normalize_url href in
        if str_eqb href [] then Ret p
        else
          res_bind (urlsplit w href) (fun ph =>
          if negb (str_eqb (netloc ph) (sb_base_host p)) then Ret p
          else if negb (str_eqb (sb_base_path p) [])
                  && negb (startswith (sb_base_path p) (path ph))
          then Ret p
          else if bool_decide (href ∈ sb_seen p) then Ret p
          else Ret (mkSb (sb_root p) (sb_base p) (sb_base_host p)
                         (sb_base_path p) (sb_stack p) (sb_urls p ++ [href])
                         ({[href]} ∪ sb_seen p) (sb_ignore_depth p))))
    else Ret p.

Definition handle_endtag (tag : str) (p : SidebarLinkParser)
  : SidebarLinkParser :=
  let tag := lower tag in
  if tag_in tag ["script"; "style"; "noscript"]%string then
    if 0 <? sb_ignore_depth p then
      mkSb (sb_root p) (sb_base p) (sb_base_host p) (sb_base_path p)
           (sb_stack p) (sb_urls p) (sb_seen p) (sb_ignore_depth p - 1)
    else p
  else if 0 <? sb_ignore_depth p then p
  else
    mkSb (sb_root p) (sb_base p) (sb_base_host p) (sb_base_path p)
         (removelast (sb_stack p)) (sb_urls p) (sb_seen p) (sb_ignore_depth p).

(** The handler calls of [feed], in order; the parser has no
    [handle_data]. *)
Fixpoint feed (events : list HtmlEvent) (p : SidebarLinkParser)
  : res SidebarLinkParser :=
  match events with
  | [] => Ret p
  | StartTag tag attrs :: rest =>
      res_bind (handle_starttag tag attrs p) (feed rest)
  | EndTag tag :: rest => feed rest (handle_endtag tag p)
  | Data _ :: rest => feed rest p
  end.

End Navigation.

End SidebarLinkParser.

(* ===================================================================== *)
(** ** Discovery *)
(* ===================================================================== *)

Section Discovery.
Context (w : World).

(** [discover_pages(base_url)]: the method, the pages, the manifests. *)
Definition discover_pages (base_url : str) : M (str * list str * Manifests) :=
  let* llms_files := try_llms_files w base_url in
  let* from_manifest :=
    match manifest_get (lit "llms.txt") llms_files with
    | Some fr =>
        let* text := lift (decode_bytes w (fr_body fr) (fr_headers fr)) in
        lift (extract_urls_from_llms_txt w text base_url)
    | None => ret []
    end in
  match from_manifest with
  | _ :: _ => ret (lit "llms.txt", from_manifest, llms_files)
  | [] =>
      let* urls := fetch_sitemap_urls w base_url in
      match urls with
      | _ :: _ => ret (lit "sitemap.xml", urls, llms_files)
      | [] =>
          let* (root, base) := lift (split_root_and_base w base_url) in
          let* r := fetch_default w base_url in
          let* from_nav :=
            match usable r with
            | Some fr =>
                let* html := lift (decode_bytes w (fr_body fr) (fr_headers fr)) in
                let* parser := lift (SidebarLinkParser.init w root base) in
                let* parser := lift (SidebarLinkParser.feed w (html_events w html) parser) in
                ret (sb_urls parser)
            | None => ret []
            end in
          match from_nav with
          | _ :: _ => ret (lit "sidebar/nav", from_nav, llms_files)
          | [] => ret (lit "ingen", [], llms_files)
          end
      end
  end.

End Discovery.

(* ===================================================================== *)
(** ** Integers as text *)
(* ===================================================================== *)

(** The zero digits of the decimal digit runs of Unicode 14: each is
    followed by its digits one to nine. *)
Definition decimal_zeros : list N :=
  [48; 1632; 1776; 1984; 2406; 2534; 2662; 2790; 2918; 3046; 3174; 3302;
   3430; 3558; 3664; 3792; 3872; 4160; 4240; 6112; 6160; 6470; 6608; 6784;
   6800; 6992; 7088; 7232; 7248; 42528; 43216; 43264; 43472; 43504; 43600;
   44016; 65296; 66720; 68912; 69734; 69872; 69942; 70096; 70384; 70736;
   70864; 71248; 71360; 71472; 71904; 72016; 72784; 73040; 73120; 92768;
   92864; 93008; 120782; 120792; 120802; 120812; 120822; 123200; 123632;
   125264; 130032]%N.

(** The value of a decimal digit character. *)
Definition digit_value (c : N) : option N :=
  match List.find (fun z => in_range z (z + 9) c) decimal_zeros with
  | Some z => Some (c - z)%N
  | None => None
  end.

(** The digits of an integer literal after its sign: digits, with single
    underscores between them. [acc] is the value so far, [count] the number
    of digits read, [after_digit] tells that the previous character was a
    digit. The result is the value and the number of digits. *)
Fixpoint int_digits (acc : N) (count : nat) (after_digit : bool) (s : str)
  : option (N * nat) :=
  match s with
  | [] => if after_digit then Some (acc, count) else None
  | c :: s' =>
      if (c =? ch "_")%N then
        if after_digit then int_digits acc count false s' else None
      else
        match digit_value c with
        | Some d => int_digits (acc * 10 + d) (S count) true s'
        | None => None
        end
  end.

(** [sys.get_int_max_str_digits()]. *)
Definition MAX_STR_DIGITS : nat := 4300.

(** [int(s)] for text without whitespace around it; [None] is
    a [ValueError]. *)
Definition py_int (s : str) : option Z :=
  let '(negative, digits) :=
    match s with
    | c :: s' =>
        if (c =? ch "-")%N then (true, s')
        else if (c =? ch "+")%N then (false, s')
        else (false, s)
    | [] => (false, s)
    end in
  match int_digits 0 0 false digits with
  | Some (v, count) =>
      if (MAX_STR_DIGITS <? count)%nat then None
      else Some (if negative then - Z.of_N v else Z.of_N v)
  | None => None
  end.

(** The decimal digits of [n] in front of [acc], with [fuel] rounds. *)
Fixpoint dec_digits (fuel : nat) (n : N) (acc : str) : str :=
  match fuel with
  | O => acc
  | S fuel' =>
      let acc' := (48 + n mod 10)%N :: acc in
      if (n <? 10)%N then acc' else dec_digits fuel' (n / 10) acc'
  end.

(** [str(n)] for a natural number and for an integer. *)
Definition str_of_N (n : N) : str :=
  dec_digits (S (N.to_nat (N.log2 n))) n [].

Definition str_of_Z (z : Z) : str :=
  if z <? 0 then ch "-" :: str_of_N (Z.to_N (- z)) else str_of_N (Z.to_N z).

(* ===================================================================== *)
(** ** Selection parsing *)
(* ===================================================================== *)

(** [for x in range(start, end + 1): if 1 <= x <= n: out.add(x)]. *)
Definition add_range (start stop n : Z) (out : gset Z) : gset Z :=
  list_to_set
    (filter (fun x => 1 <= x <= n) (seqZ start (stop + 1 - start)))
  ∪ out.

(** One round of the loop of [parse_selection] over the parts. *)
Definition selection_part (part : str) (n : Z) (out : gset Z) : gset Z :=
  let part := strip part in
  if str_eqb part [] then out
  else if in_chars part (ch "-") then
    match split_once (ch "-") part with
    | Some (a, b) =>
        match py_int (strip a), py_int (strip b) with
        | Some start, Some stop =>
            let '(start, stop) :=
              if stop <? start then (stop, start) else (start, stop) in
            add_range start stop n out
        | _, _ => out
        end
    | None => out
    end
  else
    match py_int part with
    | Some x => if (1 <=? x) && (x <=? n) then {[x]} ∪ out else out
    | None => out
    end.

(** [sorted(out)] for a set of integers. *)
Definition sorted_ints (out : gset Z) : list Z :=
  merge_sort Z.le (elements out).

Definition parse_selection (sel : str) (n : Z) : list Z :=
  let sel := strip sel in
  if str_eqb sel [] then []
  else
    sorted_ints
      (fold_left (fun out part => selection_part part n out)
                 (split_on (ch ",") sel) ∅).

(* ===================================================================== *)
(** ** Files *)
(* ===================================================================== *)

(** [p / name] for a relative name. *)
Definition path_join (p name : str) : str := p ++ lit "/" ++ name.

(** [ensure_dir(p)]: [p.mkdir(parents=True, exist_ok=True)]. A directory of
    [st_dirs] stands for its ancestors too. *)
Definition ensure_dir (p : str) : M str :=
  fun st => (Ret p, mkState (st_requests st) (st_sleeps st)
                            ({[p]} ∪ st_dirs st) (st_files st) (st_stdin st)).

Definition save_bytes (p : str) (data : bytes) : M unit :=
  fun st => (Ret tt, mkState (st_requests st) (st_sleeps st) (st_dirs st)
                             (<[p := data]> (st_files st)) (st_stdin st)).

(** [path.write_text(text, encoding="utf-8")]: the encoding is strict. *)
Definition save_text (p : str) (text : str) : M unit :=
  match utf8_encode_strict text with
  | Some data => save_bytes p data
  | None => raise ValueError
  end.

(** [bytes.decode("utf-8")], strict: the bytes are well formed exactly
    when encoding the lenient decoding gives them back. *)
Definition utf8_decode_strict (data : bytes) : option str :=
  let s := utf8_decode_replace data in
  match utf8_encode_strict s with
  | Some data' => if str_eqb data' data then Some s else None
  | None => None
  end.

(** [p.read_text(encoding="utf-8")]. *)
Definition read_text (p : str) : M str :=
  fun st =>
    match st_files st !! p with
    | Some data =>
        match utf8_decode_strict data with
        | Some s => (Ret s, st)
        | None => (Raise ValueError, st)
        end
    | None => (Raise OtherException, st)
    end.

(** [input(prompt)]: the next line of standard input. *)
Definition input : M str :=
  fun st =>
    match st_stdin st with
    | line :: rest =>
        (Ret line, mkState (st_requests st) (st_sleeps st) (st_dirs st)
                           (st_files st) rest)
    | [] => (Raise EOFError, st)
    end.

(* ===================================================================== *)
(** ** Download orchestrator *)
(* ===================================================================== *)

(** The citation line: a quote mark, the word for source, the URL. *)
Definition source_line (u : str) : str :=
  lit "> K" ++ [228%N] ++ lit "lla: " ++ u ++ NL ++ NL.

Section Orchestrator.
Context (w : World).

(** One round of the loop of [download_pages]: the path of the converted
    file, if the page was fetched. *)
Definition download_page (raw_dir md_dir : str) (delay : Q) (u : str)
  : M (option str) :=
  let* r := fetch_default w u in
  match usable r with
  | None => ret None
  | Some r =>
      let* slug := lift (url_to_page_slug w u) in
      let ctype := lower (headers_get (fr_headers r) (lit "Content-Type")) in
      let ext :=
        if contains (lit "text/markdown") ctype then lit ".md"
        else if contains (lit "text/plain") ctype then lit ".txt"
        else if contains (lit "application/json") ctype then lit ".json"
        else lit ".html" in
      let raw_path := path_join raw_dir (slug ++ ext) in
      save_bytes raw_path (fr_body r) ;;
      let* text := lift (decode_bytes w (fr_body r) (fr_headers r)) in
      let md_body :=
        if contains (lit "text/html") ctype || str_eqb ext (lit ".html")
        then html_to_markdownish w text
        else if endswith NL text then text else text ++ NL in
      let md := lit "# " ++ u ++ NL ++ source_line u ++ md_body in
      let md_path := path_join md_dir (slug ++ lit ".md") in
      save_text md_path md ;;
      sleep delay ;;
      ret (Some md_path)
  end.

Fixpoint download_loop (raw_dir md_dir : str) (delay : Q) (urls : list str)
  : M (list str) :=
  match urls with
  | [] => ret []
  | u :: rest =>
      let* here := download_page raw_dir md_dir delay u in
      let* more := download_loop raw_dir md_dir delay rest in
      ret (match here with Some p => p :: more | None => more end)
  end.

Definition download_pages (urls : list str) (out_dir : str) (delay : Q)
    (max_pages : Z) : M (list str) :=
  let urls := take (Z.to_nat max_pages) urls in
  let* raw_dir := ensure_dir (path_join out_dir (lit "raw")) in
  let* md_dir := ensure_dir (path_join out_dir (lit "md")) in
  download_loop raw_dir md_dir delay urls.

(** The loop of [build_combined]: the parts after the title. *)
Fixpoint combined_parts (md_paths : list str) : M (list str) :=
  match md_paths with
  | [] => ret []
  | p :: rest =>
      let* here :=
        try_except
          (let* t := read_text p in
           ret [t; NL ++ NL ++ lit "---" ++ NL ++ NL])
          (fun _ => ret []) in
      let* more := combined_parts rest in
      ret (here ++ more)
  end.

Definition build_combined (md_paths : list str) (out_path title : str)
  : M unit :=
  let* parts := combined_parts md_paths in
  save_text out_path (join ((lit "# " ++ title ++ NL ++ NL) :: parts)).

Definition write_llms_files (llms_files : Manifests) (out_dir : str) : M unit :=
  match llms_files with
  | [] => ret tt
  | _ :: _ =>
      let* llms_dir := ensure_dir (path_join out_dir (lit "llms")) in
      for_each llms_files (fun nf =>
        save_bytes (path_join llms_dir (fst nf)) (fr_body (snd nf)))
  end.

End Orchestrator.

(* ===================================================================== *)
(** ** Selection controller *)
(* ===================================================================== *)

Inductive Action : Type :=
| ActStart
| ActFullSingle
| ActAllPages
| ActSelectPages
| ActSkip.

(** [[pages[i - 1] for i in idxs]] for indices between 1 and the length. *)
Definition pick (pages : list str) (idxs : list Z) : list str :=
  omap (fun i => pages !! Z.to_nat (i - 1)) idxs.

Section Selection.
Context (w : World).

(** The [while True] loop of [choose_action]. Every round reads a line, so
    it ends (with a choice or with [EOFError]) within one round more than
    there are lines; [fuel] counts the rounds. *)
Fixpoint choose_loop (fuel : nat) (base_url : str) (pages : list str)
  : M (Action * list str) :=
  match fuel with
  | O => raise EOFError
  | S fuel' =>
      let* line := input in
      let choice := strip line in
      let has_pages := negb (Nat.eqb (length pages) 0) in
      if str_eqb choice (lit "1") then ret (ActStart, [base_url])
      else if str_eqb choice (lit "2")
      then ret (ActFullSingle, if has_pages then pages else [base_url])
      else if str_eqb choice (lit "3") && has_pages
      then ret (ActAllPages, pages)
      else if str_eqb choice (lit "4") && has_pages then
        let* line := input in
        let sel := strip line in
        let idxs := parse_selection sel (Z.of_nat (length pages)) in
        match pick pages idxs with
        | [] => choose_loop fuel' base_url pages
        | chosen => ret (ActSelectPages, chosen)
        end
      else if str_eqb choice (lit "5") && has_pages then
        let* line := input in
        let pattern := strip line in
        match re_compile w pattern with
        | None => choose_loop fuel' base_url pages
        | Some search =>
            match filter (fun u => search u = true) pages with
            | [] => choose_loop fuel' base_url pages
            | chosen => ret (ActSelectPages, chosen)
            end
        end
      else if str_eqb choice (lit "0") then ret (ActSkip, [])
      else choose_loop fuel' base_url pages
  end.

Definition choose_action (base_url method : str) (pages : list str)
    (llms_files : Manifests) : M (Action * list str) :=
  fun st => choose_loop (S (length (st_stdin st))) base_url pages st.

End Selection.

(* ===================================================================== *)
(** ** Run manifest *)
(* ===================================================================== *)

Definition hex_digit (n : N) : N :=
  if (n <? 10)%N then (48 + n)%N else (87 + n)%N.

(** One character inside a JSON string ([ensure_ascii=False]). *)
Definition json_escape_chr (c : N) : str :=
  if (c =? dquote)%N then [ch "\"; dquote]
  else if (c =? ch "\")%N then lit "\\"
  else if (c =? 10)%N then lit "\n"
  else if (c =? 13)%N then lit "\r"
  else if (c =? 9)%N then lit "\t"
  else if (c =? 8)%N then lit "\b"
  else if (c =? 12)%N then lit "\f"
  else if (c <? 32)%N then lit "\u00" ++ [hex_digit (c / 16); hex_digit (c mod 16)]
  else [c].

Definition json_string (s : str) : str :=
  [dquote] ++ flat_map json_escape_chr s ++ [dquote].

(** [json.dumps(meta, ensure_ascii=False, indent=2)] for the [meta]
    dictionary of [run_for_url]. *)
Definition meta_json (base_url method : str) (downloaded chosen ts : Z) : str :=
  let field (name value : str) := lit "  " ++ json_string name ++ lit ": " ++ value in
  lit "{" ++ NL
  ++ field (lit "base_url") (json_string base_url) ++ lit "," ++ NL
  ++ field (lit "discovery_method") (json_string method) ++ lit "," ++ NL
  ++ field (lit "downloaded_pages") (str_of_Z downloaded) ++ lit "," ++ NL
  ++ field (lit "chosen_urls_count") (str_of_Z chosen) ++ lit "," ++ NL
  ++ field (lit "timestamp_unix") (str_of_Z ts) ++ NL
  ++ lit "}".

(** [int(time.time())]. *)
Definition now (w : World) : M Z :=
  fun st => (Ret (unix_time w (length (st_requests st))), st).

(* ===================================================================== *)
(** ** Runs *)
(* ===================================================================== *)

Inductive Mode : Type :=
| ModeFull
| ModeAll
| ModeStart.

Section Runs.
Context (w : World).

(** [ensure_dir(Path.cwd() / f"docgrab__{slug_from_url(base_url)}")]. *)
Definition site_dir_of (base_url : str) : res str :=
  res_bind (slug_from_url w base_url) (fun slug =>
  Ret (path_join (cwd w) (lit "docgrab__" ++ slug))).

Definition run_for_url (base_url : str) : M unit :=
  let base_url := normalize_url base_url in
  if str_eqb base_url [] then ret tt
  else
    let* site_dir := lift (site_dir_of base_url) in
    let* site_dir := ensure_dir site_dir in
    let* (method, pages, llms_files) := discover_pages w base_url in
    write_llms_files llms_files site_dir ;;
    let* (action, chosen_urls) := choose_action w base_url method pages llms_files in
    match action with
    | ActSkip => ret tt
    | ActFullSingle =>
        match manifest_get (lit "llms-full.txt") llms_files with
        | Some fr =>
            save_bytes (path_join site_dir (lit "combined__llms-full.txt"))
                       (fr_body fr)
        | None =>
            let* md_paths :=
              download_pages w chosen_urls site_dir DELAY_SEC MAX_PAGES_DEFAULT in
            build_combined md_paths (path_join site_dir (lit "combined.md")) base_url
        end
    | _ =>
        let* md_paths :=
          download_pages w chosen_urls site_dir DELAY_SEC MAX_PAGES_DEFAULT in
        build_combined md_paths (path_join site_dir (lit "combined.md")) base_url ;;
        let* ts := now w in
        save_text (path_join site_dir (lit "meta.json"))
          (meta_json base_url method (Z.of_nat (length md_paths))
                     (Z.of_nat (length chosen_urls)) ts)
    end.

Definition run_for_url_auto (base_url : str) (mode : Mode) : M unit :=
  let base_url := normalize_url base_url in
  if str_eqb base_url [] then ret tt
  else
    let* site_dir := lift (site_dir_of base_url) in
    let* site_dir := ensure_dir site_dir in
    let* (method, pages, llms_files) := discover_pages w base_url in
    write_llms_files llms_files site_dir ;;
    match mode with
    | ModeFull =>
        match manifest_get (lit "llms-full.txt") llms_files with
        | Some fr =>
            save_bytes (path_join site_dir (lit "combined__llms-full.txt"))
                       (fr_body fr)
        | None =>
            match pages with
            | _ :: _ =>
                let* md_paths :=
                  download_pages w pages site_dir DELAY_SEC MAX_PAGES_DEFAULT in
                build_combined md_paths (path_join site_dir (lit "combined.md"))
                               base_url
            | [] =>
                let* md_paths :=
                  download_pages w [base_url] site_dir DELAY_SEC 1 in
                ret tt
            end
        end
    | ModeAll =>
        let chosen := match pages with _ :: _ => pages | [] => [base_url] end in
        let* md_paths :=
          download_pages w chosen site_dir DELAY_SEC MAX_PAGES_DEFAULT in
        build_combined md_paths (path_join site_dir (lit "combined.md")) base_url
    | ModeStart =>
        let* md_paths := download_pages w [base_url] site_dir DELAY_SEC 1 in
        ret tt
    end.

(** The interactive loop of [main]: a round reads a URL and runs it, and
    ends at an empty line or at the end of input. Every round reads a line;
    [fuel] counts the rounds. *)
Fixpoint prompt_loop (fuel : nat) : M unit :=
  match fuel with
  | O => ret tt
  | S fuel' =>
      let* u :=
        fun st =>
          match input st with
          | (Ret line, st') => (Ret (normalize_url line), st')
          | (Raise EOFError, st') => (Ret [], st')
          | (Raise e, st') => (Raise e, st')
          end in
      if str_eqb u [] then ret tt
      else run_for_url u ;; prompt_loop fuel'
  end.

(** [main()] for [sys.argv = argv]; the result is the exit status. *)
Definition main (argv : list str) : M Z :=
  let auto_mode := bool_decide (lit "--auto" ∈ argv) in
  let mode :=
    if bool_decide (lit "--all" ∈ argv) then ModeAll
    else if bool_decide (lit "--start" ∈ argv) then ModeStart
    else ModeFull in
  let args :=
    map normalize_url
      (filter (fun a => negb (str_eqb (normalize_url a) [])
                        && negb (startswith (lit "--") a) = true)
              (drop 1 argv)) in
  match args with
  | _ :: _ =>
      (if auto_mode
       then for_each args (fun u => run_for_url_auto u mode)
       else for_each args run_for_url) ;;
      ret 0
  | [] =>
      (fun st => prompt_loop (S (length (st_stdin st))) st) ;;
      ret 0
  end.

End Runs.

(* ===================================================================== *)
(** ** Sample worlds *)
(* ===================================================================== *)

(** The first value stored under a key in a table. *)
Fixpoint table_get {V} (key : str) (table : list (str * V)) : option V :=
  match table with
  | [] => None
  | (k, v) :: rest => if str_eqb k key then Some v else table_get key rest
  end.

(** A world given by tables: the bodies the server answers with (status
    200, no headers; any other URL is an HTTP error), the XML documents a
    body parses to, and the handler calls an HTML text leads to. No gzip,
    no codec beside UTF-8, no regular expression matches. *)
Definition table_world (pages : list (str * bytes))
    (xml_docs : list (bytes * Element))
    (html_docs : list (str * list HtmlEvent)) : World :=
  {| bracketed_netloc_ok := fun _ => false;
     nfkc_netloc_ok := fun _ => true;
     urljoin := fun _ _ => Raise ValueError;
     re_compile := fun _ => None;
     urlopen := fun _ url _ =>
       match table_get url pages with
       | Some body => Ret (mkResponse 200 ∅ body)
       | None => Raise HTTPError
       end;
     gzip_decompress := fun _ => None;
     codec_decode := fun _ _ => None;
     xml_fromstring := fun body => table_get body xml_docs;
     xml_fromstring_text := fun _ => None;
     html_events := fun html => default [] (table_get html html_docs);
     strip_layout_blocks := fun html => html;
     find_tag_bodies := fun _ _ => [];
     unix_time := fun _ => 1700000000;
     cwd := lit "/work" |}.

(** A world in which no request is answered. *)
Definition offline_world : World := table_world [] [] [].

(** A sitemap with one page. *)
Definition urlset_of (page : string) : string * Element :=
  (("<urlset><url><loc>" ++ page ++ "</loc></url></urlset>")%string,
   Elem (lit "urlset") None
     [Elem (lit "url") None [Elem (lit "loc") (Some (lit page)) []]]).

(** A site whose sitemap under [/docs] lists a page of the sibling
    directory [/docs-old]. *)
Definition sibling_world : World :=
  let '(body, doc) := urlset_of "https://example.com/docs-old/x" in
  table_world [(lit "https://example.com/docs/sitemap.xml", lit body)]
              [(lit body, doc)] [].

(** A site that answers the sitemap request under [/docs] with a page
    that is no XML, and has a sitemap at its root. *)
Definition soft404_world : World :=
  let '(body, doc) := urlset_of "https://example.com/docs/intro" in
  table_world
    [(lit "https://example.com/docs/sitemap.xml", lit "<html>Not found");
     (lit "https://example.com/sitemap.xml", lit body)]
    [(lit body, doc)] [].

(** A sitemap index with two members. *)
Definition sitemap_index_of (loc1 loc2 : string) : string * Element :=
  (("<sitemapindex><sitemap><loc>" ++ loc1 ++ "</loc></sitemap><sitemap><loc>"
    ++ loc2 ++ "</loc></sitemap></sitemapindex>")%string,
   Elem (lit "sitemapindex") None
     [Elem (lit "sitemap") None [Elem (lit "loc") (Some (lit loc1)) []];
      Elem (lit "sitemap") None [Elem (lit "loc") (Some (lit loc2)) []]]).

(** An index whose members are a leaf with one page and a document that is
    a sitemap index itself. *)
Definition nested_top : string * Element :=
  sitemap_index_of "https://example.com/a.xml" "https://example.com/nested.xml".

(** The site of that index: the nested index points to two more
    documents, each with a page of its own. *)
Definition nested_index_world : World :=
  let '(top, top_doc) := nested_top in
  let '(nested, nested_doc) :=
    sitemap_index_of "https://example.com/deep.xml"
                     "https://example.com/deeper.xml" in
  let '(leaf, leaf_doc) := urlset_of "https://example.com/page-a" in
  let '(deep, deep_doc) := urlset_of "https://example.com/page-deep" in
  table_world
    [(lit "https://example.com/sitemap.xml", lit top);
     (lit "https://example.com/a.xml", lit leaf);
     (lit "https://example.com/nested.xml", lit nested);
     (lit "https://example.com/deep.xml", lit deep);
     (lit "https://example.com/deeper.xml", lit deep)]
    [(lit top, top_doc); (lit leaf, leaf_doc); (lit nested, nested_doc);
     (lit deep, deep_doc)] [].

(** The handler calls for [<h2>Hello <em>world</em></h2>]. *)
Definition split_heading : list HtmlEvent :=
  [StartTag (lit "h2") []; Data (lit "Hello "); StartTag (lit "em") [];
   Data (lit "world"); EndTag (lit "em"); EndTag (lit "h2")].

(** A world whose parser delivers those calls for that text. *)
Definition heading_world : World :=
  table_world [] [] [(lit "<h2>Hello <em>world</em></h2>", split_heading)].

(** The site of [soft404_world] without the page that is no XML. *)
Definition root_sitemap_world : World :=
  let '(body, doc) := urlset_of "https://example.com/docs/intro" in
  table_world [(lit "https://example.com/sitemap.xml", lit body)]
              [(lit body, doc)] [].

(** The handler calls for a page whose navigation links to the sibling
    directory: [<nav><a href="/docs-old/x">Old</a></nav>]. *)
Definition sibling_nav : list HtmlEvent :=
  [StartTag (lit "nav") [];
   StartTag (lit "a") [(lit "href", Some (lit "/docs-old/x"))];
   Data (lit "Old"); EndTag (lit "a"); EndTag (lit "nav")].

(** A world that joins that link to the root of the site. *)
Definition nav_world : World :=
  {| bracketed_netloc_ok := fun _ => false;
     nfkc_netloc_ok := fun _ => true;
     urljoin := fun base url =>
       if str_eqb url (lit "/docs-old/x")
          && (str_eqb base (lit "https://example.com")
              || str_eqb base (lit "https://example.com/docs"))
       then Ret (lit "https://example.com/docs-old/x")
       else Raise ValueError;
     re_compile := fun _ => None;
     urlopen := fun _ _ _ => Raise HTTPError;
     gzip_decompress := fun _ => None;
     codec_decode := fun _ _ => None;
     xml_fromstring := fun _ => None;
     xml_fromstring_text := fun _ => None;
     html_events := fun _ => sibling_nav;
     strip_layout_blocks := fun html => html;
     find_tag_bodies := fun _ _ => [];
     unix_time := fun _ => 1700000000;
     cwd := lit "/work" |}.

(** The text of a range token: [str(a) + "-" + str(b)]. *)
Definition range_token (a b : Z) : str := str_of_Z a ++ lit "-" ++ str_of_Z b.


(* ===================================================================== *)
(** ** Vocabulary of the statements *)
(* ===================================================================== *)

(** The world raises nothing but [Exception]s from a request: no
    interrupt arrives while the script waits for the network. *)
Definition only_exceptions (w : World) : Prop :=
  forall n url timeout e, urlopen w n url timeout = Raise e -> is_Exception e = true.

(** The attempts numbered from [first] on, [count] of them, all for [url]:
    every one of them raises. *)
Definition all_fail (w : World) (first count : nat) (url : str) (timeout : Z)
  : Prop :=
  forall i, (i < count)%nat ->
    exists e, urlopen w (first + i) url timeout = Raise e.

(** The waiting time after the failed attempt with the (one-based) number
    [k]: [0.4 s] times [k]. *)
Definition backoff_of_attempt_number (k : Z) : Q := (4 # 10) * inject_Z k.

(** The number a string of ASCII digits stands for. *)
Definition digits_value (ds : str) : N :=
  fold_left (fun acc c => acc * 10 + (c - 48))%N ds 0%N.

(** The characters of the decimal text of an integer: the ASCII digits and
    the minus sign. *)
Definition is_token_char (c : N) : bool := is_ascii_digit c || (c =? 45)%N.

(** The world answers a request the same way whenever it is made. *)
Definition static_world (w : World) : Prop :=
  forall n m url timeout, urlopen w n url timeout = urlopen w m url timeout.

(** Between two states only requests were made (and their backoff
    sleeps), all for URLs that satisfy [P]; directories, files and input
    are as before. *)
Definition only_requests (P : str -> Prop) (st st' : State) : Prop :=
  (exists extra,
     st_requests st' = st_requests st ++ extra
     /\ Forall (fun req => P (fst req)) extra)
  /\ st_dirs st' = st_dirs st
  /\ st_files st' = st_files st
  /\ st_stdin st' = st_stdin st.

(** The text [decode_bytes] stands for, in the words of its contract: the
    declared charset when there is one and its codec decodes the body,
    UTF-8 with replacement characters otherwise. *)
Definition decoded_text (w : World) (body : bytes) (headers : gmap str str) : str :=
  match search_charset (headers_get headers (lit "Content-Type")) with
  | Some g =>
      match codec_decode w (strip g) body with
      | Some declared => declared
      | None => utf8_decode_replace body
      end
  | None => utf8_decode_replace body
  end.

(** What a request for [url] gives in a static world that raises only
    [Exception]s: the response read, or nothing. *)
Definition static_fetch (w : World) (url : str) : option FetchResult :=
  match urlopen w 0 url TIMEOUT_SEC with
  | Ret resp => Some (read_response w url resp)
  | Raise _ => None
  end.

(** What one round of the loop over the members of an index computes in
    a static world that raises only [Exception]s: the value of
    [sub_sitemap_locs], without its requests. *)
Definition static_sub_locs (w : World) (ns : str) (sm : Element) : list str :=
  let loc := get_loc ns sm in
  if str_eqb loc [] then []
  else
    match usable (static_fetch w loc) with
    | Some fr =>
        match xml_fromstring w
                (utf8_encode_ignore (decoded_text w (fr_body fr) (fr_headers fr)))
        with
        | Some leaf => url_locs (ns_of leaf) leaf
        | None => []
        end
    | None => []
    end.

(** *** Sitemaps in the words of the sitemap protocol *)

(** Clark notation, as ElementTree writes a tag: [{uri}local] for an
    element in the namespace [uri], [local] alone for an element in none.
    [ns] is the part in braces, empty without a namespace. *)
Definition in_namespace (ns tag : str) : Prop :=
  exists local,
    tag = ns ++ local
    /\ ((ns = [] /\ head local <> Some (ch "{"))
        \/ exists uri,
             ns = ch "{" :: uri ++ [ch "}"]
             /\ Forall (fun c => c <> ch "}") uri).

(** The parser names the root of every document in Clark notation. *)
Definition clark_documents (w : World) : Prop :=
  forall body doc,
    xml_fromstring w body = Some doc -> exists ns, in_namespace ns (el_tag doc).

(** [c] is the first child of [e] with the tag [tag]. *)
Definition first_child (tag : str) (e c : Element) : Prop :=
  exists before after,
    el_children e = before ++ c :: after
    /\ el_tag c = tag
    /\ Forall (fun b => el_tag b <> tag) before.

(** [u] is the location of a member of the index [index]: the text,
    without the whitespace around it and not empty, of the [<loc>] of a
    [<sitemap>] child. *)
Definition member_loc (ns : str) (index : Element) (u : str) : Prop :=
  exists sm loc text,
    sm ∈ el_children index /\ el_tag sm = ns ++ lit "sitemap"
    /\ first_child (ns ++ lit "loc") sm loc
    /\ el_text loc = Some text /\ u = strip text /\ u <> [].

(** [t] is a [<url><loc>] entry of the document [doc]: the text, without
    the whitespace around it, of the [<loc>] of a [<url>] child, both in
    the namespace of the document. *)
Definition url_entry (doc : Element) (t : str) : Prop :=
  exists ns uel loc text,
    in_namespace ns (el_tag doc)
    /\ uel ∈ el_children doc /\ el_tag uel = ns ++ lit "url"
    /\ first_child (ns ++ lit "loc") uel loc
    /\ el_text loc = Some text /\ text <> [] /\ t = strip text.

(** The sitemap document at [u]: the request is answered with status 200
    and a body that is not empty, and the text of the body parses to
    [doc]. *)
Definition sitemap_at (w : World) (u : str) (doc : Element) : Prop :=
  exists resp,
    urlopen w 0 u TIMEOUT_SEC = Ret resp
    /\ fr_status (read_response w u resp) = 200
    /\ fr_body (read_response w u resp) <> []
    /\ xml_fromstring w
         (utf8_encode_ignore
            (decoded_text w (fr_body (read_response w u resp))
                          (fr_headers (read_response w u resp))))
       = Some doc.

(** A document is a sitemap index in the namespace [ns]. *)
Definition sitemap_index (ns : str) (doc : Element) : Prop :=
  in_namespace ns (el_tag doc) /\ el_tag doc = ns ++ lit "sitemapindex".

(** The namespace of the sitemap protocol, in Clark notation. *)
Definition sitemap_ns : string := "{http://www.sitemaps.org/schemas/sitemap/0.9}".

(** A sitemap with one page and a sitemap index with two members, both in
    the namespace of the protocol. *)
Definition ns_urlset_of (page : string) : string * Element :=
  (("<urlset xmlns=...><url><loc>" ++ page ++ "</loc></url></urlset>")%string,
   Elem (lit (sitemap_ns ++ "urlset")) None
     [Elem (lit (sitemap_ns ++ "url")) None
        [Elem (lit (sitemap_ns ++ "loc")) (Some (lit page)) []]]).
Definition ns_sitemap_index_of (loc1 loc2 : string) : string * Element :=
  (("<sitemapindex xmlns=...><sitemap><loc>" ++ loc1
    ++ "</loc></sitemap><sitemap><loc>" ++ loc2
    ++ "</loc></sitemap></sitemapindex>")%string,
   Elem (lit (sitemap_ns ++ "sitemapindex")) None
     [Elem (lit (sitemap_ns ++ "sitemap")) None
        [Elem (lit (sitemap_ns ++ "loc")) (Some (lit loc1)) []];
      Elem (lit (sitemap_ns ++ "sitemap")) None
        [Elem (lit (sitemap_ns ++ "loc")) (Some (lit loc2)) []]]).

(** The site of [nested_index_world] with every document in the namespace
    of the protocol: an index whose members are a leaf with one page and
    a document that is a sitemap index itself. *)
Definition ns_nested_top : string * Element :=
  ns_sitemap_index_of "https://example.com/a.xml"
                      "https://example.com/nested.xml".
Definition ns_nested_docs : list (bytes * Element) :=
  let '(top, top_doc) := ns_nested_top in
  let '(nested, nested_doc) :=
    ns_sitemap_index_of "https://example.com/deep.xml"
                        "https://example.com/deeper.xml" in
  let '(leaf, leaf_doc) := ns_urlset_of "https://example.com/page-a" in
  let '(deep, deep_doc) := ns_urlset_of "https://example.com/page-deep" in
  [(lit top, top_doc); (lit leaf, leaf_doc); (lit nested, nested_doc);
   (lit deep, deep_doc)].
Definition ns_nested_index_world : World :=
  let '(top, _) := ns_nested_top in
  let '(nested, _) :=
    ns_sitemap_index_of "https://example.com/deep.xml"
                        "https://example.com/deeper.xml" in
  let '(leaf, _) := ns_urlset_of "https://example.com/page-a" in
  let '(deep, _) := ns_urlset_of "https://example.com/page-deep" in
  table_world
    [(lit "https://example.com/sitemap.xml", lit top);
     (lit "https://example.com/a.xml", lit leaf);
     (lit "https://example.com/nested.xml", lit nested);
     (lit "https://example.com/deep.xml", lit deep);
     (lit "https://example.com/deeper.xml", lit deep)]
    ns_nested_docs [].

(** The command line of a run over two targets, and their directories. *)
Definition two_targets (flags : list str) : list str :=
  [lit "docgrab.py"] ++ flags ++ [lit "https://a.example/docs"; lit "b.example"].
Definition dir_a : str := lit "/work/docgrab__a.example__docs".
Definition dir_b : str := lit "/work/docgrab__b.example".

(** With no request answered, the run with these flags ends with status 0
    and has made both directories, and neither holds a [meta.json]. *)
Definition runs_without_manifest (flags : list str) : Prop :=
  exists st',
    main offline_world (two_targets flags) (init_state []) = (Ret 0, st')
    /\ dir_a ∈ st_dirs st' /\ dir_b ∈ st_dirs st'
    /\ st_files st' !! path_join dir_a (lit "meta.json") = None
    /\ st_files st' !! path_join dir_b (lit "meta.json") = None.

(** A character that the normaliser leaves at the end of a text: neither
    whitespace nor a quote. *)
Definition is_plain (c : N) : bool := negb (is_space c || in_chars quotes c).

(** The cleaning steps at the head of [normalize_url]. *)
Definition clean_url (raw : str) : str :=
  rstrip_chars quotes (strip_chars quotes (strip (strip raw))).

(** A computation writes no file but those whose path satisfies [P]. *)
Definition writes_only {A} (P : str -> Prop) (m : M A) : Prop :=
  forall st r st', m st = (r, st') ->
    forall p, ~ P p -> st_files st' !! p = st_files st !! p.

(** The files a non-interactive run may write for a target with the
    directory [site]. *)
Definition auto_output (site p : str) : Prop :=
  (exists x, p = path_join (path_join site (lit "llms")) x)
  \/ (exists x, p = path_join (path_join site (lit "raw")) x)
  \/ (exists x, p = path_join (path_join site (lit "md")) x)
  \/ p = path_join site (lit "combined.md")
  \/ p = path_join site (lit "combined__llms-full.txt").

(* ===================================================================== *)
(** ** Vocabulary of the further properties *)
(* ===================================================================== *)

(** The text in front of the first [sep], and all of the text when there
    is none: [s.split(sep, 1)[0]]. *)
Definition text_before (sep : N) (s : str) : str :=
  match split_once sep s with
  | Some (a, _) => a
  | None => s
  end.

(** A handler call that neither opens nor closes a [script], [style] or
    [noscript] element. *)
Definition outside_ignored (ev : HtmlEvent) : bool :=
  match ev with
  | StartTag tag _ | EndTag tag =>
      negb (tag_in (lower tag) MarkdownishParser.IGNORE_TAGS)
  | Data _ => true
  end.

(** A computation that works over the network alone: it leaves the
    directories, the files and the input as they are, and the requests and
    sleeps it makes come after those made before. *)
Definition network_only {A} (m : M A) : Prop :=
  forall st r st', m st = (r, st') ->
    st_dirs st' = st_dirs st /\ st_files st' = st_files st
    /\ st_stdin st' = st_stdin st
    /\ st_requests st `prefix_of` st_requests st'
    /\ st_sleeps st `prefix_of` st_sleeps st'.

(** Every value a computation returns satisfies [Q], whatever the state
    it starts from. *)
Definition returns {A} (m : M A) (Q : A -> Prop) : Prop :=
  forall st a st', m st = (Ret a, st') -> Q a.

(** No request is ever answered: every call of [urlopen] raises an
    [Exception]. *)
Definition unreachable (w : World) : Prop :=
  forall n url timeout,
    exists e, urlopen w n url timeout = Raise e /\ is_Exception e = true.

(** A computation that returns [a], whatever the state it starts from. *)
Definition yields {A} (m : M A) (a : A) : Prop :=
  forall st, exists st', m st = (Ret a, st').

(** What the manifest probe keeps of an answer: it has the name of a
    variant, status 200, a body that is not empty, and it looks like
    text. *)
Definition kept_manifest (nf : str * FetchResult) : Prop :=
  fst nf ∈ variants
  /\ fr_status (snd nf) = 200
  /\ fr_body (snd nf) <> []
  /\ looks_textlike (fr_headers (snd nf)) (fr_body (snd nf)) = true.

(** A candidate URL of the manifest probe: a prefix, a slash and the name
    of a variant. *)
Definition made_from_variant (u : str) : Prop :=
  exists prefix v, v ∈ variants /\ u = prefix ++ lit "/" ++ v.

(** The strict order of [sorted] on strings. *)
Definition str_lt (a b : str) : Prop := str_le a b /\ a <> b.

(** The path prefix [extract_urls_from_llms_txt] filters by:
    [base.path.rstrip("/") or "/"]. *)
Definition base_prefix_of (base : SplitResult) : str :=
  let p := rstrip_chars (lit "/") (path base) in
  if str_eqb p [] then lit "/" else p.

(** What the manifest scan lets through for a base: a URL that
    [urlsplit] splits into parts without a fragment, with the host of the
    base and with a path that is the prefix or extends it at a slash. *)
Definition manifest_page (w : World) (base : SplitResult) (u : str) : Prop :=
  exists pu,
    urlsplit w u = Ret pu
    /\ fragment pu = []
    /\ netloc pu = netloc base
    /\ (path pu = base_prefix_of base
        \/ startswith (base_prefix_of base ++ lit "/") (path pu) = true).

(** A world without network whose [urljoin] puts a path that starts with
    a slash behind [https://example.com]. *)
Definition example_com_world : World :=
  {| bracketed_netloc_ok := fun _ => false;
     nfkc_netloc_ok := fun _ => true;
     urljoin := fun _ u => Ret (lit "https://example.com" ++ u);
     re_compile := fun _ => None;
     urlopen := fun _ _ _ => Raise HTTPError;
     gzip_decompress := fun _ => None;
     codec_decode := fun _ _ => None;
     xml_fromstring := fun _ => None;
     xml_fromstring_text := fun _ => None;
     html_events := fun _ => [];
     strip_layout_blocks := fun html => html;
     find_tag_bodies := fun _ _ => [];
     unix_time := fun _ => 0;
     cwd := lit "/work" |}.

(** A manifest with a relative link, two bare URLs under [/docs] (one
    with a fragment, one followed by a full stop) and a bare URL of the
    sibling directory [/docs-old]. *)
Definition sample_manifest : str :=
  lit "See [intro](/docs/intro), https://example.com/docs/b#top, "
  ++ lit "https://example.com/docs/a. and https://example.com/docs-old/x".

(** A page of the sitemap probe or of the navigation scrape: a normal
    form of the URL normaliser that is not empty and names the host
    [host]. *)
Definition normal_page (w : World) (host u : str) : Prop :=
  u <> []
  /\ (exists raw, u = normalize_url raw)
  /\ exists pu, urlsplit w u = Ret pu /\ netloc pu = host.

(** A start tag that makes what is inside it a candidate for navigation
    links: a [nav] or [aside] element, or an element whose class or id
    holds one of the keywords. *)
Definition opens_navigation (ev : HtmlEvent) : bool :=
  match ev with
  | StartTag tag attrs =>
      let attrs := SidebarLinkParser.attrs_dict attrs in
      tag_in (lower tag) ["nav"; "aside"]%string
      || let cls := lower (headers_get attrs (lit "class")) in
         let _id := lower (headers_get attrs (lit "id")) in
         let blob := cls ++ lit " " ++ _id in
         existsb (fun k => contains k blob) SidebarLinkParser.KEYWORDS
  | _ => false
  end.

(** What the handlers of the link parser keep: the links are all
    different, the set of links seen is the set of links collected, and
    each link is a page on the host of the root. *)
Definition links_invariant (w : World) (p : SidebarLinkParser) : Prop :=
  NoDup (sb_urls p)
  /\ (forall u, u ∈ sb_seen p <-> u ∈ sb_urls p)
  /\ Forall (normal_page w (sb_base_host p)) (sb_urls p).

(** The handler calls for a page whose only link is outside any
    navigation: [<div class="content"><a href="/docs/x">x</a></div>]. *)
Definition plain_link : list HtmlEvent :=
  [StartTag (lit "div") [(lit "class", Some (lit "content"))];
   StartTag (lit "a") [(lit "href", Some (lit "/docs/x"))];
   Data (lit "x"); EndTag (lit "a"); EndTag (lit "div")].

(** The link parser for the root [https://example.com] and the base
    [https://example.com/docs], as [__init__] leaves it. *)
Definition docs_link_parser : SidebarLinkParser :=
  mkSb (lit "https://example.com") (lit "https://example.com/docs")
       (lit "example.com") (lit "/docs") [] [] ∅ 0.

(** The state after a file has been written. *)
Definition with_file (p : str) (data : bytes) (st : State) : State :=
  mkState (st_requests st) (st_sleeps st) (st_dirs st)
          (<[p := data]> (st_files st)) (st_stdin st).

(** The text of the file [p]: [None] when there is no such file or when
    it is not well-formed UTF-8. *)
Definition file_text (st : State) (p : str) : option str :=
  match st_files st !! p with
  | Some data => utf8_decode_strict data
  | None => None
  end.

(** The separator [build_combined] puts behind every page. *)
Definition page_separator : str := NL ++ NL ++ lit "---" ++ NL ++ NL.

(** The combined document: the title line, then every page that can be
    read, in the order of the paths, each followed by the separator. *)
Definition combined_text (st : State) (title : str) (md_paths : list str) : str :=
  lit "# " ++ title ++ NL ++ NL
  ++ flat_map (fun p =>
                 match file_text st p with
                 | Some t => t ++ page_separator
                 | None => []
                 end) md_paths.

(** The head of a converted page: the URL as a heading, then the line
    that names the source. *)
Definition page_head (u : str) : str := lit "# " ++ u ++ NL ++ source_line u.

(** The file [p] holds the converted page of one of [urls]: it is text
    that starts with the head for that URL. *)
Definition holds_page (urls : list str) (st : State) (p : str) : Prop :=
  exists u text,
    u ∈ urls /\ file_text st p = Some text /\ page_head u `prefix_of` text.

(** What the menu may answer for the pages [pages]: the start page alone,
    all pages (the start page when there are none), all pages of a list
    that is not empty, a selection that is not empty and keeps the order
    of the pages, or nothing. *)
Definition choice_ok (base_url : str) (pages : list str)
    (r : Action * list str) : Prop :=
  match fst r with
  | ActStart => snd r = [base_url]
  | ActFullSingle =>
      snd r = match pages with [] => [base_url] | _ :: _ => pages end
  | ActAllPages => pages <> [] /\ snd r = pages
  | ActSelectPages => snd r <> [] /\ snd r `sublist_of` pages
  | ActSkip => snd r = []
  end.

(** A computation that does nothing but read input: requests, sleeps,
    directories and files stay, and what is left of the input is the end
    of what was there. *)
Definition reads_input_only (st st' : State) : Prop :=
  st_requests st' = st_requests st /\ st_sleeps st' = st_sleeps st
  /\ st_dirs st' = st_dirs st /\ st_files st' = st_files st
  /\ st_stdin st' `suffix_of` st_stdin st.

(** A path inside the directory [dir]. *)
Definition inside (dir p : str) : Prop := exists x, p = path_join dir x.

(** The state after a directory has been made. *)
Definition with_dir (d : str) (st : State) : State :=
  mkState (st_requests st) (st_sleeps st) ({[d]} ∪ st_dirs st)
          (st_files st) (st_stdin st).

(** A site that serves an [llms-full.txt] under [/docs] and nothing
    else. *)
Definition full_manifest_world : World :=
  table_world [(lit "https://a.example/docs/llms-full.txt", lit "FULL")] [] [].

(** The flags [main] knows. *)
Definition known_flags : list str := [lit "--auto"; lit "--all"; lit "--start"].

(** A site whose root serves an [llms.txt]. *)
Definition manifest_world : World :=
  table_world [(lit "https://a.example/llms.txt", lit "# Docs")] [] [].

(** A site that serves the page [/docs] and nothing else, and two URLs
    of it, the second one missing. *)
Definition one_page_world : World :=
  table_world [(lit "https://a.example/docs", lit "<p>hi</p>")] [] [].
Definition two_urls : list str :=
  [lit "https://a.example/docs"; lit "https://a.example/gone"].

(** A manifest with a page under [/docs], the root of the site, and a
    path that starts with two slashes. *)
Definition root_manifest : str :=
  lit "[a](https://example.com/docs/intro) https://example.com/ "
  ++ lit "https://example.com//x".

(** A site whose [llms.txt] under [/docs] names one page. *)
Definition listed_page_world : World :=
  table_world [(lit "https://example.com/docs/llms.txt",
                lit "https://example.com/docs/a")] [] [].

(** A text without carriage return: text mode reads it as it was
    written. *)
Definition no_cr (t : str) : Prop := in_chars t 13%N = false.

(** A state with one converted page on disk. *)
Definition one_file_state : State :=
  with_file (lit "/work/site/md/a.md") (lit "# a" ++ NL) (init_state []).
(* ===================================================================== *)
(** ** Properties *)
(* ===================================================================== *)

#[local] Arguments lit : simpl never.
#[local] Arguments ch : simpl never.

(* ===================================================================== *)
(** ** Stripping lemmas *)
(* ===================================================================== *)

Lemma str_eqb_eq (a b : str) : str_eqb a b = true <-> a = b.
Proof.
  revert b. induction a as [|x a IH]; intros [|y b]; simpl; try easy.
  rewrite andb_true_iff, N.eqb_eq, IH. split.
  - intros [-> ->]. reflexivity.
  - intros H. injection H as -> ->. auto.
Qed.

Lemma str_eqb_nil (a : str) : str_eqb a [] = true <-> a = [].
Proof. apply str_eqb_eq. Qed.

Lemma str_eqb_refl (a : str) : str_eqb a a = true.
Proof. apply str_eqb_eq. reflexivity. Qed.

Lemma rstrip_by_last (p : N -> bool) (s : str) (c : N) :
  last (rstrip_by p s) = Some c -> p c = false.
Proof.
  induction s as [|x s IH]; simpl; [discriminate|].
  destruct (rstrip_by p s) as [|y r] eqn:E.
  - destruct (p x) eqn:Px; simpl; [discriminate|]. intros [= <-]. exact Px.
  - intros H. apply IH. exact H.
Qed.

Lemma rstrip_by_id (p : N -> bool) (s : str) :
  (forall c, last s = Some c -> p c = false) -> rstrip_by p s = s.
Proof.
  induction s as [|x s IH]; simpl; intros H; [reflexivity|].
  destruct s as [|y s'].
  - simpl. rewrite (H x eq_refl). reflexivity.
  - rewrite IH by (intros c Hc; apply H; exact Hc).
    reflexivity.
Qed.

Lemma lstrip_by_id (p : N -> bool) (s : str) :
  (forall c, head s = Some c -> p c = false) -> lstrip_by p s = s.
Proof.
  destruct s as [|x s]; simpl; intros H; [reflexivity|].
  rewrite (H x eq_refl). reflexivity.
Qed.

Lemma strip_by_id (p : N -> bool) (s : str) :
  (forall c, head s = Some c -> p c = false) ->
  (forall c, last s = Some c -> p c = false) ->
  strip_by p s = s.
Proof.
  intros Hh Hl. unfold strip_by. rewrite lstrip_by_id by exact Hh.
  apply rstrip_by_id. exact Hl.
Qed.

(** What [rstrip] returns is a prefix of its argument. *)
Lemma rstrip_by_prefix (p : N -> bool) (s : str) :
  exists t, s = rstrip_by p s ++ t.
Proof.
  induction s as [|x s [t IH]]; simpl.
  - exists []. reflexivity.
  - destruct (rstrip_by p s) as [|y r] eqn:E.
    + destruct (p x).
      * exists (x :: s). reflexivity.
      * exists s. reflexivity.
    + exists t. simpl. f_equal. exact IH.
Qed.

Lemma rstrip_by_head (p : N -> bool) (s : str) (c : N) :
  head (rstrip_by p s) = Some c -> head s = Some c.
Proof.
  destruct (rstrip_by_prefix p s) as [t Ht].
  destruct (rstrip_by p s) as [|y r]; simpl; [discriminate|].
  intros [= ->]. rewrite Ht. reflexivity.
Qed.

(** [rstrip] leaves a text in place as long as a character that stays is
    in front of the part it trims. *)
Lemma rstrip_by_cons_keep (p : N -> bool) (x : N) (s : str) :
  p x = false -> rstrip_by p (x :: s) = x :: rstrip_by p s.
Proof.
  intros Px. simpl. destruct (rstrip_by p s); [rewrite Px|]; reflexivity.
Qed.

(* ===================================================================== *)
(** ** URL normaliser: idempotence *)
(* ===================================================================== *)

Lemma startswith_ci_head (p : str) (x : N) (s : str) (c : N) :
  startswith_ci (x :: p) s = true -> head s = Some c -> ci_eqb x c = true.
Proof.
  destruct s as [|y s]; simpl; [discriminate|].
  rewrite andb_true_iff. intros [H _] [= <-]. exact H.
Qed.

(** A text with an http(s) scheme starts with a letter h, which is
    neither whitespace nor a quote. *)
Lemma has_http_scheme_head (s : str) (c : N) :
  has_http_scheme s = true -> head s = Some c ->
  is_space c = false /\ in_chars quotes c = false.
Proof.
  unfold has_http_scheme. rewrite orb_true_iff. intros H Hc.
  assert (Hh : ci_eqb 104 c = true).
  { destruct H as [H|H].
    - change (lit "http://") with (104%N :: lit "ttp://") in H.
      exact (startswith_ci_head _ _ _ _ H Hc).
    - change (lit "https://") with (104%N :: lit "ttps://") in H.
      exact (startswith_ci_head _ _ _ _ H Hc). }
  assert (Hcases : c = 104%N \/ c = 72%N).
  { unfold ci_eqb in Hh. rewrite !orb_true_iff, !andb_true_iff in Hh.
    rewrite !N.eqb_eq in Hh.
    destruct Hh as [[[[Hh|[_ Hh]]|[Hh _]]|[Hh _]]|[Hh _]];
      [left; lia | right; lia | discriminate | discriminate | discriminate]. }
  destruct Hcases as [-> | ->]; split; reflexivity.
Qed.

Lemma has_http_scheme_nonempty (s : str) :
  has_http_scheme s = true -> s <> [].
Proof. intros H ->. discriminate H. Qed.

(** The normal form never ends in a slash. *)
Lemma normalize_url_last (u : str) (c : N) :
  last (normalize_url u) = Some c -> in_chars (lit "/") c = false.
Proof.
  unfold normalize_url.
  destruct (str_eqb _ []); [discriminate|].
  apply rstrip_by_last.
Qed.

(** A text that has a scheme, ends neither in whitespace, nor in a quote,
    nor in a slash, is a fixed point of the normaliser. *)
Lemma normalize_url_fixed (r : str) :
  has_http_scheme r = true ->
  (forall c, last r = Some c ->
     is_space c = false /\ in_chars quotes c = false
     /\ in_chars (lit "/") c = false) ->
  normalize_url r = r.
Proof.
  intros Hs Hl.
  assert (Hstrip : strip r = r).
  { apply strip_by_id.
    - intros c Hc. apply (has_http_scheme_head r c Hs Hc).
    - intros c Hc. apply (Hl c Hc). }
  assert (Hq : strip_chars quotes r = r).
  { apply strip_by_id.
    - intros c Hc. apply (has_http_scheme_head r c Hs Hc).
    - intros c Hc. apply (Hl c Hc). }
  assert (Hrq : rstrip_chars quotes r = r).
  { apply rstrip_by_id. intros c Hc. apply (Hl c Hc). }
  unfold normalize_url. rewrite !Hstrip, Hq, Hrq.
  destruct (str_eqb r []) eqn:E.
  - apply str_eqb_nil in E. symmetry. exact E.
  - rewrite Hs. apply rstrip_by_id. intros c Hc. apply (Hl c Hc).
Qed.

(** A second pass changes nothing when the normal form has a scheme and
    a plain end. *)
Lemma normalize_url_idempotent_on_clean (u : str) :
  has_http_scheme (normalize_url u) = true ->
  (forall c, last (normalize_url u) = Some c ->
     is_space c = false /\ in_chars quotes c = false) ->
  normalize_url (normalize_url u) = normalize_url u.
Proof.
  intros Hs Hl. apply normalize_url_fixed; [exact Hs|].
  intros c Hc. destruct (Hl c Hc) as [H1 H2].
  repeat split; try assumption.
  apply (normalize_url_last u c Hc).
Qed.

(** C5 (as stated) fails: a quote stripped from the end of the input can
    uncover a space, which the next pass strips. *)
Lemma normalize_url_not_idempotent :
  normalize_url (normalize_url (lit "a '")) <> normalize_url (lit "a '").
Proof. vm_compute. discriminate. Qed.

(** A text made of a scheme and slashes loses its slashes, and the next
    pass puts a second scheme in front of what is left. *)
Example normalize_url_bare_scheme :
  normalize_url (lit "https://") = lit "https:"
  /\ normalize_url (lit "https:") = lit "https://https:".
Proof. split; reflexivity. Qed.

(* ===================================================================== *)
(** ** URL normaliser: the fixed points *)
(* ===================================================================== *)

Lemma rstrip_by_prefix_of (p : N -> bool) (s : str) :
  rstrip_by p s `prefix_of` s.
Proof. destruct (rstrip_by_prefix p s) as [t Ht]. exists t. exact Ht. Qed.

Lemma rstrip_by_length (p : N -> bool) (s : str) :
  (length (rstrip_by p s) <= length s)%nat.
Proof. apply prefix_length, rstrip_by_prefix_of. Qed.

Lemma lstrip_by_length (p : N -> bool) (s : str) :
  (length (lstrip_by p s) <= length s)%nat.
Proof.
  induction s as [|c s IH]; simpl; [lia|].
  destruct (p c); simpl; lia.
Qed.

Lemma strip_by_length (p : N -> bool) (s : str) :
  (length (strip_by p s) <= length s)%nat.
Proof.
  unfold strip_by. pose proof (rstrip_by_length p (lstrip_by p s)).
  pose proof (lstrip_by_length p s). lia.
Qed.

Lemma clean_url_length (r : str) : (length (clean_url r) <= length r)%nat.
Proof.
  unfold clean_url, rstrip_chars, strip_chars, strip.
  pose proof (rstrip_by_length (in_chars quotes)
                (strip_by (in_chars quotes) (strip_by is_space (strip_by is_space r)))).
  pose proof (strip_by_length (in_chars quotes)
                (strip_by is_space (strip_by is_space r))).
  pose proof (strip_by_length is_space (strip_by is_space r)).
  pose proof (strip_by_length is_space r). lia.
Qed.

Lemma normalize_url_unfold (raw : str) :
  normalize_url raw
  = if str_eqb (clean_url raw) [] then []
    else rstrip_chars (lit "/")
           (if has_http_scheme (clean_url raw) then clean_url raw
            else lit "https://" ++ clean_url raw).
Proof. reflexivity. Qed.

(** [rstrip] does not reach behind characters that stay. *)
Lemma rstrip_by_app_keep (p : N -> bool) (pre t : str) :
  Forall (fun c => p c = false) pre ->
  rstrip_by p (pre ++ t) = pre ++ rstrip_by p t.
Proof.
  induction 1 as [|c pre Hc Hpre IH]; [reflexivity|].
  rewrite <- !app_comm_cons, rstrip_by_cons_keep by exact Hc.
  rewrite IH. reflexivity.
Qed.

Lemma startswith_ci_split (p s : str) :
  startswith_ci p s = true ->
  exists pre t,
    s = pre ++ t /\ Forall2 (fun x y => ci_eqb x y = true) p pre.
Proof.
  revert s. induction p as [|x p IH]; intros s H.
  - exists [], s. split; [reflexivity|constructor].
  - destruct s as [|y s]; [discriminate|]. cbn [startswith_ci] in H.
    apply andb_true_iff in H. destruct H as [Hxy Hp].
    destruct (IH s Hp) as (pre & t & -> & Hall).
    exists (y :: pre), t. split; [reflexivity|]. constructor; assumption.
Qed.

Lemma startswith_ci_app (p pre t : str) :
  Forall2 (fun x y => ci_eqb x y = true) p pre ->
  startswith_ci p (pre ++ t) = true.
Proof.
  induction 1 as [|x y p pre Hxy Hall IH]; [reflexivity|].
  cbn [startswith_ci app]. rewrite Hxy, IH. reflexivity.
Qed.

Lemma ci_eqb_cases (x y : N) :
  ci_eqb x y = true ->
  y = x \/ (y + 32 = x)%N \/ (x = 115 /\ y = 383)%N
  \/ (x = 107 /\ y = 8490)%N \/ (x = 105 /\ (y = 304 \/ y = 305))%N.
Proof.
  unfold ci_eqb. rewrite !orb_true_iff, !andb_true_iff, !orb_true_iff.
  rewrite !N.eqb_eq. intuition.
Qed.

(** What matches a character of the scheme patterns is plain. *)
Lemma scheme_char_plain (x y : N) :
  In x [104; 116; 112; 115; 58; 47]%N -> ci_eqb x y = true ->
  is_plain y = true.
Proof.
  intros Hx Hxy. apply ci_eqb_cases in Hxy. simpl in Hx.
  assert (Hy : In y [104; 72; 116; 84; 112; 80; 115; 83; 383; 58; 26; 47; 15]%N).
  { simpl.
    destruct Hx as [<-|[<-|[<-|[<-|[<-|[<-|[]]]]]]];
      destruct Hxy as [->|[Hy|[[Hx' ->]|[[Hx' _]|[Hx' _]]]]];
      try discriminate Hx'; try (assert (y = 72%N) by lia);
      try (assert (y = 84%N) by lia); try (assert (y = 80%N) by lia);
      try (assert (y = 83%N) by lia); try (assert (y = 26%N) by lia);
      try (assert (y = 15%N) by lia); subst; tauto. }
  simpl in Hy. repeat (destruct Hy as [<-|Hy]; [reflexivity|]).
  destruct Hy.
Qed.

(** A text with a scheme is a plain prefix, which alone makes the scheme,
    and a rest. *)
Lemma has_http_scheme_split (r : str) :
  has_http_scheme r = true ->
  exists pre t,
    r = pre ++ t /\ pre <> []
    /\ Forall (fun c => is_plain c = true) pre
    /\ forall t', has_http_scheme (pre ++ t') = true.
Proof.
  unfold has_http_scheme. rewrite orb_true_iff.
  assert (Hgen : forall p,
            p <> [] ->
            Forall (fun x => In x [104; 116; 112; 115; 58; 47]%N) p ->
            startswith_ci p r = true ->
            exists pre t,
              r = pre ++ t /\ pre <> []
              /\ Forall (fun c => is_plain c = true) pre
              /\ forall t', startswith_ci p (pre ++ t') = true).
  { intros p Hne Hin H.
    destruct (startswith_ci_split p r H) as (pre & t & -> & Hall).
    exists pre, t. split; [reflexivity|]. split.
    - intros ->. inversion Hall. subst. contradiction.
    - split; [|intros t'; apply startswith_ci_app; exact Hall].
      clear H Hne. induction Hall as [|x y p pre Hxy Hall IH]; [constructor|].
      inversion Hin; subst. constructor; [|apply IH; assumption].
      eapply scheme_char_plain; eassumption. }
  intros [H|H].
  - destruct (Hgen (lit "http://")) as (pre & t & Hr & Hne & Hpl & Hs);
      [discriminate | repeat constructor; simpl; tauto | exact H |].
    exists pre, t. repeat split; try assumption.
    intros t'. rewrite Hs. reflexivity.
  - destruct (Hgen (lit "https://")) as (pre & t & Hr & Hne & Hpl & Hs);
      [discriminate | repeat constructor; simpl; tauto | exact H |].
    exists pre, t. repeat split; try assumption.
    intros t'. rewrite Hs. apply orb_true_r.
Qed.

Lemma is_plain_not_space (c : N) : is_plain c = true -> is_space c = false.
Proof.
  unfold is_plain. rewrite negb_true_iff, orb_false_iff. tauto.
Qed.

Lemma is_plain_not_quote (c : N) :
  is_plain c = true -> in_chars quotes c = false.
Proof.
  unfold is_plain. rewrite negb_true_iff, orb_false_iff. tauto.
Qed.

(** Behind a plain prefix the cleaning steps only trim the end. *)
Lemma clean_url_keeps_prefix (pre t : str) :
  pre <> [] -> Forall (fun c => is_plain c = true) pre ->
  exists t',
    clean_url (pre ++ t) = pre ++ t'
    /\ strip (pre ++ t) = pre ++ rstrip_by is_space t
    /\ (pre ++ t') `prefix_of` strip (pre ++ t)
    /\ strip (pre ++ t) `prefix_of` (pre ++ t).
Proof.
  intros Hne Hpl.
  assert (Hs : Forall (fun c => is_space c = false) pre).
  { eapply Forall_impl; [exact Hpl|]. apply is_plain_not_space. }
  assert (Hq : Forall (fun c => in_chars quotes c = false) pre).
  { eapply Forall_impl; [exact Hpl|]. apply is_plain_not_quote. }
  assert (Hl : forall p u, Forall (fun c => p c = false) pre ->
                 strip_by p (pre ++ u) = pre ++ rstrip_by p u).
  { intros p u Hp. unfold strip_by. rewrite lstrip_by_id.
    - apply rstrip_by_app_keep. exact Hp.
    - destruct pre as [|c pre']; [contradiction|].
      simpl. intros c' [= <-]. inversion Hp; assumption. }
  unfold clean_url, strip, strip_chars, rstrip_chars.
  rewrite !Hl by assumption. rewrite rstrip_by_app_keep by exact Hq.
  eexists. split; [reflexivity|]. split; [reflexivity|]. split.
  - apply prefix_app.
    etrans; [apply rstrip_by_prefix_of|].
    etrans; [apply rstrip_by_prefix_of|].
    apply rstrip_by_prefix_of.
  - apply prefix_app, rstrip_by_prefix_of.
Qed.

Lemma prefix_of_same_length (a b : str) :
  a `prefix_of` b -> (length b <= length a)%nat -> a = b.
Proof.
  intros [k ->] Hlen. rewrite length_app in Hlen.
  destruct k; [rewrite app_nil_r; reflexivity | simpl in Hlen; lia].
Qed.

(** A fixed point of the normaliser that is not empty has a scheme. *)
Lemma normalize_url_fixed_scheme (r : str) :
  normalize_url r = r -> r <> [] -> has_http_scheme r = true.
Proof.
  intros Hfix Hne. rewrite normalize_url_unfold in Hfix.
  destruct (str_eqb (clean_url r) []) eqn:Ec; [congruence|].
  destruct (has_http_scheme (clean_url r)) eqn:Hc.
  - assert (Hlen := clean_url_length r).
    assert (Hpre := rstrip_by_prefix_of (in_chars (lit "/")) (clean_url r)).
    unfold rstrip_chars in Hfix. rewrite Hfix in Hpre.
    rewrite <- (prefix_of_same_length _ _ Hpre Hlen) in Hc. exact Hc.
  - unfold rstrip_chars in Hfix.
    change (lit "https://" ++ clean_url r)
      with ([104; 116; 116; 112; 115; 58]%N ++ 47%N :: 47%N :: clean_url r)
      in Hfix.
    rewrite rstrip_by_app_keep in Hfix by (repeat constructor).
    cbn [rstrip_by] in Hfix.
    destruct (rstrip_by (in_chars (lit "/")) (clean_url r)) as [|c0 rest] eqn:Er.
    + change (in_chars (lit "/") 47) with true in Hfix. simpl in Hfix.
      subst r. vm_compute in Er. discriminate.
    + subst r. reflexivity.
Qed.

(** The fixed points of the normaliser: the empty text, and the texts
    with a scheme that end neither in whitespace, nor in a quote, nor in a
    slash. *)
Lemma normalize_url_fixed_iff (r : str) :
  normalize_url r = r
  <-> r = []
      \/ (has_http_scheme r = true
          /\ forall c, last r = Some c ->
               is_space c = false /\ in_chars quotes c = false
               /\ in_chars (lit "/") c = false).
Proof.
  split.
  - intros Hfix. destruct r as [|c0 r0] eqn:Er; [left; reflexivity|].
    right. rewrite <- Er in *.
    assert (Hne : r <> []) by (rewrite Er; discriminate).
    clear Er c0 r0.
    assert (Hs := normalize_url_fixed_scheme r Hfix Hne).
    split; [exact Hs|].
    destruct (has_http_scheme_split r Hs) as (pre & t & Hr & Hpne & Hpl & Hall).
    destruct (clean_url_keeps_prefix pre t Hpne Hpl)
      as (t' & Hclean & Hstrip & Hp1 & Hp2).
    rewrite <- Hr in *.
    rewrite normalize_url_unfold in Hfix.
    destruct (str_eqb (clean_url r) []) eqn:Ec; [congruence|].
    rewrite Hclean, Hall, <- Hclean in Hfix.
    rewrite <- Hclean in Hp1.
    assert (Hp0 := rstrip_by_prefix_of (in_chars (lit "/")) (clean_url r)).
    unfold rstrip_chars in Hfix. rewrite Hfix in Hp0.
    assert (Hc : clean_url r = r).
    { symmetry. apply prefix_of_same_length; [exact Hp0|].
      apply prefix_length. etrans; eassumption. }
    assert (Hst : strip r = r).
    { apply prefix_of_same_length; [exact Hp2|].
      apply prefix_length. rewrite <- Hc at 1. exact Hp1. }
    intros c Hlast. split; [|split].
    + rewrite Hstrip in Hst.
      rewrite <- rstrip_by_app_keep in Hst.
      * rewrite <- Hr in Hst. rewrite <- Hst in Hlast.
        apply (rstrip_by_last _ _ _ Hlast).
      * eapply Forall_impl; [exact Hpl|]. apply is_plain_not_space.
    + rewrite <- Hc in Hlast. apply (rstrip_by_last _ _ _ Hlast).
    + rewrite Hc in Hfix. rewrite <- Hfix in Hlast.
      apply (rstrip_by_last _ _ _ Hlast).
  - intros [->|[Hs Hl]]; [reflexivity|].
    apply normalize_url_fixed; assumption.
Qed.

(** C5 (amended, with the converse). A second pass of the normaliser
    changes nothing exactly when the normal form is empty, or still starts
    with [http://] or [https://] (in any letter case) and does not end in a
    whitespace or quote character. *)
Theorem normalize_url_idempotent_iff (u : str) :
  normalize_url (normalize_url u) = normalize_url u
  <-> normalize_url u = []
      \/ (has_http_scheme (normalize_url u) = true
          /\ forall c, last (normalize_url u) = Some c ->
               is_space c = false /\ in_chars quotes c = false).
Proof.
  rewrite normalize_url_fixed_iff. split.
  - intros [H|[Hs Hl]]; [left; exact H|right].
    split; [exact Hs|]. intros c Hc. destruct (Hl c Hc) as (H1 & H2 & _).
    split; assumption.
  - intros [H|[Hs Hl]]; [left; exact H|right].
    split; [exact Hs|]. intros c Hc. destruct (Hl c Hc) as (H1 & H2).
    repeat split; try assumption. apply (normalize_url_last u c Hc).
Qed.

(** Witness of C5: an input with spaces, quotes and a trailing slash,
    whose normal form [https://example.com/docs] is clean. *)
Lemma normalize_url_idempotent_iff_witness :
  normalize_url (normalize_url (lit " 'example.com/docs/' "))
  = normalize_url (lit " 'example.com/docs/' ").
Proof.
  apply (proj2 (normalize_url_idempotent_iff (lit " 'example.com/docs/' "))).
  right. split.
  - vm_compute. reflexivity.
  - intros c Hc. vm_compute in Hc. injection Hc as <-. split; reflexivity.
Defined.

(* ===================================================================== *)
(** ** Slugs *)
(* ===================================================================== *)

Lemma sub_unsafe_runs_safe (b : bool) (s : str) :
  forallb is_slug_char s = true -> sub_unsafe_runs b s = s.
Proof.
  revert b. induction s as [|c s IH]; intros b; simpl; [reflexivity|].
  rewrite andb_true_iff. intros [Hc Hs]. rewrite Hc, IH by exact Hs.
  reflexivity.
Qed.

Lemma in_chars_single (x c : N) : in_chars [x] c = true <-> c = x.
Proof.
  unfold in_chars. simpl. rewrite orb_false_r. apply N.eqb_eq.
Qed.

Lemma in_chars_single_false (x c : N) : c <> x -> in_chars [x] c = false.
Proof.
  intros H. destruct (in_chars [x] c) eqn:E; [|reflexivity].
  apply in_chars_single in E. contradiction.
Qed.

(** A text of slug characters that neither starts nor ends with an
    underscore is its own slug. *)
Lemma safe_slug_id (s : str) :
  s <> [] ->
  forallb is_slug_char s = true ->
  head s <> Some (ch "_") -> last s <> Some (ch "_") ->
  safe_slug s = s.
Proof.
  intros Hne Hsafe Hh Hl. unfold safe_slug.
  rewrite sub_unsafe_runs_safe by exact Hsafe.
  assert (Hs : strip_chars (lit "_") s = s).
  { apply strip_by_id; intros c Hc; apply in_chars_single_false;
      intros ->; [apply Hh | apply Hl]; exact Hc. }
  rewrite Hs. destruct (str_eqb s []) eqn:E; [|reflexivity].
  apply str_eqb_nil in E. contradiction.
Qed.

Lemma page_slug_length (slug : str) :
  (length (if (140 <? Z.of_nat (length slug))%Z then take 140 slug else slug)
   <= 140)%nat.
Proof.
  destruct (Z.ltb_spec 140 (Z.of_nat (length slug))).
  - rewrite length_take. lia.
  - lia.
Qed.

(** C6 (amended). For every URL that [urlsplit] accepts: the per-page
    file slug is made from the path alone (the text [index] for an empty
    path) and is cut to at most 140 characters; the per-site directory
    slug is the slug of host, double underscore and path when the path is
    not empty, and the slug of the host alone when the path is empty; it
    is not cut, and when host and path are made of slug characters with
    no underscore at either end it is exactly host, double underscore,
    path. *)
Theorem slugs_of_url (w : World) (url : str) (parts : SplitResult) :
  urlsplit w url = Ret parts ->
  let host := replace_chr (ch ":") (lit "_") (netloc parts) in
  let p := strip_chars (lit "/") (path parts) in
  (exists slug,
     url_to_page_slug w url = Ret slug
     /\ (length slug <= 140)%nat
     /\ slug = take 140 (safe_slug (if str_eqb p [] then lit "index" else p)))
  /\ (p <> [] ->
      slug_from_url w url = Ret (safe_slug (host ++ lit "__" ++ p)))
  /\ (p = [] -> slug_from_url w url = Ret (safe_slug host))
  /\ (p <> [] -> host <> [] ->
      forallb is_slug_char (host ++ p) = true ->
      head host <> Some (ch "_") -> last p <> Some (ch "_") ->
      slug_from_url w url = Ret (host ++ lit "__" ++ p)).
Proof.
  intros Hsplit host p.
  assert (Hsite : p <> [] ->
            slug_from_url w url = Ret (safe_slug (host ++ lit "__" ++ p))).
  { intros Hp. unfold slug_from_url. rewrite Hsplit. simpl.
    fold host. fold p.
    destruct (str_eqb p []) eqn:E; [|reflexivity].
    apply str_eqb_nil in E. contradiction. }
  split; [|split; [|split]].
  - unfold url_to_page_slug. rewrite Hsplit. simpl. fold p.
    set (q := if str_eqb p [] then lit "index" else p).
    eexists. split; [reflexivity|]. split.
    + apply page_slug_length.
    + destruct (Z.ltb_spec 140 (Z.of_nat (length (safe_slug q)))).
      * reflexivity.
      * symmetry. apply take_ge. lia.
  - exact Hsite.
  - intros Hp. unfold slug_from_url. rewrite Hsplit. simpl.
    fold host. fold p. rewrite Hp. reflexivity.
  - intros Hp Hh Hsafe Hhead Hlast. rewrite Hsite by exact Hp. f_equal.
    apply safe_slug_id.
    + destruct host; [contradiction|discriminate].
    + rewrite forallb_app in Hsafe. apply andb_true_iff in Hsafe.
      destruct Hsafe as [H1 H2].
      rewrite !forallb_app, H1, H2. reflexivity.
    + destruct host; [contradiction|exact Hhead].
    + rewrite app_assoc, last_app.
      destruct (last p) eqn:E; [exact Hlast|].
      destruct p; [contradiction|].
      apply last_None in E. discriminate.
Qed.

(** Witness of C6: a URL with a port and a trailing slash, and the root
    of the same site. *)
Lemma slugs_of_url_witness :
  (exists slug,
     url_to_page_slug offline_world (lit "https://example.com:8080/docs/intro/")
     = Ret slug /\ (length slug <= 140)%nat
     /\ slug = take 140 (safe_slug (lit "docs/intro")))
  /\ slug_from_url offline_world (lit "https://example.com:8080/docs/intro/")
     = Ret (lit "example.com_8080__docs_intro")
  /\ slug_from_url offline_world (lit "https://example.com:8080/")
     = Ret (lit "example.com_8080").
Proof.
  destruct (slugs_of_url offline_world
              (lit "https://example.com:8080/docs/intro/")
              (mkSplit (lit "https") (lit "example.com:8080")
                       (lit "/docs/intro/") [] []) eq_refl)
    as (Hpage & Hsite & _).
  destruct (slugs_of_url offline_world
              (lit "https://example.com:8080/")
              (mkSplit (lit "https") (lit "example.com:8080")
                       (lit "/") [] []) eq_refl)
    as (_ & _ & Hroot & _).
  split; [exact Hpage|]. split.
  - rewrite Hsite by discriminate. reflexivity.
  - rewrite Hroot by reflexivity. reflexivity.
Defined.

(** C6 (as stated) fails on both slugs: the directory slug of a URL with
    a path of 150 letters has 163 characters, more than 140, and the file
    slug of a page holds neither the host nor a double underscore. *)
Lemma slug_claim_fails :
  (exists slug,
     slug_from_url offline_world
       (lit "https://example.com/" ++ repeat (ch "a") 150) = Ret slug
     /\ (140 < length slug)%nat)
  /\ url_to_page_slug offline_world (lit "https://example.com/docs/intro")
     = Ret (lit "docs_intro").
Proof.
  split; [|reflexivity].
  eexists. split; [vm_compute; reflexivity|]. vm_compute. lia.
Qed.

(* ===================================================================== *)
(** ** Fetch client *)
(* ===================================================================== *)

Lemma backoff_seq (attempt count : Z) :
  map backoff (seqZ attempt count)
  = map backoff_of_attempt_number (seqZ (attempt + 1) count).
Proof.
  replace (attempt + 1) with (1 + attempt) by lia.
  rewrite <- (fmap_add_seqZ 1 attempt count).
  change (backoff <$> seqZ attempt count
          = backoff_of_attempt_number <$> (Z.add 1 <$> seqZ attempt count)).
  rewrite <- list_fmap_compose. apply list_fmap_ext.
  intros i a _. unfold backoff, backoff_of_attempt_number. simpl.
  replace (1 + a) with (a + 1) by lia. reflexivity.
Qed.

Lemma backoff_cons (attempt : Z) (m : nat) :
  backoff attempt :: map backoff (seqZ (attempt + 1) (Z.of_nat m))
  = map backoff (seqZ attempt (Z.of_nat (S m))).
Proof.
  rewrite (seqZ_cons attempt (Z.of_nat (S m))) by lia.
  replace (Z.pred (Z.of_nat (S m))) with (Z.of_nat m) by lia.
  replace (Z.succ attempt) with (attempt + 1) by lia. reflexivity.
Qed.

(** What the retry loop does with [n] attempts left: it returns, after [k]
    requests for the same URL, [k <= n]; every request before the last one
    failed and was followed by its backoff; the loop returns [None] only
    when all [n] attempts failed. *)
Lemma fetch_loop_spec (w : World) (url : str) (timeout : Z) :
  (forall m e, urlopen w m url timeout = Raise e -> is_Exception e = true) ->
  forall (n : nat) (attempt : Z) (st : State),
  exists (r : option FetchResult) (k : nat) (st' : State),
    fetch_loop w n attempt url timeout st = (Ret r, st')
    /\ (k <= n)%nat
    /\ st_requests st' = st_requests st ++ repeat (url, timeout) k
    /\ st_dirs st' = st_dirs st /\ st_files st' = st_files st
    /\ st_stdin st' = st_stdin st
    /\ match r with
       | Some fr =>
           (1 <= k)%nat
           /\ st_sleeps st'
              = st_sleeps st ++ map backoff (seqZ attempt (Z.of_nat (k - 1)))
           /\ all_fail w (length (st_requests st)) (k - 1) url timeout
           /\ exists resp,
                urlopen w (length (st_requests st) + (k - 1)) url timeout
                = Ret resp
                /\ fr = read_response w url resp
       | None =>
           k = n
           /\ st_sleeps st'
              = st_sleeps st ++ map backoff (seqZ attempt (Z.of_nat n))
           /\ all_fail w (length (st_requests st)) n url timeout
       end.
Proof.
  intros Hexc n. induction n as [|n IH]; intros attempt st.
  - exists None, 0%nat, st. simpl. rewrite !app_nil_r.
    repeat split; try reflexivity. intros i Hi. lia.
  - simpl. unfold try_except, bind, do_urlopen, ret.
    destruct (urlopen w (length (st_requests st)) url timeout) as [resp|e] eqn:E.
    + eexists (Some _), 1%nat, _. split; [reflexivity|]. simpl.
      rewrite app_nil_r.
      repeat split; try reflexivity; try lia.
      * intros i Hi. lia.
      * exists resp. rewrite Nat.add_0_r. split; [exact E|reflexivity].
    + rewrite (Hexc _ _ E). unfold sleep at 1. simpl.
      match goal with
      | |- context [fetch_loop w n (attempt + 1) url timeout ?s] =>
          destruct (IH (attempt + 1) s)
            as (r & k & st' & Hrun & Hk & Hreq & Hd & Hf & Hin & Hr)
      end.
      simpl in Hreq, Hd, Hf, Hin, Hr.
      exists r, (S k), st'. split; [exact Hrun|].
      split; [lia|]. split.
      { rewrite Hreq, <- app_assoc. reflexivity. }
      split; [exact Hd|]. split; [exact Hf|]. split; [exact Hin|].
      assert (Hlen : length (st_requests st ++ [(url, timeout)])
                     = S (length (st_requests st))).
      { rewrite length_app. simpl. lia. }
      assert (Hfail : forall c, all_fail w (S (length (st_requests st))) c url timeout ->
                all_fail w (length (st_requests st)) (S c) url timeout).
      { intros c Hc [|i] Hi.
        - exists e. rewrite Nat.add_0_r. exact E.
        - destruct (Hc i) as [e' He']; [lia|]. exists e'.
          replace (length (st_requests st) + S i)%nat
            with (S (length (st_requests st)) + i)%nat by lia.
          exact He'. }
      destruct r as [fr|].
      * destruct Hr as (Hk1 & Hsl & Hall & resp & Hresp & Hfr).
        split; [lia|]. split; [|split].
        -- rewrite Hsl, <- app_assoc. f_equal.
           replace (S k - 1)%nat with (S (k - 1)) by lia.
           apply backoff_cons.
        -- replace (S k - 1)%nat with (S (k - 1)) by lia.
           apply Hfail. rewrite <- Hlen. exact Hall.
        -- exists resp. split; [|exact Hfr].
           rewrite Hlen in Hresp.
           replace (length (st_requests st) + (S k - 1))%nat
             with (S (length (st_requests st)) + (k - 1))%nat by lia.
           exact Hresp.
      * destruct Hr as (-> & Hsl & Hall). split; [reflexivity|]. split.
        -- rewrite Hsl, <- app_assoc. f_equal. apply backoff_cons.
        -- apply Hfail. rewrite <- Hlen. exact Hall.
Qed.

(** C8. When the world raises only [Exception]s, [fetch] returns and
    never raises: it makes [k] requests for the URL, [k <= retries + 1];
    every attempt before a success fails, and the failed attempt with the
    number [j], counted from one, is followed by a sleep of 0.4 s times
    [j]; with a result of [None] all [retries + 1] attempts were made and
    failed, and when all of them fail the result is [None]. *)
Theorem fetch_never_raises (w : World) (url : str) (timeout retries : Z)
    (st : State) :
  only_exceptions w ->
  exists (r : option FetchResult) (k : nat) (st' : State),
    fetch w url timeout retries st = (Ret r, st')
    /\ (k <= Z.to_nat (retries + 1))%nat
    /\ st_requests st' = st_requests st ++ repeat (url, timeout) k
    /\ match r with
       | Some fr =>
           st_sleeps st'
           = st_sleeps st
             ++ map backoff_of_attempt_number (seqZ 1 (Z.of_nat (k - 1)))
           /\ all_fail w (length (st_requests st)) (k - 1) url timeout
       | None =>
           k = Z.to_nat (retries + 1)
           /\ st_sleeps st'
              = st_sleeps st
                ++ map backoff_of_attempt_number (seqZ 1 (Z.of_nat k))
           /\ all_fail w (length (st_requests st)) k url timeout
       end
    /\ (all_fail w (length (st_requests st)) (Z.to_nat (retries + 1)) url timeout
        -> r = None).
Proof.
  intros Hexc. unfold fetch.
  destruct (fetch_loop_spec w url timeout (fun m e => Hexc m url timeout e)
              (Z.to_nat (retries + 1)) 0 st)
    as (r & k & st' & Hrun & Hk & Hreq & _ & _ & _ & Hr).
  exists r, k, st'. split; [exact Hrun|]. split; [exact Hk|].
  split; [exact Hreq|]. split.
  - destruct r as [fr|].
    + destruct Hr as (_ & Hsl & Hall & _). split; [|exact Hall].
      rewrite Hsl, backoff_seq. reflexivity.
    + destruct Hr as (-> & Hsl & Hall). split; [reflexivity|].
      split; [|exact Hall]. rewrite Hsl, backoff_seq. reflexivity.
  - intros Hall. destruct r as [fr|]; [|reflexivity].
    destruct Hr as (Hk1 & _ & _ & resp & Hresp & _).
    destruct (Hall (k - 1)%nat) as [e He]; [lia|]. congruence.
Qed.

Lemma offline_only_exceptions : only_exceptions offline_world.
Proof. intros n url timeout e. simpl. intros [= <-]. reflexivity. Qed.

(** Witness of C8: with no request answered and two retries, three
    attempts fail, the sleeps are 0.4 s, 0.8 s and 1.2 s, and the result
    is [None]. *)
Lemma fetch_never_raises_witness :
  exists st',
    fetch offline_world (lit "https://example.com/docs") 30 2 (init_state [])
    = (Ret None, st')
    /\ st_sleeps st' = [4 # 10; 8 # 10; 12 # 10]%Q.
Proof.
  destruct (fetch_never_raises offline_world (lit "https://example.com/docs")
              30 2 (init_state []) offline_only_exceptions)
    as (r & k & st' & Hrun & _ & _ & Hr & Hnone).
  assert (Hr0 : r = None).
  { apply Hnone. intros i _. exists HTTPError. reflexivity. }
  subst r. destruct Hr as (-> & Hsl & _).
  exists st'. split; [exact Hrun|]. rewrite Hsl. reflexivity.
Defined.

(* ===================================================================== *)
(** ** Charset decoding *)
(* ===================================================================== *)

(** Decoding with replacement gives one character for at least one byte:
    the decoder is a total function that never makes text longer than the
    body. *)
Lemma utf8_decode_replace_length (body : bytes) :
  (length (utf8_decode_replace body) <= length body)%nat.
Proof.
  remember (length body) as n eqn:Hn.
  assert (H : (length body <= n)%nat) by lia. clear Hn.
  revert body H. induction n as [|n IH]; intros body H.
  - destruct body; [simpl; lia | simpl in H; lia].
  - destruct body as [|b0 t0]; [simpl; lia|].
    simpl in H. simpl utf8_decode_replace.
    assert (IH0 := IH t0 ltac:(lia)).
    destruct (b0 <? 128)%N; [simpl; lia|].
    destruct (utf8_width b0) as [|k]; [simpl; lia|].
    destruct t0 as [|b1 t1]; [simpl; lia|].
    simpl in H. assert (IH1 := IH t1 ltac:(lia)).
    destruct (negb (second_ok b0 b1)); [simpl in *; lia|].
    destruct k as [|k]; [simpl; lia|].
    destruct t1 as [|b2 t2]; [simpl; lia|].
    simpl in H. assert (IH2 := IH t2 ltac:(lia)).
    destruct (negb (is_cont b2)); [simpl in *; lia|].
    destruct k as [|k]; [simpl; lia|].
    destruct t2 as [|b3 t3]; [simpl; lia|].
    simpl in H. assert (IH3 := IH t3 ltac:(lia)).
    destruct (negb (is_cont b3)); simpl in *; lia.
Qed.

(** The charset the header declares is a non-empty run of charset
    characters. *)
Lemma search_charset_nonempty (ctype g : str) :
  search_charset ctype = Some g -> g <> [].
Proof.
  induction ctype as [|c rest IH].
  - discriminate.
  - change (search_charset (c :: rest)) with
      (match (if startswith_ci (lit "charset=") (c :: rest)
              then match take_while is_charset_char (drop 8 (c :: rest)) with
                   | [] => None
                   | g => Some g
                   end
              else None) with
       | Some g => Some g
       | None => search_charset rest
       end).
    destruct (startswith_ci (lit "charset=") (c :: rest)); [|exact IH].
    destruct (take_while is_charset_char (drop 8 (c :: rest))); [exact IH|].
    intros [= <-]. discriminate.
Qed.

Lemma decode_bytes_value (w : World) (body : bytes) (headers : gmap str str) :
  decode_bytes w body headers = Ret (decoded_text w body headers).
Proof.
  unfold decode_bytes, decode_with, decoded_text.
  destruct (search_charset (headers_get headers (lit "Content-Type"))) as [g|];
    [|reflexivity].
  destruct (codec_decode w (strip g) body); reflexivity.
Qed.

(** C10. [decode_bytes] returns text for every body and every header
    mapping, whatever charset is declared: the text the declared charset
    gives when the header declares one and its codec decodes the body, and
    the UTF-8 decoding with replacement characters in every other case (no
    charset declared, an unknown codec, a codec that fails); that decoding
    is never longer than the body. *)
Theorem decode_bytes_total (w : World) (body : bytes) (headers : gmap str str) :
  exists text,
    decode_bytes w body headers = Ret text
    /\ text
       = match search_charset (headers_get headers (lit "Content-Type")) with
         | Some g =>
             match codec_decode w (strip g) body with
             | Some declared => declared
             | None => utf8_decode_replace body
             end
         | None => utf8_decode_replace body
         end
    /\ (length (utf8_decode_replace body) <= length body)%nat.
Proof.
  exists (decoded_text w body headers).
  split; [apply decode_bytes_value|]. split; [reflexivity|].
  apply utf8_decode_replace_length.
Qed.

(** An unknown codec and bytes that are no UTF-8: the fallback replaces
    what it cannot decode. *)
Example decode_bytes_unknown_codec :
  decode_bytes offline_world [72; 105; 255; 226; 130]%N
    {[ lit "Content-Type" := lit "text/html; charset=no-such-codec" ]}
  = Ret [72; 105; 65533; 65533]%N.
Proof. vm_compute. reflexivity. Qed.

Example search_charset_sample :
  search_charset (lit "text/html; Charset=ISO-8859-1; x") = Some (lit "ISO-8859-1").
Proof. reflexivity. Qed.

(* ===================================================================== *)
(** ** Selection parsing: order and bounds *)
(* ===================================================================== *)

Lemma elem_of_add_range (start stop n x : Z) (out : gset Z) :
  x ∈ add_range start stop n out
  <-> (start <= x <= stop /\ 1 <= x <= n) \/ x ∈ out.
Proof.
  unfold add_range. rewrite elem_of_union, elem_of_list_to_set.
  rewrite list_elem_of_filter, elem_of_seqZ.
  split; (intros [H|H]; [left|right; exact H]); lia.
Qed.

(** A round of the loop keeps the indices between 1 and [n]. *)
Lemma selection_part_bounds (part : str) (n : Z) (out : gset Z) :
  (forall x, x ∈ out -> 1 <= x <= n) ->
  forall x, x ∈ selection_part part n out -> 1 <= x <= n.
Proof.
  intros Hout x. unfold selection_part.
  destruct (str_eqb (strip part) []); [apply Hout|].
  destruct (in_chars (strip part) (ch "-")).
  - destruct (split_once (ch "-") (strip part)) as [[a b]|]; [|apply Hout].
    destruct (py_int (strip a)) as [start|]; [|apply Hout].
    destruct (py_int (strip b)) as [stop|]; [|apply Hout].
    destruct (stop <? start); rewrite elem_of_add_range;
      (intros [H|H]; [lia | apply Hout; exact H]).
  - destruct (py_int (strip part)) as [v|]; [|apply Hout].
    destruct ((1 <=? v) && (v <=? n)) eqn:E; [|apply Hout].
    apply andb_true_iff in E. destruct E as [E1 E2].
    apply Z.leb_le in E1. apply Z.leb_le in E2.
    rewrite elem_of_union, elem_of_singleton.
    intros [-> | Hx]; [lia | apply Hout; exact Hx].
Qed.

Lemma selection_fold_bounds (parts : list str) (n : Z) (out : gset Z) :
  (forall x, x ∈ out -> 1 <= x <= n) ->
  forall x,
    x ∈ fold_left (fun out part => selection_part part n out) parts out ->
    1 <= x <= n.
Proof.
  revert out. induction parts as [|part parts IH]; intros out Hout; simpl.
  - exact Hout.
  - apply IH. apply selection_part_bounds. exact Hout.
Qed.

Lemma elem_of_sorted_ints (out : gset Z) (x : Z) :
  x ∈ sorted_ints out <-> x ∈ out.
Proof.
  unfold sorted_ints. rewrite merge_sort_Permutation. apply elem_of_elements.
Qed.

(** A list sorted by [<=] without repetitions is sorted by [<]. *)
Lemma StronglySorted_le_NoDup (l : list Z) :
  StronglySorted Z.le l -> NoDup l -> StronglySorted Z.lt l.
Proof.
  induction 1 as [|x l Hs IH Hall]; intros Hnd; constructor.
  - apply IH. apply NoDup_cons in Hnd. apply Hnd.
  - apply NoDup_cons in Hnd. destruct Hnd as [Hx _].
    rewrite List.Forall_forall in *. intros y Hy.
    specialize (Hall y Hy).
    assert (x <> y) by (intros ->; apply Hx, list_elem_of_In; exact Hy).
    lia.
Qed.

Lemma sorted_ints_strictly (out : gset Z) :
  StronglySorted Z.lt (sorted_ints out).
Proof.
  apply StronglySorted_le_NoDup.
  - apply StronglySorted_merge_sort; apply _.
  - unfold sorted_ints. rewrite merge_sort_Permutation. apply NoDup_elements.
Qed.

Lemma sorted_ints_empty : sorted_ints ∅ = [].
Proof. unfold sorted_ints. rewrite elements_empty. reflexivity. Qed.

Lemma parse_selection_strictly (sel : str) (n : Z) :
  StronglySorted Z.lt (parse_selection sel n).
Proof.
  unfold parse_selection. destruct (str_eqb (strip sel) []).
  - constructor.
  - apply sorted_ints_strictly.
Qed.

Lemma parse_selection_bounds (sel : str) (n x : Z) :
  x ∈ parse_selection sel n -> 1 <= x <= n.
Proof.
  unfold parse_selection. destruct (str_eqb (strip sel) []).
  - intros H. apply elem_of_nil in H. contradiction.
  - rewrite elem_of_sorted_ints. apply selection_fold_bounds.
    intros y Hy. apply elem_of_empty in Hy. contradiction.
Qed.

(** Nothing can be selected from an empty list. *)
Lemma parse_selection_nothing (sel : str) (n : Z) :
  n <= 0 -> parse_selection sel n = [].
Proof.
  intros Hn. destruct (parse_selection sel n) as [|x l] eqn:E; [reflexivity|].
  assert (H : x ∈ parse_selection sel n) by (rewrite E; left).
  apply parse_selection_bounds in H. lia.
Qed.

Example parse_selection_scenario :
  parse_selection (lit "2,4-6,99") 6 = [2; 4; 5; 6].
Proof. vm_compute. reflexivity. Qed.

(* ===================================================================== *)
(** ** Integers as text *)
(* ===================================================================== *)

Lemma digit_value_ascii (c : N) :
  is_ascii_digit c = true -> digit_value c = Some (c - 48)%N.
Proof.
  unfold is_ascii_digit, digit_value, decimal_zeros. intros H.
  cbn [List.find]. change (48 + 9)%N with 57%N. rewrite H. reflexivity.
Qed.

Lemma ascii_digit_range (c : N) :
  is_ascii_digit c = true <-> (48 <= c <= 57)%N.
Proof.
  unfold is_ascii_digit, in_range.
  rewrite andb_true_iff, !N.leb_le. reflexivity.
Qed.

(** Reading a string of ASCII digits gives its value and its length. *)
Lemma int_digits_ascii (ds : str) :
  Forall (fun c => is_ascii_digit c = true) ds ->
  forall (acc : N) (count : nat) (after_digit : bool),
  ds <> [] \/ after_digit = true ->
  int_digits acc count after_digit ds
  = Some (fold_left (fun acc c => acc * 10 + (c - 48))%N ds acc,
          (count + length ds)%nat).
Proof.
  induction 1 as [|c ds Hc Hds IH]; intros acc count after_digit Hne.
  - destruct Hne as [Hne| ->]; [contradiction|]. simpl.
    rewrite Nat.add_0_r. reflexivity.
  - cbn [int_digits].
    assert (Hu : (c =? ch "_")%N = false).
    { apply N.eqb_neq. apply ascii_digit_range in Hc.
      change (ch "_") with 95%N. lia. }
    rewrite Hu, (digit_value_ascii c Hc).
    rewrite IH by (right; reflexivity).
    simpl. do 2 f_equal. lia.
Qed.

(** The digits [dec_digits] writes in front of [rest]. *)
Lemma dec_digits_spec (fuel : nat) :
  forall (n : N) (rest : str),
  (1 <= fuel)%nat -> (n < 2 ^ N.of_nat fuel)%N ->
  exists ds,
    dec_digits fuel n rest = ds ++ rest
    /\ ds <> []
    /\ Forall (fun c => is_ascii_digit c = true) ds
    /\ digits_value ds = n.
Proof.
  induction fuel as [|fuel IH]; intros n rest Hf Hn; [lia|].
  cbn [dec_digits]. destruct (N.ltb_spec n 10) as [Hlt|Hge].
  - exists [(48 + n mod 10)%N]. split; [reflexivity|]. split; [discriminate|].
    split.
    + constructor; [|constructor]. apply ascii_digit_range.
      rewrite N.mod_small by exact Hlt. lia.
    + unfold digits_value. simpl. rewrite N.mod_small by exact Hlt. lia.
  - assert (Hpow : (2 ^ N.of_nat (S fuel) = 2 * 2 ^ N.of_nat fuel)%N).
    { rewrite Nat2N.inj_succ, N.pow_succ_r'. reflexivity. }
    assert (Hdiv : (n / 10 < 2 ^ N.of_nat fuel)%N).
    { apply N.Div0.div_lt_upper_bound; lia. }
    assert (Hf1 : (1 <= fuel)%nat).
    { destruct fuel; [|lia]. simpl in Hn. lia. }
    destruct (IH (n / 10)%N ((48 + n mod 10)%N :: rest) Hf1 Hdiv)
      as (ds & Hrun & Hne & Hall & Hval).
    exists (ds ++ [(48 + n mod 10)%N]). split; [|split; [|split]].
    + rewrite Hrun, <- app_assoc. reflexivity.
    + destruct ds; discriminate.
    + apply Forall_app. split; [exact Hall|].
      constructor; [|constructor]. apply ascii_digit_range.
      pose proof (N.mod_lt n 10 ltac:(lia)) as Hm.
      generalize dependent (n mod 10)%N. intros; lia.
    + unfold digits_value in *. rewrite fold_left_app, Hval. simpl.
      pose proof (N.div_mod n 10 ltac:(lia)) as Hm. clear -Hm.
      generalize dependent (n mod 10)%N. generalize dependent (n / 10)%N.
      intros; lia.
Qed.

(** The decimal text of a natural number: ASCII digits, at least one, with
    the number as their value. *)
Lemma str_of_N_spec (n : N) :
  str_of_N n <> []
  /\ Forall (fun c => is_ascii_digit c = true) (str_of_N n)
  /\ digits_value (str_of_N n) = n.
Proof.
  unfold str_of_N.
  destruct (dec_digits_spec (S (N.to_nat (N.log2 n))) n []) as (ds & Hrun & H).
  - lia.
  - rewrite Nat2N.inj_succ, N2Nat.id.
    destruct (N.eq_dec n 0%N) as [->|Hn]; [reflexivity|].
    apply N.log2_spec. lia.
  - rewrite Hrun, app_nil_r. exact H.
Qed.

(** [int] reads a string of ASCII digits as its value, unless it is too
    long. *)
Lemma py_int_digits (ds : str) :
  ds <> [] -> Forall (fun c => is_ascii_digit c = true) ds ->
  py_int ds
  = if (MAX_STR_DIGITS <? length ds)%nat then None
    else Some (Z.of_N (digits_value ds)).
Proof.
  intros Hne Hall. unfold py_int.
  destruct ds as [|c ds']; [contradiction|].
  assert (Hc : is_ascii_digit c = true) by (inversion Hall; assumption).
  apply ascii_digit_range in Hc.
  assert (H1 : (c =? ch "-")%N = false).
  { apply N.eqb_neq. change (ch "-") with 45%N. lia. }
  assert (H2 : (c =? ch "+")%N = false).
  { apply N.eqb_neq. change (ch "+") with 43%N. lia. }
  rewrite H1, H2.
  rewrite (int_digits_ascii (c :: ds') Hall) by (left; discriminate).
  reflexivity.
Qed.

(** [int] reads a minus sign and ASCII digits as a number that is not
    positive. *)
Lemma py_int_minus_digits (ds : str) (v : Z) :
  Forall (fun c => is_ascii_digit c = true) ds ->
  py_int (ch "-" :: ds) = Some v -> v <= 0.
Proof.
  intros Hall. unfold py_int. rewrite N.eqb_refl.
  destruct (int_digits 0 0 false ds) as [[val count]|]; [|discriminate].
  destruct (MAX_STR_DIGITS <? count)%nat; [discriminate|].
  intros [= <-]. lia.
Qed.

Lemma py_int_empty : py_int [] = None.
Proof. reflexivity. Qed.

Lemma str_of_Z_nonneg (z : Z) :
  0 <= z -> str_of_Z z = str_of_N (Z.to_N z).
Proof.
  intros H. unfold str_of_Z. destruct (Z.ltb_spec z 0); [lia|reflexivity].
Qed.

Lemma str_of_Z_neg (z : Z) :
  z < 0 -> str_of_Z z = ch "-" :: str_of_N (Z.to_N (- z)).
Proof.
  intros H. unfold str_of_Z. destruct (Z.ltb_spec z 0); [reflexivity|lia].
Qed.

Lemma py_int_str_of_Z (z : Z) :
  0 <= z -> (length (str_of_Z z) <= MAX_STR_DIGITS)%nat ->
  py_int (str_of_Z z) = Some z.
Proof.
  intros Hz Hlen. rewrite str_of_Z_nonneg in * by exact Hz.
  destruct (str_of_N_spec (Z.to_N z)) as (Hne & Hall & Hval).
  rewrite py_int_digits by assumption. rewrite Hval.
  destruct (Nat.ltb_spec MAX_STR_DIGITS (length (str_of_N (Z.to_N z)))); [lia|].
  f_equal. lia.
Qed.

(* ===================================================================== *)
(** ** Selection parsing: range tokens *)
(* ===================================================================== *)

Lemma token_char_cases (c : N) :
  is_token_char c = true <-> (48 <= c <= 57)%N \/ c = 45%N.
Proof.
  unfold is_token_char. rewrite orb_true_iff, ascii_digit_range, N.eqb_eq.
  reflexivity.
Qed.

Lemma token_char_not_space (c : N) :
  is_token_char c = true -> is_space c = false.
Proof.
  rewrite token_char_cases. intros H.
  unfold is_space, in_range.
  repeat (apply orb_false_intro);
    try (apply andb_false_iff; rewrite !N.leb_gt; lia);
    apply N.eqb_neq; lia.
Qed.

Lemma digits_are_token_chars (ds : str) :
  Forall (fun c => is_ascii_digit c = true) ds ->
  Forall (fun c => is_token_char c = true) ds.
Proof.
  intros H. eapply Forall_impl; [exact H|].
  intros c Hc. unfold is_token_char. rewrite Hc. reflexivity.
Qed.

Lemma str_of_Z_token_chars (z : Z) :
  Forall (fun c => is_token_char c = true) (str_of_Z z).
Proof.
  destruct (Z.lt_ge_cases z 0) as [Hz|Hz].
  - rewrite str_of_Z_neg by exact Hz. constructor; [reflexivity|].
    apply digits_are_token_chars, str_of_N_spec.
  - rewrite str_of_Z_nonneg by exact Hz.
    apply digits_are_token_chars, str_of_N_spec.
Qed.

Lemma range_token_chars (a b : Z) :
  Forall (fun c => is_token_char c = true) (range_token a b).
Proof.
  unfold range_token. apply Forall_app. split; [apply str_of_Z_token_chars|].
  apply Forall_app. split; [|apply str_of_Z_token_chars].
  constructor; [reflexivity|constructor].
Qed.

(** Text made of digits and minus signs has nothing for [strip] to take. *)
Lemma strip_token_chars (s : str) :
  Forall (fun c => is_token_char c = true) s -> strip s = s.
Proof.
  intros Hall. apply strip_by_id; intros c Hc; apply token_char_not_space.
  - destruct s as [|x s']; [discriminate|]. injection Hc as <-.
    inversion Hall; assumption.
  - rewrite List.Forall_forall in Hall. apply Hall.
    apply list_elem_of_In. apply last_Some_elem_of. exact Hc.
Qed.

Lemma split_on_no_sep (sep : N) (s : str) :
  Forall (fun c => c <> sep) s -> split_on sep s = [s].
Proof.
  induction 1 as [|c s Hc Hs IH]; [reflexivity|].
  cbn [split_on]. apply N.eqb_neq in Hc. rewrite Hc, IH. reflexivity.
Qed.

Lemma split_once_first (sep : N) (x y : str) :
  Forall (fun c => c <> sep) x ->
  split_once sep (x ++ sep :: y) = Some (x, y).
Proof.
  induction 1 as [|c x Hc Hx IH]; cbn [split_once app].
  - rewrite N.eqb_refl. reflexivity.
  - apply N.eqb_neq in Hc. rewrite Hc, IH. reflexivity.
Qed.

Lemma in_chars_middle (x y : str) (c : N) :
  in_chars (x ++ c :: y) c = true.
Proof.
  unfold in_chars. rewrite existsb_app. simpl. rewrite N.eqb_refl.
  apply orb_true_iff. right. reflexivity.
Qed.

(** The endpoints of a range, the smaller one first. *)
Lemma ordered_pair_sym (u v : Z) (n : Z) (out : gset Z) :
  (let '(start, stop) := if v <? u then (v, u) else (u, v) in
   add_range start stop n out)
  = (let '(start, stop) := if u <? v then (u, v) else (v, u) in
     add_range start stop n out).
Proof.
  destruct (Z.ltb_spec v u), (Z.ltb_spec u v); try reflexivity; try lia.
  assert (u = v) by lia. subst. reflexivity.
Qed.

(** A part [x-y] of digits and minus signs whose [x] holds no minus
    sign. *)
Lemma selection_part_dash (x y : str) (n : Z) (out : gset Z) :
  Forall (fun c => is_token_char c = true) (x ++ 45%N :: y) ->
  Forall (fun c => c <> 45%N) x ->
  selection_part (x ++ 45%N :: y) n out
  = match py_int x, py_int y with
    | Some start, Some stop =>
        let '(start, stop) :=
          if stop <? start then (stop, start) else (start, stop) in
        add_range start stop n out
    | _, _ => out
    end.
Proof.
  intros Hall Hx. unfold selection_part.
  rewrite (strip_token_chars _ Hall).
  destruct (str_eqb (x ++ 45%N :: y) []) eqn:E.
  { apply str_eqb_nil in E. destruct x; discriminate. }
  change (ch "-") with 45%N.
  rewrite in_chars_middle, (split_once_first 45 x y Hx).
  apply Forall_app in Hall. destruct Hall as [Hax Hay].
  inversion Hay as [|? ? _ Hay']; subst.
  rewrite (strip_token_chars x Hax), (strip_token_chars y Hay').
  reflexivity.
Qed.

(** A selection that is one part of digits and minus signs. *)
Lemma parse_selection_one_part (s : str) (n : Z) :
  s <> [] -> Forall (fun c => is_token_char c = true) s ->
  parse_selection s n = sorted_ints (selection_part s n ∅).
Proof.
  intros Hne Hall. unfold parse_selection.
  rewrite (strip_token_chars s Hall).
  destruct (str_eqb s []) eqn:E; [apply str_eqb_nil in E; contradiction|].
  rewrite split_on_no_sep; [reflexivity|].
  eapply Forall_impl; [exact Hall|]. intros c Hc.
  apply token_char_cases in Hc. change (ch ",") with 44%N. lia.
Qed.

Lemma digits_no_minus (ds : str) :
  Forall (fun c => is_ascii_digit c = true) ds ->
  Forall (fun c => c <> 45%N) ds.
Proof.
  intros H. eapply Forall_impl; [exact H|].
  intros c Hc. apply ascii_digit_range in Hc. lia.
Qed.

Lemma range_token_nonempty (a b : Z) : range_token a b <> [].
Proof.
  unfold range_token. destruct (str_of_Z a); discriminate.
Qed.

(** What a range token selects: nothing when its text starts with a minus
    sign, and else the range between the two numbers [int] reads, the
    smaller one first. *)
Lemma parse_selection_range_token (a b n : Z) :
  parse_selection (range_token a b) n
  = sorted_ints
      (if a <? 0 then ∅
       else match py_int (str_of_Z a), py_int (str_of_Z b) with
            | Some start, Some stop =>
                let '(start, stop) :=
                  if stop <? start then (stop, start) else (start, stop) in
                add_range start stop n ∅
            | _, _ => ∅
            end).
Proof.
  rewrite parse_selection_one_part
    by (apply range_token_nonempty || apply range_token_chars).
  f_equal. pose proof (range_token_chars a b) as Hall. revert Hall.
  unfold range_token. change (lit "-") with [45%N].
  destruct (Z.ltb_spec a 0) as [Ha|Ha]; intros Hall.
  - rewrite str_of_Z_neg in * by exact Ha.
    change (selection_part ([] ++ 45%N :: (str_of_N (Z.to_N (- a)) ++ [45%N] ++ str_of_Z b)) n ∅ = ∅).
    rewrite selection_part_dash; [reflexivity | exact Hall | constructor].
  - change (str_of_Z a ++ [45%N] ++ str_of_Z b)
      with (str_of_Z a ++ 45%N :: str_of_Z b) in *.
    rewrite selection_part_dash; [reflexivity | exact Hall |].
    rewrite str_of_Z_nonneg by exact Ha.
    apply digits_no_minus, str_of_N_spec.
Qed.

Lemma add_range_nothing (start stop n : Z) :
  stop < 1 -> add_range start stop n ∅ = ∅.
Proof.
  intros H. apply set_eq. intros x. rewrite elem_of_add_range.
  split; [intros [Hx|Hx]; [lia|exact Hx] | intros Hx; right; exact Hx].
Qed.

(** C9 (amended). For all integers [a > b] of which the smaller is not
    negative (or the greater is not positive, or the list is empty), the
    token [a-b] selects what [b-a] selects; with a negative [b] and a
    positive [a] the token [b-a] starts with a minus sign and is ignored.
    When both numbers are within the digit limit of [int], the indices
    selected are those of [b..a] within [1..n]. For every selection string
    the result is strictly ascending (sorted, without repetitions) and
    within [1..n]. *)
Theorem parse_selection_ranges (a b n : Z) (sel : str) :
  b < a -> 0 <= b \/ a <= 0 \/ n <= 0 ->
  parse_selection (range_token a b) n = parse_selection (range_token b a) n
  /\ (0 <= b ->
      (length (str_of_Z a) <= MAX_STR_DIGITS)%nat ->
      (length (str_of_Z b) <= MAX_STR_DIGITS)%nat ->
      forall x, x ∈ parse_selection (range_token a b) n
                <-> b <= x <= a /\ 1 <= x <= n)
  /\ StronglySorted Z.lt (parse_selection sel n)
  /\ (forall x, x ∈ parse_selection sel n -> 1 <= x <= n).
Proof.
  intros Hab Hdom. split; [|split; [|split]].
  - destruct Hdom as [Hb|[Ha|Hn]].
    + rewrite !parse_selection_range_token. f_equal.
      destruct (Z.ltb_spec a 0); [lia|]. destruct (Z.ltb_spec b 0); [lia|].
      destruct (py_int (str_of_Z a)) as [u|], (py_int (str_of_Z b)) as [v|];
        try reflexivity.
      apply ordered_pair_sym.
    + rewrite !parse_selection_range_token. f_equal.
      destruct (Z.ltb_spec b 0); [|lia].
      destruct (Z.ltb_spec a 0); [reflexivity|].
      assert (a = 0) by lia. subst a.
      change (py_int (str_of_Z 0)) with (Some 0).
      destruct (py_int (str_of_Z b)) as [v|] eqn:E; [|reflexivity].
      rewrite str_of_Z_neg in E by lia.
      apply py_int_minus_digits in E; [|apply str_of_N_spec].
      destruct (Z.ltb_spec v 0); apply add_range_nothing; lia.
    + rewrite !parse_selection_nothing by exact Hn. reflexivity.
  - intros Hb Hla Hlb x. rewrite parse_selection_range_token.
    destruct (Z.ltb_spec a 0); [lia|].
    rewrite !py_int_str_of_Z by (assumption || lia).
    destruct (Z.ltb_spec b a); [|lia].
    rewrite elem_of_sorted_ints, elem_of_add_range.
    split; [intros [Hx|Hx]; [exact Hx | apply elem_of_empty in Hx; contradiction]
           | intros Hx; left; exact Hx].
  - apply parse_selection_strictly.
  - intros x. apply parse_selection_bounds.
Qed.

(** Witness of C9: the reversed range [6-4] and the selection of the
    scenario, on a list of six. *)
Lemma parse_selection_ranges_witness :
  parse_selection (range_token 6 4) 6 = parse_selection (range_token 4 6) 6
  /\ (forall x, x ∈ parse_selection (range_token 6 4) 6
                <-> 4 <= x <= 6 /\ 1 <= x <= 6)
  /\ StronglySorted Z.lt (parse_selection (lit "2,4-6,99") 6).
Proof.
  destruct (parse_selection_ranges 6 4 6 (lit "2,4-6,99")) as (H1 & H2 & H3 & _).
  - lia.
  - left. lia.
  - split; [exact H1|]. split; [|exact H3].
    apply H2; [lia | vm_compute; lia | vm_compute; lia].
Defined.

(** C9 (as stated) fails for a negative lower end: the reversed token
    [3--5] selects 1 to 3 of a list of six (its ends are swapped), while
    [-5-3] starts with the separator, has no number in front of it, and is
    ignored. *)
Lemma reversed_range_with_negative_end :
  range_token 3 (-5) = lit "3--5" /\ range_token (-5) 3 = lit "-5-3"
  /\ parse_selection (range_token 3 (-5)) 6 = [1; 2; 3]
  /\ parse_selection (range_token (-5) 3) 6 = [].
Proof. vm_compute. repeat split; reflexivity. Qed.

(* ===================================================================== *)
(** ** Sitemap probe: one level of recursion *)
(* ===================================================================== *)

Lemma only_requests_refl (P : str -> Prop) (st : State) :
  only_requests P st st.
Proof.
  split; [|repeat split]. exists []. rewrite app_nil_r. split; constructor.
Qed.

Lemma only_requests_trans (P : str -> Prop) (st1 st2 st3 : State) :
  only_requests P st1 st2 -> only_requests P st2 st3 ->
  only_requests P st1 st3.
Proof.
  intros [(e1 & Hr1 & Hp1) (Hd1 & Hf1 & Hi1)] [(e2 & Hr2 & Hp2) (Hd2 & Hf2 & Hi2)].
  split; [|repeat split; congruence].
  exists (e1 ++ e2). split.
  - rewrite Hr2, Hr1, app_assoc. reflexivity.
  - apply Forall_app. split; assumption.
Qed.

Lemma only_requests_weaken (P Q : str -> Prop) (st st' : State) :
  (forall u, P u -> Q u) -> only_requests P st st' -> only_requests Q st st'.
Proof.
  intros HPQ [(e & Hr & Hp) Hrest]. split; [|exact Hrest].
  exists e. split; [exact Hr|].
  eapply Forall_impl; [exact Hp|]. intros req. apply HPQ.
Qed.

(** In a static world a fetch gives what the first request gives, and asks
    for nothing but its URL. *)
Lemma fetch_default_static (w : World) (url : str) (st : State) :
  only_exceptions w -> static_world w ->
  exists st',
    fetch_default w url st = (Ret (static_fetch w url), st')
    /\ only_requests (fun u => u = url) st st'.
Proof.
  intros Hexc Hstatic. unfold fetch_default, fetch.
  destruct (fetch_loop_spec w url TIMEOUT_SEC
              (fun m e => Hexc m url TIMEOUT_SEC e)
              (Z.to_nat (2 + 1)) 0 st)
    as (r & k & st' & Hrun & Hk & Hreq & Hd & Hf & Hin & Hr).
  exists st'. split.
  - rewrite Hrun. do 2 f_equal. unfold static_fetch.
    destruct r as [fr|].
    + destruct Hr as (_ & _ & _ & resp & Hresp & ->).
      rewrite (Hstatic 0%nat (length (st_requests st) + (k - 1))%nat), Hresp.
      reflexivity.
    + destruct Hr as (-> & _ & Hall).
      destruct (Hall 0%nat) as [e He]; [simpl; lia|].
      rewrite (Hstatic 0%nat (length (st_requests st) + 0)%nat), He.
      reflexivity.
  - split; [|repeat split; assumption].
    exists (repeat (url, TIMEOUT_SEC) k). split; [exact Hreq|].
    apply Forall_forall. intros req Hreq'.
    apply list_elem_of_In, repeat_spec in Hreq'. subst req. reflexivity.
Qed.

Lemma usable_Some (r : option FetchResult) (fr : FetchResult) :
  usable r = Some fr ->
  r = Some fr /\ fr_status fr = 200 /\ fr_body fr <> [].
Proof.
  destruct r as [fr'|]; [|discriminate]. cbn [usable].
  destruct (negb (fr_status fr' =? 200) || str_eqb (fr_body fr') []) eqn:E;
    [discriminate|].
  intros [= <-]. apply orb_false_iff in E. destruct E as [E1 E2].
  apply negb_false_iff, Z.eqb_eq in E1. repeat split; [exact E1|].
  intros H. rewrite H in E2. discriminate E2.
Qed.

(** *** The tree walk against the words of the protocol *)

Lemma findall_elem (tag : str) (e c : Element) :
  c ∈ findall tag e <-> c ∈ el_children e /\ el_tag c = tag.
Proof.
  unfold findall. rewrite list_elem_of_filter, str_eqb_eq. tauto.
Qed.

Lemma head_filter_first {A} (P : A -> Prop) `{Hdec : !forall x, Decision (P x)}
    (l : list A) (c : A) :
  head (filter P l) = Some c
  <-> exists before after,
        l = before ++ c :: after /\ P c /\ Forall (fun b => ~ P b) before.
Proof.
  induction l as [|x l IH].
  - split; [discriminate|]. intros (before & after & H & _).
    destruct before; discriminate.
  - destruct (decide (P x)) as [Hx|Hx].
    + rewrite filter_cons_True by exact Hx. cbn [head]. split.
      * intros [= ->]. exists [], l. repeat split; [exact Hx|constructor].
      * intros (before & after & Hl & Hc & Hb).
        destruct before as [|b before]; [injection Hl as -> _; reflexivity|].
        injection Hl as -> _. apply Forall_cons in Hb. tauto.
    + rewrite filter_cons_False by exact Hx. rewrite IH. split.
      * intros (before & after & -> & Hc & Hb).
        exists (x :: before), after. repeat split; [exact Hc|].
        constructor; assumption.
      * intros (before & after & Hl & Hc & Hb).
        destruct before as [|b before]; [injection Hl as -> _; contradiction|].
        injection Hl as _ ->. apply Forall_cons in Hb.
        exists before, after. tauto.
Qed.

Lemma find_first_child (tag : str) (e c : Element) :
  find tag e = Some c <-> first_child tag e c.
Proof.
  unfold find, findall, first_child. rewrite head_filter_first.
  split; intros (before & after & Hl & Hc & Hb); exists before, after;
    (split; [exact Hl|]); split.
  - apply str_eqb_eq, Hc.
  - eapply Forall_impl; [exact Hb|]. intros b Hn Ht. apply Hn, str_eqb_eq, Ht.
  - apply str_eqb_eq, Hc.
  - eapply Forall_impl; [exact Hb|]. intros b Hn Ht. apply Hn, str_eqb_eq, Ht.
Qed.

Lemma startswith_brace (s : str) :
  startswith (lit "{") s = true <-> head s = Some (ch "{").
Proof.
  change (lit "{") with [ch "{"]. destruct s as [|c s]; cbn [startswith head].
  - split; discriminate.
  - rewrite andb_true_r, N.eqb_eq. split; [intros <-; reflexivity|].
    intros [= ->]. reflexivity.
Qed.

(** The namespace the script takes from the tag of a root is the
    namespace of the tag. *)
Lemma ns_of_in_namespace (ns : str) (e : Element) :
  in_namespace ns (el_tag e) -> ns_of e = ns.
Proof.
  intros (local & Htag & [[-> Hh]|(uri & -> & Huri)]); unfold ns_of;
    rewrite Htag.
  - cbn [app]. destruct (startswith (lit "{") local) eqn:E; [|reflexivity].
    apply startswith_brace in E. contradiction.
  - assert (E : startswith (lit "{") ((ch "{" :: uri ++ [ch "}"]) ++ local)
                = true) by (apply startswith_brace; reflexivity).
    rewrite E.
    replace ((ch "{" :: uri ++ [ch "}"]) ++ local)
      with ((ch "{" :: uri) ++ ch "}" :: local)
      by (cbn [app]; rewrite <- app_assoc; reflexivity).
    rewrite split_once_first.
    + reflexivity.
    + constructor; [discriminate|exact Huri].
Qed.

Lemma in_namespace_unique (ns ns' : str) (e : Element) :
  in_namespace ns (el_tag e) -> in_namespace ns' (el_tag e) -> ns = ns'.
Proof.
  intros H H'. rewrite <- (ns_of_in_namespace ns e H).
  apply ns_of_in_namespace, H'.
Qed.

Lemma strip_nil : strip [] = [].
Proof. reflexivity. Qed.

(** The entries the loop over the [<url>] children collects are the
    [<url><loc>] entries of the document. *)
Lemma url_locs_entries (ns : str) (doc : Element) (t : str) :
  in_namespace ns (el_tag doc) ->
  t ∈ url_locs (ns_of doc) doc <-> url_entry doc t.
Proof.
  intros Hns. rewrite (ns_of_in_namespace ns doc Hns).
  unfold url_locs. rewrite list_elem_of_In, in_flat_map. split.
  - intros (uel & Huel & Ht).
    apply list_elem_of_In, findall_elem in Huel. destruct Huel as [Hin Htag].
    destruct (find (ns ++ lit "loc") uel) as [loc|] eqn:Ef; [|destruct Ht].
    destruct (el_text loc) as [text|] eqn:Et; [|destruct Ht].
    destruct (str_eqb text []) eqn:Ee; [destruct Ht|].
    destruct Ht as [<-|[]].
    exists ns, uel, loc, text. repeat split; try assumption.
    + apply find_first_child, Ef.
    + intros ->. discriminate.
  - intros (ns' & uel & loc & text & Hns' & Hin & Htag & Hloc & Ht & Hne & ->).
    rewrite <- (in_namespace_unique ns ns' doc Hns Hns') in Htag, Hloc.
    exists uel. split.
    + apply list_elem_of_In, findall_elem. split; assumption.
    + apply find_first_child in Hloc. rewrite Hloc, Ht.
      destruct (str_eqb text []) eqn:Ee.
      * apply str_eqb_nil in Ee. contradiction.
      * left. reflexivity.
Qed.

(** [get_loc] of a member gives its location, and the empty text when it
    has none. *)
Lemma get_loc_member (ns : str) (sm : Element) (u : str) :
  u <> [] ->
  get_loc ns sm = u
  <-> exists loc text,
        first_child (ns ++ lit "loc") sm loc
        /\ el_text loc = Some text /\ u = strip text.
Proof.
  intros Hu. unfold get_loc. split.
  - destruct (find (ns ++ lit "loc") sm) as [loc|] eqn:Ef.
    + intros <-. destruct (el_text loc) as [text|] eqn:Et.
      * exists loc, text. split; [apply find_first_child, Ef|].
        split; [exact Et|reflexivity].
      * contradiction Hu. reflexivity.
    + intros <-. contradiction Hu. reflexivity.
  - intros (loc & text & Hloc & Ht & ->).
    apply find_first_child in Hloc. rewrite Hloc, Ht. reflexivity.
Qed.

(** What one round of the index loop gives is what the protocol says of
    the member: the entries of the document at its location. *)
Lemma static_sub_locs_entries (w : World) (ns : str) (sm : Element) (t : str) :
  clark_documents w ->
  t ∈ static_sub_locs w ns sm
  <-> exists leaf,
        get_loc ns sm <> [] /\ sitemap_at w (get_loc ns sm) leaf
        /\ url_entry leaf t.
Proof.
  intros Hclark. unfold static_sub_locs, static_fetch, sitemap_at.
  destruct (str_eqb (get_loc ns sm) []) eqn:Eloc.
  { apply str_eqb_nil in Eloc. split; [intros H; inversion H|].
    intros (leaf & Hne & _). contradiction. }
  assert (Hne : get_loc ns sm <> []).
  { intros H. apply str_eqb_nil in H. congruence. }
  destruct (urlopen w 0 (get_loc ns sm) TIMEOUT_SEC) as [resp|e] eqn:Eopen.
  2:{ cbn [usable]. split; [intros H; inversion H|].
      intros (leaf & _ & (resp & [=] & _) & _). }
  set (fr := read_response w (get_loc ns sm) resp).
  destruct (usable (Some fr)) as [fr'|] eqn:Eus.
  - apply usable_Some in Eus. destruct Eus as ([= <-] & Hst & Hbody).
    destruct (xml_fromstring w _) as [leaf|] eqn:Exml.
    + destruct (Hclark _ _ Exml) as [lns Hlns].
      rewrite (url_locs_entries lns leaf t Hlns). split.
      * intros Ht. exists leaf. split; [exact Hne|]. split; [|exact Ht].
        exists resp. repeat split; assumption.
      * intros (leaf' & _ & (resp' & [= <-] & _ & _ & Hx) & Ht).
        fold fr in Hx. rewrite Exml in Hx. injection Hx as <-. exact Ht.
    + split; [intros H; inversion H|].
      intros (leaf' & _ & (resp' & [= <-] & _ & _ & Hx) & _).
      fold fr in Hx. rewrite Exml in Hx. discriminate.
  - split; [intros H; inversion H|].
    intros (leaf' & _ & (resp' & [= <-] & Hst & Hbody & _) & _).
    fold fr in Hst, Hbody. cbn [usable] in Eus.
    apply Z.eqb_eq in Hst. rewrite Hst in Eus. cbn [negb orb] in Eus.
    destruct (str_eqb (fr_body fr) []) eqn:Eb; [|discriminate].
    apply str_eqb_nil in Eb. contradiction.
Qed.

Lemma startswith_self_app (p s : str) : startswith p (p ++ s) = true.
Proof.
  induction p as [|x p IH]; [reflexivity|]. cbn [startswith app].
  rewrite N.eqb_refl. exact IH.
Qed.

Lemma endswith_app (a p : str) : endswith p (a ++ p) = true.
Proof. unfold endswith. rewrite rev_app_distr. apply startswith_self_app. Qed.

(** The locations of the members of an index are what [get_loc] gives
    for its [<sitemap>] children, the empty ones left out. *)
Lemma member_loc_get_loc (ns : str) (index : Element) (u : str) :
  member_loc ns index u
  <-> exists sm,
        sm ∈ findall (ns ++ lit "sitemap") index
        /\ u = get_loc ns sm /\ u <> [].
Proof.
  unfold member_loc. split.
  - intros (sm & loc & text & Hin & Htag & Hloc & Ht & Hu & Hne).
    exists sm. split; [apply findall_elem; split; assumption|].
    split; [|exact Hne]. symmetry. apply get_loc_member; [exact Hne|].
    exists loc, text. repeat split; assumption.
  - intros (sm & Hin & Hu & Hne). apply findall_elem in Hin.
    destruct Hin as [Hin Htag]. symmetry in Hu.
    apply get_loc_member in Hu; [|exact Hne].
    destruct Hu as (loc & text & Hloc & Ht & Hu).
    exists sm, loc, text. repeat split; assumption.
Qed.

(** One member of an index: the value of the round, and requests for its
    location only. *)
Lemma sub_sitemap_locs_static (w : World) (ns : str) (sm : Element) (st : State) :
  only_exceptions w -> static_world w ->
  exists st',
    sub_sitemap_locs w ns sm st = (Ret (static_sub_locs w ns sm), st')
    /\ only_requests (fun u => u = get_loc ns sm /\ u <> []) st st'.
Proof.
  intros Hexc Hstatic. unfold sub_sitemap_locs, static_sub_locs.
  destruct (str_eqb (get_loc ns sm) []) eqn:Eloc.
  - exists st. split; [reflexivity | apply only_requests_refl].
  - destruct (fetch_default_static w (get_loc ns sm) st Hexc Hstatic)
      as (st' & Hrun & Hreq).
    exists st'. split.
    + unfold bind. rewrite Hrun.
      destruct (usable (static_fetch w (get_loc ns sm))) as [fr|]; [|reflexivity].
      unfold try_except, bind, lift, ret, raise.
      rewrite decode_bytes_value.
      destruct (xml_fromstring w _); reflexivity.
    + eapply only_requests_weaken; [|exact Hreq].
      intros u ->. split; [reflexivity|].
      intros H. apply str_eqb_nil in H. congruence.
Qed.

Lemma index_locs_static (w : World) (ns : str) (sms : list Element) :
  only_exceptions w -> static_world w ->
  forall st,
  exists st',
    index_locs w ns sms st = (Ret (flat_map (static_sub_locs w ns) sms), st')
    /\ only_requests
         (fun u => exists sm, sm ∈ sms /\ u = get_loc ns sm /\ u <> []) st st'.
Proof.
  intros Hexc Hstatic. induction sms as [|sm sms IH]; intros st.
  - exists st. split; [reflexivity | apply only_requests_refl].
  - destruct (sub_sitemap_locs_static w ns sm st Hexc Hstatic)
      as (st1 & Hrun1 & Hreq1).
    destruct (IH st1) as (st2 & Hrun2 & Hreq2).
    exists st2. split.
    + cbn [index_locs]. unfold bind at 1. rewrite Hrun1.
      unfold bind at 1. rewrite Hrun2. reflexivity.
    + eapply only_requests_trans.
      * eapply only_requests_weaken; [|exact Hreq1].
        intros u Hu. exists sm. split; [left|exact Hu].
      * eapply only_requests_weaken; [|exact Hreq2].
        intros u (sm' & Hin & Hu). exists sm'. split; [right; exact Hin|exact Hu].
Qed.


Lemma table_world_static pages xml_docs html_docs :
  static_world (table_world pages xml_docs html_docs).
Proof. intros n m url timeout. reflexivity. Qed.

Lemma table_world_only_exceptions pages xml_docs html_docs :
  only_exceptions (table_world pages xml_docs html_docs).
Proof.
  intros n url timeout e. simpl.
  destruct (table_get url pages); intros [= <-]. reflexivity.
Qed.

Lemma table_world_clark pages xml_docs html_docs :
  Forall (fun d => exists ns, in_namespace ns (el_tag (snd d))) xml_docs ->
  clark_documents (table_world pages xml_docs html_docs).
Proof.
  intros Hall body doc. cbn [xml_fromstring table_world].
  induction Hall as [|[k d] docs Hd _ IH]; cbn [table_get]; [discriminate|].
  destruct (str_eqb k body); [|exact IH].
  intros [= <-]. exact Hd.
Qed.

Lemma sitemap_ns_tag (local : string) :
  in_namespace (lit sitemap_ns) (lit (sitemap_ns ++ local)).
Proof.
  exists (lit local). split.
  - unfold lit. rewrite <- map_app. reflexivity.
  - right. exists (lit "http://www.sitemaps.org/schemas/sitemap/0.9").
    split; [reflexivity|].
    apply Forall_forall. intros c Hc. apply list_elem_of_In in Hc.
    intros ->. vm_compute in Hc. intuition discriminate.
Qed.

Lemma ns_nested_index_world_clark : clark_documents ns_nested_index_world.
Proof.
  apply table_world_clark. repeat constructor;
    exists (lit sitemap_ns); apply sitemap_ns_tag.
Qed.


(** A document without [<url>] children, as a sitemap index is, has no
    entries. *)
Lemma url_locs_without_urls (leaf : Element) :
  findall (ns_of leaf ++ lit "url") leaf = [] ->
  url_locs (ns_of leaf) leaf = [].
Proof. intros H. unfold url_locs. rewrite H. reflexivity. Qed.

(** An element that is no [<url>], such as a nested [<sitemapindex>],
    adds nothing to the entries of the document that holds it. *)
Lemma url_locs_skips_other_children (ns tag : str) (text : option str)
    (before after : list Element) (nested : Element) :
  el_tag nested <> ns ++ lit "url" ->
  url_locs ns (Elem tag text (before ++ nested :: after))
  = url_locs ns (Elem tag text (before ++ after)).
Proof.
  intros Hne. unfold url_locs, findall. cbn [el_children].
  rewrite !filter_app, filter_cons_False; [reflexivity|].
  intros H. apply str_eqb_eq in H. contradiction.
Qed.

(** The same run through [fetch_sitemap_urls]: the pages of the documents
    the nested index points to are not among the result, and those
    documents are not requested. *)
Example nested_index_not_followed :
  exists st',
    fetch_sitemap_urls nested_index_world (lit "https://example.com")
      (init_state [])
    = (Ret [lit "https://example.com/page-a"], st')
    /\ map fst (st_requests st')
       = [lit "https://example.com/sitemap.xml";
          lit "https://example.com/a.xml";
          lit "https://example.com/nested.xml"].
Proof. eexists. split; vm_compute; reflexivity. Qed.

(* ===================================================================== *)
(** ** Host and path filter of the discovery strategies *)
(* ===================================================================== *)

(** The manifest scan keeps a URL only when its host is the base host and
    its path is the base path or extends it at a slash. *)
Lemma manifest_candidate_filtered (w : World)
    (base_url base_host base_prefix raw u : str) :
  manifest_candidate w base_url base_host base_prefix raw = Ret (Some u) ->
  exists parts,
    u = urlunsplit (mkSplit (scheme parts) (netloc parts) (path parts)
                            (query parts) [])
    /\ netloc parts = base_host
    /\ under_prefix base_prefix (path parts) = true.
Proof.
  unfold manifest_candidate.
  set (u0 := strip_chars (lit ".,;:") (strip raw)).
  destruct (startswith (lit "/") u0).
  - destruct (urljoin w base_url u0) as [joined|e]; simpl; [|discriminate].
    destruct (urlsplit w joined) as [parts|[]]; try discriminate.
    destruct (negb (str_eqb (netloc parts) base_host)) eqn:Eh; [discriminate|].
    destruct (negb (under_prefix base_prefix (path parts))) eqn:Ep; [discriminate|].
    intros [= <-]. exists parts. split; [reflexivity|].
    apply negb_false_iff in Eh, Ep. apply str_eqb_eq in Eh. split; assumption.
  - destruct (negb (startswith (lit "http://") u0 || startswith (lit "https://") u0));
      simpl; [discriminate|].
    destruct (urlsplit w u0) as [parts|[]]; try discriminate.
    destruct (negb (str_eqb (netloc parts) base_host)) eqn:Eh; [discriminate|].
    destruct (negb (under_prefix base_prefix (path parts))) eqn:Ep; [discriminate|].
    intros [= <-]. exists parts. split; [reflexivity|].
    apply negb_false_iff in Eh, Ep. apply str_eqb_eq in Eh. split; assumption.
Qed.

(** What the filter of the sitemap probe does test: the host of the base,
    and the base path as a plain prefix of the path, with no boundary. *)
Lemma filter_sitemap_urls_sound (w : World) (base_norm base_path : str)
    (urls : list str) :
  forall (seen : gset str) (out pages : list str),
  filter_sitemap_urls w base_norm base_path urls seen out = Ret pages ->
  forall u, u ∈ pages ->
    u ∈ out
    \/ exists pu pb,
         urlsplit w u = Ret pu /\ urlsplit w base_norm = Ret pb
         /\ netloc pu = netloc pb
         /\ (base_path = [] \/ startswith base_path (path pu) = true).
Proof.
  induction urls as [|raw urls IH]; intros seen out pages Hrun u Hu.
  - injection Hrun as <-. left. exact Hu.
  - cbn [filter_sitemap_urls] in Hrun.
    destruct (str_eqb (normalize_url raw) []); [eapply IH; eassumption|].
    destruct (urlsplit w (normalize_url raw)) as [pu|e] eqn:Eu; [|discriminate].
    destruct (urlsplit w base_norm) as [pb|e] eqn:Eb; [|discriminate].
    simpl in Hrun.
    destruct (negb (str_eqb (netloc pu) (netloc pb))) eqn:Eh;
      [eapply IH; eassumption|].
    destruct (negb (str_eqb base_path []) && negb (startswith base_path (path pu)))
      eqn:Ep; [eapply IH; eassumption|].
    destruct (bool_decide (normalize_url raw ∈ seen)); [eapply IH; eassumption|].
    destruct (IH _ _ _ Hrun u Hu) as [Hin|Hok]; [|right; exact Hok].
    apply elem_of_app in Hin. destruct Hin as [Hin|Hin]; [left; exact Hin|].
    apply list_elem_of_singleton in Hin. subst u. right.
    exists pu, pb. split; [exact Eu|]. split; [reflexivity|]. split.
    + apply negb_false_iff, str_eqb_eq in Eh. exact Eh.
    + apply andb_false_iff in Ep. destruct Ep as [Ep|Ep].
      * left. apply negb_false_iff, str_eqb_eq in Ep. exact Ep.
      * right. apply negb_false_iff in Ep. exact Ep.
Qed.

(** A plain prefix is less than a prefix at a segment boundary. *)
Example prefix_without_boundary :
  startswith (lit "/docs") (lit "/docs-old/x") = true
  /\ under_prefix (lit "/docs") (lit "/docs-old/x") = false.
Proof. split; reflexivity. Qed.

(** C1 at a failing input. With base [https://example.com/docs], a sitemap
    entry and a navigation link for [/docs-old/x] are returned as pages,
    and discovery returns them, though the path [/docs-old/x] is neither
    [/docs] nor under [/docs/]; the manifest scan drops the same link. *)
Theorem sibling_directory_passes_filter :
  (exists st',
     fetch_sitemap_urls sibling_world (lit "https://example.com/docs")
       (init_state [])
     = (Ret [lit "https://example.com/docs-old/x"], st'))
  /\ (exists st',
        discover_pages sibling_world (lit "https://example.com/docs")
          (init_state [])
        = (Ret (lit "sitemap.xml", [lit "https://example.com/docs-old/x"], []),
           st'))
  /\ (exists parser parser',
        SidebarLinkParser.init nav_world (lit "https://example.com")
                (lit "https://example.com/docs") = Ret parser
        /\ SidebarLinkParser.feed nav_world sibling_nav parser = Ret parser'
        /\ sb_urls parser' = [lit "https://example.com/docs-old/x"])
  /\ urlsplit sibling_world (lit "https://example.com/docs-old/x")
     = Ret (mkSplit (lit "https") (lit "example.com") (lit "/docs-old/x") [] [])
  /\ under_prefix (lit "/docs") (lit "/docs-old/x") = false
  /\ extract_urls_from_llms_txt nav_world (lit "[Old](/docs-old/x)")
       (lit "https://example.com/docs") = Ret [].
Proof.
  split; [eexists; vm_compute; reflexivity|].
  split; [eexists; vm_compute; reflexivity|].
  split; [do 2 eexists; repeat split; vm_compute; reflexivity|].
  repeat split; vm_compute; reflexivity.
Qed.

(* ===================================================================== *)
(** ** Sitemap probe: the candidate that is used *)
(* ===================================================================== *)

(** The candidate loop stops at the first candidate that is fetched with
    status 200 and a body, whatever the body is. *)
Lemma first_sitemap_text_stops (w : World) (s : str) (rest : list str)
    (st st' : State) (fr : FetchResult) :
  fetch_default w s st = (Ret (Some fr), st') ->
  usable (Some fr) = Some fr ->
  first_sitemap_text w (s :: rest) st
  = (Ret (Some (decoded_text w (fr_body fr) (fr_headers fr))), st').
Proof.
  intros Hrun Huse. cbn [first_sitemap_text]. unfold bind at 1.
  rewrite Hrun, Huse. unfold try_except, bind, lift, ret.
  rewrite decode_bytes_value. reflexivity.
Qed.

(** In a static world the probe ends with no page as soon as the first
    candidate is answered with a body that is no XML, whatever the later
    candidates hold: it asks for nothing else. *)
Lemma unparsable_first_candidate (w : World) (base_url root base : str)
    (pb : SplitResult) (fr : FetchResult) (st : State) :
  only_exceptions w -> static_world w ->
  split_root_and_base w base_url = Ret (root, base) ->
  urlsplit w base = Ret pb ->
  usable (static_fetch w (base ++ lit "/sitemap.xml")) = Some fr ->
  parse_sitemap_root w (decoded_text w (fr_body fr) (fr_headers fr)) = None ->
  exists st',
    fetch_sitemap_urls w base_url st = (Ret [], st')
    /\ only_requests (fun u => u = base ++ lit "/sitemap.xml") st st'.
Proof.
  intros Hexc Hstatic Hsplit Hpb Huse Hparse.
  destruct (fetch_default_static w (base ++ lit "/sitemap.xml") st Hexc Hstatic)
    as (st' & Hrun & Hreq).
  exists st'. split; [|exact Hreq].
  unfold fetch_sitemap_urls, bind, lift. rewrite Hsplit, Hpb.
  unfold sitemap_candidates. cbn [first_sitemap_text]. unfold bind at 1.
  rewrite Hrun, Huse. unfold try_except, bind, lift, ret.
  rewrite decode_bytes_value.
  destruct (str_eqb (decoded_text w (fr_body fr) (fr_headers fr)) []);
    [reflexivity|].
  rewrite Hparse. reflexivity.
Qed.

(** C2 at a failing input. The sitemap request under the base path is
    answered with a page that is no XML; the sitemap at the root is valid
    and, alone, gives its page. The probe takes the first answer, fails to
    parse it and returns no page: the root sitemap is never requested. *)
Theorem unparsable_candidate_ends_probe :
  (exists st',
     fetch_sitemap_urls soft404_world (lit "https://example.com/docs")
       (init_state [])
     = (Ret [], st')
     /\ map fst (st_requests st') = [lit "https://example.com/docs/sitemap.xml"])
  /\ (exists st',
        fetch_sitemap_urls root_sitemap_world (lit "https://example.com/docs")
          (init_state [])
        = (Ret [lit "https://example.com/docs/intro"], st')).
Proof.
  split; [eexists; split; vm_compute; reflexivity|].
  eexists; vm_compute; reflexivity.
Qed.

(* ===================================================================== *)
(** ** Heading prefix of the converter *)
(* ===================================================================== *)

(** The guard of [handle_data] looks at the last chunk written; after the
    first text chunk of a heading that chunk is the text, not the prefix,
    so the next chunk gets the prefix again. *)
Lemma heading_prefix_again (p : MarkdownishParser) (level : Z) (l data : str) :
  md_ignore_depth p = 0 -> md_in_pre p = false ->
  md_li_prefix_pending p = false ->
  md_pending_heading p = Some level ->
  last (md_out p) = Some l ->
  startswith (MarkdownishParser.heading_prefix level ++ lit " ") l = false ->
  data <> [] ->
  md_out (MarkdownishParser.handle_data data p)
  = md_out p
    ++ [MarkdownishParser.heading_prefix level ++ lit " ";
        MarkdownishParser.collapse_ws false data].
Proof.
  intros Hd Hpre Hli Hh Hl Hs Hdata. unfold MarkdownishParser.handle_data.
  rewrite Hd. simpl (0 <? 0).
  destruct (str_eqb data []) eqn:E; [apply str_eqb_nil in E; contradiction|].
  rewrite Hh, Hpre, Hl, Hs. simpl. rewrite Hpre, Hli. simpl.
  rewrite <- app_assoc. reflexivity.
Qed.

(** C3 at a failing input. For [<h2>Hello <em>world</em></h2>] the
    heading text arrives in two chunks, and both get the prefix. *)
Theorem heading_prefix_repeated :
  md_out (MarkdownishParser.feed split_heading MarkdownishParser.init)
  = [NL ++ NL; lit "## "; lit "Hello "; lit "## "; lit "world"; NL ++ NL]
  /\ MarkdownishParser.get_text
       (MarkdownishParser.feed split_heading MarkdownishParser.init)
     = lit "## Hello ## world" ++ NL
  /\ html_to_markdownish heading_world (lit "<h2>Hello <em>world</em></h2>")
     = lit "## Hello ## world" ++ NL.
Proof. repeat split; vm_compute; reflexivity. Qed.

(* ===================================================================== *)
(** ** The files a run writes *)
(* ===================================================================== *)

Section Frame.
Context {A B : Type} (P : str -> Prop).

Lemma writes_only_ret (a : A) : writes_only P (ret a).
Proof. intros st r st' [= <- <-] p _. reflexivity. Qed.

Lemma writes_only_raise (e : exn) : writes_only P (@raise A e).
Proof. intros st r st' [= <- <-] p _. reflexivity. Qed.

Lemma writes_only_lift (x : res A) : writes_only P (lift x).
Proof. intros st r st' [= <- <-] p _. reflexivity. Qed.

Lemma writes_only_bind (m : M A) (k : A -> M B) :
  writes_only P m -> (forall a, writes_only P (k a)) ->
  writes_only P (bind m k).
Proof.
  intros Hm Hk st r st' Hrun p Hp. unfold bind in Hrun.
  destruct (m st) as [[a|e] st1] eqn:E.
  - rewrite (Hk a _ _ _ Hrun p Hp). apply (Hm _ _ _ E p Hp).
  - injection Hrun as <- <-. apply (Hm _ _ _ E p Hp).
Qed.

Lemma writes_only_try (m : M A) (h : exn -> M A) :
  writes_only P m -> (forall e, writes_only P (h e)) ->
  writes_only P (try_except m h).
Proof.
  intros Hm Hh st r st' Hrun p Hp. unfold try_except in Hrun.
  destruct (m st) as [[a|e] st1] eqn:E.
  - injection Hrun as <- <-. apply (Hm _ _ _ E p Hp).
  - destruct (is_Exception e).
    + rewrite (Hh e _ _ _ Hrun p Hp). apply (Hm _ _ _ E p Hp).
    + injection Hrun as <- <-. apply (Hm _ _ _ E p Hp).
Qed.

End Frame.

Lemma writes_only_sleep (P : str -> Prop) (seconds : Q) :
  writes_only P (sleep seconds).
Proof. intros st r st' [= <- <-] p _. reflexivity. Qed.

Lemma writes_only_ensure_dir (P : str -> Prop) (d : str) :
  writes_only P (ensure_dir d).
Proof. intros st r st' [= <- <-] p _. reflexivity. Qed.

Lemma writes_only_urlopen (P : str -> Prop) (w : World) (url : str) (t : Z) :
  writes_only P (do_urlopen w url t).
Proof. intros st r st' [= <- <-] p _. reflexivity. Qed.

Lemma writes_only_read_text (P : str -> Prop) (f : str) :
  writes_only P (read_text f).
Proof.
  intros st r st' Hrun p _. unfold read_text in Hrun.
  destruct (st_files st !! f) as [data|]; [|injection Hrun as <- <-; reflexivity].
  destruct (utf8_decode_strict data); injection Hrun as <- <-; reflexivity.
Qed.

Lemma writes_only_save_bytes (P : str -> Prop) (f : str) (data : bytes) :
  P f -> writes_only P (save_bytes f data).
Proof.
  intros Hf st r st' [= <- <-] p Hp. simpl.
  apply lookup_insert_ne. intros ->. contradiction.
Qed.

Lemma writes_only_save_text (P : str -> Prop) (f : str) (text : str) :
  P f -> writes_only P (save_text f text).
Proof.
  intros Hf. unfold save_text. destruct (utf8_encode_strict text).
  - apply writes_only_save_bytes. exact Hf.
  - apply writes_only_raise.
Qed.

Lemma writes_only_for_each {A} (P : str -> Prop) (xs : list A)
    (body : A -> M unit) :
  (forall x, writes_only P (body x)) -> writes_only P (for_each xs body).
Proof.
  intros Hbody. induction xs as [|x xs IH]; cbn [for_each].
  - apply writes_only_ret.
  - apply writes_only_bind; [apply Hbody | intros _; exact IH].
Qed.

Create HintDb frame.
#[local] Hint Resolve writes_only_ret writes_only_raise writes_only_lift
  writes_only_sleep writes_only_ensure_dir writes_only_urlopen
  writes_only_read_text : frame.

(** Splits a computation at its binds, handlers and case distinctions. *)
Ltac frame :=
  repeat first
    [ solve [auto with frame]
    | apply writes_only_bind; [|intros ?]
    | apply writes_only_try; [|intros ?]
    | match goal with
      | |- writes_only _ (match ?x with _ => _ end) => destruct x
      | |- writes_only _ (let '(_, _) := ?x in _) => destruct x
      end ].

Lemma writes_only_fetch_loop (P : str -> Prop) (w : World) (n : nat) :
  forall attempt url timeout, writes_only P (fetch_loop w n attempt url timeout).
Proof.
  induction n as [|n IH]; intros attempt url timeout; cbn [fetch_loop]; frame.
Qed.

Lemma writes_only_fetch_default (P : str -> Prop) (w : World) (url : str) :
  writes_only P (fetch_default w url).
Proof. apply writes_only_fetch_loop. Qed.

#[local] Hint Resolve writes_only_fetch_default : frame.

Lemma writes_only_first_sitemap_text (P : str -> Prop) (w : World)
    (candidates : list str) :
  writes_only P (first_sitemap_text w candidates).
Proof.
  induction candidates as [|s rest IH]; cbn [first_sitemap_text]; frame.
Qed.

Lemma writes_only_index_locs (P : str -> Prop) (w : World) (ns : str)
    (sms : list Element) :
  writes_only P (index_locs w ns sms).
Proof.
  induction sms as [|sm rest IH]; cbn [index_locs]; unfold sub_sitemap_locs;
    frame.
Qed.

#[local] Hint Resolve writes_only_first_sitemap_text writes_only_index_locs
  : frame.

Lemma writes_only_fetch_sitemap_urls (P : str -> Prop) (w : World)
    (base_url : str) :
  writes_only P (fetch_sitemap_urls w base_url).
Proof. unfold fetch_sitemap_urls, collect_locs. frame. Qed.

Lemma writes_only_try_llms_loop (P : str -> Prop) (w : World)
    (candidates : list str) :
  forall seen found, writes_only P (try_llms_loop w candidates seen found).
Proof.
  induction candidates as [|u rest IH]; intros seen found;
    cbn [try_llms_loop]; frame.
Qed.

#[local] Hint Resolve writes_only_fetch_sitemap_urls writes_only_try_llms_loop
  : frame.

Lemma writes_only_discover_pages (P : str -> Prop) (w : World)
    (base_url : str) :
  writes_only P (discover_pages w base_url).
Proof. unfold discover_pages, try_llms_files. frame. Qed.

Lemma writes_only_download_loop (P : str -> Prop) (w : World)
    (raw_dir md_dir : str) (delay : Q) (urls : list str) :
  (forall x, P (path_join raw_dir x)) -> (forall x, P (path_join md_dir x)) ->
  writes_only P (download_loop w raw_dir md_dir delay urls).
Proof.
  intros Hraw Hmd.
  assert (Hb : forall x data, writes_only P (save_bytes (path_join raw_dir x) data)).
  { intros x data. apply writes_only_save_bytes, Hraw. }
  assert (Ht : forall x text, writes_only P (save_text (path_join md_dir x) text)).
  { intros x text. apply writes_only_save_text, Hmd. }
  induction urls as [|u rest IH]; cbn [download_loop]; unfold download_page;
    frame.
Qed.

Lemma writes_only_download_pages (w : World) (site : str) (urls : list str)
    (delay : Q) (max_pages : Z) :
  writes_only (auto_output site) (download_pages w urls site delay max_pages).
Proof.
  intros st r st' Hrun p Hp.
  unfold download_pages, bind, ensure_dir in Hrun.
  eapply (writes_only_download_loop (auto_output site)) in Hrun.
  - rewrite (Hrun p Hp). reflexivity.
  - intros x. right. left. exists x. reflexivity.
  - intros x. right. right. left. exists x. reflexivity.
Qed.

Lemma writes_only_combined_parts (P : str -> Prop) (md_paths : list str) :
  writes_only P (combined_parts md_paths).
Proof.
  induction md_paths as [|f rest IH]; cbn [combined_parts]; frame.
Qed.

Lemma writes_only_build_combined (site : str) (md_paths : list str)
    (title : str) :
  writes_only (auto_output site)
    (build_combined md_paths (path_join site (lit "combined.md")) title).
Proof.
  unfold build_combined. apply writes_only_bind.
  - apply writes_only_combined_parts.
  - intros parts. apply writes_only_save_text.
    right. right. right. left. reflexivity.
Qed.

Lemma writes_only_write_llms_files (site : str) (llms_files : Manifests) :
  writes_only (auto_output site) (write_llms_files llms_files site).
Proof.
  intros st r st' Hrun p Hp. unfold write_llms_files in Hrun.
  destruct llms_files as [|nf rest].
  - injection Hrun as <- <-. reflexivity.
  - unfold bind at 1, ensure_dir in Hrun.
    eapply (writes_only_for_each (auto_output site)) in Hrun.
    + rewrite (Hrun p Hp). reflexivity.
    + intros x. apply writes_only_save_bytes. left. eexists. reflexivity.
Qed.

#[local] Hint Resolve writes_only_discover_pages writes_only_download_pages
  writes_only_build_combined writes_only_write_llms_files : frame.

(** No path a non-interactive run may write is the [meta.json] of the
    target. *)
Lemma manifest_is_no_auto_output (site : str) :
  ~ auto_output site (path_join site (lit "meta.json")).
Proof.
  unfold auto_output, path_join.
  intros [[x H]|[[x H]|[[x H]|[H|H]]]];
    repeat rewrite <- app_assoc in H;
    apply app_inv_head in H; vm_compute in H; discriminate H.
Qed.

(** In every world, for every target and mode, the non-interactive run
    leaves the [meta.json] of the target as it was: it never writes one. *)
Lemma auto_run_never_writes_manifest (w : World) (base_url site : str)
    (mode : Mode) (st st' : State) (r : res unit) :
  site_dir_of w (normalize_url base_url) = Ret site ->
  run_for_url_auto w base_url mode st = (r, st') ->
  st_files st' !! path_join site (lit "meta.json")
  = st_files st !! path_join site (lit "meta.json").
Proof.
  intros Hsite Hrun.
  assert (H : writes_only (auto_output site) (run_for_url_auto w base_url mode)).
  { unfold run_for_url_auto.
    destruct (str_eqb (normalize_url base_url) []); [apply writes_only_ret|].
    rewrite Hsite.
    intros st0 r0 st0' Hrun0.
    unfold bind at 1, lift in Hrun0. unfold bind at 1, ensure_dir in Hrun0.
    revert Hrun0.
    match goal with
    | |- ?m ?s = _ -> _ =>
        intros Hrun0 p Hp;
        assert (Hm : writes_only (auto_output site) m);
        [|rewrite (Hm _ _ _ Hrun0 p Hp); reflexivity]
    end.
    apply writes_only_bind; [auto with frame|].
    intros [[method pages] llms_files].
    apply writes_only_bind; [auto with frame|]. intros _.
    assert (Hfull : forall data,
              writes_only (auto_output site)
                (save_bytes (path_join site (lit "combined__llms-full.txt")) data)).
    { intros data. apply writes_only_save_bytes. repeat right. reflexivity. }
    destruct mode; frame. }
  apply (H _ _ _ Hrun). apply manifest_is_no_auto_output.
Qed.

(* ===================================================================== *)
(** ** Runs without a fetched page *)
(* ===================================================================== *)

(** C4 at a failing input. No request is answered. The non-interactive
    runs ([--auto], [--auto --all], [--auto --start]) of two targets make
    the directories of both targets and return 0, and write no
    [meta.json]; the interactive run of the first target with the choice
    [1] writes a [meta.json] that reports zero pages. *)
Theorem auto_run_writes_no_manifest :
  runs_without_manifest [lit "--auto"]
  /\ runs_without_manifest [lit "--auto"; lit "--all"]
  /\ runs_without_manifest [lit "--auto"; lit "--start"]
  /\ (exists st',
        main offline_world [lit "docgrab.py"; lit "https://a.example/docs"]
          (init_state [lit "1"])
        = (Ret 0, st')
        /\ dir_a ∈ st_dirs st'
        /\ option_map utf8_decode_replace
             (st_files st' !! path_join dir_a (lit "meta.json"))
           = Some (meta_json (lit "https://a.example/docs") (lit "ingen")
                             0 1 1700000000)).
Proof.
  assert (Hrun : forall flags,
            flags = [lit "--auto"] \/ flags = [lit "--auto"; lit "--all"]
            \/ flags = [lit "--auto"; lit "--start"] ->
            runs_without_manifest flags).
  { intros flags [-> | [-> | ->]]; eexists;
      (split; [vm_compute; reflexivity|]);
      (split; [refine (bool_decide_unpack _ _); vm_compute; exact I|]);
      (split; [refine (bool_decide_unpack _ _); vm_compute; exact I|]);
      split; vm_compute; reflexivity. }
  split; [apply Hrun; auto|]. split; [apply Hrun; auto|].
  split; [apply Hrun; auto|].
  eexists. split; [vm_compute; reflexivity|].
  split; [refine (bool_decide_unpack _ _); vm_compute; exact I|].
  vm_compute. reflexivity.
Qed.

(** The line of the manifest that reports the pages. *)
Example meta_json_zero_pages :
  contains (lit "downloaded_pages" ++ [dquote] ++ lit ": 0,")
    (meta_json (lit "https://a.example/docs") (lit "ingen") 0 1 1700000000)
  = true.
Proof. vm_compute. reflexivity. Qed.

(* ===================================================================== *)
(** ** Loops with a round counter *)
(* ===================================================================== *)

Lemma span_until_length (p : N -> bool) (s : str) :
  (length (snd (span_until p s)) <= length s)%nat.
Proof.
  induction s as [|c s IH]; simpl; [lia|].
  destruct (p c); simpl; [lia|].
  destruct (span_until p s) as [a b]. simpl in *. lia.
Qed.

(** A match of the link pattern ends before the end of the text it starts
    in. *)
Lemma md_link_at_shrinks (s g rest : str) :
  md_link_at s = Some (g, rest) -> (length rest < length s)%nat.
Proof.
  unfold md_link_at. destruct s as [|c s0]; [discriminate|].
  destruct (c =? ch "[")%N; [|discriminate].
  pose proof (span_until_length (N.eqb (ch "]")) s0) as H1.
  destruct (span_until (N.eqb (ch "]")) s0) as [label after].
  destruct (negb (str_eqb label []) && startswith (lit "](") after); [|discriminate].
  pose proof (span_until_length (N.eqb (ch ")")) (drop 2 after)) as H2.
  destruct (span_until (N.eqb (ch ")")) (drop 2 after)) as [target after'].
  destruct (negb (str_eqb target []) && startswith (lit ")") after'); [|discriminate].
  intros [= _ <-]. simpl in *. rewrite !length_drop in *. lia.
Qed.

(** So does a match of the bare-URL pattern. *)
Lemma bare_url_at_shrinks (s g rest : str) :
  bare_url_at s = Some (g, rest) -> (length rest < length s)%nat.
Proof.
  unfold bare_url_at.
  assert (H : forall p,
            startswith p s = true -> p <> [] ->
            (let body := take_while is_bare_url_char (drop (length p) s) in
             if str_eqb body [] then None
             else Some (p ++ body, drop (length p + length body) s))
            = Some (g, rest) ->
            (length rest < length s)%nat).
  { intros p Hp Hne. cbv zeta.
    destruct (str_eqb _ []); [discriminate|]. intros [= _ <-].
    rewrite length_drop. destruct p; [contradiction|].
    destruct s; [discriminate|]. simpl. lia. }
  destruct (startswith (lit "https://") s) eqn:E1.
  - apply H; [exact E1|discriminate].
  - destruct (startswith (lit "http://") s) eqn:E2; [|discriminate].
    apply H; [exact E2|discriminate].
Qed.

(** With matches that end before the end of their text, the rounds of
    [re_findall] are enough: more rounds find the same matches. *)
Lemma findall_from_enough (match_at : str -> option (str * str)) :
  (forall s g rest, match_at s = Some (g, rest) -> (length rest < length s)%nat) ->
  forall (fuel : nat) (s : str),
    (length s < fuel)%nat ->
    findall_from fuel match_at s = re_findall match_at s.
Proof.
  intros Hshrink. unfold re_findall.
  assert (H : forall fuel1 fuel2 s,
            (length s < fuel1)%nat -> (length s < fuel2)%nat ->
            findall_from fuel1 match_at s = findall_from fuel2 match_at s).
  { induction fuel1 as [|fuel1 IH]; intros fuel2 s H1 H2; [lia|].
    destruct fuel2 as [|fuel2]; [lia|]. cbn [findall_from].
    destruct s as [|c s']; [reflexivity|].
    destruct (match_at (c :: s')) as [[g rest]|] eqn:E.
    - apply Hshrink in E. f_equal. apply IH; simpl in *; lia.
    - apply IH; simpl in *; lia. }
  intros fuel s Hf. apply H; lia.
Qed.

Lemma bind_input {A} (k : str -> M A) (st : State) :
  bind input k st
  = match st_stdin st with
    | line :: rest =>
        k line (mkState (st_requests st) (st_sleeps st) (st_dirs st)
                        (st_files st) rest)
    | [] => (Raise EOFError, st)
    end.
Proof. unfold bind, input. destruct (st_stdin st); reflexivity. Qed.

(** The rounds of [choose_action] are enough: with more rounds than lines
    of input the loop ends in the same way. *)
Lemma choose_loop_enough (w : World) (base_url : str) (pages : list str) :
  forall (fuel1 fuel2 : nat) (st : State),
    (length (st_stdin st) < fuel1)%nat -> (length (st_stdin st) < fuel2)%nat ->
    choose_loop w fuel1 base_url pages st = choose_loop w fuel2 base_url pages st.
Proof.
  induction fuel1 as [|fuel1 IH]; intros fuel2 st H1 H2; [lia|].
  destruct fuel2 as [|fuel2]; [lia|]. cbn [choose_loop].
  rewrite !bind_input.
  destruct (st_stdin st) as [|line rest] eqn:E; [reflexivity|].
  simpl in H1, H2.
  destruct (str_eqb (strip line) (lit "1")); [reflexivity|].
  destruct (str_eqb (strip line) (lit "2")); [reflexivity|].
  destruct (str_eqb (strip line) (lit "3") && _); [reflexivity|].
  destruct (str_eqb (strip line) (lit "4") && _).
  { rewrite !bind_input. cbn [st_stdin].
    destruct rest as [|line2 rest2]; [reflexivity|].
    destruct (pick pages _); [|reflexivity].
    apply IH; simpl in *; lia. }
  destruct (str_eqb (strip line) (lit "5") && _).
  { rewrite !bind_input. cbn [st_stdin].
    destruct rest as [|line2 rest2]; [reflexivity|].
    destruct (re_compile w _); [|apply IH; simpl in *; lia].
    destruct (filter _ pages); [|reflexivity].
    apply IH; simpl in *; lia. }
  destruct (str_eqb (strip line) (lit "0")); [reflexivity|].
  apply IH; simpl; lia.
Qed.
(* ===================================================================== *)
(** ** URL helpers: the shape of what they return *)
(* ===================================================================== *)

Lemma startswith_ci_shorter (p q s : str) :
  startswith_ci (p ++ q) s = true -> startswith_ci p s = true.
Proof.
  revert s. induction p as [|x p IH]; intros s; [reflexivity|].
  destruct s as [|y s]; [discriminate|]. cbn [startswith_ci app].
  rewrite !andb_true_iff. intros [H1 H2]. split; [exact H1|apply IH, H2].
Qed.

Lemma has_http_scheme_http (r : str) :
  has_http_scheme r = true -> startswith_ci (lit "http") r = true.
Proof.
  unfold has_http_scheme. rewrite orb_true_iff. intros [H|H].
  - apply (startswith_ci_shorter (lit "http") (lit "://")). exact H.
  - apply (startswith_ci_shorter (lit "http") (lit "s://")). exact H.
Qed.

(** No character that passes for a letter of [http] is a slash. *)
Lemma http_letter_no_slash (x y : N) :
  In x [104; 116; 112]%N -> ci_eqb x y = true ->
  in_chars (lit "/") y = false.
Proof.
  intros Hx Hxy. apply ci_eqb_cases in Hxy.
  apply (in_chars_single_false 47%N). intros ->.
  simpl in Hx.
  destruct Hx as [<-|[<-|[<-|[]]]];
    destruct Hxy as [H|[H|[[H _]|[[H _]|[H _]]]]]; discriminate H.
Qed.

(** What goes into the last step of the normaliser has a scheme. *)
Lemma normalize_url_scheme_added (r : str) :
  has_http_scheme (if has_http_scheme r then r else lit "https://" ++ r) = true.
Proof.
  destruct (has_http_scheme r) eqn:E; [exact E|].
  unfold has_http_scheme. apply orb_true_iff. right.
  apply startswith_ci_app. repeat constructor.
Qed.

(** Stripping slashes from a text with a scheme leaves the letters of the
    scheme. *)
Lemma rstrip_slash_keeps_http (r : str) :
  has_http_scheme r = true ->
  startswith_ci (lit "http") (rstrip_chars (lit "/") r) = true.
Proof.
  intros H. apply has_http_scheme_http in H.
  destruct (startswith_ci_split _ _ H) as (pre & t & -> & Hall).
  unfold rstrip_chars. rewrite rstrip_by_app_keep.
  - apply startswith_ci_app. exact Hall.
  - assert (Hin : Forall (fun x => In x [104; 116; 112]%N) (lit "http")).
    { repeat constructor; simpl; tauto. }
    clear H. revert Hall Hin. generalize (lit "http"). intros q Hall Hin.
    induction Hall as [|x y q pre Hxy Hall IH]; [constructor|].
    inversion Hin; subst. constructor; [|apply IH; assumption].
    eapply http_letter_no_slash; eassumption.
Qed.

Lemma normalize_url_http (raw : str) :
  normalize_url raw <> [] ->
  startswith_ci (lit "http") (normalize_url raw) = true.
Proof.
  rewrite normalize_url_unfold.
  destruct (str_eqb (clean_url raw) []); [congruence|]. intros _.
  apply rstrip_slash_keeps_http, normalize_url_scheme_added.
Qed.

Lemma normalize_url_empty_iff (raw : str) :
  normalize_url raw = [] <-> clean_url raw = [].
Proof.
  rewrite normalize_url_unfold.
  destruct (str_eqb (clean_url raw) []) eqn:E.
  - apply str_eqb_nil in E. tauto.
  - split.
    + intros H.
      pose proof (rstrip_slash_keeps_http _
                    (normalize_url_scheme_added (clean_url raw))) as Hs.
      rewrite H in Hs. discriminate Hs.
    + intros H. rewrite H in E. discriminate E.
Qed.

(* ===================================================================== *)
(** ** Root and base of a URL *)
(* ===================================================================== *)

Lemma span_until_spec (p : N -> bool) (s a b : str) :
  span_until p s = (a, b) ->
  s = a ++ b /\ Forall (fun c => p c = false) a
  /\ (forall c, head b = Some c -> p c = true).
Proof.
  revert a b. induction s as [|c s IH]; intros a b; simpl.
  - intros [= <- <-]. repeat split; [constructor | discriminate].
  - destruct (p c) eqn:Pc.
    + intros [= <- <-]. repeat split; [constructor|].
      intros c' [= <-]. exact Pc.
    + destruct (span_until p s) as [a' b'] eqn:E. intros [= <- <-].
      destruct (IH a' b' eq_refl) as (-> & Ha & Hb).
      repeat split; [constructor; assumption | exact Hb].
Qed.

Lemma split_once_spec (sep : N) (s a b : str) :
  split_once sep s = Some (a, b) ->
  s = a ++ sep :: b /\ Forall (fun c => c <> sep) a.
Proof.
  revert a b. induction s as [|c s IH]; intros a b; simpl; [discriminate|].
  destruct (N.eqb_spec c sep) as [->|Hc].
  - intros [= <- <-]. split; [reflexivity|constructor].
  - destruct (split_once sep s) as [[a' b']|]; [|discriminate].
    intros [= <- <-]. destruct (IH a' b' eq_refl) as [-> Ha].
    split; [reflexivity|constructor; assumption].
Qed.

Lemma split_once_none (sep : N) (s : str) :
  split_once sep s = None -> Forall (fun c => c <> sep) s.
Proof.
  induction s as [|c s IH]; simpl; [constructor|].
  destruct (N.eqb_spec c sep) as [->|Hc]; [discriminate|].
  destruct (split_once sep s) as [[a' b']|]; [discriminate|].
  intros _. constructor; [exact Hc|apply IH; reflexivity].
Qed.

Lemma text_before_cons (sep c : N) (s : str) :
  text_before sep (c :: s)
  = if (c =? sep)%N then [] else c :: text_before sep s.
Proof.
  unfold text_before. simpl. destruct (c =? sep)%N; [reflexivity|].
  destruct (split_once sep s) as [[a b]|]; reflexivity.
Qed.

(** [rstrip] over a concatenation: it stops in the second part unless
    nothing of that part stays. *)
Lemma rstrip_by_app (p : N -> bool) (a b : str) :
  rstrip_by p (a ++ b)
  = match rstrip_by p b with
    | [] => rstrip_by p a
    | r => a ++ r
    end.
Proof.
  induction a as [|x a IH]; simpl.
  - destruct (rstrip_by p b); reflexivity.
  - rewrite IH. destruct (rstrip_by p b) as [|y r]; [reflexivity|].
    destruct (a ++ y :: r) eqn:E; [|reflexivity].
    destruct a; discriminate E.
Qed.

Lemma rstrip_by_app_plain_end (p : N -> bool) (a b : str) :
  (forall c, last a = Some c -> p c = false) ->
  rstrip_by p (a ++ b) = a ++ rstrip_by p b.
Proof.
  intros Ha. rewrite rstrip_by_app.
  destruct (rstrip_by p b); [|reflexivity].
  rewrite app_nil_r. apply rstrip_by_id. exact Ha.
Qed.

Lemma in_chars_url_delims (c : N) :
  in_chars (lit "/?#") c = true -> c = 47%N \/ c = 63%N \/ c = 35%N.
Proof.
  change (lit "/?#") with [47; 63; 35]%N. unfold in_chars. cbn [existsb].
  rewrite !orb_true_iff, !N.eqb_eq. intuition discriminate.
Qed.

(** What is left of a URL after its host starts with a slash, a question
    mark or a hash; the path in it is empty or starts with the slash. *)
Lemma path_after_host (u : str) :
  (forall c, head u = Some c -> in_chars (lit "/?#") c = true) ->
  let p := text_before (ch "?") (text_before (ch "#") u) in
  p = [] \/ head p = Some (ch "/").
Proof.
  intros H. destruct u as [|c u]; [left; reflexivity|].
  destruct (in_chars_url_delims c (H c eq_refl)) as [-> | [-> | ->]];
    cbv zeta; rewrite text_before_cons.
  - change (47 =? ch "#")%N with false. cbv iota. rewrite text_before_cons.
    right. reflexivity.
  - change (63 =? ch "#")%N with false. cbv iota. rewrite text_before_cons.
    left. reflexivity.
  - left. reflexivity.
Qed.

(** A host that [urlsplit] found holds no slash, and the path after it is
    empty or starts with one. *)
Lemma urlsplit_host_and_path (w : World) (url : str) (parts : SplitResult) :
  urlsplit w url = Ret parts -> netloc parts <> [] ->
  Forall (fun c => in_chars (lit "/?#") c = false) (netloc parts)
  /\ (path parts = [] \/ head (path parts) = Some (ch "/")).
Proof.
  unfold urlsplit.
  destruct (split_scheme _) as [sch u2].
  destruct (startswith (lit "//") u2).
  2:{ destruct (_ || _); [discriminate|]. destruct (_ && _); [discriminate|].
      destruct (split_once (ch "#") u2) as [[u4 frag]|];
        [destruct (split_once (ch "?") u4) as [[u5 qry]|]
        |destruct (split_once (ch "?") u2) as [[u5 qry]|]];
        (destruct (_ || _); [|discriminate]);
        intros [= <-]; simpl; congruence. }
  destruct (span_until _ (drop 2 u2)) as [loc u3] eqn:Es.
  apply span_until_spec in Es. destruct Es as (_ & Hloc & Hu3).
  destruct (_ || _); [discriminate|]. destruct (_ && _); [discriminate|].
  pose proof (path_after_host u3 Hu3) as Hp. cbv zeta in Hp.
  unfold text_before in Hp.
  destruct (split_once (ch "#") u3) as [[u4 frag]|];
    [destruct (split_once (ch "?") u4) as [[u5 qry]|]
    |destruct (split_once (ch "?") u3) as [[u5 qry]|]];
    (destruct (_ || _); [|discriminate]);
    intros [= <-] _; simpl; split; assumption.
Qed.
Lemma last_app_nonempty {A} (a b : list A) :
  b <> [] -> last (a ++ b) = last b.
Proof.
  intros Hb. destruct b as [|x b] using rev_ind; [contradiction|].
  rewrite app_assoc, !last_snoc. reflexivity.
Qed.

Lemma host_ends_plain (loc : str) (c : N) :
  Forall (fun c => in_chars (lit "/?#") c = false) loc ->
  last loc = Some c -> in_chars (lit "/") c = false.
Proof.
  intros Hloc Hc. apply last_Some_elem_of in Hc.
  rewrite Forall_forall in Hloc. specialize (Hloc c Hc).
  revert Hloc. change (lit "/?#") with [47; 63; 35]%N.
  change (lit "/") with [47%N]. unfold in_chars. cbn [existsb].
  rewrite !orb_false_iff. tauto.
Qed.

(** X2. For a URL with a host, [split_root_and_base] returns as root the
    scheme and the host, and as base the root followed by the path without
    its trailing slashes: query and fragment are gone, the root is a prefix
    of the base, and the base of a URL without a path is the root. *)
Theorem split_root_and_base_shape (w : World) (url : str) (parts : SplitResult) :
  urlsplit w url = Ret parts -> netloc parts <> [] ->
  let origin :=
    (if str_eqb (scheme parts) [] then [] else scheme parts ++ lit ":")
    ++ lit "//" ++ netloc parts in
  split_root_and_base w url
  = Ret (origin, origin ++ rstrip_chars (lit "/") (path parts)).
Proof.
  intros Hs Hne.
  destruct (urlsplit_host_and_path w url parts Hs Hne) as [Hloc Hpath].
  unfold split_root_and_base. rewrite Hs. cbn [res_bind].
  unfold urlunsplit. cbn [scheme netloc path query fragment].
  assert (E : str_eqb (netloc parts) [] = false).
  { destruct (str_eqb (netloc parts) []) eqn:E; [|reflexivity].
    apply str_eqb_nil in E. contradiction. }
  rewrite E. cbn [negb orb str_eqb andb].
  assert (Ep : negb (str_eqb (path parts) [])
               && negb (startswith (lit "/") (path parts)) = false).
  { destruct Hpath as [-> | Hp]; [reflexivity|].
    destruct (path parts) as [|c rest]; [discriminate|].
    injection Hp as ->. apply andb_false_iff. right. reflexivity. }
  rewrite Ep, app_nil_r. cbv zeta. f_equal.
  set (pre := if str_eqb (scheme parts) [] then [] else scheme parts ++ lit ":").
  assert (Hplain : forall c, last ((pre ++ lit "//") ++ netloc parts) = Some c ->
                     in_chars (lit "/") c = false).
  { intros c. rewrite last_app_nonempty by exact Hne.
    apply host_ends_plain, Hloc. }
  assert (Hgoal : rstrip_chars (lit "/")
                    (((pre ++ lit "//") ++ netloc parts) ++ path parts)
                  = ((pre ++ lit "//") ++ netloc parts)
                    ++ rstrip_chars (lit "/") (path parts)).
  { apply rstrip_by_app_plain_end. exact Hplain. }
  subst pre. destruct (str_eqb (scheme parts) []);
    repeat rewrite <- app_assoc in Hgoal; repeat rewrite <- app_assoc;
    rewrite ?app_nil_l in Hgoal; rewrite ?app_nil_l;
    rewrite Hgoal; reflexivity.
Qed.

Lemma split_root_and_base_shape_witness :
  split_root_and_base offline_world (lit "https://example.com/docs/?q=1#top")
  = Ret (lit "https://example.com", lit "https://example.com/docs").
Proof.
  exact (split_root_and_base_shape offline_world
           (lit "https://example.com/docs/?q=1#top")
           (mkSplit (lit "https") (lit "example.com") (lit "/docs/")
                    (lit "q=1") (lit "top"))
           eq_refl ltac:(discriminate)).
Defined.
(* ===================================================================== *)
(** ** Slugs are file names *)
(* ===================================================================== *)

Lemma sub_unsafe_runs_chars (b : bool) (s : str) :
  forallb is_slug_char (sub_unsafe_runs b s) = true.
Proof.
  revert b. induction s as [|c s IH]; intros b; simpl; [reflexivity|].
  destruct (is_slug_char c) eqn:Ec.
  - simpl. rewrite Ec, IH. reflexivity.
  - destruct b; [apply IH|]. simpl. rewrite IH. reflexivity.
Qed.

Lemma forallb_lstrip_by (q p : N -> bool) (s : str) :
  forallb q s = true -> forallb q (lstrip_by p s) = true.
Proof.
  induction s as [|c s IH]; simpl; [reflexivity|].
  rewrite andb_true_iff. intros [Hc Hs].
  destruct (p c); [apply IH, Hs|]. simpl. rewrite Hc, Hs. reflexivity.
Qed.

Lemma forallb_rstrip_by (q p : N -> bool) (s : str) :
  forallb q s = true -> forallb q (rstrip_by p s) = true.
Proof.
  destruct (rstrip_by_prefix p s) as [t Ht]. intros H.
  rewrite Ht, forallb_app, andb_true_iff in H. apply H.
Qed.

Lemma forallb_strip_by (q p : N -> bool) (s : str) :
  forallb q s = true -> forallb q (strip_by p s) = true.
Proof.
  intros H. unfold strip_by. apply forallb_rstrip_by, forallb_lstrip_by, H.
Qed.

Lemma lstrip_by_head (p : N -> bool) (s : str) (c : N) :
  head (lstrip_by p s) = Some c -> p c = false.
Proof.
  induction s as [|x s IH]; simpl; [discriminate|].
  destruct (p x) eqn:Px; [exact IH|]. simpl. intros [= <-]. exact Px.
Qed.

Lemma strip_by_head (p : N -> bool) (s : str) (c : N) :
  head (strip_by p s) = Some c -> p c = false.
Proof.
  unfold strip_by. intros H. apply rstrip_by_head in H.
  apply (lstrip_by_head p s c H).
Qed.

Lemma strip_by_last (p : N -> bool) (s : str) (c : N) :
  last (strip_by p s) = Some c -> p c = false.
Proof. apply rstrip_by_last. Qed.

Lemma safe_slug_chars (s : str) : forallb is_slug_char (safe_slug s) = true.
Proof.
  unfold safe_slug. destruct (str_eqb _ []); [reflexivity|].
  apply forallb_strip_by, sub_unsafe_runs_chars.
Qed.

Lemma safe_slug_nonempty (s : str) : safe_slug s <> [].
Proof.
  unfold safe_slug. destruct (str_eqb _ []) eqn:E; [discriminate|].
  intros H. rewrite H in E. discriminate E.
Qed.

Lemma safe_slug_ends (s : str) :
  head (safe_slug s) <> Some (ch "_") /\ last (safe_slug s) <> Some (ch "_").
Proof.
  unfold safe_slug. destruct (str_eqb _ []); [split; discriminate|].
  split; intros H.
  - apply strip_by_head in H. discriminate H.
  - apply strip_by_last in H. discriminate H.
Qed.

(** X3. A slug is a file name: for every text, [safe_slug] returns a text
    that is not empty, is made of letters, digits, dots, underscores and
    hyphens only, neither starts nor ends with an underscore, and is its
    own slug. *)
Theorem safe_slug_sound (s : str) :
  safe_slug s <> []
  /\ forallb is_slug_char (safe_slug s) = true
  /\ head (safe_slug s) <> Some (ch "_")
  /\ last (safe_slug s) <> Some (ch "_")
  /\ safe_slug (safe_slug s) = safe_slug s.
Proof.
  pose proof (safe_slug_ends s) as [Hh Hl].
  repeat split; try assumption.
  - apply safe_slug_nonempty.
  - apply safe_slug_chars.
  - apply safe_slug_id; try assumption.
    + apply safe_slug_nonempty.
    + apply safe_slug_chars.
Qed.

Lemma slug_chars_no_slash (slug : str) :
  forallb is_slug_char slug = true -> in_chars slug (ch "/") = false.
Proof.
  unfold in_chars.
  induction slug as [|c slug IH]; cbn [forallb existsb]; [reflexivity|].
  rewrite andb_true_iff. intros [Hc Hs].
  rewrite (IH Hs), orb_false_r.
  apply N.eqb_neq. intros <-. discriminate Hc.
Qed.

Lemma forallb_take (q : N -> bool) (n : nat) (s : str) :
  forallb q s = true -> forallb q (take n s) = true.
Proof.
  intros H. rewrite <- (take_drop n s), forallb_app, andb_true_iff in H.
  apply H.
Qed.

(** X4. The directory slug and the page slug of a URL that [urlsplit]
    accepts are not empty and are made of letters, digits, dots,
    underscores and hyphens only: neither holds a path separator, so the
    directory and the files named after them lie where the script puts
    them. *)
Theorem url_slugs_are_file_names (w : World) (url slug : str) :
  slug_from_url w url = Ret slug \/ url_to_page_slug w url = Ret slug ->
  slug <> []
  /\ forallb is_slug_char slug = true
  /\ in_chars slug (ch "/") = false.
Proof.
  assert (Hgen : slug <> [] /\ forallb is_slug_char slug = true ->
                 slug <> [] /\ forallb is_slug_char slug = true
                 /\ in_chars slug (ch "/") = false).
  { intros [H1 H2]. repeat split; try assumption.
    apply slug_chars_no_slash, H2. }
  intros [H|H]; apply Hgen.
  - unfold slug_from_url in H.
    destruct (urlsplit w url) as [parts|e]; [|discriminate]. simpl in H.
    destruct (negb _); injection H as <-;
      (split; [apply safe_slug_nonempty | apply safe_slug_chars]).
  - unfold url_to_page_slug in H.
    destruct (urlsplit w url) as [parts|e]; [|discriminate]. simpl in H.
    injection H as <-.
    set (p := if str_eqb _ [] then lit "index" else _).
    destruct (140 <? Z.of_nat (length (safe_slug p))) eqn:E.
    + split; [|apply forallb_take, safe_slug_chars].
      pose proof (safe_slug_nonempty p).
      destruct (safe_slug p); [contradiction|discriminate].
    + split; [apply safe_slug_nonempty | apply safe_slug_chars].
Qed.

Lemma url_slugs_are_file_names_witness :
  lit "docs_intro" <> []
  /\ forallb is_slug_char (lit "docs_intro") = true
  /\ in_chars (lit "docs_intro") (ch "/") = false.
Proof.
  apply (url_slugs_are_file_names offline_world
           (lit "https://example.com/docs/intro")).
  right. reflexivity.
Defined.
(* ===================================================================== *)
(** ** Text written to a file reads back *)
(* ===================================================================== *)

Lemma in_range_true (lo hi n : N) :
  in_range lo hi n = true <-> (lo <= n <= hi)%N.
Proof.
  unfold in_range. rewrite andb_true_iff, !N.leb_le. reflexivity.
Qed.

Lemma in_range_false (lo hi n : N) :
  in_range lo hi n = false <-> (n < lo \/ hi < n)%N.
Proof.
  unfold in_range. rewrite andb_false_iff, !N.leb_gt. reflexivity.
Qed.

Lemma utf8_decode_1 (b0 : N) (t : bytes) :
  (b0 < 128)%N ->
  utf8_decode_replace (b0 :: t) = b0 :: utf8_decode_replace t.
Proof.
  intros H. cbn [utf8_decode_replace].
  apply N.ltb_lt in H. rewrite H. reflexivity.
Qed.

Lemma utf8_decode_2 (b0 b1 : N) (t : bytes) :
  (194 <= b0 <= 223)%N -> (128 <= b1 <= 191)%N ->
  utf8_decode_replace (b0 :: b1 :: t) = cp2 b0 b1 :: utf8_decode_replace t.
Proof.
  intros H0 H1. cbn [utf8_decode_replace].
  assert (E0 : (b0 <? 128)%N = false) by (apply N.ltb_ge; lia).
  assert (Ew : utf8_width b0 = 1%nat).
  { unfold utf8_width. apply in_range_true in H0. rewrite H0. reflexivity. }
  assert (Es : second_ok b0 b1 = true).
  { unfold second_ok.
    destruct (N.eqb_spec b0 224); [lia|]. destruct (N.eqb_spec b0 237); [lia|].
    destruct (N.eqb_spec b0 240); [lia|]. destruct (N.eqb_spec b0 244); [lia|].
    apply in_range_true. exact H1. }
  rewrite E0, Ew, Es. reflexivity.
Qed.

Lemma utf8_decode_3 (b0 b1 b2 : N) (t : bytes) :
  (224 <= b0 <= 239)%N -> second_ok b0 b1 = true -> (128 <= b2 <= 191)%N ->
  utf8_decode_replace (b0 :: b1 :: b2 :: t)
  = cp3 b0 b1 b2 :: utf8_decode_replace t.
Proof.
  intros H0 H1 H2. cbn [utf8_decode_replace].
  assert (E0 : (b0 <? 128)%N = false) by (apply N.ltb_ge; lia).
  assert (Ew : utf8_width b0 = 2%nat).
  { unfold utf8_width.
    assert (Ea : in_range 194 223 b0 = false) by (apply in_range_false; lia).
    assert (Eb : in_range 224 239 b0 = true) by (apply in_range_true; lia).
    rewrite Ea, Eb. reflexivity. }
  assert (E2 : is_cont b2 = true) by (apply in_range_true; lia).
  rewrite E0, Ew, H1, E2. reflexivity.
Qed.

Lemma utf8_decode_4 (b0 b1 b2 b3 : N) (t : bytes) :
  (240 <= b0 <= 244)%N -> second_ok b0 b1 = true ->
  (128 <= b2 <= 191)%N -> (128 <= b3 <= 191)%N ->
  utf8_decode_replace (b0 :: b1 :: b2 :: b3 :: t)
  = cp4 b0 b1 b2 b3 :: utf8_decode_replace t.
Proof.
  intros H0 H1 H2 H3. cbn [utf8_decode_replace].
  assert (E0 : (b0 <? 128)%N = false) by (apply N.ltb_ge; lia).
  assert (Ew : utf8_width b0 = 3%nat).
  { unfold utf8_width.
    assert (Ea : in_range 194 223 b0 = false) by (apply in_range_false; lia).
    assert (Eb : in_range 224 239 b0 = false) by (apply in_range_false; lia).
    assert (Ec : in_range 240 244 b0 = true) by (apply in_range_true; lia).
    rewrite Ea, Eb, Ec. reflexivity. }
  assert (E2 : is_cont b2 = true) by (apply in_range_true; lia).
  assert (E3 : is_cont b3 = true) by (apply in_range_true; lia).
  rewrite E0, Ew, H1, E2, E3. reflexivity.
Qed.

(** The six-bit groups of a code point. *)
Lemma six_bit_groups (c : N) :
  exists q1 q2 q3 r1 r2 r3 : N,
    (c / 64 = q1 /\ c mod 64 = r1 /\ c / 4096 = q2 /\ (c / 64) mod 64 = r2
     /\ c / 262144 = q3 /\ (c / 4096) mod 64 = r3
     /\ c = 64 * q1 + r1 /\ q1 = 64 * q2 + r2 /\ q2 = 64 * q3 + r3
     /\ r1 < 64 /\ r2 < 64 /\ r3 < 64)%N.
Proof.
  exists (c / 64)%N, (c / 4096)%N, (c / 262144)%N,
         (c mod 64)%N, ((c / 64) mod 64)%N, ((c / 4096) mod 64)%N.
  assert (H4096 : (c / 4096 = c / 64 / 64)%N).
  { rewrite N.Div0.div_div. reflexivity. }
  assert (H262144 : (c / 262144 = c / 4096 / 64)%N).
  { rewrite H4096, !N.Div0.div_div. reflexivity. }
  repeat split.
  - apply N.div_mod. discriminate.
  - rewrite H4096. apply N.div_mod. discriminate.
  - rewrite H262144. apply N.div_mod. discriminate.
  - apply N.mod_lt. discriminate.
  - apply N.mod_lt. discriminate.
  - apply N.mod_lt. discriminate.
Qed.

(** Decoding the encoding of a code point gives the code point back. *)
Lemma utf8_decode_encode_chr (c : N) (b t : bytes) :
  utf8_encode_chr c = Some b ->
  utf8_decode_replace (b ++ t) = c :: utf8_decode_replace t.
Proof.
  unfold utf8_encode_chr.
  destruct (six_bit_groups c)
    as (q1 & q2 & q3 & r1 & r2 & r3 & -> & -> & -> & -> & -> & -> & Hc & Hq1 & Hq2 & Hr1 & Hr2 & Hr3).
  destruct (N.ltb_spec c 128) as [H1|H1].
  { intros [= <-]. apply utf8_decode_1. exact H1. }
  destruct (N.ltb_spec c 2048) as [H2|H2].
  { intros [= <-]. cbn [app]. rewrite utf8_decode_2 by lia.
    f_equal. unfold cp2. lia. }
  destruct (in_range 55296 57343 c) eqn:Hs; [discriminate|].
  apply in_range_false in Hs.
  destruct (N.ltb_spec c 65536) as [H3|H3].
  { intros [= <-]. cbn [app]. rewrite utf8_decode_3.
    - f_equal. unfold cp3. lia.
    - lia.
    - unfold second_ok.
      destruct (N.eqb_spec (224 + q2) 224); [apply in_range_true; lia|].
      destruct (N.eqb_spec (224 + q2) 237); [apply in_range_true; lia|].
      destruct (N.eqb_spec (224 + q2) 240); [lia|].
      destruct (N.eqb_spec (224 + q2) 244); [lia|].
      apply in_range_true. lia.
    - lia. }
  destruct (N.ltb_spec c 1114112) as [H4|H4]; [|discriminate].
  intros [= <-]. cbn [app]. rewrite utf8_decode_4.
  - f_equal. unfold cp4. lia.
  - lia.
  - unfold second_ok.
    destruct (N.eqb_spec (240 + q3) 224); [lia|].
    destruct (N.eqb_spec (240 + q3) 237); [lia|].
    destruct (N.eqb_spec (240 + q3) 240); [apply in_range_true; lia|].
    destruct (N.eqb_spec (240 + q3) 244); [apply in_range_true; lia|].
    apply in_range_true. lia.
  - lia.
  - lia.
Qed.

Lemma utf8_decode_encode (s : str) (data : bytes) :
  utf8_encode_strict s = Some data -> utf8_decode_replace data = s.
Proof.
  revert data. induction s as [|c s IH]; intros data; cbn [utf8_encode_strict].
  - intros [= <-]. reflexivity.
  - destruct (utf8_encode_chr c) as [b|] eqn:Ec; [|discriminate].
    destruct (utf8_encode_strict s) as [bs|]; [|discriminate].
    intros [= <-]. rewrite (utf8_decode_encode_chr c b bs Ec).
    f_equal. apply IH. reflexivity.
Qed.

Lemma utf8_decode_strict_encode (s : str) (data : bytes) :
  utf8_encode_strict s = Some data -> utf8_decode_strict data = Some s.
Proof.
  intros H. unfold utf8_decode_strict.
  rewrite (utf8_decode_encode s data H), H, str_eqb_refl. reflexivity.
Qed.

(** X5. What [save_text] wrote, [read_text] reads back: after a text
    without carriage return has been saved under a path, reading that path
    gives the same text and changes nothing. (Files are written with the
    line feed as line separator; a carriage return would be read as a
    line feed, which [read_text] here does not do.) *)
Theorem save_text_read_text (p text : str) (st st' : State) :
  no_cr text ->
  save_text p text st = (Ret tt, st') ->
  read_text p st' = (Ret text, st').
Proof.
  intros _. unfold save_text.
  destruct (utf8_encode_strict text) as [data|] eqn:E; [|discriminate].
  intros [= <-]. unfold read_text. cbn [st_files].
  rewrite lookup_insert_eq, (utf8_decode_strict_encode text data E).
  reflexivity.
Qed.

Lemma save_text_read_text_witness :
  exists st',
    save_text (lit "/work/a.md") (lit "# a" ++ [228; 8364; 128512]%N)
              (init_state []) = (Ret tt, st')
    /\ read_text (lit "/work/a.md") st'
       = (Ret (lit "# a" ++ [228; 8364; 128512]%N), st').
Proof.
  eexists. split; [reflexivity|].
  apply (save_text_read_text _ _ (init_state [])); reflexivity.
Defined.
(* ===================================================================== *)
(** ** HTML converter: the main block *)
(* ===================================================================== *)

(** [longest] returns the first of the longest texts of [best :: rest]. *)
Lemma longest_first_of_longest (rest : list str) :
  forall best,
  exists pre post,
    best :: rest = pre ++ longest best rest :: post
    /\ Forall (fun c => (length c < length (longest best rest))%nat) pre
    /\ Forall (fun c => (length c <= length (longest best rest))%nat) post.
Proof.
  induction rest as [|c rest IH]; intros best; cbn [longest].
  - exists [], []. repeat split; constructor.
  - destruct (Nat.ltb_spec (length best) (length c)) as [Hlt|Hge].
    + destruct (IH c) as (pre & post & Heq & Hpre & Hpost).
      exists (best :: pre), post. rewrite Heq. split; [reflexivity|].
      split; [|exact Hpost]. constructor; [|exact Hpre].
      destruct pre as [|x pre]; injection Heq as Hx Hrest.
      * rewrite <- Hx. exact Hlt.
      * subst x. inversion Hpre; subst. lia.
    + destruct (IH best) as (pre & post & Heq & Hpre & Hpost).
      destruct pre as [|x pre]; injection Heq as Hx Hrest.
      * subst post. exists [], (c :: rest).
        split; [cbn [app]; f_equal; exact Hx|]. split; [constructor|].
        constructor; [|exact Hpost]. rewrite <- Hx. exact Hge.
      * subst x. exists (best :: c :: pre), post.
        split; [cbn [app]; do 2 f_equal; exact Hrest|]. split; [|exact Hpost].
        inversion Hpre; subst. repeat constructor; try assumption. lia.
Qed.

(** X6. [extract_main_html] returns the document itself when it holds no
    [main] and no [article] element; otherwise it returns the body of one
    of them, the [main] bodies counted before the [article] bodies: the
    first one among those of the greatest length. *)
Theorem extract_main_html_first_longest (w : World) (html : str) :
  let candidates :=
    find_tag_bodies w (lit "main") html
    ++ find_tag_bodies w (lit "article") html in
  match candidates with
  | [] => extract_main_html w html = html
  | _ :: _ =>
      exists pre post,
        candidates = pre ++ extract_main_html w html :: post
        /\ Forall (fun c =>
                     (length c < length (extract_main_html w html))%nat) pre
        /\ Forall (fun c =>
                     (length c <= length (extract_main_html w html))%nat) post
  end.
Proof.
  unfold extract_main_html. cbn [flat_map]. rewrite app_nil_r.
  destruct (find_tag_bodies w (lit "main") html
            ++ find_tag_bodies w (lit "article") html) as [|c rest];
    [reflexivity|].
  apply longest_first_of_longest.
Qed.

(* ===================================================================== *)
(** ** HTML converter: ignored elements *)
(* ===================================================================== *)


Lemma feed_app (evs1 evs2 : list HtmlEvent) (p : MarkdownishParser) :
  MarkdownishParser.feed (evs1 ++ evs2) p
  = MarkdownishParser.feed evs2 (MarkdownishParser.feed evs1 p).
Proof. unfold MarkdownishParser.feed. apply fold_left_app. Qed.

Lemma handle_depth_nonneg (ev : HtmlEvent) (p : MarkdownishParser) :
  0 <= md_ignore_depth p ->
  0 <= md_ignore_depth (MarkdownishParser.handle ev p).
Proof.
  intros H. destruct ev as [tag attrs|tag|data];
    cbn [MarkdownishParser.handle].
  - unfold MarkdownishParser.handle_starttag, MarkdownishParser.out_append.
    repeat match goal with
           | |- context [if ?b then _ else _] => destruct b
           end; simpl; lia.
  - unfold MarkdownishParser.handle_endtag, MarkdownishParser.out_append.
    destruct (tag_in (lower tag) MarkdownishParser.IGNORE_TAGS).
    + destruct (Z.ltb_spec 0 (md_ignore_depth p)); simpl; lia.
    + repeat match goal with
             | |- context [if ?b then _ else _] => destruct b
             end; simpl; lia.
  - unfold MarkdownishParser.handle_data, MarkdownishParser.out_append.
    repeat match goal with
           | |- context [if ?b then _ else _] => destruct b
           | |- context [match ?x with _ => _ end] => destruct x
           end; simpl; lia.
Qed.

Lemma feed_depth_nonneg (evs : list HtmlEvent) (p : MarkdownishParser) :
  0 <= md_ignore_depth p ->
  0 <= md_ignore_depth (MarkdownishParser.feed evs p).
Proof.
  revert p. induction evs as [|ev evs IH]; intros p H; [exact H|].
  apply (IH (MarkdownishParser.handle ev p)), handle_depth_nonneg, H.
Qed.

(** Inside an ignored element no handler call changes the parser, as long
    as it is not for an ignored element itself. *)
Lemma handle_inside_ignored (ev : HtmlEvent) (p : MarkdownishParser) :
  0 < md_ignore_depth p -> outside_ignored ev = true ->
  MarkdownishParser.handle ev p = p.
Proof.
  intros Hd Hev. apply Z.ltb_lt in Hd.
  destruct ev as [tag attrs|tag|data];
    cbn [MarkdownishParser.handle outside_ignored] in *.
  - unfold MarkdownishParser.handle_starttag. apply negb_true_iff in Hev.
    rewrite Hev, Hd. reflexivity.
  - unfold MarkdownishParser.handle_endtag. apply negb_true_iff in Hev.
    rewrite Hev, Hd. reflexivity.
  - unfold MarkdownishParser.handle_data. rewrite Hd. reflexivity.
Qed.

Lemma feed_inside_ignored (evs : list HtmlEvent) (p : MarkdownishParser) :
  0 < md_ignore_depth p -> forallb outside_ignored evs = true ->
  MarkdownishParser.feed evs p = p.
Proof.
  intros Hd. induction evs as [|ev evs IH]; cbn [forallb]; [reflexivity|].
  rewrite andb_true_iff. intros [Hev Hevs].
  change (MarkdownishParser.feed (ev :: evs) p)
    with (MarkdownishParser.feed evs (MarkdownishParser.handle ev p)).
  rewrite (handle_inside_ignored ev p Hd Hev). apply IH, Hevs.
Qed.

Lemma ignored_element_skipped (tag tag' : str)
    (attrs : list (str * option str)) (inner : list HtmlEvent)
    (p : MarkdownishParser) :
  tag_in (lower tag) MarkdownishParser.IGNORE_TAGS = true ->
  tag_in (lower tag') MarkdownishParser.IGNORE_TAGS = true ->
  forallb outside_ignored inner = true ->
  0 <= md_ignore_depth p ->
  MarkdownishParser.feed (StartTag tag attrs :: inner ++ [EndTag tag']) p = p.
Proof.
  intros Ht Ht' Hin Hd.
  change (MarkdownishParser.feed
            (StartTag tag attrs :: inner ++ [EndTag tag']) p)
    with (MarkdownishParser.feed (inner ++ [EndTag tag'])
            (MarkdownishParser.handle_starttag tag p)).
  rewrite feed_app.
  assert (Hs : MarkdownishParser.handle_starttag tag p
               = mkMd (md_out p) (md_ignore_depth p + 1) (md_in_pre p)
                      (md_in_code_inline p) (md_pending_heading p)
                      (md_li_prefix_pending p)).
  { unfold MarkdownishParser.handle_starttag. rewrite Ht. reflexivity. }
  rewrite Hs, (feed_inside_ignored inner); [|simpl; lia|exact Hin].
  cbn [MarkdownishParser.feed fold_left MarkdownishParser.handle].
  unfold MarkdownishParser.handle_endtag. rewrite Ht'.
  cbn [md_ignore_depth md_out md_in_pre md_in_code_inline md_pending_heading
       md_li_prefix_pending].
  assert (E : (0 <? md_ignore_depth p + 1) = true) by (apply Z.ltb_lt; lia).
  rewrite E.
  replace (md_ignore_depth p + 1 - 1) with (md_ignore_depth p) by lia.
  destruct p. reflexivity.
Qed.


(* ===================================================================== *)
(** ** HTML converter: the text it returns *)
(* ===================================================================== *)

Lemma startswith_repeat_more (c : N) (j k : nat) (s : str) :
  (j <= k)%nat ->
  startswith (repeat c j) s = false -> startswith (repeat c k) s = false.
Proof.
  revert k s. induction j as [|j IH]; intros k s Hjk; [discriminate|].
  destruct k as [|k]; [lia|]. destruct s as [|x s]; [reflexivity|].
  cbn [repeat startswith]. rewrite !andb_false_iff.
  intros [H|H]; [left; exact H|right]. apply (IH k); [lia|exact H].
Qed.

(** What [cap_newlines] returns holds no run of four line feeds, the
    [run] line feeds just written counted in. *)
Lemma cap_newlines_runs (s : str) :
  forall run, (run <= 3)%nat ->
    startswith (repeat LF (4 - run)) (MarkdownishParser.cap_newlines run s) = false
    /\ contains (repeat LF 4) (MarkdownishParser.cap_newlines run s) = false.
Proof.
  induction s as [|c s IH]; intros run Hrun; cbn [MarkdownishParser.cap_newlines].
  - split; [|reflexivity].
    destruct run as [|[|[|[|run]]]]; try reflexivity. lia.
  - destruct (N.eqb_spec c LF) as [->|Hc].
    + destruct (Nat.ltb_spec run 3) as [Hlt|Hge].
      * destruct (IH (S run) ltac:(lia)) as [H1 H2].
        replace (4 - run)%nat with (S (4 - S run)) by lia.
        split.
        -- cbn [repeat startswith]. rewrite N.eqb_refl. exact H1.
        -- cbn [contains]. rewrite H2, orb_false_r.
           change (repeat LF 4) with (LF :: repeat LF 3).
           cbn [startswith]. rewrite N.eqb_refl. cbn [andb].
           apply (startswith_repeat_more LF (4 - S run) 3); [lia|exact H1].
      * apply IH. lia.
    + destruct (IH 0%nat ltac:(lia)) as [H1 H2]. split.
      * destruct run as [|[|[|[|run]]]]; try lia;
          cbn [Nat.sub repeat startswith];
          (destruct (N.eqb_spec LF c) as [E|_]; [congruence|reflexivity]).
      * cbn [contains]. rewrite H2, orb_false_r.
        change (repeat LF 4) with (LF :: repeat LF 3). cbn [startswith].
        destruct (N.eqb_spec LF c) as [E|_]; [congruence|reflexivity].
Qed.

Lemma startswith_app_true (p a b : str) :
  startswith p a = true -> startswith p (a ++ b) = true.
Proof.
  revert a. induction p as [|x p IH]; intros a; [reflexivity|].
  destruct a as [|y a]; [discriminate|]. cbn [startswith app].
  rewrite !andb_true_iff. intros [H1 H2]. split; [exact H1|apply IH, H2].
Qed.

Lemma contains_app_true (p a b : str) :
  contains p a = true -> contains p (a ++ b) = true.
Proof.
  induction a as [|y a IH].
  - cbn [contains]. rewrite orb_false_r. intros H.
    destruct p; [|discriminate H]. destruct b; reflexivity.
  - cbn [contains app]. fold (app a b). rewrite !orb_true_iff.
    intros [H|H]; [left|right; apply IH, H].
    apply (startswith_app_true p (y :: a) b H).
Qed.

Lemma contains_prefix_false (p a b : str) :
  contains p (a ++ b) = false -> contains p a = false.
Proof.
  intros H. destruct (contains p a) eqn:E; [|reflexivity].
  rewrite (contains_app_true p a b E) in H. discriminate H.
Qed.

Lemma contains_tail_false (p : str) (c : N) (s : str) :
  contains p (c :: s) = false -> contains p s = false.
Proof. cbn [contains]. rewrite orb_false_iff. tauto. Qed.

Lemma contains_lstrip_by_false (p : str) (q : N -> bool) (s : str) :
  contains p s = false -> contains p (lstrip_by q s) = false.
Proof.
  induction s as [|c s IH]; intros H; [exact H|]. cbn [lstrip_by].
  destruct (q c); [|exact H]. apply IH, (contains_tail_false p c s H).
Qed.

Lemma contains_strip_by_false (p : str) (q : N -> bool) (s : str) :
  contains p s = false -> contains p (strip_by q s) = false.
Proof.
  intros H. unfold strip_by.
  destruct (rstrip_by_prefix q (lstrip_by q s)) as [t Ht].
  apply (contains_prefix_false p _ t). rewrite <- Ht.
  apply contains_lstrip_by_false, H.
Qed.

(** A line feed behind a text that does not end in one starts a run of
    its own. *)
Lemma startswith_newlines_snoc (k : nat) (body : str) :
  startswith (repeat LF k) (body ++ NL) = true ->
  startswith (repeat LF k) body = true \/ Forall (fun c => c = LF) body.
Proof.
  revert body. induction k as [|k IH]; intros body; [left; reflexivity|].
  destruct body as [|c body]; [right; constructor|].
  cbn [repeat startswith app]. rewrite andb_true_iff. intros [Hc H].
  apply N.eqb_eq in Hc. subst c.
  destruct (IH body H) as [H'|H'].
  - left. rewrite N.eqb_refl. exact H'.
  - right. constructor; [reflexivity|exact H'].
Qed.

Lemma contains_newlines_snoc (k : nat) (body : str) :
  (0 < k)%nat ->
  (forall c, last body = Some c -> c <> LF) ->
  contains (repeat LF (S k)) body = false ->
  contains (repeat LF (S k)) (body ++ NL) = false.
Proof.
  intros Hk. induction body as [|c body IH]; intros Hlast H.
  - destruct k; [lia|]. reflexivity.
  - cbn [contains app] in *. fold (app body NL).
    apply orb_false_iff in H. destruct H as [H1 H2].
    apply orb_false_iff. split.
    + destruct (startswith (repeat LF (S k)) (c :: body ++ NL)) eqn:E;
        [|reflexivity].
      destruct (startswith_newlines_snoc (S k) (c :: body) E) as [H|H].
      * rewrite H in H1. discriminate H1.
      * exfalso.
        destruct (last (c :: body)) as [x|] eqn:El.
        -- apply (Hlast x eq_refl). apply last_Some_elem_of in El.
           rewrite Forall_forall in H. apply H, El.
        -- apply last_None in El. discriminate El.
    + apply IH; [|exact H2]. intros x Hx. apply Hlast.
      destruct body; [discriminate Hx|exact Hx].
Qed.

(** X8. The text the converter returns ends in exactly one line feed:
    it is a body followed by a line feed, the body neither starts nor ends
    with whitespace, and nowhere in the text are there four line feeds in a
    row (at most two blank lines between blocks). *)
Theorem get_text_shape (p : MarkdownishParser) :
  exists body,
    MarkdownishParser.get_text p = body ++ NL
    /\ (forall c, head body = Some c -> is_space c = false)
    /\ (forall c, last body = Some c -> is_space c = false)
    /\ contains (repeat LF 4) (MarkdownishParser.get_text p) = false.
Proof.
  unfold MarkdownishParser.get_text.
  set (txt := MarkdownishParser.cap_newlines 0 _).
  exists (strip txt). split; [reflexivity|].
  split; [apply strip_by_head|]. split; [apply strip_by_last|].
  apply (contains_newlines_snoc 3); [lia| |].
  - intros c Hc E. apply strip_by_last in Hc. subst c. discriminate Hc.
  - apply contains_strip_by_false.
    apply (cap_newlines_runs _ 0%nat). lia.
Qed.
(* ===================================================================== *)
(** ** Discovery works over the network alone *)
(* ===================================================================== *)

Section Network.
Context {A B : Type}.

Lemma network_only_ret (a : A) : network_only (ret a).
Proof. intros st r st' [= <- <-]. repeat split; reflexivity. Qed.

Lemma network_only_raise (e : exn) : network_only (@raise A e).
Proof. intros st r st' [= <- <-]. repeat split; reflexivity. Qed.

Lemma network_only_lift (x : res A) : network_only (lift x).
Proof. intros st r st' [= <- <-]. repeat split; reflexivity. Qed.

Lemma network_only_step (st1 st2 st3 : State) :
  (st_dirs st2 = st_dirs st1 /\ st_files st2 = st_files st1
   /\ st_stdin st2 = st_stdin st1
   /\ st_requests st1 `prefix_of` st_requests st2
   /\ st_sleeps st1 `prefix_of` st_sleeps st2) ->
  (st_dirs st3 = st_dirs st2 /\ st_files st3 = st_files st2
   /\ st_stdin st3 = st_stdin st2
   /\ st_requests st2 `prefix_of` st_requests st3
   /\ st_sleeps st2 `prefix_of` st_sleeps st3) ->
  st_dirs st3 = st_dirs st1 /\ st_files st3 = st_files st1
  /\ st_stdin st3 = st_stdin st1
  /\ st_requests st1 `prefix_of` st_requests st3
  /\ st_sleeps st1 `prefix_of` st_sleeps st3.
Proof.
  intros (Hd & Hf & Hi & Hr & Hs) (Hd' & Hf' & Hi' & Hr' & Hs').
  repeat split; try congruence; etransitivity; eassumption.
Qed.

Lemma network_only_bind (m : M A) (k : A -> M B) :
  network_only m -> (forall a, network_only (k a)) ->
  network_only (bind m k).
Proof.
  intros Hm Hk st r st' Hrun. unfold bind in Hrun.
  destruct (m st) as [[a|e] st1] eqn:E.
  - eapply network_only_step; [apply (Hm _ _ _ E)|apply (Hk a _ _ _ Hrun)].
  - injection Hrun as <- <-. apply (Hm _ _ _ E).
Qed.

Lemma network_only_try (m : M A) (h : exn -> M A) :
  network_only m -> (forall e, network_only (h e)) ->
  network_only (try_except m h).
Proof.
  intros Hm Hh st r st' Hrun. unfold try_except in Hrun.
  destruct (m st) as [[a|e] st1] eqn:E.
  - injection Hrun as <- <-. apply (Hm _ _ _ E).
  - destruct (is_Exception e).
    + eapply network_only_step; [apply (Hm _ _ _ E)|apply (Hh e _ _ _ Hrun)].
    + injection Hrun as <- <-. apply (Hm _ _ _ E).
Qed.

End Network.

Lemma network_only_sleep (seconds : Q) : network_only (sleep seconds).
Proof.
  intros st r st' [= <- <-]. cbn. repeat split; try reflexivity.
  apply prefix_app_r. reflexivity.
Qed.

Lemma network_only_urlopen (w : World) (url : str) (t : Z) :
  network_only (do_urlopen w url t).
Proof.
  intros st r st' [= <- <-]. cbn. repeat split; try reflexivity.
  apply prefix_app_r. reflexivity.
Qed.

Create HintDb network.
#[local] Hint Resolve network_only_ret network_only_raise network_only_lift
  network_only_sleep network_only_urlopen : network.

(** Splits a computation at its binds, handlers and case distinctions. *)
Ltac network :=
  repeat first
    [ solve [auto with network]
    | apply network_only_bind; [|intros ?]
    | apply network_only_try; [|intros ?]
    | match goal with
      | |- network_only (match ?x with _ => _ end) => destruct x
      | |- network_only (let '(_, _) := ?x in _) => destruct x
      end ].

Lemma network_only_fetch_loop (w : World) (n : nat) :
  forall attempt url timeout, network_only (fetch_loop w n attempt url timeout).
Proof.
  induction n as [|n IH]; intros attempt url timeout; cbn [fetch_loop]; network.
Qed.

Lemma network_only_fetch_default (w : World) (url : str) :
  network_only (fetch_default w url).
Proof. apply network_only_fetch_loop. Qed.

#[local] Hint Resolve network_only_fetch_default : network.

Lemma network_only_first_sitemap_text (w : World) (candidates : list str) :
  network_only (first_sitemap_text w candidates).
Proof.
  induction candidates as [|s rest IH]; cbn [first_sitemap_text]; network.
Qed.

Lemma network_only_index_locs (w : World) (ns : str) (sms : list Element) :
  network_only (index_locs w ns sms).
Proof.
  induction sms as [|sm rest IH]; cbn [index_locs]; unfold sub_sitemap_locs;
    network.
Qed.

#[local] Hint Resolve network_only_first_sitemap_text network_only_index_locs
  : network.

Lemma network_only_fetch_sitemap_urls (w : World) (base_url : str) :
  network_only (fetch_sitemap_urls w base_url).
Proof. unfold fetch_sitemap_urls, collect_locs. network. Qed.

Lemma network_only_try_llms_loop (w : World) (candidates : list str) :
  forall seen found, network_only (try_llms_loop w candidates seen found).
Proof.
  induction candidates as [|u rest IH]; intros seen found;
    cbn [try_llms_loop]; network.
Qed.

#[local] Hint Resolve network_only_fetch_sitemap_urls
  network_only_try_llms_loop : network.

Lemma network_only_try_llms_files (w : World) (base_url : str) :
  network_only (try_llms_files w base_url).
Proof. unfold try_llms_files. network. Qed.

#[local] Hint Resolve network_only_try_llms_files : network.

Lemma network_only_discover_pages (w : World) (base_url : str) :
  network_only (discover_pages w base_url).
Proof. unfold discover_pages. network. Qed.

(** X9. Discovery works over the network alone. Whatever the world
    answers, and whether they return or raise, [fetch], the manifest
    probe, the sitemap probe and [discover_pages] make no directory, write
    no file and read no input; the requests and sleeps made before stay
    on record, in front of the new ones. *)
Theorem discovery_is_network_only (w : World) (url : str) (timeout retries : Z) :
  network_only (fetch w url timeout retries)
  /\ network_only (try_llms_files w url)
  /\ network_only (fetch_sitemap_urls w url)
  /\ network_only (discover_pages w url).
Proof.
  split; [apply network_only_fetch_loop|].
  split; [apply network_only_try_llms_files|].
  split; [apply network_only_fetch_sitemap_urls|].
  apply network_only_discover_pages.
Qed.
(* ===================================================================== *)
(** ** What a computation returns *)
(* ===================================================================== *)

Section Returns.
Context {A B : Type}.

Lemma returns_ret (a : A) (Q : A -> Prop) : Q a -> returns (ret a) Q.
Proof. intros H st a' st' [= <- <-]. exact H. Qed.

Lemma returns_raise (e : exn) (Q : A -> Prop) : returns (raise e) Q.
Proof. intros st a st' H. discriminate H. Qed.

Lemma returns_lift (x : res A) (Q : A -> Prop) :
  (forall a, x = Ret a -> Q a) -> returns (lift x) Q.
Proof. intros H st a st' [= -> <-]. apply H. reflexivity. Qed.

Lemma returns_bind (m : M A) (k : A -> M B) (P : A -> Prop) (Q : B -> Prop) :
  returns m P -> (forall a, P a -> returns (k a) Q) -> returns (bind m k) Q.
Proof.
  intros Hm Hk st b st' Hrun. unfold bind in Hrun.
  destruct (m st) as [[a|e] st1] eqn:E; [|discriminate].
  apply (Hk a (Hm _ _ _ E) _ _ _ Hrun).
Qed.

Lemma returns_try (m : M A) (h : exn -> M A) (Q : A -> Prop) :
  returns m Q -> (forall e, returns (h e) Q) -> returns (try_except m h) Q.
Proof.
  intros Hm Hh st a st' Hrun. unfold try_except in Hrun.
  destruct (m st) as [[a'|e] st1] eqn:E.
  - injection Hrun as <- <-. apply (Hm _ _ _ E).
  - destruct (is_Exception e); [|discriminate].
    apply (Hh e _ _ _ Hrun).
Qed.

Lemma returns_any (m : M A) : returns m (fun _ => True).
Proof. intros st a st' _. exact I. Qed.

Lemma returns_weaken (m : M A) (P Q : A -> Prop) :
  returns m P -> (forall a, P a -> Q a) -> returns m Q.
Proof. intros Hm HPQ st a st' Hrun. apply HPQ, (Hm _ _ _ Hrun). Qed.

End Returns.

(** A bind whose first value need not be known. *)
Lemma returns_bind_any {A B} (m : M A) (k : A -> M B) (Q : B -> Prop) :
  (forall a, returns (k a) Q) -> returns (bind m k) Q.
Proof.
  intros Hk. apply (returns_bind m k (fun _ => True)); [apply returns_any|].
  intros a _. apply Hk.
Qed.

(* ===================================================================== *)
(** ** Discovery: the method and the pages *)
(* ===================================================================== *)

(** The methods [discover_pages] can name, the last one for no pages. *)
Lemma discover_pages_returns (w : World) (base_url : str) :
  returns (discover_pages w base_url)
    (fun r =>
       In (fst (fst r))
          [lit "llms.txt"; lit "sitemap.xml"; lit "sidebar/nav"; lit "ingen"]
       /\ (snd (fst r) = [] <-> fst (fst r) = lit "ingen")
       /\ (fst (fst r) = lit "llms.txt" ->
           manifest_get (lit "llms.txt") (snd r) <> None)).
Proof.
  unfold discover_pages.
  apply returns_bind_any. intros found.
  apply (returns_bind _ _
           (fun urls => urls <> [] ->
                        manifest_get (lit "llms.txt") found <> None)).
  { destruct (manifest_get (lit "llms.txt") found).
    - intros st0 a st0' _ _. discriminate.
    - apply returns_ret. intros H. contradiction. }
  intros from_manifest Hm.
  destruct from_manifest as [|u us].
  2:{ apply returns_ret. cbn [fst snd]. split; [simpl; tauto|].
      split; [split; discriminate|]. intros _. apply Hm. discriminate. }
  apply returns_bind_any. intros urls. destruct urls as [|u us].
  2:{ apply returns_ret. cbn [fst snd]. split; [simpl; tauto|].
      split; [split; discriminate|]. discriminate. }
  apply returns_bind_any. intros [root base].
  apply returns_bind_any. intros r.
  apply returns_bind_any. intros from_nav. destruct from_nav as [|u us].
  - apply returns_ret. cbn [fst snd]. split; [simpl; tauto|].
    split; [tauto|]. discriminate.
  - apply returns_ret. cbn [fst snd]. split; [simpl; tauto|].
    split; [split; discriminate|]. discriminate.
Qed.

(** X10. [discover_pages] names one of four methods, and the method says
    where the pages come from: it is [ingen] exactly when no page was
    found, and it is [llms.txt] only when an [llms.txt] manifest was
    fetched. *)
Theorem discover_pages_method (w : World) (base_url : str) (st st' : State)
    (method : str) (pages : list str) (llms_files : Manifests) :
  discover_pages w base_url st = (Ret (method, pages, llms_files), st') ->
  In method [lit "llms.txt"; lit "sitemap.xml"; lit "sidebar/nav"; lit "ingen"]
  /\ (pages = [] <-> method = lit "ingen")
  /\ (method = lit "llms.txt" ->
      manifest_get (lit "llms.txt") llms_files <> None).
Proof.
  intros Hrun. apply (discover_pages_returns w base_url _ _ _ Hrun).
Qed.

Lemma discover_pages_method_witness :
  In (lit "ingen")
     [lit "llms.txt"; lit "sitemap.xml"; lit "sidebar/nav"; lit "ingen"]
  /\ (@nil str = [] <-> lit "ingen" = lit "ingen")
  /\ (lit "ingen" = lit "llms.txt" -> manifest_get (lit "llms.txt") [] <> None).
Proof.
  apply (discover_pages_method offline_world (lit "https://a.example/docs")
           (init_state [])
           (snd (discover_pages offline_world (lit "https://a.example/docs")
                   (init_state [])))).
  vm_compute. reflexivity.
Defined.

(* ===================================================================== *)
(** ** Discovery of a site that cannot be reached *)
(* ===================================================================== *)

Section Yields.
Context {A B : Type}.

Lemma yields_ret (a : A) : yields (ret a) a.
Proof. intros st. exists st. reflexivity. Qed.

Lemma yields_lift (x : res A) (a : A) : x = Ret a -> yields (lift x) a.
Proof. intros -> st. exists st. reflexivity. Qed.

Lemma yields_bind (m : M A) (k : A -> M B) (a : A) (b : B) :
  yields m a -> yields (k a) b -> yields (bind m k) b.
Proof.
  intros Hm Hk st. destruct (Hm st) as [st1 E1]. destruct (Hk st1) as [st2 E2].
  exists st2. unfold bind. rewrite E1. exact E2.
Qed.

End Yields.

Section Unreachable.
Context (w : World) (Hw : unreachable w).

Lemma fetch_loop_unreachable (n : nat) :
  forall attempt url timeout, yields (fetch_loop w n attempt url timeout) None.
Proof.
  induction n as [|n IH]; intros attempt url timeout st; cbn [fetch_loop].
  - exists st. reflexivity.
  - unfold try_except, bind at 1, do_urlopen.
    destruct (Hw (length (st_requests st)) url timeout) as (e & -> & ->).
    unfold bind, sleep. apply IH.
Qed.

Lemma fetch_default_unreachable (url : str) : yields (fetch_default w url) None.
Proof. apply fetch_loop_unreachable. Qed.

Lemma try_llms_loop_unreachable (candidates : list str) :
  forall seen, yields (try_llms_loop w candidates seen []) [].
Proof.
  induction candidates as [|u rest IH]; intros seen; cbn [try_llms_loop].
  - apply yields_ret.
  - destruct (bool_decide (u ∈ seen)); [apply IH|].
    eapply yields_bind; [apply fetch_default_unreachable|]. apply IH.
Qed.

Lemma first_sitemap_text_unreachable (candidates : list str) :
  yields (first_sitemap_text w candidates) None.
Proof.
  induction candidates as [|s rest IH]; cbn [first_sitemap_text].
  - apply yields_ret.
  - eapply yields_bind; [apply fetch_default_unreachable|]. exact IH.
Qed.


End Unreachable.

Lemma offline_world_unreachable : unreachable offline_world.
Proof. intros n url timeout. exists HTTPError. split; reflexivity. Qed.

(* ===================================================================== *)
(** ** Manifest probe: what is kept *)
(* ===================================================================== *)

(** The last segment of a text that ends in a separator and a segment. *)
Lemma split_on_snoc (sep : N) (v : str) :
  Forall (fun c => c <> sep) v ->
  forall a, exists parts,
    parts <> [] /\ split_on sep (a ++ sep :: v) = parts ++ [v].
Proof.
  intros Hv. induction a as [|c a (parts & Hne & IH)]; cbn [app split_on].
  - rewrite N.eqb_refl. exists [[]]. split; [discriminate|].
    rewrite (split_on_no_sep sep v) by exact Hv. reflexivity.
  - rewrite IH. destruct (c =? sep)%N.
    + exists ([] :: parts). split; [discriminate|reflexivity].
    + destruct parts as [|p ps]; [contradiction|].
      exists ((c :: p) :: ps). split; [discriminate|reflexivity].
Qed.

Lemma variant_plain (v : str) :
  v ∈ variants -> v <> [] /\ Forall (fun c => c <> ch "/") v.
Proof.
  unfold variants. rewrite !elem_of_cons, elem_of_nil.
  intros [->|[->|[->|[]]]]; (split; [discriminate|]);
    apply Forall_forall; intros c Hc E; subst c;
    vm_compute in Hc; repeat (apply elem_of_cons in Hc as [Hc|Hc]; [discriminate Hc|]);
    inversion Hc.
Qed.

(** The file name the probe takes from a candidate URL is the variant the
    candidate was made from. *)
Lemma candidate_file_name (prefix v : str) :
  v ∈ variants ->
  default [] (last (split_on (ch "/")
                      (rstrip_chars (lit "/") (prefix ++ lit "/" ++ v))))
  = v.
Proof.
  intros Hv. destruct (variant_plain v Hv) as [Hne Hplain].
  assert (Hr : rstrip_chars (lit "/") (prefix ++ lit "/" ++ v)
               = prefix ++ lit "/" ++ v).
  { apply rstrip_by_id. intros c Hc.
    rewrite app_assoc, last_app_nonempty in Hc by exact Hne.
    apply in_chars_single_false. apply last_Some_elem_of in Hc.
    rewrite Forall_forall in Hplain. apply Hplain, Hc. }
  rewrite Hr.
  destruct (split_on_snoc (ch "/") v Hplain prefix) as (parts & _ & Hs).
  change (prefix ++ lit "/" ++ v) with (prefix ++ ch "/" :: v).
  rewrite Hs, last_snoc. reflexivity.
Qed.

Lemma manifest_get_None (name : str) (found : Manifests) :
  manifest_get name found = None -> name ∉ map fst found.
Proof.
  induction found as [|[k v] found IH]; cbn [manifest_get map fst].
  - intros _ H. inversion H.
  - destruct (str_eqb k name) eqn:E; [discriminate|]. intros H Hin.
    apply elem_of_cons in Hin. destruct Hin as [->|Hin].
    + rewrite str_eqb_refl in E. discriminate E.
    + apply (IH H Hin).
Qed.

Section ManifestProbe.
Context (w : World).

Lemma try_llms_loop_keeps (candidates : list str) :
  Forall made_from_variant candidates ->
  forall seen found,
    NoDup (map fst found) /\ Forall kept_manifest found ->
    returns (try_llms_loop w candidates seen found)
            (fun found' => NoDup (map fst found') /\ Forall kept_manifest found').
Proof.
  induction 1 as [|u rest Hu Hrest IH]; intros seen found Hinv;
    cbn [try_llms_loop].
  - apply returns_ret. exact Hinv.
  - destruct (bool_decide (u ∈ seen)); [apply IH, Hinv|].
    apply returns_bind_any. intros r.
    destruct (usable r) as [fr|] eqn:Er; [|apply IH, Hinv].
    destruct (negb (looks_textlike (fr_headers fr) (fr_body fr))) eqn:Et;
      [apply IH, Hinv|].
    destruct Hu as (prefix & v & Hv & ->).
    rewrite (candidate_file_name prefix v Hv).
    destruct (manifest_get v found) eqn:Eg; [apply IH, Hinv|].
    apply IH. destruct Hinv as [Hnd Hkept].
    apply usable_Some in Er. destruct Er as (_ & Hstatus & Hbody).
    apply negb_false_iff in Et. split.
    + rewrite map_app. apply NoDup_app. split; [exact Hnd|]. split.
      * intros x Hx Hx'. cbn in Hx'. apply list_elem_of_singleton in Hx'.
        subst x. apply (manifest_get_None v found Eg Hx).
      * cbn. apply NoDup_singleton.
    + apply Forall_app. split; [exact Hkept|].
      constructor; [|constructor]. repeat split; assumption.
Qed.

(** X12. The manifests [try_llms_files] returns have the names of
    variants ([llms-full.txt], [llms.txt], [llms-small.txt]), each name at
    most once, so there are at most three; each was answered with status
    200 and a body that is not empty and looks like text. *)
Theorem try_llms_files_found (base_url : str) (st st' : State)
    (found : Manifests) :
  try_llms_files w base_url st = (Ret found, st') ->
  NoDup (map fst found)
  /\ (length found <= 3)%nat
  /\ Forall kept_manifest found.
Proof.
  intros Hrun.
  assert (H : returns (try_llms_files w base_url)
                (fun found' => NoDup (map fst found') /\ Forall kept_manifest found')).
  { unfold try_llms_files.
    apply returns_bind_any. intros [root base].
    apply returns_bind_any. intros pb.
    apply try_llms_loop_keeps; [|split; constructor].
    assert (Hunder : forall prefix,
              Forall made_from_variant
                (map (fun v => prefix ++ lit "/" ++ v) variants)).
    { intros prefix. apply Forall_forall. intros u Hu.
      apply list_elem_of_In, in_map_iff in Hu. destruct Hu as (v & <- & Hv).
      exists prefix, v. split; [apply list_elem_of_In, Hv|reflexivity]. }
    repeat (apply Forall_app; split); try apply Hunder.
    destruct (str_eqb _ []); [apply Hunder|constructor]. }
  destruct (H _ _ _ Hrun) as [Hnd Hkept].
  split; [exact Hnd|]. split; [|exact Hkept].
  rewrite <- (length_map fst found).
  change 3%nat with (length variants).
  apply submseteq_length, NoDup_submseteq; [exact Hnd|].
  intros x Hx. apply list_elem_of_fmap in Hx. destruct Hx as (nf & -> & Hnf).
  rewrite Forall_forall in Hkept. apply (Hkept nf Hnf).
Qed.

End ManifestProbe.
Lemma try_llms_files_found_witness :
  let found :=
    match fst (try_llms_files manifest_world (lit "https://a.example/docs")
                 (init_state []))
    with
    | Ret found => found
    | Raise _ => []
    end in
  map fst found = [lit "llms.txt"]
  /\ NoDup (map fst found)
  /\ (length found <= 3)%nat
  /\ Forall kept_manifest found.
Proof.
  split; [vm_compute; reflexivity|].
  apply (try_llms_files_found manifest_world (lit "https://a.example/docs")
           (init_state [])
           (snd (try_llms_files manifest_world (lit "https://a.example/docs")
                   (init_state [])))).
  vm_compute. reflexivity.
Defined.

(* ===================================================================== *)
(** ** Manifest scan: order and filter of the pages *)
(* ===================================================================== *)

Lemma str_leb_total (a b : str) : str_leb a b = true \/ str_leb b a = true.
Proof.
  revert b. induction a as [|x a IH]; intros [|y b]; cbn [str_leb]; auto.
  destruct (N.ltb_spec x y), (N.ltb_spec y x), (N.eqb_spec x y),
    (N.eqb_spec y x); cbn [orb andb]; auto; try lia.
Qed.

Lemma str_leb_trans (a b c : str) :
  str_leb a b = true -> str_leb b c = true -> str_leb a c = true.
Proof.
  revert b c. induction a as [|x a IH]; intros [|y b] [|z c];
    cbn [str_leb]; try easy.
  destruct (N.ltb_spec x y), (N.ltb_spec y z), (N.ltb_spec x z),
    (N.eqb_spec x y), (N.eqb_spec y z), (N.eqb_spec x z);
    cbn [orb andb]; try easy; try lia.
  apply IH.
Qed.

Lemma str_leb_antisym (a b : str) :
  str_leb a b = true -> str_leb b a = true -> a = b.
Proof.
  revert b. induction a as [|x a IH]; intros [|y b]; cbn [str_leb]; try easy.
  destruct (N.ltb_spec x y), (N.ltb_spec y x), (N.eqb_spec x y),
    (N.eqb_spec y x); cbn [orb andb]; try easy; try lia.
  intros H1 H2. subst y. f_equal. apply IH; assumption.
Qed.

#[local] Instance str_le_total : Total str_le.
Proof. intros a b. apply str_leb_total. Qed.

#[local] Instance str_le_trans : Transitive str_le.
Proof. intros a b c. apply str_leb_trans. Qed.

Lemma elem_of_sorted_strs (out : gset str) (u : str) :
  u ∈ sorted_strs out <-> u ∈ out.
Proof.
  unfold sorted_strs. rewrite merge_sort_Permutation. apply elem_of_elements.
Qed.

Lemma sorted_strs_strictly (out : gset str) :
  StronglySorted str_lt (sorted_strs out).
Proof.
  assert (Hs : StronglySorted str_le (sorted_strs out))
    by (apply StronglySorted_merge_sort; apply _).
  assert (Hnd : NoDup (sorted_strs out)).
  { unfold sorted_strs. rewrite merge_sort_Permutation. apply NoDup_elements. }
  induction Hs as [|x l Hs IH Hall]; constructor.
  - apply IH. apply NoDup_cons in Hnd. apply Hnd.
  - apply NoDup_cons in Hnd. destruct Hnd as [Hx _].
    rewrite List.Forall_forall in *. intros y Hy. split; [apply Hall, Hy|].
    intros ->. apply Hx, list_elem_of_In. exact Hy.
Qed.

(* ===================================================================== *)
(** ** Splitting what [urlunsplit] put together *)
(* ===================================================================== *)

Lemma filter_safe_id (s : str) :
  Forall (fun c => is_unsafe_url_byte c = false) s ->
  filter (fun c => negb (is_unsafe_url_byte c)) s = s.
Proof.
  unfold str in *. induction 1 as [|c s Hc _ IH]; [reflexivity|].
  rewrite filter_cons_True by (rewrite Hc; exact I). rewrite IH. reflexivity.
Qed.

Lemma filter_safe_Forall (s : str) :
  Forall (fun c => is_unsafe_url_byte c = false)
         (filter (fun c => negb (is_unsafe_url_byte c)) s).
Proof.
  unfold str in *. apply Forall_forall. intros c Hc.
  apply list_elem_of_filter in Hc.
  destruct Hc as [Hc _]. destruct (is_unsafe_url_byte c); [destruct Hc|].
  reflexivity.
Qed.

Lemma span_until_app (p : N -> bool) (a b : str) :
  Forall (fun c => p c = false) a ->
  (forall c, head b = Some c -> p c = true) ->
  span_until p (a ++ b) = (a, b).
Proof.
  intros Ha Hb. induction Ha as [|c a Hc _ IH]; cbn [app span_until].
  - destruct b as [|c b]; [reflexivity|]. cbn [span_until].
    rewrite (Hb c eq_refl). reflexivity.
  - rewrite Hc, IH. reflexivity.
Qed.

Lemma split_once_absent (sep : N) (s : str) :
  Forall (fun c => c <> sep) s -> split_once sep s = None.
Proof.
  induction 1 as [|c s Hc _ IH]; [reflexivity|]. cbn [split_once].
  apply N.eqb_neq in Hc. rewrite Hc, IH. reflexivity.
Qed.

(** The characters of a scheme, checked one by one: lower case gives one
    scheme character that is its own lower case, no colon, no character
    [urlsplit] removes or strips, and a letter for a letter. *)
Lemma scheme_chars_checked :
  forallb (fun c =>
             implb (is_scheme_char c)
               match lower_chr c with
               | [c'] =>
                   is_scheme_char c' && str_eqb (lower_chr c') [c']
                   && negb (c' =? ch ":")%N
                   && negb (is_unsafe_url_byte c')
                   && negb (is_c0_or_space c')
                   && implb (is_ascii_alpha c) (is_ascii_alpha c')
               | _ => false
               end)
          (map N.of_nat (seq 0 128)) = true.
Proof. vm_compute. reflexivity. Qed.

Lemma scheme_char_small (c : N) : is_scheme_char c = true -> (c < 128)%N.
Proof.
  unfold is_scheme_char, is_ascii_alpha, is_ascii_digit, in_range, in_chars.
  change (lit "+-.") with [43; 45; 46]%N. cbn [existsb].
  rewrite !orb_true_iff, !andb_true_iff, !N.leb_le, !N.eqb_eq. lia.
Qed.

Lemma lower_scheme_char (c : N) :
  is_scheme_char c = true ->
  exists c',
    lower_chr c = [c'] /\ is_scheme_char c' = true /\ lower_chr c' = [c']
    /\ c' <> ch ":" /\ is_unsafe_url_byte c' = false
    /\ is_c0_or_space c' = false
    /\ (is_ascii_alpha c = true -> is_ascii_alpha c' = true).
Proof.
  intros Hc. pose proof (scheme_char_small c Hc) as Hsmall.
  pose proof scheme_chars_checked as Hall.
  rewrite forallb_forall in Hall. specialize (Hall c).
  rewrite Hc in Hall. cbn [implb] in Hall.
  assert (Hin : In c (map N.of_nat (seq 0 128))).
  { apply in_map_iff. exists (N.to_nat c). split; [apply N2Nat.id|].
    apply in_seq. lia. }
  specialize (Hall Hin).
  destruct (lower_chr c) as [|c' [|]]; try discriminate.
  exists c'. rewrite !andb_true_iff in Hall.
  destruct Hall as (((((H1 & H2) & H3) & H4) & H5) & H6).
  apply str_eqb_eq in H2. apply negb_true_iff in H3, H4, H5.
  apply N.eqb_neq in H3. repeat split; try assumption.
  intros Ha. rewrite Ha in H6. exact H6.
Qed.

Lemma lower_scheme (a : str) :
  forallb is_scheme_char a = true ->
  forallb is_scheme_char (lower a) = true
  /\ lower (lower a) = lower a
  /\ Forall (fun c => c <> ch ":") (lower a)
  /\ Forall (fun c => is_unsafe_url_byte c = false) (lower a)
  /\ (forall c, head a = Some c -> is_ascii_alpha c = true ->
      exists c', head (lower a) = Some c' /\ is_ascii_alpha c' = true
                 /\ is_c0_or_space c' = false).
Proof.
  induction a as [|c a IH]; cbn [forallb].
  - intros _. repeat split; try constructor. discriminate.
  - rewrite andb_true_iff. intros [Hc Ha].
    destruct (IH Ha) as (I1 & I2 & I3 & I4 & _).
    destruct (lower_scheme_char c Hc) as (c' & E & S1 & S2 & S3 & S4 & S5 & S6).
    unfold lower in *. cbn [flat_map]. rewrite E. cbn [app flat_map forallb].
    rewrite S1, S2, I1, I2. repeat split; try (constructor; assumption).
    intros x [= <-] Hx. exists c'. repeat split; auto.
Qed.

Lemma split_scheme_inv (url sch rest : str) :
  split_scheme url = (sch, rest) ->
  (sch = [] /\ rest = url)
  \/ exists a c,
       url = a ++ ch ":" :: rest /\ sch = lower a
       /\ forallb is_scheme_char a = true
       /\ head a = Some c /\ is_ascii_alpha c = true.
Proof.
  unfold split_scheme. destruct url as [|c s]; [intros [= <- <-]; left; auto|].
  destruct (is_ascii_alpha c) eqn:Ec; [|intros [= <- <-]; left; auto].
  destruct (split_once (ch ":") (c :: s)) as [[a b]|] eqn:Es;
    [|intros [= <- <-]; left; auto].
  destruct (forallb is_scheme_char a) eqn:Ea; [|intros [= <- <-]; left; auto].
  intros [= <- <-]. right. apply split_once_spec in Es. destruct Es as [Es _].
  exists a, c. repeat split; try assumption.
  destruct a as [|x a]; injection Es as -> _; [discriminate Ec|reflexivity].
Qed.

Lemma Forall_safe_app_inv (a b : str) :
  Forall (fun c => is_unsafe_url_byte c = false) (a ++ b) ->
  Forall (fun c => is_unsafe_url_byte c = false) a
  /\ Forall (fun c => is_unsafe_url_byte c = false) b.
Proof. apply Forall_app. Qed.

(** What [urlsplit] gives for a URL with a host, part by part. *)
Lemma urlsplit_inv (w : World) (url : str) (parts : SplitResult) :
  urlsplit w url = Ret parts -> netloc parts <> [] ->
  (scheme parts = []
   \/ (exists c, head (scheme parts) = Some c /\ is_ascii_alpha c = true
                 /\ is_c0_or_space c = false)
      /\ forallb is_scheme_char (scheme parts) = true
      /\ lower (scheme parts) = scheme parts
      /\ Forall (fun c => c <> ch ":") (scheme parts))
  /\ Forall (fun c => in_chars (lit "/?#") c = false) (netloc parts)
  /\ (in_chars (netloc parts) (ch "[") && negb (in_chars (netloc parts) (ch "]"))
      || in_chars (netloc parts) (ch "]")
         && negb (in_chars (netloc parts) (ch "["))) = false
  /\ (in_chars (netloc parts) (ch "[") && in_chars (netloc parts) (ch "]")
      && negb (bracketed_netloc_ok w (netloc parts))) = false
  /\ (forallb (fun c => (c <? 128)%N) (netloc parts)
      || nfkc_netloc_ok w (netloc parts)) = true
  /\ (path parts = [] \/ head (path parts) = Some (ch "/"))
  /\ Forall (fun c => c <> ch "#") (path parts)
  /\ Forall (fun c => c <> ch "?") (path parts)
  /\ Forall (fun c => c <> ch "#") (query parts)
  /\ Forall (fun c => is_unsafe_url_byte c = false)
       (scheme parts ++ netloc parts ++ path parts ++ query parts).
Proof.
  intros Hrun Hne.
  destruct (urlsplit_host_and_path w url parts Hrun Hne) as [Hloc Hpath].
  revert Hrun Hne Hloc Hpath. unfold urlsplit.
  set (url1 := filter _ (lstrip_by _ url)).
  assert (Hsafe1 : Forall (fun c => is_unsafe_url_byte c = false) url1)
    by apply filter_safe_Forall.
  destruct (split_scheme url1) as [sch u2] eqn:Esch.
  assert (Hsch : (sch = []
            \/ (exists c, head sch = Some c /\ is_ascii_alpha c = true
                          /\ is_c0_or_space c = false)
               /\ forallb is_scheme_char sch = true
               /\ lower sch = sch
               /\ Forall (fun c => c <> ch ":") sch)
            /\ Forall (fun c => is_unsafe_url_byte c = false) sch
            /\ Forall (fun c => is_unsafe_url_byte c = false) u2).
  { apply split_scheme_inv in Esch.
    destruct Esch as [[-> ->]|(a & c & Hu & -> & Ha & Hh & Hc)].
    - split; [left; reflexivity|]. split; [constructor|exact Hsafe1].
    - destruct (lower_scheme a Ha) as (L1 & L2 & L3 & L4 & L5).
      destruct (L5 c Hh Hc) as (c' & Hh' & Hc' & Hs').
      split; [right; split; [exists c'|]; repeat split; assumption|].
      split; [exact L4|].
      rewrite Hu in Hsafe1. apply Forall_app in Hsafe1.
      destruct Hsafe1 as [_ H]. apply Forall_cons in H.
      destruct H as [_ H]. exact H. }
  destruct Hsch as (Hsch & Hsafe_sch & Hsafe2). clear Esch.
  destruct (startswith (lit "//") u2).
  2:{ destruct (_ || _); [discriminate|]. destruct (_ && _); [discriminate|].
      destruct (split_once (ch "#") u2) as [[u4 frag]|];
        [destruct (split_once (ch "?") u4) as [[u5 qry]|]
        |destruct (split_once (ch "?") u2) as [[u5 qry]|]];
        (destruct (_ || _); [|discriminate]);
        intros [= <-] Hne; contradiction Hne; reflexivity. }
  destruct (span_until _ (drop 2 u2)) as [loc u3] eqn:Es.
  apply span_until_spec in Es. destruct Es as (Hu2 & _ & _).
  assert (Hsafe3 : Forall (fun c => is_unsafe_url_byte c = false) (loc ++ u3)).
  { rewrite <- Hu2. rewrite <- (take_drop 2 u2) in Hsafe2.
    apply Forall_app in Hsafe2. apply Hsafe2. }
  apply Forall_app in Hsafe3. destruct Hsafe3 as [Hsafe_loc Hsafe_u3].
  destruct (in_chars loc (ch "[") && negb (in_chars loc (ch "]"))
            || in_chars loc (ch "]") && negb (in_chars loc (ch "[")))
    eqn:Eb1; [discriminate|].
  destruct (in_chars loc (ch "[") && in_chars loc (ch "]")
            && negb (bracketed_netloc_ok w loc)) eqn:Eb2; [discriminate|].
  assert (Htail : forall u5 qry,
            (exists frag u4,
               match split_once (ch "#") u3 with
               | Some (a, b) => (a, b)
               | None => (u3, [])
               end = (u4, frag)
               /\ match split_once (ch "?") u4 with
                  | Some (a, b) => (a, b)
                  | None => (u4, [])
                  end = (u5, qry)) ->
            Forall (fun c => c <> ch "#") u5
            /\ Forall (fun c => c <> ch "?") u5
            /\ Forall (fun c => c <> ch "#") qry
            /\ Forall (fun c => is_unsafe_url_byte c = false) (u5 ++ qry)).
  { intros u5 qry (frag & u4 & E4 & E5).
    assert (H4 : Forall (fun c => c <> ch "#") u4
                 /\ Forall (fun c => is_unsafe_url_byte c = false) u4).
    { destruct (split_once (ch "#") u3) as [[a b]|] eqn:Eh;
        injection E4 as <- <-.
      - apply split_once_spec in Eh. destruct Eh as [-> Ha].
        split; [exact Ha|]. apply Forall_app in Hsafe_u3. apply Hsafe_u3.
      - apply split_once_none in Eh. split; assumption. }
    destruct H4 as [H4 Hs4].
    destruct (split_once (ch "?") u4) as [[a b]|] eqn:Eq;
      injection E5 as <- <-.
    - apply split_once_spec in Eq. destruct Eq as [-> Ha].
      apply Forall_app in H4, Hs4. destruct H4 as [H4a H4b].
      destruct Hs4 as [Hs4a Hs4b]. apply Forall_cons in H4b, Hs4b.
      repeat split; try tauto. apply Forall_app. tauto.
    - apply split_once_none in Eq. rewrite app_nil_r.
      repeat split; try assumption. constructor. }
  destruct (match split_once (ch "#") u3 with
            | Some (a, b) => (a, b)
            | None => (u3, [])
            end) as [u4 frag] eqn:E4.
  destruct (match split_once (ch "?") u4 with
            | Some (a, b) => (a, b)
            | None => (u4, [])
            end) as [u5 qry] eqn:E5.
  destruct (Htail u5 qry) as (T1 & T2 & T3 & T4);
    [exists frag, u4; split; [reflexivity|exact E5]|].
  destruct (forallb (fun c => (c <? 128)%N) loc || nfkc_netloc_ok w loc)
    eqn:En; [|discriminate].
  intros [= <-] Hne Hloc Hpath. cbn [scheme netloc path query] in *.
  repeat split; try assumption.
  repeat (apply Forall_app; split); try assumption;
    apply Forall_app in T4; apply T4.
Qed.

(** [urlunsplit] of parts with a host and without a fragment, written
    out. *)
Lemma urlunsplit_with_host (sch loc pth qry : str) :
  loc <> [] -> (pth = [] \/ head pth = Some (ch "/")) ->
  urlunsplit (mkSplit sch loc pth qry [])
  = (if str_eqb sch [] then [] else sch ++ lit ":")
    ++ lit "//" ++ loc
    ++ pth ++ (if str_eqb qry [] then [] else lit "?" ++ qry).
Proof.
  intros Hloc Hpth. unfold urlunsplit. cbn [scheme netloc path query fragment].
  assert (E1 : str_eqb loc [] = false).
  { destruct (str_eqb loc []) eqn:E; [|reflexivity].
    apply str_eqb_nil in E. contradiction. }
  rewrite E1. cbn [negb orb].
  assert (E2 : negb (str_eqb pth []) && negb (startswith (lit "/") pth) = false).
  { destruct Hpth as [->|Hh]; [reflexivity|].
    destruct pth as [|c pth]; [discriminate|]. injection Hh as ->.
    reflexivity. }
  rewrite E2. cbn [str_eqb].
  destruct (str_eqb sch []), (str_eqb qry []);
    rewrite ?app_nil_r, <- ?app_assoc; reflexivity.
Qed.

(** Parts as [urlsplit] gives them for a URL with a host are what
    [urlsplit] gives for the URL [urlunsplit] makes of them. *)
Lemma urlsplit_of_parts (w : World) (sch loc pth qry : str) :
  (sch = []
   \/ (exists c, head sch = Some c /\ is_ascii_alpha c = true
                 /\ is_c0_or_space c = false)
      /\ forallb is_scheme_char sch = true
      /\ lower sch = sch
      /\ Forall (fun c => c <> ch ":") sch) ->
  loc <> [] ->
  Forall (fun c => in_chars (lit "/?#") c = false) loc ->
  (in_chars loc (ch "[") && negb (in_chars loc (ch "]"))
   || in_chars loc (ch "]") && negb (in_chars loc (ch "["))) = false ->
  (in_chars loc (ch "[") && in_chars loc (ch "]")
   && negb (bracketed_netloc_ok w loc)) = false ->
  (forallb (fun c => (c <? 128)%N) loc || nfkc_netloc_ok w loc) = true ->
  (pth = [] \/ head pth = Some (ch "/")) ->
  Forall (fun c => c <> ch "#") pth ->
  Forall (fun c => c <> ch "?") pth ->
  Forall (fun c => c <> ch "#") qry ->
  Forall (fun c => is_unsafe_url_byte c = false) (sch ++ loc ++ pth ++ qry) ->
  urlsplit w (urlunsplit (mkSplit sch loc pth qry []))
  = Ret (mkSplit sch loc pth qry []).
Proof.
  intros Hsch Hne Hloc Eb1 Eb2 En Hpth Hp1 Hp2 Hq Hsafe.
  rewrite (urlunsplit_with_host sch loc pth qry Hne Hpth).
  set (qpart := if str_eqb qry [] then [] else lit "?" ++ qry).
  set (tail := pth ++ qpart).
  apply Forall_app in Hsafe. destruct Hsafe as [Ss Hsafe].
  apply Forall_app in Hsafe. destruct Hsafe as [Sl Hsafe].
  apply Forall_app in Hsafe. destruct Hsafe as [Sp Sq].
  assert (Stail : Forall (fun c => is_unsafe_url_byte c = false) tail).
  { apply Forall_app. split; [exact Sp|]. unfold qpart.
    destruct (str_eqb qry []); [constructor|].
    change (lit "?") with [ch "?"]. constructor; [reflexivity|exact Sq]. }
  assert (Srest : Forall (fun c => is_unsafe_url_byte c = false)
                         (lit "//" ++ loc ++ tail)).
  { change (lit "//") with [ch "/"; ch "/"].
    repeat (constructor; [reflexivity|]). apply Forall_app. split; assumption. }
  assert (Htail : forall c, head tail = Some c -> in_chars (lit "/?#") c = true).
  { intros c. unfold tail. destruct Hpth as [->|Hh].
    - cbn [app]. unfold qpart. destruct (str_eqb qry []); [discriminate|].
      intros [= <-]. reflexivity.
    - destruct pth as [|x pth]; [discriminate|]. injection Hh as ->.
      intros [= <-]. reflexivity. }
  assert (Hhash : split_once (ch "#") tail = None).
  { apply split_once_absent, Forall_app. split; [exact Hp1|]. unfold qpart.
    destruct (str_eqb qry []); [constructor|].
    change (lit "?") with [ch "?"]. constructor; [discriminate|exact Hq]. }
  assert (Hquery : split_once (ch "?") tail = None /\ tail = pth /\ qry = []
                   \/ split_once (ch "?") tail = Some (pth, qry)).
  { unfold tail, qpart. destruct (str_eqb qry []) eqn:Eq.
    - apply str_eqb_nil in Eq. subst qry. rewrite app_nil_r. left.
      split; [apply split_once_absent, Hp2|]. split; reflexivity.
    - change (lit "?" ++ qry) with (ch "?" :: qry). right.
      apply split_once_first, Hp2. }
  assert (Hspan : span_until (in_chars (lit "/?#")) (loc ++ tail) = (loc, tail))
    by (apply span_until_app; assumption).
  unfold urlsplit. fold tail.
  destruct Hsch as [->|((c & Hh & Hc & H0) & Hsc & Hlow & Hcolon)].
  - cbn [str_eqb app].
    rewrite lstrip_by_id by (intros c [= <-]; reflexivity).
    rewrite (filter_safe_id _ Srest).
    change (split_scheme (lit "//" ++ loc ++ tail))
      with (@nil N, lit "//" ++ loc ++ tail).
    cbv beta iota.
    change (startswith (lit "//") (lit "//" ++ loc ++ tail)) with true.
    change (drop 2 (lit "//" ++ loc ++ tail)) with (loc ++ tail).
    cbv beta iota. rewrite Hspan. cbv beta iota. rewrite Eb1, Eb2, Hhash.
    cbv beta iota.
    destruct Hquery as [(Hq1 & Hq2 & ->)|Hq1]; rewrite Hq1; cbv beta iota;
      rewrite En, ?Hq2; reflexivity.
  - destruct sch as [|x sch]; [discriminate|]. injection Hh as ->.
    cbn [str_eqb].
    assert (Hall : Forall (fun c => is_unsafe_url_byte c = false)
                     (((c :: sch) ++ lit ":") ++ lit "//" ++ loc ++ tail)).
    { apply Forall_app. split; [|exact Srest]. apply Forall_app.
      split; [exact Ss|]. change (lit ":") with [ch ":"].
      constructor; [reflexivity|constructor]. }
    rewrite lstrip_by_id by (intros c' [= <-]; exact H0).
    rewrite (filter_safe_id _ Hall).
    assert (Esch : split_scheme (((c :: sch) ++ lit ":") ++ lit "//" ++ loc ++ tail)
                   = (c :: sch, lit "//" ++ loc ++ tail)).
    { unfold split_scheme. cbn [app]. rewrite Hc.
      change (c :: (sch ++ lit ":") ++ lit "//" ++ loc ++ tail)
        with (((c :: sch) ++ lit ":") ++ lit "//" ++ loc ++ tail).
      rewrite <- app_assoc. change (lit ":" ++ lit "//" ++ loc ++ tail)
        with (ch ":" :: lit "//" ++ loc ++ tail).
      rewrite (split_once_first _ _ _ Hcolon), Hsc, Hlow. reflexivity. }
    rewrite Esch. cbv beta iota.
    change (startswith (lit "//") (lit "//" ++ loc ++ tail)) with true.
    change (drop 2 (lit "//" ++ loc ++ tail)) with (loc ++ tail).
    cbv beta iota. rewrite Hspan. cbv beta iota. rewrite Eb1, Eb2, Hhash.
    cbv beta iota.
    destruct Hquery as [(Hq1 & Hq2 & ->)|Hq1]; rewrite Hq1; cbv beta iota;
      rewrite En, ?Hq2; reflexivity.
Qed.

(** The URL that [extract_urls_from_llms_txt] makes of the parts of a
    candidate with a host splits into these parts again, without the
    fragment. *)
Lemma urlsplit_urlunsplit (w : World) (url : str) (parts : SplitResult) :
  urlsplit w url = Ret parts -> netloc parts <> [] ->
  urlsplit w (urlunsplit (mkSplit (scheme parts) (netloc parts) (path parts)
                                  (query parts) []))
  = Ret (mkSplit (scheme parts) (netloc parts) (path parts) (query parts) []).
Proof.
  intros Hrun Hne.
  destruct (urlsplit_inv w url parts Hrun Hne)
    as (H1 & H2 & H3 & H4 & H5 & H6 & H7 & H8 & H9 & H10).
  apply urlsplit_of_parts; assumption.
Qed.

Section ManifestScan.
Context (w : World).

(** A URL the scan lets through is made of the parts of a candidate that
    [urlsplit] accepted. *)
Lemma manifest_candidate_split (base_url base_host base_prefix raw u : str) :
  manifest_candidate w base_url base_host base_prefix raw = Ret (Some u) ->
  exists cand parts,
    urlsplit w cand = Ret parts
    /\ u = urlunsplit (mkSplit (scheme parts) (netloc parts) (path parts)
                               (query parts) [])
    /\ netloc parts = base_host
    /\ under_prefix base_prefix (path parts) = true.
Proof.
  unfold manifest_candidate.
  set (u0 := strip_chars (lit ".,;:") (strip raw)).
  destruct (startswith (lit "/") u0).
  - destruct (urljoin w base_url u0) as [joined|e]; cbn [res_bind];
      [|discriminate].
    destruct (urlsplit w joined) as [parts|[]] eqn:Es; try discriminate.
    destruct (negb (str_eqb (netloc parts) base_host)) eqn:Eh; [discriminate|].
    destruct (negb (under_prefix base_prefix (path parts))) eqn:Ep;
      [discriminate|].
    intros [= <-]. exists joined, parts. split; [exact Es|].
    split; [reflexivity|].
    apply negb_false_iff in Eh, Ep. apply str_eqb_eq in Eh. split; assumption.
  - destruct (negb (startswith (lit "http://") u0
                    || startswith (lit "https://") u0));
      cbn [res_bind]; [discriminate|].
    destruct (urlsplit w u0) as [parts|[]] eqn:Es; try discriminate.
    destruct (negb (str_eqb (netloc parts) base_host)) eqn:Eh; [discriminate|].
    destruct (negb (under_prefix base_prefix (path parts))) eqn:Ep;
      [discriminate|].
    intros [= <-]. exists u0, parts. split; [exact Es|].
    split; [reflexivity|].
    apply negb_false_iff in Eh, Ep. apply str_eqb_eq in Eh. split; assumption.
Qed.

Lemma manifest_scan_filtered (base_url : str) (base : SplitResult)
    (candidates : list str) :
  netloc base <> [] ->
  forall out out',
    manifest_scan w base_url (netloc base) (base_prefix_of base) candidates out
    = Ret out' ->
    (forall u, u ∈ out -> manifest_page w base u) ->
    forall u, u ∈ out' -> manifest_page w base u.
Proof.
  intros Hhost.
  induction candidates as [|raw rest IH]; intros out out'; cbn [manifest_scan].
  - intros [= <-] H. exact H.
  - destruct (manifest_candidate w base_url (netloc base)
                (base_prefix_of base) raw) as [o|e] eqn:E; [|discriminate].
    cbn [res_bind]. intros Hrun Hout. apply (IH _ _ Hrun).
    destruct o as [u0|]; [|exact Hout].
    intros u Hu. apply elem_of_union in Hu. destruct Hu as [Hu|Hu];
      [|apply Hout, Hu].
    apply elem_of_singleton in Hu. subst u.
    destruct (manifest_candidate_split _ _ _ _ _ E)
      as (cand & parts & Hsplit & Hu & Hloc & Hpath).
    assert (Hne : netloc parts <> []) by (rewrite Hloc; exact Hhost).
    eexists. split; [rewrite Hu; apply (urlsplit_urlunsplit w cand), Hne;
                     exact Hsplit|].
    cbn [fragment netloc path]. split; [reflexivity|]. split; [exact Hloc|].
    unfold under_prefix in Hpath. apply orb_true_iff in Hpath.
    destruct Hpath as [Hp|Hp]; [left; apply str_eqb_eq, Hp|right; exact Hp].
Qed.

Lemma extract_urls_filtered (text base_url : str) (base : SplitResult)
    (urls : list str) :
  urlsplit w base_url = Ret base -> netloc base <> [] ->
  extract_urls_from_llms_txt w text base_url = Ret urls ->
  Forall (manifest_page w base) urls.
Proof.
  intros Hbase Hhost. unfold extract_urls_from_llms_txt. rewrite Hbase.
  cbn [res_bind].
  change (if str_eqb (rstrip_chars (lit "/") (path base)) []
          then lit "/" else rstrip_chars (lit "/") (path base))
    with (base_prefix_of base).
  destruct (manifest_scan _ _ _ _ _ _) as [out|e] eqn:E; [|discriminate].
  cbn [res_bind]. intros [= <-]. apply Forall_forall. intros u Hu.
  apply elem_of_sorted_strs in Hu.
  apply (manifest_scan_filtered _ _ _ Hhost _ _ E); [|exact Hu].
  intros u' Hu'. apply elem_of_empty in Hu'. contradiction.
Qed.

(** X13. For a base URL with a host, the pages
    [extract_urls_from_llms_txt] returns are in strictly ascending order
    by code point, so none is there twice; and [urlsplit] splits each of
    them into parts without a fragment, with the host of the base URL,
    and with a path that is the base path or extends it at a slash. *)
Theorem extract_urls_from_llms_txt_sound (text base_url : str)
    (base : SplitResult) (urls : list str) :
  urlsplit w base_url = Ret base -> netloc base <> [] ->
  extract_urls_from_llms_txt w text base_url = Ret urls ->
  StronglySorted str_lt urls /\ Forall (manifest_page w base) urls.
Proof.
  intros Hbase Hhost Hrun.
  split; [|apply (extract_urls_filtered _ _ _ _ Hbase Hhost Hrun)].
  unfold extract_urls_from_llms_txt in Hrun. rewrite Hbase in Hrun.
  cbn [res_bind] in Hrun.
  destruct (manifest_scan _ _ _ _ _ _) as [out|e]; [|discriminate].
  injection Hrun as <-. apply sorted_strs_strictly.
Qed.

(** X14. For a base URL with a host and without a path (the root of a
    site) the manifest scan filters by the prefix [/]: [urlsplit] splits
    every page it returns into the host of the base and a path that is
    [/] or starts with two slashes. So a page like [/docs/intro] of the
    same site is not among them. *)
Theorem manifest_scan_at_site_root (text base_url : str)
    (base : SplitResult) (urls : list str) :
  urlsplit w base_url = Ret base -> netloc base <> [] ->
  rstrip_chars (lit "/") (path base) = [] ->
  extract_urls_from_llms_txt w text base_url = Ret urls ->
  Forall (fun u => exists pu,
            urlsplit w u = Ret pu
            /\ netloc pu = netloc base
            /\ (path pu = lit "/"
                \/ startswith (lit "//") (path pu) = true)) urls.
Proof.
  intros Hbase Hhost Hroot Hrun.
  pose proof (extract_urls_filtered _ _ _ _ Hbase Hhost Hrun) as H.
  eapply Forall_impl; [exact H|]. intros u (pu & Hu & _ & Hloc & Hpath).
  exists pu. split; [exact Hu|]. split; [exact Hloc|].
  unfold base_prefix_of in Hpath. rewrite Hroot in Hpath. exact Hpath.
Qed.

End ManifestScan.

Lemma extract_urls_from_llms_txt_sound_witness :
  let urls :=
    [lit "https://example.com/docs/a"; lit "https://example.com/docs/b";
     lit "https://example.com/docs/intro"] in
  extract_urls_from_llms_txt example_com_world sample_manifest
    (lit "https://example.com/docs") = Ret urls
  /\ StronglySorted str_lt urls
  /\ Forall (manifest_page example_com_world
               (mkSplit (lit "https") (lit "example.com") (lit "/docs") [] []))
            urls.
Proof.
  cbv zeta. split; [vm_compute; reflexivity|].
  apply (extract_urls_from_llms_txt_sound example_com_world sample_manifest
           (lit "https://example.com/docs"));
    [vm_compute; reflexivity | vm_compute; discriminate
    | vm_compute; reflexivity].
Defined.

Lemma manifest_scan_at_site_root_witness :
  let urls := [lit "https://example.com/"; lit "https://example.com//x"] in
  extract_urls_from_llms_txt offline_world root_manifest
    (lit "https://example.com") = Ret urls
  /\ Forall (fun u => exists pu,
               urlsplit offline_world u = Ret pu
               /\ netloc pu = lit "example.com"
               /\ (path pu = lit "/"
                   \/ startswith (lit "//") (path pu) = true)) urls.
Proof.
  cbv zeta. split; [vm_compute; reflexivity|].
  apply (manifest_scan_at_site_root offline_world root_manifest
           (lit "https://example.com")
           (mkSplit (lit "https") (lit "example.com") [] [] []));
    [vm_compute; reflexivity | vm_compute; discriminate
    | vm_compute; reflexivity | vm_compute; reflexivity].
Defined.
(* ===================================================================== *)
(** ** Sitemap probe: the pages it returns *)
(* ===================================================================== *)

Lemma filter_sitemap_urls_pages (w : World) (base_norm base_path : str)
    (pb : SplitResult) (urls : list str) :
  urlsplit w base_norm = Ret pb ->
  forall (seen : gset str) (out pages : list str),
    (forall u, u ∈ seen <-> u ∈ out) ->
    NoDup out -> Forall (normal_page w (netloc pb)) out ->
    filter_sitemap_urls w base_norm base_path urls seen out = Ret pages ->
    NoDup pages /\ Forall (normal_page w (netloc pb)) pages.
Proof.
  intros Hb. induction urls as [|raw urls IH];
    intros seen out pages Hseen Hnd Hall Hrun.
  - injection Hrun as <-. split; assumption.
  - cbn [filter_sitemap_urls] in Hrun. rewrite Hb in Hrun.
    destruct (str_eqb (normalize_url raw) []) eqn:Ee;
      [apply (IH _ _ _ Hseen Hnd Hall Hrun)|].
    destruct (urlsplit w (normalize_url raw)) as [pu|e] eqn:Eu; [|discriminate].
    cbn [res_bind] in Hrun.
    destruct (negb (str_eqb (netloc pu) (netloc pb))) eqn:Eh;
      [apply (IH _ _ _ Hseen Hnd Hall Hrun)|].
    destruct (negb (str_eqb base_path []) && negb (startswith base_path (path pu)));
      [apply (IH _ _ _ Hseen Hnd Hall Hrun)|].
    destruct (bool_decide (normalize_url raw ∈ seen)) eqn:Es;
      [apply (IH _ _ _ Hseen Hnd Hall Hrun)|].
    apply bool_decide_eq_false in Es.
    apply (IH _ _ _) in Hrun; [exact Hrun| | |].
    + intros u. rewrite elem_of_union, elem_of_singleton, elem_of_app,
        list_elem_of_singleton, Hseen. tauto.
    + apply NoDup_app. split; [exact Hnd|]. split; [|apply NoDup_singleton].
      intros u Hu Hu'. apply list_elem_of_singleton in Hu'. subst u.
      apply Es, Hseen, Hu.
    + apply Forall_app. split; [exact Hall|]. constructor; [|constructor].
      split; [|split].
      * intros H. rewrite H in Ee. discriminate Ee.
      * exists raw. reflexivity.
      * exists pu. split; [exact Eu|].
        apply negb_false_iff, str_eqb_eq in Eh. exact Eh.
Qed.

(** X15. The pages the sitemap probe returns are all different, and each
    is a normal form of the URL normaliser that is not empty and names the
    host of the base URL. *)
Theorem fetch_sitemap_urls_pages (w : World) (base_url root base : str)
    (pb : SplitResult) (st st' : State) (pages : list str) :
  split_root_and_base w base_url = Ret (root, base) ->
  urlsplit w (rstrip_chars (lit "/") base) = Ret pb ->
  fetch_sitemap_urls w base_url st = (Ret pages, st') ->
  NoDup pages /\ Forall (normal_page w (netloc pb)) pages.
Proof.
  intros Hsplit Hb Hrun.
  assert (H : returns (fetch_sitemap_urls w base_url)
                (fun pages => NoDup pages
                              /\ Forall (normal_page w (netloc pb)) pages)).
  { unfold fetch_sitemap_urls. rewrite Hsplit.
    apply (returns_bind _ _ (fun rb => rb = (root, base))).
    { apply returns_lift. intros a [= <-]. reflexivity. }
    intros rb ->. apply returns_bind_any. intros pb0.
    apply returns_bind_any. intros xml_text.
    assert (Hnil : returns (ret (@nil str))
                     (fun pages => NoDup pages
                                   /\ Forall (normal_page w (netloc pb)) pages)).
    { apply returns_ret. split; constructor. }
    destruct xml_text as [xml_text|]; [|exact Hnil].
    destruct (str_eqb xml_text []); [exact Hnil|].
    destruct (parse_sitemap_root w xml_text) as [root_el|]; [|exact Hnil].
    apply returns_bind_any. intros urls. apply returns_lift.
    intros pages' Hf.
    eapply filter_sitemap_urls_pages; [exact Hb| | | |exact Hf].
    - intros u. rewrite elem_of_empty, elem_of_nil. tauto.
    - constructor.
    - constructor. }
  apply (H _ _ _ Hrun).
Qed.

Lemma fetch_sitemap_urls_pages_witness :
  let pages := [lit "https://example.com/docs/intro"] in
  fst (fetch_sitemap_urls root_sitemap_world (lit "https://example.com/docs")
         (init_state []))
  = Ret pages
  /\ NoDup pages /\ Forall (normal_page root_sitemap_world (lit "example.com")) pages.
Proof.
  cbv zeta. split; [vm_compute; reflexivity|].
  apply (fetch_sitemap_urls_pages root_sitemap_world
           (lit "https://example.com/docs") (lit "https://example.com")
           (lit "https://example.com/docs")
           (mkSplit (lit "https") (lit "example.com") (lit "/docs") [] [])
           (init_state [])
           (snd (fetch_sitemap_urls root_sitemap_world
                   (lit "https://example.com/docs") (init_state []))));
    vm_compute; reflexivity.
Defined.

(* ===================================================================== *)
(** ** Navigation scrape: the links it collects *)
(* ===================================================================== *)

Section NavigationScrape.
Context (w : World).

Lemma handle_starttag_links (tag : str) (attrs : list (str * option str))
    (p p' : SidebarLinkParser) :
  links_invariant w p ->
  SidebarLinkParser.handle_starttag w tag attrs p = Ret p' ->
  links_invariant w p' /\ sb_base_host p' = sb_base_host p.
Proof.
  intros Hinv. unfold SidebarLinkParser.handle_starttag.
  destruct (tag_in (lower tag) _).
  { intros [= <-]. split; [exact Hinv|reflexivity]. }
  destruct (0 <? sb_ignore_depth p).
  { intros [= <-]. split; [exact Hinv|reflexivity]. }
  match goal with
  | |- context [if ?b then _ else Ret ?q] =>
      assert (Hq : links_invariant w q /\ sb_base_host q = sb_base_host p)
        by (split; [exact Hinv|reflexivity]);
      destruct b; [|intros [= <-]; exact Hq]
  end.
  destruct (_ || _); [intros [= <-]; exact Hq|].
  match goal with
  | |- res_bind ?j _ = _ -> _ => destruct j as [href|e]; [|discriminate]
  end.
  cbn [res_bind sb_root sb_base sb_base_host sb_base_path sb_stack sb_urls
       sb_seen sb_ignore_depth].
  destruct (str_eqb (normalize_url href) []) eqn:Ee; [intros [= <-]; exact Hq|].
  destruct (urlsplit w (normalize_url href)) as [ph|e] eqn:Eu; [|discriminate].
  cbn [res_bind].
  destruct (negb (str_eqb (netloc ph) (sb_base_host p))) eqn:Eh;
    [intros [= <-]; exact Hq|].
  destruct (_ && _); [intros [= <-]; exact Hq|].
  destruct (bool_decide (normalize_url href ∈ sb_seen p)) eqn:Es;
    [intros [= <-]; exact Hq|].
  intros [= <-]. split; [|reflexivity].
  destruct Hinv as (Hnd & Hseen & Hall). apply bool_decide_eq_false in Es.
  unfold links_invariant.
  cbn [sb_base_host sb_urls sb_seen]. split; [|split].
  - apply NoDup_app. split; [exact Hnd|]. split; [|apply NoDup_singleton].
    intros u Hu Hu'. apply list_elem_of_singleton in Hu'. subst u.
    apply Es, Hseen, Hu.
  - intros u. rewrite elem_of_union, elem_of_singleton, elem_of_app,
      list_elem_of_singleton, Hseen. tauto.
  - apply Forall_app. split; [exact Hall|]. constructor; [|constructor].
    split; [|split].
    + intros H. rewrite H in Ee. discriminate Ee.
    + exists href. reflexivity.
    + exists ph. split; [exact Eu|].
      apply negb_false_iff, str_eqb_eq in Eh. exact Eh.
Qed.

Lemma handle_endtag_links (tag : str) (p : SidebarLinkParser) :
  links_invariant w p ->
  links_invariant w (SidebarLinkParser.handle_endtag tag p)
  /\ sb_base_host (SidebarLinkParser.handle_endtag tag p) = sb_base_host p.
Proof.
  intros Hinv. unfold SidebarLinkParser.handle_endtag.
  repeat match goal with
         | |- context [if ?b then _ else _] => destruct b
         end; split; try exact Hinv; reflexivity.
Qed.

Lemma feed_links (events : list HtmlEvent) :
  forall p p',
    links_invariant w p -> SidebarLinkParser.feed w events p = Ret p' ->
    links_invariant w p' /\ sb_base_host p' = sb_base_host p.
Proof.
  induction events as [|ev events IH]; intros p p' Hinv;
    cbn [SidebarLinkParser.feed].
  - intros [= <-]. split; [exact Hinv|reflexivity].
  - destruct ev as [tag attrs|tag|data].
    + destruct (SidebarLinkParser.handle_starttag w tag attrs p) as [q|e] eqn:E;
        [|discriminate].
      cbn [res_bind]. intros Hrun.
      destruct (handle_starttag_links _ _ _ _ Hinv E) as [Hq Hhost].
      destruct (IH _ _ Hq Hrun) as [Hp' Hhost']. split; [exact Hp'|congruence].
    + intros Hrun.
      destruct (handle_endtag_links tag p Hinv) as [Hq Hhost].
      destruct (IH _ _ Hq Hrun) as [Hp' Hhost']. split; [exact Hp'|congruence].
    + apply IH, Hinv.
Qed.

(** X16. The links the navigation scrape collects from a page are all
    different, and each is a normal form of the URL normaliser that is not
    empty and names the host of the root URL. *)
Theorem sidebar_links_pages (root base : str) (pr : SplitResult)
    (events : list HtmlEvent) (p0 p : SidebarLinkParser) :
  urlsplit w root = Ret pr ->
  SidebarLinkParser.init w root base = Ret p0 ->
  SidebarLinkParser.feed w events p0 = Ret p ->
  NoDup (sb_urls p) /\ Forall (normal_page w (netloc pr)) (sb_urls p).
Proof.
  intros Hr Hinit Hfeed. unfold SidebarLinkParser.init in Hinit.
  rewrite Hr in Hinit. cbn [res_bind] in Hinit.
  destruct (urlsplit w base) as [pb|e]; [|discriminate].
  injection Hinit as <-.
  assert (Hinv : links_invariant w
                   (mkSb root base (netloc pr)
                         (rstrip_chars (lit "/") (path pb)) [] [] ∅ 0)).
  { split; [constructor|]. split; [|constructor].
    intros u. cbn [sb_seen sb_urls]. rewrite elem_of_empty, elem_of_nil.
    tauto. }
  destruct (feed_links events _ _ Hinv Hfeed) as ((Hnd & _ & Hall) & Hhost).
  cbn [sb_base_host] in Hhost. rewrite Hhost in Hall. split; assumption.
Qed.

(** The stack holds no element that makes its content a candidate. *)
Lemma in_candidate_snoc (p : SidebarLinkParser) (tag : str)
    (attrs : list (str * option str)) (q : SidebarLinkParser) :
  SidebarLinkParser._in_candidate p = false ->
  opens_navigation (StartTag tag attrs) = false ->
  sb_stack q = sb_stack p ++ [(lower tag, SidebarLinkParser.attrs_dict attrs)] ->
  SidebarLinkParser._in_candidate q = false.
Proof.
  unfold SidebarLinkParser._in_candidate. intros Hp Hev ->.
  rewrite existsb_app, Hp. cbn [existsb orb]. rewrite orb_false_r. exact Hev.
Qed.

Lemma existsb_removelast {A} (f : A -> bool) (l : list A) :
  existsb f l = false -> existsb f (removelast l) = false.
Proof.
  induction l as [|x l IH]; [reflexivity|]. cbn [existsb removelast].
  rewrite orb_false_iff. intros [Hx Hl]. destruct l as [|y l]; [reflexivity|].
  cbn [existsb]. rewrite Hx. apply IH, Hl.
Qed.

Lemma feed_outside_navigation (events : list HtmlEvent) :
  forallb (fun ev => negb (opens_navigation ev)) events = true ->
  forall p,
    SidebarLinkParser._in_candidate p = false ->
    exists p',
      SidebarLinkParser.feed w events p = Ret p' /\ sb_urls p' = sb_urls p.
Proof.
  induction events as [|ev events IH]; cbn [forallb]; intros Hevs p Hp.
  - exists p. split; reflexivity.
  - apply andb_true_iff in Hevs. destruct Hevs as [Hev Hevs].
    apply negb_true_iff in Hev. cbn [SidebarLinkParser.feed].
    destruct ev as [tag attrs|tag|data].
    + unfold SidebarLinkParser.handle_starttag.
      destruct (tag_in (lower tag) _).
      { cbn [res_bind].
        match goal with
        | |- exists p', SidebarLinkParser.feed w events ?q = _ /\ _ =>
            destruct (IH Hevs q Hp) as (p' & Hrun & Hurls)
        end.
        exists p'. split; [exact Hrun|exact Hurls]. }
      destruct (0 <? sb_ignore_depth p).
      { cbn [res_bind]. apply (IH Hevs _ Hp). }
      match goal with
      | |- context [SidebarLinkParser._in_candidate ?q] =>
          assert (Hq : SidebarLinkParser._in_candidate q = false)
            by (apply (in_candidate_snoc p tag attrs q Hp Hev); reflexivity);
          rewrite Hq, andb_false_r; cbn [res_bind];
          destruct (IH Hevs q Hq) as (p' & Hrun & Hurls)
      end.
      exists p'. split; [exact Hrun|exact Hurls].
    + assert (Hq : SidebarLinkParser._in_candidate
                     (SidebarLinkParser.handle_endtag tag p) = false).
      { unfold SidebarLinkParser.handle_endtag.
        repeat match goal with
               | |- context [if ?b then _ else _] => destruct b
               end; try exact Hp.
        unfold SidebarLinkParser._in_candidate in *. cbn [sb_stack].
        apply existsb_removelast, Hp. }
      destruct (IH Hevs _ Hq) as (p' & Hrun & Hurls).
      exists p'. split; [exact Hrun|]. rewrite Hurls.
      unfold SidebarLinkParser.handle_endtag.
      repeat match goal with
             | |- context [if ?b then _ else _] => destruct b
             end; reflexivity.
    + apply (IH Hevs _ Hp).
Qed.

(** X17. A page without navigation gives no links: when the handler
    calls [feed] has made are for a page in which no start tag is a [nav]
    or [aside] element and none has a class or id that holds a keyword,
    the parser it leaves has collected nothing, whatever the links of the
    page are. *)
Theorem links_outside_navigation_ignored (root base : str)
    (events : list HtmlEvent) (p0 p : SidebarLinkParser) :
  SidebarLinkParser.init w root base = Ret p0 ->
  forallb (fun ev => negb (opens_navigation ev)) events = true ->
  SidebarLinkParser.feed w events p0 = Ret p ->
  sb_urls p = [].
Proof.
  intros Hinit Hevs Hrun. unfold SidebarLinkParser.init in Hinit.
  destruct (urlsplit w root) as [pr|e]; [|discriminate].
  destruct (urlsplit w base) as [pb|e]; [|discriminate].
  injection Hinit as <-.
  match type of Hrun with
  | SidebarLinkParser.feed w events ?q = _ =>
      destruct (feed_outside_navigation events Hevs q eq_refl)
        as (p' & Hrun' & Hu)
  end.
  rewrite Hrun' in Hrun. injection Hrun as <-. exact Hu.
Qed.

End NavigationScrape.
Lemma sidebar_links_pages_witness :
  exists p,
    SidebarLinkParser.feed nav_world sibling_nav docs_link_parser = Ret p
    /\ sb_urls p = [lit "https://example.com/docs-old/x"]
    /\ NoDup (sb_urls p)
    /\ Forall (normal_page nav_world (lit "example.com")) (sb_urls p).
Proof.
  destruct (SidebarLinkParser.feed nav_world sibling_nav docs_link_parser)
    as [p|e] eqn:E; [|vm_compute in E; discriminate E].
  exists p. split; [reflexivity|]. split.
  - assert (H : res_bind (SidebarLinkParser.feed nav_world sibling_nav
                            docs_link_parser) (fun p => Ret (sb_urls p))
                = Ret [lit "https://example.com/docs-old/x"])
      by (vm_compute; reflexivity).
    rewrite E in H. injection H as H. exact H.
  - apply (sidebar_links_pages nav_world (lit "https://example.com")
             (lit "https://example.com/docs")
             (mkSplit (lit "https") (lit "example.com") [] [] [])
             sibling_nav docs_link_parser p);
      [vm_compute; reflexivity | vm_compute; reflexivity | exact E].
Defined.

Lemma links_outside_navigation_ignored_witness :
  exists p,
    SidebarLinkParser.feed nav_world plain_link docs_link_parser = Ret p
    /\ sb_urls p = [].
Proof.
  destruct (SidebarLinkParser.feed nav_world plain_link docs_link_parser)
    as [p|e] eqn:E; [|vm_compute in E; discriminate E].
  exists p. split; [reflexivity|].
  apply (links_outside_navigation_ignored nav_world
           (lit "https://example.com") (lit "https://example.com/docs")
           plain_link docs_link_parser p);
    [vm_compute; reflexivity | vm_compute; reflexivity | exact E].
Defined.
(* ===================================================================== *)
(** ** The combined document *)
(* ===================================================================== *)

Lemma read_text_spec (p : str) (st : State) :
  exists e,
    is_Exception e = true
    /\ read_text p st
       = (match file_text st p with Some t => Ret t | None => Raise e end, st).
Proof.
  unfold read_text, file_text.
  destruct (st_files st !! p) as [data|].
  - destruct (utf8_decode_strict data); exists ValueError; split; reflexivity.
  - exists OtherException. split; reflexivity.
Qed.

Lemma combined_parts_spec (md_paths : list str) (st : State) :
  exists parts,
    combined_parts md_paths st = (Ret parts, st)
    /\ concat parts
       = flat_map (fun p =>
                     match file_text st p with
                     | Some t => t ++ page_separator
                     | None => []
                     end) md_paths.
Proof.
  induction md_paths as [|p rest (parts & Hrun & Hparts)];
    cbn [combined_parts flat_map].
  - exists []. split; reflexivity.
  - destruct (read_text_spec p st) as (e & He & Hread).
    unfold bind at 1, try_except, bind at 1. rewrite Hread.
    destruct (file_text st p) as [t|].
    + unfold ret at 1. unfold bind. rewrite Hrun.
      exists ([t; NL ++ NL ++ lit "---" ++ NL ++ NL] ++ parts).
      split; [reflexivity|]. rewrite concat_app, Hparts.
      cbn [concat]. rewrite app_nil_r. reflexivity.
    + rewrite He. unfold ret at 1. unfold bind. rewrite Hrun.
      exists parts. split; [reflexivity|exact Hparts].
Qed.

Lemma build_combined_run (md_paths : list str) (out_path title : str)
    (st : State) :
  build_combined md_paths out_path title st
  = match utf8_encode_strict (combined_text st title md_paths) with
    | Some data => (Ret tt, with_file out_path data st)
    | None => (Raise ValueError, st)
    end.
Proof.
  unfold build_combined, bind.
  destruct (combined_parts_spec md_paths st) as (parts & -> & Hparts).
  unfold save_text, join, combined_text. cbn [concat].
  rewrite Hparts, <- !app_assoc.
  destruct (utf8_encode_strict _); reflexivity.
Qed.

(** X18. [build_combined] writes one file and nothing else: the title
    line followed by every page that can be read, in the order of the
    paths, each with the separator behind it. A path without a file, or
    with a file that is not UTF-8, is skipped without a word. When the
    text cannot be encoded, the error is raised. (For pages without
    carriage return, which text mode would read as line feeds.) *)
Theorem build_combined_spec (md_paths : list str) (out_path title : str)
    (st : State) :
  (forall p t, p ∈ md_paths -> file_text st p = Some t -> no_cr t) ->
  match utf8_encode_strict (combined_text st title md_paths) with
  | Some data =>
      build_combined md_paths out_path title st
      = (Ret tt, with_file out_path data st)
  | None => fst (build_combined md_paths out_path title st) = Raise ValueError
  end.
Proof.
  intros _. rewrite build_combined_run.
  destruct (utf8_encode_strict _); reflexivity.
Qed.

Lemma build_combined_spec_witness :
  build_combined [lit "/work/site/md/a.md"; lit "/work/site/md/b.md"]
                 (lit "/work/site/combined.md") (lit "T") one_file_state
  = (Ret tt,
     with_file (lit "/work/site/combined.md")
               (lit "# T" ++ NL ++ NL ++ lit "# a" ++ NL
                ++ NL ++ NL ++ lit "---" ++ NL ++ NL)
               one_file_state).
Proof.
  apply (build_combined_spec
           [lit "/work/site/md/a.md"; lit "/work/site/md/b.md"]
           (lit "/work/site/combined.md") (lit "T") one_file_state).
  intros p t Hp Ht.
  apply elem_of_cons in Hp. destruct Hp as [->|Hp].
  - vm_compute in Ht. injection Ht as <-. reflexivity.
  - apply list_elem_of_singleton in Hp. subst p. vm_compute in Ht.
    discriminate Ht.
Defined.

(* ===================================================================== *)
(** ** The manifests saved *)
(* ===================================================================== *)

Lemma path_join_inj (d a b : str) : path_join d a = path_join d b -> a = b.
Proof.
  unfold path_join. intros H. apply app_inv_head in H.
  apply app_inv_head in H. exact H.
Qed.

Lemma save_manifests_spec (d : str) (found : Manifests) :
  NoDup (map fst found) ->
  forall st, exists st',
    for_each found
      (fun nf => save_bytes (path_join d (fst nf)) (fr_body (snd nf))) st
    = (Ret tt, st')
    /\ st_dirs st' = st_dirs st /\ st_requests st' = st_requests st
    /\ (forall name fr, (name, fr) ∈ found ->
          st_files st' !! path_join d name = Some (fr_body fr))
    /\ (forall p, (forall name, name ∈ map fst found -> p <> path_join d name) ->
          st_files st' !! p = st_files st !! p).
Proof.
  induction found as [|[name fr] found IH]; intros Hnd st; cbn [for_each].
  - exists st. repeat split; try reflexivity.
    intros name fr H. apply elem_of_nil in H. contradiction.
  - cbn [map fst] in Hnd. apply NoDup_cons in Hnd. destruct Hnd as [Hname Hnd].
    unfold bind, save_bytes at 1. cbn [fst snd].
    destruct (IH Hnd (with_file (path_join d name) (fr_body fr) st))
      as (st' & Hrun & Hdirs & Hreqs & Hsaved & Hother).
    exists st'. split; [exact Hrun|]. split; [exact Hdirs|].
    split; [exact Hreqs|]. split.
    + intros name' fr' Hin. apply elem_of_cons in Hin.
      destruct Hin as [[= -> ->]|Hin]; [|apply (Hsaved _ _ Hin)].
      rewrite Hother.
      * cbn [with_file st_files]. apply lookup_insert_eq.
      * intros name' Hin E. apply path_join_inj in E. subst name'.
        contradiction.
    + intros p Hp. rewrite Hother.
      * cbn [with_file st_files]. apply lookup_insert_ne.
        intros E. apply (Hp name); [left|symmetry; exact E].
      * intros name' Hin. apply Hp. right. exact Hin.
Qed.

(** X19. [write_llms_files] saves every manifest found, byte for byte,
    under its name in the directory [llms] of the site directory, and
    touches no other file; with no manifest it does nothing at all, not
    even make the directory. *)
Theorem write_llms_files_saves (found : Manifests) (out_dir : str) (st : State) :
  NoDup (map fst found) ->
  exists st',
    write_llms_files found out_dir st = (Ret tt, st')
    /\ (found = [] -> st' = st)
    /\ (found <> [] -> path_join out_dir (lit "llms") ∈ st_dirs st')
    /\ (forall name fr, (name, fr) ∈ found ->
          st_files st' !! path_join (path_join out_dir (lit "llms")) name
          = Some (fr_body fr))
    /\ (forall p,
          (forall name, name ∈ map fst found ->
             p <> path_join (path_join out_dir (lit "llms")) name) ->
          st_files st' !! p = st_files st !! p).
Proof.
  intros Hnd. unfold write_llms_files. destruct found as [|nf found].
  - exists st. split; [reflexivity|]. split; [reflexivity|].
    split; [congruence|]. split; [|reflexivity].
    intros name fr H. apply elem_of_nil in H. contradiction.
  - unfold bind at 1, ensure_dir.
    match goal with
    | |- exists st', for_each _ _ ?s = _ /\ _ =>
        destruct (save_manifests_spec (path_join out_dir (lit "llms"))
                    (nf :: found) Hnd s)
          as (st' & Hrun & Hdirs & _ & Hsaved & Hother)
    end.
    exists st'. split; [exact Hrun|]. split; [discriminate|]. split.
    + intros _. rewrite Hdirs. cbn [st_dirs].
      apply elem_of_union_l, elem_of_singleton. reflexivity.
    + split; [exact Hsaved|exact Hother].
Qed.

Lemma write_llms_files_saves_witness :
  let fr := mkFetchResult (lit "https://a.example/llms.txt") 200 ∅ (lit "# Docs") in
  exists st',
    write_llms_files [(lit "llms.txt", fr)] (lit "/work/site") (init_state [])
    = (Ret tt, st')
    /\ st_files st' !! lit "/work/site/llms/llms.txt" = Some (lit "# Docs").
Proof.
  cbv zeta.
  destruct (write_llms_files_saves
              [(lit "llms.txt",
                mkFetchResult (lit "https://a.example/llms.txt") 200 ∅
                              (lit "# Docs"))]
              (lit "/work/site") (init_state []))
    as (st' & Hrun & _ & _ & Hsaved & _).
  - apply NoDup_singleton.
  - exists st'. split; [exact Hrun|].
    apply (Hsaved (lit "llms.txt")
             (mkFetchResult (lit "https://a.example/llms.txt") 200 ∅
                            (lit "# Docs"))).
    left.
Defined.
(* ===================================================================== *)
(** ** The pages downloaded *)
(* ===================================================================== *)

Lemma fetch_loop_requests (w : World) (n : nat) :
  forall attempt url timeout st r st',
    fetch_loop w n attempt url timeout st = (r, st') ->
    (length (st_requests st') <= length (st_requests st) + n)%nat.
Proof.
  induction n as [|n IH]; intros attempt url timeout st r st';
    cbn [fetch_loop].
  - intros [= <- <-]. lia.
  - unfold try_except, bind at 1, do_urlopen.
    destruct (urlopen w _ url timeout) as [resp|e].
    + intros [= <- <-]. cbn [st_requests]. rewrite length_app. cbn. lia.
    + destruct (is_Exception e).
      * unfold bind, sleep. intros Hrun. apply IH in Hrun.
        cbn [st_requests] in Hrun. rewrite length_app in Hrun. cbn in Hrun.
        lia.
      * intros [= <- <-]. cbn [st_requests]. rewrite length_app. cbn. lia.
Qed.

Lemma file_text_with_file (p q : str) (data : bytes) (st : State) :
  file_text (with_file q data st) p
  = if str_eqb p q then utf8_decode_strict data else file_text st p.
Proof.
  unfold file_text, with_file. cbn [st_files].
  destruct (str_eqb p q) eqn:E.
  - apply str_eqb_eq in E. subst q. rewrite lookup_insert_eq. reflexivity.
  - rewrite lookup_insert_ne; [reflexivity|].
    intros ->. rewrite str_eqb_refl in E. discriminate E.
Qed.

Lemma file_text_same_files (st st' : State) (p : str) :
  st_files st' = st_files st -> file_text st' p = file_text st p.
Proof. unfold file_text. intros ->. reflexivity. Qed.

Lemma holds_page_mono (urls urls' : list str) (st : State) (p : str) :
  (forall u, u ∈ urls -> u ∈ urls') ->
  holds_page urls st p -> holds_page urls' st p.
Proof.
  intros Hsub (u & text & Hu & Ht & Hpre). exists u, text.
  split; [apply Hsub, Hu|]. split; assumption.
Qed.

Section Download.
Context (w : World) (raw_dir md_dir : str) (delay : Q).
Hypothesis Hdirs : forall x y, path_join raw_dir x <> path_join md_dir y.

(** One round of the download loop: at most three requests, no
    directory made; a page that was fetched is written twice, as it came
    and converted, and the converted file starts with the head for its
    URL. *)
Lemma download_page_spec (u : str) (st st' : State) (o : option str) :
  download_page w raw_dir md_dir delay u st = (Ret o, st') ->
  (length (st_requests st') <= length (st_requests st) + 3)%nat
  /\ st_dirs st' = st_dirs st
  /\ match o with
     | None => st_files st' = st_files st
     | Some p =>
         (exists slug, p = path_join md_dir (slug ++ lit ".md"))
         /\ holds_page [u] st' p
         /\ forall q, (exists y, q = path_join md_dir y) -> q <> p ->
                      file_text st' q = file_text st q
     end.
Proof.
  unfold download_page, bind at 1.
  destruct (fetch_default w u st) as [[r|e] st1] eqn:Ef; [|discriminate].
  pose proof (fetch_loop_requests w _ _ _ _ _ _ _ Ef) as Hreq.
  destruct (network_only_fetch_default w u _ _ _ Ef) as (Hd & Hf & _).
  destruct (usable r) as [fr|].
  2:{ intros [= <- <-]. repeat split; assumption. }
  unfold bind at 1, lift at 1.
  destruct (url_to_page_slug w u) as [slug|e]; [|discriminate].
  set (ext := if contains (lit "text/markdown") _ then _ else _).
  unfold bind at 1, save_bytes at 1. unfold bind at 1, lift at 1.
  destruct (decode_bytes w (fr_body fr) (fr_headers fr)) as [text|e];
    [|discriminate].
  set (md_body := if _ || _ then _ else _).
  unfold bind at 1, save_text.
  destruct (utf8_encode_strict
              (lit "# " ++ u ++ NL ++ source_line u ++ md_body))
    as [data|] eqn:Ee; [|discriminate].
  unfold save_bytes, bind, sleep, ret. intros [= <- <-].
  cbn [st_requests st_dirs st_files]. split; [exact Hreq|]. split; [exact Hd|].
  split; [exists slug; reflexivity|]. split.
  - exists u, (lit "# " ++ u ++ NL ++ source_line u ++ md_body).
    split; [left|]. split.
    + unfold file_text. cbn [st_files]. rewrite lookup_insert_eq.
      apply utf8_decode_strict_encode, Ee.
    + unfold page_head. exists md_body. rewrite <- !app_assoc. reflexivity.
  - intros q [y ->] Hq. unfold file_text. cbn [st_files].
    rewrite lookup_insert_ne by (intros E; apply Hq; symmetry; exact E).
    rewrite lookup_insert_ne by apply Hdirs.
    rewrite Hf. reflexivity.
Qed.

Lemma download_loop_spec (urls : list str) :
  forall st st' md_paths,
    download_loop w raw_dir md_dir delay urls st = (Ret md_paths, st') ->
    (length md_paths <= length urls)%nat
    /\ (length (st_requests st')
        <= length (st_requests st) + 3 * length urls)%nat
    /\ st_dirs st' = st_dirs st
    /\ Forall (fun p => (exists slug, p = path_join md_dir (slug ++ lit ".md"))
                        /\ holds_page urls st' p) md_paths
    /\ forall us q, (exists y, q = path_join md_dir y) ->
                    holds_page us st q -> holds_page (us ++ urls) st' q.
Proof.
  induction urls as [|u rest IH]; intros st st' md_paths; cbn [download_loop].
  - intros [= <- <-]. cbn. repeat split; try lia; [constructor|].
    intros us q _ H. rewrite app_nil_r. exact H.
  - unfold bind at 1.
    destruct (download_page w raw_dir md_dir delay u st) as [[o|e] st1] eqn:E1;
      [|discriminate].
    unfold bind at 1.
    destruct (download_loop w raw_dir md_dir delay rest st1) as [[more|e] st2]
      eqn:E2; [|discriminate].
    intros [= <- <-].
    destruct (download_page_spec u st st1 o E1) as (Hreq1 & Hd1 & Ho).
    destruct (IH st1 st2 more E2) as (Hlen & Hreq2 & Hd2 & Hmore & Hkeep).
    assert (Hstep : forall us q, (exists y, q = path_join md_dir y) ->
                      holds_page us st q -> holds_page (us ++ [u]) st1 q).
    { intros us q Hq (u0 & text & Hu0 & Ht & Hpre). destruct o as [p|].
      - destruct Ho as (_ & Hp & Hother).
        destruct (str_eqb q p) eqn:Eq.
        + apply str_eqb_eq in Eq. subst q.
          apply (holds_page_mono [u]); [|exact Hp].
          intros x Hx. apply elem_of_app. right. exact Hx.
        + exists u0, text. split; [apply elem_of_app; left; exact Hu0|].
          split; [|exact Hpre]. rewrite Hother; [exact Ht|exact Hq|].
          intros ->. rewrite str_eqb_refl in Eq. discriminate Eq.
      - exists u0, text. split; [apply elem_of_app; left; exact Hu0|].
        split; [|exact Hpre].
        rewrite (file_text_same_files st st1 q Ho). exact Ht. }
    assert (Hall : Forall (fun p =>
                (exists slug, p = path_join md_dir (slug ++ lit ".md"))
                /\ holds_page (u :: rest) st2 p) more).
    { eapply Forall_impl; [exact Hmore|]. intros p [Hp Hh]. split; [exact Hp|].
      apply (holds_page_mono rest); [|exact Hh]. intros x Hx. right. exact Hx. }
    split; [destruct o; cbn [length]; lia|]. split; [cbn [length]; lia|].
    split; [congruence|]. split.
    + destruct o as [p|]; [|exact Hall]. constructor; [|exact Hall].
      destruct Ho as ((slug & ->) & Hp & _). split; [exists slug; reflexivity|].
      apply (Hkeep [u] _ ltac:(eexists; reflexivity) Hp).
    + intros us q Hq Hh.
      replace (us ++ u :: rest) with ((us ++ [u]) ++ rest)
        by (rewrite <- app_assoc; reflexivity).
      apply (Hkeep _ q Hq), (Hstep us q Hq Hh).
Qed.

End Download.

Lemma raw_is_not_md (out_dir x y : str) :
  path_join (path_join out_dir (lit "raw")) x
  <> path_join (path_join out_dir (lit "md")) y.
Proof.
  unfold path_join. rewrite <- !app_assoc. intros H.
  apply app_inv_head in H. discriminate H.
Qed.

Lemma download_pages_run (w : World) (urls : list str) (out_dir : str)
    (delay : Q) (max_pages : Z) (st st' : State) (md_paths : list str) :
  0 <= max_pages ->
  download_pages w urls out_dir delay max_pages st = (Ret md_paths, st') ->
  (length md_paths <= length urls)%nat
  /\ Z.of_nat (length md_paths) <= max_pages
  /\ Z.of_nat (length (st_requests st'))
     <= Z.of_nat (length (st_requests st)) + 3 * max_pages
  /\ path_join out_dir (lit "raw") ∈ st_dirs st'
  /\ path_join out_dir (lit "md") ∈ st_dirs st'
  /\ Forall (fun p =>
               (exists slug,
                  p = path_join (path_join out_dir (lit "md"))
                                (slug ++ lit ".md"))
               /\ holds_page urls st' p) md_paths.
Proof.
  intros Hmax. unfold download_pages, bind at 1, ensure_dir at 1.
  unfold bind at 1, ensure_dir at 1. intros Hrun.
  apply (download_loop_spec w _ _ delay (raw_is_not_md out_dir)) in Hrun.
  destruct Hrun as (Hlen & Hreq & Hd & Hall & _).
  cbn [st_requests st_dirs] in *.
  assert (Ht2 : (length (take (Z.to_nat max_pages) urls)
                 <= Z.to_nat max_pages)%nat).
  { rewrite length_take. lia. }
  assert (Ht3 : (length (take (Z.to_nat max_pages) urls) <= length urls)%nat).
  { rewrite length_take. lia. }
  split; [lia|]. split; [lia|]. split; [lia|].
  split.
  { rewrite Hd. apply elem_of_union_r, elem_of_union_l, elem_of_singleton.
    reflexivity. }
  split.
  { rewrite Hd. apply elem_of_union_l, elem_of_singleton. reflexivity. }
  eapply Forall_impl; [exact Hall|]. intros p [Hp Hh]. split; [exact Hp|].
  apply (holds_page_mono (take (Z.to_nat max_pages) urls)); [|exact Hh].
  intros u Hu. apply (subseteq_take (Z.to_nat max_pages) urls), Hu.
Qed.

(** X20. [download_pages] with a page limit that is not negative returns
    at most as many files as there are URLs and as the limit allows, with
    at most three requests for each URL within the limit; it makes the
    directories [raw] and [md], and every path it returns is a file of
    [md] with the ending [.md] that holds a converted page: text that
    starts with one of the URLs as a heading and with the line that names
    it as the source. *)
Theorem download_pages_result (w : World) (urls : list str) (out_dir : str)
    (delay : Q) (max_pages : Z) (st st' : State) (md_paths : list str) :
  0 <= max_pages ->
  download_pages w urls out_dir delay max_pages st = (Ret md_paths, st') ->
  (length md_paths <= length urls)%nat
  /\ Z.of_nat (length md_paths) <= max_pages
  /\ Z.of_nat (length (st_requests st'))
     <= Z.of_nat (length (st_requests st)) + 3 * max_pages
  /\ path_join out_dir (lit "raw") ∈ st_dirs st'
  /\ path_join out_dir (lit "md") ∈ st_dirs st'
  /\ Forall (fun p =>
               (exists slug,
                  p = path_join (path_join out_dir (lit "md"))
                                (slug ++ lit ".md"))
               /\ holds_page urls st' p) md_paths.
Proof. apply download_pages_run. Qed.

Lemma download_pages_result_witness :
  let run :=
    download_pages one_page_world two_urls (lit "/work/site") DELAY_SEC 250
                   (init_state []) in
  fst run = Ret [lit "/work/site/md/docs.md"]
  /\ holds_page two_urls (snd run) (lit "/work/site/md/docs.md").
Proof.
  cbv zeta. split; [vm_compute; reflexivity|].
  destruct (download_pages_result one_page_world two_urls (lit "/work/site")
              DELAY_SEC 250 (init_state [])
              (snd (download_pages one_page_world two_urls (lit "/work/site")
                      DELAY_SEC 250 (init_state [])))
              [lit "/work/site/md/docs.md"])
    as (_ & _ & _ & _ & _ & Hall).
  - lia.
  - vm_compute. reflexivity.
  - apply Forall_cons in Hall. destruct Hall as [[_ H] _]. exact H.
Defined.

(* ===================================================================== *)
(** ** Download, then combine *)
(* ===================================================================== *)

(** X21. The combined document holds every page that was downloaded:
    after [download_pages], every path it returned can be read, and
    [build_combined] over those paths writes the title line followed by
    the text of each of them, in order, none skipped, each with the
    separator behind it. (For pages without carriage return, which text
    mode would read as line feeds.) *)
Theorem combined_holds_every_page (w : World) (urls : list str)
    (out_dir out_path title : str) (delay : Q) (max_pages : Z)
    (st st1 st2 : State) (md_paths : list str) :
  0 <= max_pages ->
  download_pages w urls out_dir delay max_pages st = (Ret md_paths, st1) ->
  (forall p t, p ∈ md_paths -> file_text st1 p = Some t -> no_cr t) ->
  build_combined md_paths out_path title st1 = (Ret tt, st2) ->
  exists pages,
    Forall2 (fun p t => file_text st1 p = Some t) md_paths pages
    /\ file_text st2 out_path
       = Some (lit "# " ++ title ++ NL ++ NL
               ++ flat_map (fun t => t ++ page_separator) pages).
Proof.
  intros Hmax Hdl _ Hbc.
  destruct (download_pages_run w urls out_dir delay max_pages st st1 md_paths
              Hmax Hdl) as (_ & _ & _ & _ & _ & Hall).
  assert (Hpages : exists pages,
            Forall2 (fun p t => file_text st1 p = Some t) md_paths pages
            /\ flat_map (fun p => match file_text st1 p with
                                  | Some t => t ++ page_separator
                                  | None => []
                                  end) md_paths
               = flat_map (fun t => t ++ page_separator) pages).
  { clear Hdl Hbc. induction Hall as [|p ps [_ (u & t & _ & Ht & _)] _ IH].
    - exists []. split; [constructor|reflexivity].
    - destruct IH as (pages & Hf & Heq). exists (t :: pages).
      split; [constructor; assumption|]. cbn [flat_map]. rewrite Ht, Heq.
      reflexivity. }
  destruct Hpages as (pages & Hf & Heq). exists pages. split; [exact Hf|].
  rewrite build_combined_run in Hbc.
  destruct (utf8_encode_strict (combined_text st1 title md_paths)) as [data|]
    eqn:Ee; [|discriminate].
  injection Hbc as <-. rewrite file_text_with_file, str_eqb_refl.
  rewrite (utf8_decode_strict_encode _ _ Ee). unfold combined_text.
  rewrite Heq. reflexivity.
Qed.

Lemma combined_holds_every_page_witness :
  let run :=
    download_pages one_page_world two_urls (lit "/work/site") DELAY_SEC 250
                   (init_state []) in
  let run2 :=
    build_combined [lit "/work/site/md/docs.md"] (lit "/work/site/combined.md")
                   (lit "https://a.example/docs") (snd run) in
  fst run = Ret [lit "/work/site/md/docs.md"]
  /\ exists pages,
       Forall2 (fun p t => file_text (snd run) p = Some t)
               [lit "/work/site/md/docs.md"] pages
       /\ file_text (snd run2) (lit "/work/site/combined.md")
          = Some (lit "# " ++ lit "https://a.example/docs" ++ NL ++ NL
                  ++ flat_map (fun t => t ++ page_separator) pages).
Proof.
  cbv zeta. split; [vm_compute; reflexivity|].
  apply (combined_holds_every_page one_page_world two_urls (lit "/work/site")
           (lit "/work/site/combined.md") (lit "https://a.example/docs")
           DELAY_SEC 250 (init_state []));
    [lia | vm_compute; reflexivity | | vm_compute; reflexivity].
  intros p t Hp Ht. apply list_elem_of_singleton in Hp. subst p.
  vm_compute in Ht. injection Ht as <-. reflexivity.
Defined.
(* ===================================================================== *)
(** ** Selection parsing: a comma is a union *)
(* ===================================================================== *)

Lemma lstrip_by_idem (q : N -> bool) (s : str) :
  lstrip_by q (lstrip_by q s) = lstrip_by q s.
Proof. apply lstrip_by_id. intros c. apply lstrip_by_head. Qed.

Lemma lstrip_rstrip_comm (q : N -> bool) (s : str) :
  lstrip_by q (rstrip_by q s) = rstrip_by q (lstrip_by q s).
Proof.
  induction s as [|c s IH]; [reflexivity|].
  change (lstrip_by q (c :: s)) with (if q c then lstrip_by q s else c :: s).
  cbn [rstrip_by]. destruct (q c) eqn:Qc.
  - rewrite <- IH. destruct (rstrip_by q s) as [|y r]; [reflexivity|].
    cbn [lstrip_by]. rewrite Qc. reflexivity.
  - cbn [rstrip_by]. destruct (rstrip_by q s) as [|y r];
      cbn [lstrip_by]; rewrite Qc; reflexivity.
Qed.

Lemma strip_by_lstrip (q : N -> bool) (s : str) :
  strip_by q (lstrip_by q s) = strip_by q s.
Proof. unfold strip_by. rewrite lstrip_by_idem. reflexivity. Qed.

Lemma rstrip_by_idem (q : N -> bool) (s : str) :
  rstrip_by q (rstrip_by q s) = rstrip_by q s.
Proof. apply rstrip_by_id. intros c. apply rstrip_by_last. Qed.

Lemma strip_by_rstrip (q : N -> bool) (s : str) :
  strip_by q (rstrip_by q s) = strip_by q s.
Proof.
  unfold strip_by. rewrite lstrip_rstrip_comm, rstrip_by_idem. reflexivity.
Qed.

(** [split] and the two ends of a text: stripping the left end changes
    the first part only, stripping the right end the last part only. *)
Lemma split_on_lstrip (sep : N) (q : N -> bool) (s : str) :
  q sep = false ->
  exists w ws,
    split_on sep s = w :: ws
    /\ split_on sep (lstrip_by q s) = lstrip_by q w :: ws.
Proof.
  intros Hsep. induction s as [|c s (w & ws & Hs & Hl)].
  - exists [], []. split; reflexivity.
  - cbn [split_on lstrip_by]. rewrite Hs.
    destruct (N.eqb_spec c sep) as [->|Hc].
    + rewrite Hsep. exists [], (w :: ws). cbn [split_on]. rewrite N.eqb_refl, Hs.
      split; reflexivity.
    + destruct (q c) eqn:Qc.
      * exists (c :: w), ws. split; [reflexivity|]. cbn [lstrip_by].
        rewrite Qc. exact Hl.
      * exists (c :: w), ws. split; [reflexivity|]. cbn [split_on lstrip_by].
        rewrite Qc, Hs. apply N.eqb_neq in Hc. rewrite Hc. reflexivity.
Qed.

Lemma split_on_nonempty (sep : N) (s : str) : split_on sep s <> [].
Proof.
  destruct s as [|c s]; cbn [split_on]; [discriminate|].
  destruct (c =? sep)%N; [discriminate|].
  destruct (split_on sep s); discriminate.
Qed.

Lemma split_on_single_nil (sep : N) (s : str) :
  split_on sep s = [[]] -> s = [].
Proof.
  destruct s as [|c s]; cbn [split_on]; [reflexivity|].
  destruct (c =? sep)%N.
  - intros [= H]. destruct (split_on_nonempty sep s H).
  - destruct (split_on sep s); discriminate.
Qed.

Lemma split_on_rstrip (sep : N) (q : N -> bool) (s : str) :
  q sep = false ->
  exists ws w,
    split_on sep s = ws ++ [w]
    /\ split_on sep (rstrip_by q s) = ws ++ [rstrip_by q w].
Proof.
  intros Hsep. induction s as [|c s (ws & w & Hs & Hr)].
  - exists [], []. split; reflexivity.
  - cbn [split_on rstrip_by]. rewrite Hs.
    destruct (rstrip_by q s) as [|y r] eqn:Er.
    + cbn [split_on] in Hr.
      destruct ws as [|w1 ws]; [|destruct ws; discriminate Hr].
      cbn [app] in *. injection Hr as Hw.
      destruct (N.eqb_spec c sep) as [->|Hc].
      * rewrite Hsep. cbn [split_on]. rewrite N.eqb_refl.
        exists [[]], w. rewrite <- Hw. split; reflexivity.
      * exists [], (c :: w). split; [reflexivity|]. cbn [app rstrip_by].
        rewrite <- Hw. destruct (q c); cbn [split_on]; [reflexivity|].
        apply N.eqb_neq in Hc. rewrite Hc. reflexivity.
    + change (split_on sep (c :: y :: r))
        with (if (c =? sep)%N then [] :: split_on sep (y :: r)
              else match split_on sep (y :: r) with
                   | [] => [[c]]
                   | w :: ws => (c :: w) :: ws
                   end).
      rewrite Hr.
      destruct (N.eqb_spec c sep) as [->|Hc].
      * exists ([] :: ws), w. split; reflexivity.
      * destruct ws as [|w1 ws]; cbn [app].
        -- exists [], (c :: w). split; [reflexivity|]. cbn [app rstrip_by].
           destruct (rstrip_by q w) as [|z t] eqn:Ew; [|reflexivity].
           apply split_on_single_nil in Hr. discriminate Hr.
        -- exists ((c :: w1) :: ws), w. split; reflexivity.
Qed.

Lemma split_on_app (sep : N) (a b : str) :
  split_on sep (a ++ sep :: b) = split_on sep a ++ split_on sep b.
Proof.
  induction a as [|c a IH]; cbn [app split_on].
  - rewrite N.eqb_refl. reflexivity.
  - rewrite IH. destruct (c =? sep)%N; [reflexivity|].
    destruct (split_on sep a) as [|w ws] eqn:E; [|reflexivity].
    destruct (split_on_nonempty sep a E).
Qed.

(** One part of a selection adds its indices to those collected before,
    and it is read without the whitespace at its ends. *)
Lemma selection_part_union (part : str) (n : Z) (out : gset Z) (x : Z) :
  x ∈ selection_part part n out
  <-> x ∈ selection_part part n ∅ \/ x ∈ out.
Proof.
  assert (Hkeep : x ∈ out <-> x ∈ (∅ : gset Z) \/ x ∈ out).
  { rewrite elem_of_empty. tauto. }
  assert (Hadd : forall S : gset Z,
            x ∈ S ∪ out <-> x ∈ S ∪ ∅ \/ x ∈ out).
  { intros S. rewrite !elem_of_union, elem_of_empty. tauto. }
  unfold selection_part.
  destruct (str_eqb (strip part) []); [exact Hkeep|].
  destruct (in_chars (strip part) (ch "-")).
  - destruct (split_once (ch "-") (strip part)) as [[a b]|]; [|exact Hkeep].
    destruct (py_int (strip a)) as [start|]; [|exact Hkeep].
    destruct (py_int (strip b)) as [stop|]; [|exact Hkeep].
    destruct (stop <? start); unfold add_range; apply Hadd.
  - destruct (py_int (strip part)) as [i|]; [|exact Hkeep].
    destruct ((1 <=? i) && (i <=? n)); [apply Hadd|exact Hkeep].
Qed.

Lemma selection_part_stripped (part part' : str) (n : Z) (out : gset Z) :
  strip part = strip part' ->
  selection_part part n out = selection_part part' n out.
Proof. unfold selection_part. intros ->. reflexivity. Qed.

Lemma selection_fold_union (parts : list str) (n : Z) :
  forall (out : gset Z) (x : Z),
    x ∈ fold_left (fun out part => selection_part part n out) parts out
    <-> x ∈ out \/ exists part, part ∈ parts /\ x ∈ selection_part part n ∅.
Proof.
  induction parts as [|p parts IH]; intros out x; cbn [fold_left].
  - split; [tauto|]. intros [H|(part & Hin & _)]; [exact H|].
    apply elem_of_nil in Hin. contradiction.
  - rewrite IH, selection_part_union. split.
    + intros [[H|H]|(part & Hin & H)].
      * right. exists p. split; [left|exact H].
      * left. exact H.
      * right. exists part. split; [right; exact Hin|exact H].
    + intros [H|(part & Hin & H)]; [left; right; exact H|].
      apply elem_of_cons in Hin. destruct Hin as [->|Hin].
      * left. left. exact H.
      * right. exists part. split; assumption.
Qed.

(** The indices a selection text stands for do not depend on the
    whitespace at its ends. *)
Lemma selection_parts_lstrip (s : str) (n x : Z) :
  (exists part, part ∈ split_on (ch ",") (lstrip s)
                /\ x ∈ selection_part part n ∅)
  <-> (exists part, part ∈ split_on (ch ",") s /\ x ∈ selection_part part n ∅).
Proof.
  destruct (split_on_lstrip (ch ",") is_space s eq_refl) as (w & ws & -> & Hl).
  unfold lstrip. rewrite Hl.
  assert (E : selection_part (lstrip_by is_space w) n ∅ = selection_part w n ∅).
  { apply selection_part_stripped. apply strip_by_lstrip. }
  split; intros (part & Hin & H); apply elem_of_cons in Hin;
    destruct Hin as [->|Hin].
  - exists w. split; [left|]. rewrite <- E. exact H.
  - exists part. split; [right; exact Hin|exact H].
  - exists (lstrip_by is_space w). split; [left|]. rewrite E. exact H.
  - exists part. split; [right; exact Hin|exact H].
Qed.

Lemma selection_parts_rstrip (s : str) (n x : Z) :
  (exists part, part ∈ split_on (ch ",") (rstrip_by is_space s)
                /\ x ∈ selection_part part n ∅)
  <-> (exists part, part ∈ split_on (ch ",") s /\ x ∈ selection_part part n ∅).
Proof.
  destruct (split_on_rstrip (ch ",") is_space s eq_refl) as (ws & w & -> & ->).
  assert (E : selection_part (rstrip_by is_space w) n ∅ = selection_part w n ∅).
  { apply selection_part_stripped. apply strip_by_rstrip. }
  split; intros (part & Hin & H); apply elem_of_app in Hin;
    destruct Hin as [Hin|Hin].
  - exists part. split; [apply elem_of_app; left; exact Hin|exact H].
  - apply list_elem_of_singleton in Hin. subst part. exists w.
    split; [apply elem_of_app; right; left|]. rewrite <- E. exact H.
  - exists part. split; [apply elem_of_app; left; exact Hin|exact H].
  - apply list_elem_of_singleton in Hin. subst part.
    exists (rstrip_by is_space w).
    split; [apply elem_of_app; right; left|]. rewrite E. exact H.
Qed.

(** An index is selected when one of the parts between the commas
    selects it. *)
Lemma elem_of_parse_selection (sel : str) (n x : Z) :
  x ∈ parse_selection sel n
  <-> exists part, part ∈ split_on (ch ",") sel /\ x ∈ selection_part part n ∅.
Proof.
  rewrite <- selection_parts_lstrip, <- selection_parts_rstrip.
  change (rstrip_by is_space (lstrip sel)) with (strip sel).
  unfold parse_selection. destruct (str_eqb (strip sel) []) eqn:E.
  - apply str_eqb_nil in E. rewrite E. split.
    + intros H. apply elem_of_nil in H. contradiction.
    + intros (part & Hin & H). cbn [split_on] in Hin.
      apply list_elem_of_singleton in Hin. subst part.
      unfold selection_part in H. cbn in H. apply elem_of_empty in H.
      contradiction.
  - rewrite elem_of_sorted_ints, selection_fold_union. split.
    + intros [H|H]; [apply elem_of_empty in H; contradiction|exact H].
    + intros H. right. exact H.
Qed.

(** X22. A comma in a selection is a union: an index is selected by two
    selection texts joined with a comma exactly when one of the two
    selects it, whatever the texts are. So a part that cannot be read
    takes nothing away from the other parts. *)
Theorem parse_selection_comma (a b : str) (n x : Z) :
  x ∈ parse_selection (a ++ lit "," ++ b) n
  <-> x ∈ parse_selection a n \/ x ∈ parse_selection b n.
Proof.
  rewrite !elem_of_parse_selection.
  change (a ++ lit "," ++ b) with (a ++ ch "," :: b). rewrite split_on_app.
  split.
  - intros (part & Hin & H). apply elem_of_app in Hin.
    destruct Hin as [Hin|Hin]; [left|right]; exists part; split; assumption.
  - intros [(part & Hin & H)|(part & Hin & H)]; exists part;
      (split; [apply elem_of_app|exact H]); [left|right]; exact Hin.
Qed.
(* ===================================================================== *)
(** ** The menu *)
(* ===================================================================== *)

Lemma pick_sublist_from (pages : list str) (idxs : list Z) :
  StronglySorted Z.lt idxs ->
  forall k : nat,
    Forall (fun i => Z.of_nat k + 1 <= i) idxs ->
    pick pages idxs `sublist_of` drop k pages.
Proof.
  unfold pick. induction 1 as [|i rest Hs IH Hall]; intros k Hk;
    cbn [omap list_omap].
  - apply sublist_nil_l.
  - apply Forall_cons in Hk. destruct Hk as [Hi _].
    assert (Hrest : Forall (fun i' => Z.of_nat (S (Z.to_nat (i - 1))) + 1 <= i')
                           rest).
    { rewrite List.Forall_forall in Hall. apply Forall_forall. intros i' Hi'.
      apply list_elem_of_In in Hi'. specialize (Hall i' Hi'). lia. }
    specialize (IH _ Hrest).
    assert (Hdrop : forall j, (k <= j)%nat ->
                      drop j pages `sublist_of` drop k pages).
    { intros j Hj. replace j with (k + (j - k))%nat by lia.
      rewrite <- drop_drop. apply sublist_drop. }
    destruct (pages !! Z.to_nat (i - 1)) as [x|] eqn:E.
    + etransitivity; [|apply (Hdrop (Z.to_nat (i - 1))); lia].
      rewrite (drop_S _ _ _ E). apply sublist_skip, IH.
    + etransitivity; [exact IH|]. apply Hdrop. lia.
Qed.

(** What [parse_selection] returns picks pages in their order. *)
Lemma pick_selection_sublist (pages : list str) (sel : str) :
  pick pages (parse_selection sel (Z.of_nat (length pages)))
  `sublist_of` pages.
Proof.
  change pages with (drop 0 pages) at 3. apply pick_sublist_from.
  - apply parse_selection_strictly.
  - apply Forall_forall. intros i Hi. apply parse_selection_bounds in Hi. lia.
Qed.

Lemma reads_input_only_refl (st : State) : reads_input_only st st.
Proof. repeat split; reflexivity. Qed.

Lemma reads_input_only_line (st st' : State) (line : str) (rest : list str) :
  st_stdin st = line :: rest ->
  reads_input_only
    (mkState (st_requests st) (st_sleeps st) (st_dirs st) (st_files st) rest)
    st' ->
  reads_input_only st st'.
Proof.
  intros E (Hr & Hs & Hd & Hf & Hi). cbn in *.
  repeat split; try assumption. rewrite E.
  etransitivity; [exact Hi|]. apply suffix_cons_r. reflexivity.
Qed.

Section Menu.
Context (w : World) (base_url : str) (pages : list str).

Lemma choose_loop_result (fuel : nat) :
  forall st r st',
    (length (st_stdin st) < fuel)%nat ->
    choose_loop w fuel base_url pages st = (r, st') ->
    reads_input_only st st'
    /\ match r with
       | Ret c => choice_ok base_url pages c
       | Raise e => e = EOFError /\ st_stdin st' = []
       end.
Proof.
  induction fuel as [|fuel IH]; intros st r st' Hfuel; [lia|].
  cbn [choose_loop]. rewrite bind_input.
  destruct (st_stdin st) as [|line rest] eqn:E.
  { intros [= <- <-]. split; [apply reads_input_only_refl|].
    split; [reflexivity|exact E]. }
  cbn [length] in Hfuel.
  pose (st1 := mkState (st_requests st) (st_sleeps st) (st_dirs st)
                       (st_files st) rest).
  assert (Hst1 : forall st2, reads_input_only st1 st2 -> reads_input_only st st2).
  { intros st2. apply (reads_input_only_line st st2 line rest E). }
  assert (Hagain : choose_loop w fuel base_url pages st1 = (r, st') ->
                   reads_input_only st st'
                   /\ match r with
                      | Ret c => choice_ok base_url pages c
                      | Raise e => e = EOFError /\ st_stdin st' = []
                      end).
  { intros Hrun. apply IH in Hrun; [|cbn; lia].
    destruct Hrun as [H1 H2]. split; [apply Hst1, H1|exact H2]. }
  destruct (str_eqb (strip line) (lit "1")).
  { intros [= <- <-]. split; [apply Hst1, reads_input_only_refl|reflexivity]. }
  destruct (str_eqb (strip line) (lit "2")).
  { intros [= <- <-]. split; [apply Hst1, reads_input_only_refl|].
    unfold choice_ok. cbn [fst snd]. destruct pages; reflexivity. }
  destruct (str_eqb (strip line) (lit "3") && _) eqn:E3.
  { intros [= <- <-]. split; [apply Hst1, reads_input_only_refl|].
    apply andb_true_iff in E3. destruct E3 as [_ E3].
    unfold choice_ok. cbn [fst snd]. split; [|reflexivity].
    intros H. rewrite H in E3. discriminate E3. }
  destruct (str_eqb (strip line) (lit "4") && _).
  { rewrite bind_input.
    cbn [st_stdin st_requests st_sleeps st_dirs st_files].
    destruct rest as [|line2 rest2] eqn:Er.
    { intros [= <- <-]. split; [apply Hst1, reads_input_only_refl|].
      split; reflexivity. }
    pose (st2 := mkState (st_requests st) (st_sleeps st) (st_dirs st)
                         (st_files st) rest2).
    assert (Hst2 : forall st3, reads_input_only st2 st3 ->
                               reads_input_only st st3).
    { intros st3 H. apply Hst1.
      apply (reads_input_only_line st1 st3 line2 rest2 eq_refl H). }
    pose proof (pick_selection_sublist pages (strip line2)) as Hsub.
    destruct (pick pages _) as [|x chosen].
    - intros Hrun. apply IH in Hrun; [|cbn in *; lia].
      destruct Hrun as [H1 H2]. split; [apply Hst2, H1|exact H2].
    - intros [= <- <-]. split; [apply Hst2, reads_input_only_refl|].
      unfold choice_ok. cbn [fst snd]. split; [discriminate|exact Hsub]. }
  destruct (str_eqb (strip line) (lit "5") && _).
  { rewrite bind_input.
    cbn [st_stdin st_requests st_sleeps st_dirs st_files].
    destruct rest as [|line2 rest2] eqn:Er.
    { intros [= <- <-]. split; [apply Hst1, reads_input_only_refl|].
      split; reflexivity. }
    pose (st2 := mkState (st_requests st) (st_sleeps st) (st_dirs st)
                         (st_files st) rest2).
    assert (Hst2 : forall st3, reads_input_only st2 st3 ->
                               reads_input_only st st3).
    { intros st3 H. apply Hst1.
      apply (reads_input_only_line st1 st3 line2 rest2 eq_refl H). }
    assert (Hnext : choose_loop w fuel base_url pages st2 = (r, st') ->
                    reads_input_only st st'
                    /\ match r with
                       | Ret c => choice_ok base_url pages c
                       | Raise e => e = EOFError /\ st_stdin st' = []
                       end).
    { intros Hrun. apply IH in Hrun; [|cbn in *; lia].
      destruct Hrun as [H1 H2]. split; [apply Hst2, H1|exact H2]. }
    destruct (re_compile w (strip line2)) as [search|]; [|exact Hnext].
    pose proof (sublist_filter (fun u => search u = true) pages) as Hsub.
    destruct (filter _ pages) as [|x chosen]; [exact Hnext|].
    intros [= <- <-]. split; [apply Hst2, reads_input_only_refl|].
    unfold choice_ok. cbn [fst snd]. split; [discriminate|exact Hsub]. }
  destruct (str_eqb (strip line) (lit "0")).
  { intros [= <- <-]. split; [apply Hst1, reads_input_only_refl|reflexivity]. }
  exact Hagain.
Qed.

(** X23. The menu reads input and does nothing else, whether it returns
    or raises. When it returns, what it answers fits the pages: the start
    page alone for [1]; all pages, or the start page when there are none,
    for [2]; all pages of a list that is not empty for [3]; for [4] and
    [5] a selection that is not empty and keeps the order of the pages;
    nothing for [0]. When it raises [EOFError], the input has run out. *)
Theorem choose_action_result (method : str) (llms_files : Manifests)
    (st st' : State) (r : res (Action * list str)) :
  choose_action w base_url method pages llms_files st = (r, st') ->
  reads_input_only st st'
  /\ (forall c, r = Ret c -> choice_ok base_url pages c)
  /\ (r = Raise EOFError -> st_stdin st' = []).
Proof.
  intros Hrun. unfold choose_action in Hrun.
  apply choose_loop_result in Hrun; [|lia]. destruct Hrun as [Hin Hr].
  split; [exact Hin|]. split.
  - intros c ->. exact Hr.
  - intros ->. apply Hr.
Qed.

End Menu.

Lemma choose_action_result_witness :
  let pages := [lit "https://a.example/1"; lit "https://a.example/2";
                lit "https://a.example/3"] in
  let run :=
    choose_action offline_world (lit "https://a.example") (lit "sitemap.xml")
                  pages [] (init_state [lit "9"; lit "4"; lit "3, 1"]) in
  fst run = Ret (ActSelectPages,
                 [lit "https://a.example/1"; lit "https://a.example/3"])
  /\ reads_input_only (init_state [lit "9"; lit "4"; lit "3, 1"]) (snd run)
  /\ choice_ok (lit "https://a.example") pages
               (ActSelectPages,
                [lit "https://a.example/1"; lit "https://a.example/3"]).
Proof.
  cbv zeta. split; [vm_compute; reflexivity|].
  destruct (choose_action_result offline_world (lit "https://a.example")
              [lit "https://a.example/1"; lit "https://a.example/2";
               lit "https://a.example/3"]
              (lit "sitemap.xml") [] (init_state [lit "9"; lit "4"; lit "3, 1"])
              (init_state [])
              (Ret (ActSelectPages,
                    [lit "https://a.example/1"; lit "https://a.example/3"])))
    as (Hin & Hret & _).
  - vm_compute. reflexivity.
  - split; [exact Hin|]. apply Hret. reflexivity.
Defined.
(* ===================================================================== *)
(** ** A run stays inside its site directory *)
(* ===================================================================== *)

Lemma writes_only_weaken {A} (P Q : str -> Prop) (m : M A) :
  (forall p, P p -> Q p) -> writes_only P m -> writes_only Q m.
Proof.
  intros HPQ Hm st r st' Hrun p Hp. apply (Hm _ _ _ Hrun).
  intros H. apply Hp, HPQ, H.
Qed.

Lemma auto_output_inside (site p : str) : auto_output site p -> inside site p.
Proof.
  unfold auto_output, inside, path_join.
  intros [[x ->]|[[x ->]|[[x ->]|[->| ->]]]]; eexists;
    rewrite <- ?app_assoc; reflexivity.
Qed.

Lemma writes_only_input (P : str -> Prop) : writes_only P input.
Proof.
  intros st r st' Hrun p _. unfold input in Hrun.
  destruct (st_stdin st); injection Hrun as <- <-; reflexivity.
Qed.

Lemma writes_only_choose_loop (P : str -> Prop) (w : World) (base_url : str)
    (pages : list str) (fuel : nat) :
  writes_only P (choose_loop w fuel base_url pages).
Proof.
  induction fuel as [|fuel IH]; cbn [choose_loop]; [apply writes_only_raise|].
  apply writes_only_bind; [apply writes_only_input|]. intros line.
  repeat match goal with
         | |- writes_only _ (if ?b then _ else _) => destruct b
         | |- writes_only _ (match ?x with _ => _ end) => destruct x
         | |- writes_only _ (ret _) => apply writes_only_ret
         | |- writes_only _ (bind input _) =>
             apply writes_only_bind; [apply writes_only_input|intros ?]
         end; exact IH.
Qed.

Lemma writes_only_choose_action (P : str -> Prop) (w : World)
    (base_url method : str) (pages : list str) (llms_files : Manifests) :
  writes_only P (choose_action w base_url method pages llms_files).
Proof.
  intros st r st' Hrun. unfold choose_action in Hrun.
  apply (writes_only_choose_loop P w base_url pages _ _ _ _ Hrun).
Qed.

Lemma writes_only_now (P : str -> Prop) (w : World) : writes_only P (now w).
Proof. intros st r st' [= <- <-] p _. reflexivity. Qed.

Section Confined.
Context (w : World) (base_url site : str).
Hypothesis Hsite : site_dir_of w (normalize_url base_url) = Ret site.

Lemma inside_discover_pages :
  writes_only (inside site) (discover_pages w (normalize_url base_url)).
Proof. apply writes_only_discover_pages. Qed.

Lemma inside_download_pages (urls : list str) (delay : Q) (max_pages : Z) :
  writes_only (inside site) (download_pages w urls site delay max_pages).
Proof.
  apply (writes_only_weaken (auto_output site)); [apply auto_output_inside|].
  apply writes_only_download_pages.
Qed.

Lemma inside_build_combined (md_paths : list str) (title : str) :
  writes_only (inside site)
    (build_combined md_paths (path_join site (lit "combined.md")) title).
Proof.
  apply (writes_only_weaken (auto_output site)); [apply auto_output_inside|].
  apply writes_only_build_combined.
Qed.

Lemma inside_write_llms_files (llms_files : Manifests) :
  writes_only (inside site) (write_llms_files llms_files site).
Proof.
  apply (writes_only_weaken (auto_output site)); [apply auto_output_inside|].
  apply writes_only_write_llms_files.
Qed.

Lemma inside_save_bytes (name : str) (data : bytes) :
  writes_only (inside site) (save_bytes (path_join site name) data).
Proof. apply writes_only_save_bytes. exists name. reflexivity. Qed.

Lemma inside_save_text (name text : str) :
  writes_only (inside site) (save_text (path_join site name) text).
Proof. apply writes_only_save_text. exists name. reflexivity. Qed.

(** The rest of a run, once its directory is known and made. *)
Lemma after_site_dir {A} (k : str -> M A) :
  writes_only (inside site) (k site) ->
  writes_only (inside site)
    (bind (lift (site_dir_of w (normalize_url base_url)))
          (fun d => bind (ensure_dir d) k)).
Proof.
  intros Hk st r st' Hrun p Hp. rewrite Hsite in Hrun.
  unfold bind at 1, lift in Hrun. unfold bind at 1, ensure_dir in Hrun.
  rewrite (Hk _ _ _ Hrun p Hp). reflexivity.
Qed.

Lemma run_for_url_auto_inside (mode : Mode) :
  writes_only (inside site) (run_for_url_auto w base_url mode).
Proof.
  unfold run_for_url_auto.
  destruct (str_eqb (normalize_url base_url) []); [apply writes_only_ret|].
  apply after_site_dir.
  apply writes_only_bind; [apply inside_discover_pages|].
  intros [[method pages] llms_files].
  apply writes_only_bind; [apply inside_write_llms_files|]. intros _.
  destruct mode.
  - destruct (manifest_get _ llms_files); [apply inside_save_bytes|].
    destruct pages.
    + apply writes_only_bind; [apply inside_download_pages|]. intros _.
      apply writes_only_ret.
    + apply writes_only_bind; [apply inside_download_pages|]. intros md_paths.
      apply inside_build_combined.
  - apply writes_only_bind; [apply inside_download_pages|]. intros md_paths.
    apply inside_build_combined.
  - apply writes_only_bind; [apply inside_download_pages|]. intros _.
    apply writes_only_ret.
Qed.

Lemma run_for_url_inside :
  writes_only (inside site) (run_for_url w base_url).
Proof.
  unfold run_for_url.
  destruct (str_eqb (normalize_url base_url) []); [apply writes_only_ret|].
  apply after_site_dir.
  apply writes_only_bind; [apply inside_discover_pages|].
  intros [[method pages] llms_files].
  apply writes_only_bind; [apply inside_write_llms_files|]. intros _.
  apply writes_only_bind; [apply writes_only_choose_action|].
  intros [action chosen].
  assert (Hpages : writes_only (inside site)
            (bind (download_pages w chosen site DELAY_SEC MAX_PAGES_DEFAULT)
               (fun md_paths =>
                  bind (build_combined md_paths
                          (path_join site (lit "combined.md"))
                          (normalize_url base_url))
                    (fun _ =>
                       bind (now w)
                         (fun ts =>
                            save_text (path_join site (lit "meta.json"))
                              (meta_json (normalize_url base_url) method
                                 (Z.of_nat (length md_paths))
                                 (Z.of_nat (length chosen)) ts)))))).
  { apply writes_only_bind; [apply inside_download_pages|]. intros md_paths.
    apply writes_only_bind; [apply inside_build_combined|]. intros _.
    apply writes_only_bind; [apply writes_only_now|]. intros ts.
    apply inside_save_text. }
  destruct action; try exact Hpages.
  - destruct (manifest_get _ llms_files); [apply inside_save_bytes|].
    apply writes_only_bind; [apply inside_download_pages|]. intros md_paths.
    apply inside_build_combined.
  - apply writes_only_ret.
Qed.

End Confined.

(** X24. A run stays inside its site directory: whatever the world
    answers and whatever is typed, and whether the run returns or raises,
    [run_for_url] and [run_for_url_auto] write no file outside the
    directory made for the target; every other file is as it was. *)
Theorem runs_write_inside_site_dir (w : World) (base_url site : str)
    (mode : Mode) :
  site_dir_of w (normalize_url base_url) = Ret site ->
  writes_only (inside site) (run_for_url w base_url)
  /\ writes_only (inside site) (run_for_url_auto w base_url mode).
Proof.
  intros Hsite. split.
  - apply run_for_url_inside, Hsite.
  - apply run_for_url_auto_inside, Hsite.
Qed.

Lemma runs_write_inside_site_dir_witness :
  writes_only (inside (lit "/work/docgrab__a.example__docs"))
    (run_for_url offline_world (lit "a.example/docs/"))
  /\ writes_only (inside (lit "/work/docgrab__a.example__docs"))
       (run_for_url_auto offline_world (lit "a.example/docs/") ModeAll).
Proof.
  apply runs_write_inside_site_dir. vm_compute. reflexivity.
Defined.
(* ===================================================================== *)
(** ** The full manifest comes first *)
(* ===================================================================== *)

Lemma save_manifests_quiet (d : str) (found : Manifests) :
  forall st, exists st',
    for_each found
      (fun nf => save_bytes (path_join d (fst nf)) (fr_body (snd nf))) st
    = (Ret tt, st')
    /\ st_requests st' = st_requests st /\ st_sleeps st' = st_sleeps st
    /\ st_dirs st' = st_dirs st.
Proof.
  induction found as [|nf found IH]; intros st; cbn [for_each].
  - exists st. repeat split; reflexivity.
  - unfold bind, save_bytes at 1.
    destruct (IH (with_file (path_join d (fst nf)) (fr_body (snd nf)) st))
      as (st' & Hrun & Hr & Hs & Hd).
    exists st'. split; [exact Hrun|]. repeat split; assumption.
Qed.

Lemma discovery_dirs (w : World) (url : str) (st st' : State)
    (r : res (str * list str * Manifests)) :
  discover_pages w url st = (r, st') -> st_dirs st' = st_dirs st.
Proof.
  intros Hrun. apply (network_only_discover_pages w url _ _ _ Hrun).
Qed.

(** The same run in a world where nothing stands in its way. *)
Lemma auto_full_run (w : World) (base_url site method : str)
    (pages : list str) (found : Manifests) (fr : FetchResult)
    (st st1 : State) :
  normalize_url base_url <> [] ->
  site_dir_of w (normalize_url base_url) = Ret site ->
  discover_pages w (normalize_url base_url) (with_dir site st)
  = (Ret (method, pages, found), st1) ->
  manifest_get (lit "llms-full.txt") found = Some fr ->
  exists st',
    run_for_url_auto w base_url ModeFull st = (Ret tt, st')
    /\ st_requests st' = st_requests st1
    /\ st_sleeps st' = st_sleeps st1
    /\ st_dirs st' = {[path_join site (lit "llms")]} ∪ ({[site]} ∪ st_dirs st)
    /\ st_files st' !! path_join site (lit "combined__llms-full.txt")
       = Some (fr_body fr).
Proof.
  intros Hne Hsite Hdisc Hfull. unfold run_for_url_auto.
  destruct (str_eqb (normalize_url base_url) []) eqn:E.
  { apply str_eqb_nil in E. contradiction. }
  rewrite Hsite. unfold bind at 1, lift. unfold bind at 1, ensure_dir.
  unfold bind at 1. change (mkState _ _ _ _ _) with (with_dir site st).
  rewrite Hdisc. unfold bind at 1.
  pose proof (discovery_dirs w (normalize_url base_url) _ _ _ Hdisc) as Hd1.
  destruct found as [|nf found]; [discriminate Hfull|].
  unfold write_llms_files, bind at 1, ensure_dir.
  match goal with
  | |- context [for_each _ _ ?s] =>
      destruct (save_manifests_quiet (path_join site (lit "llms"))
                  (nf :: found) s) as (st2 & -> & Hr & Hs & Hd)
  end.
  rewrite Hfull. eexists. split; [reflexivity|].
  cbn [st_requests st_sleeps st_dirs st_files] in *.
  split; [exact Hr|]. split; [exact Hs|]. split.
  - rewrite Hd, Hd1. reflexivity.
  - apply lookup_insert_eq.
Qed.

(** X25. With [--auto] and no other mode, a site that has an
    [llms-full.txt] costs no request beyond discovery: when the run
    returns, it has written the body of [llms-full.txt] as
    [combined__llms-full.txt], has made the site directory and its
    [llms] directory, no [raw] and no [md], and has fetched no page. *)
Theorem auto_full_saves_manifest (w : World) (base_url site method : str)
    (pages : list str) (found : Manifests) (fr : FetchResult)
    (st st1 st' : State) :
  normalize_url base_url <> [] ->
  site_dir_of w (normalize_url base_url) = Ret site ->
  discover_pages w (normalize_url base_url) (with_dir site st)
  = (Ret (method, pages, found), st1) ->
  manifest_get (lit "llms-full.txt") found = Some fr ->
  run_for_url_auto w base_url ModeFull st = (Ret tt, st') ->
  st_requests st' = st_requests st1
  /\ st_sleeps st' = st_sleeps st1
  /\ st_dirs st' = {[path_join site (lit "llms")]} ∪ ({[site]} ∪ st_dirs st)
  /\ st_files st' !! path_join site (lit "combined__llms-full.txt")
     = Some (fr_body fr).
Proof.
  intros Hne Hsite Hdisc Hfull Hrun.
  destruct (auto_full_run w base_url site method pages found fr st st1
              Hne Hsite Hdisc Hfull) as (st2 & Hrun2 & H).
  rewrite Hrun2 in Hrun. injection Hrun as <-. exact H.
Qed.

Lemma auto_full_saves_manifest_witness :
  exists st',
    run_for_url_auto full_manifest_world (lit "a.example/docs") ModeFull
                     (init_state [])
    = (Ret tt, st')
    /\ st_files st'
       !! path_join dir_a (lit "combined__llms-full.txt")
       = Some (lit "FULL").
Proof.
  exists (snd (run_for_url_auto full_manifest_world (lit "a.example/docs")
                 ModeFull (init_state []))).
  split; [vm_compute; reflexivity|].
  apply (auto_full_saves_manifest full_manifest_world (lit "a.example/docs")
           dir_a (lit "ingen") []
           [(lit "llms-full.txt",
             mkFetchResult (lit "https://a.example/docs/llms-full.txt") 200 ∅
                           (lit "FULL"))]
           (mkFetchResult (lit "https://a.example/docs/llms-full.txt") 200 ∅
                          (lit "FULL"))
           (init_state [])
           (snd (discover_pages full_manifest_world
                   (normalize_url (lit "a.example/docs"))
                   (with_dir dir_a (init_state []))))).
  - vm_compute. discriminate.
  - vm_compute. reflexivity.
  - vm_compute. reflexivity.
  - reflexivity.
  - vm_compute. reflexivity.
Defined.

(* ===================================================================== *)
(** ** The command line *)
(* ===================================================================== *)

Lemma elem_of_without (x flag : str) (pre post : list str) :
  x <> flag -> (x ∈ pre ++ flag :: post <-> x ∈ pre ++ post).
Proof.
  intros Hx. rewrite !elem_of_app, elem_of_cons. split.
  - intros [H|[H|H]]; [left; exact H|contradiction|right; exact H].
  - intros [H|H]; [left; exact H|right; right; exact H].
Qed.

(** X26. [main] drops every argument that starts with two hyphens from
    its targets, and a flag it does not know changes nothing: a run with
    such a flag among the arguments is the run without it. *)
Theorem main_ignores_unknown_flags (w : World) (prog flag : str)
    (pre post : list str) :
  startswith (lit "--") flag = true ->
  flag ∉ known_flags ->
  main w (prog :: pre ++ flag :: post) = main w (prog :: pre ++ post).
Proof.
  intros Hflag Hunknown.
  assert (Hmem : forall x, x ∈ known_flags ->
            bool_decide (x ∈ prog :: pre ++ flag :: post)
            = bool_decide (x ∈ prog :: pre ++ post)).
  { intros x Hx. apply bool_decide_ext. rewrite !elem_of_cons.
    rewrite elem_of_without; [reflexivity|].
    intros ->. contradiction. }
  unfold main.
  rewrite (Hmem (lit "--auto")), (Hmem (lit "--all")), (Hmem (lit "--start"))
    by (unfold known_flags; rewrite !elem_of_cons; tauto).
  cbn [drop]. rewrite !drop_0, !filter_app, filter_cons_False; [reflexivity|].
  rewrite Hflag. cbn. rewrite andb_false_r. discriminate.
Qed.

Lemma main_ignores_unknown_flags_witness :
  main offline_world
       (lit "docgrab.py"
        :: [lit "--all"] ++ lit "--verbose" :: [lit "a.example"])
  = main offline_world (lit "docgrab.py" :: [lit "--all"] ++ [lit "a.example"]).
Proof.
  apply main_ignores_unknown_flags; [reflexivity|].
  unfold known_flags. rewrite !elem_of_cons, elem_of_nil.
  intros [H|[H|[H|[]]]]; discriminate H.
Defined.
(* ===================================================================== *)
(** ** The run manifest *)
(* ===================================================================== *)

Section RunManifest.
Context (w : World) (base_url site : str).
Hypothesis Hsite : site_dir_of w (normalize_url base_url) = Ret site.

(** What the branch of [run_for_url] for the actions start, all and
    select writes as [meta.json]. *)
Lemma pages_branch_manifest (method : str) (chosen : list str)
    (st st' : State) :
  chosen <> [] ->
  bind (download_pages w chosen site DELAY_SEC MAX_PAGES_DEFAULT)
    (fun md_paths =>
       bind (build_combined md_paths (path_join site (lit "combined.md"))
               (normalize_url base_url))
         (fun _ =>
            bind (now w)
              (fun ts =>
                 save_text (path_join site (lit "meta.json"))
                   (meta_json (normalize_url base_url) method
                      (Z.of_nat (length md_paths))
                      (Z.of_nat (length chosen)) ts)))) st
  = (Ret tt, st') ->
  exists downloaded chosen_count ts,
    file_text st' (path_join site (lit "meta.json"))
    = Some (meta_json (normalize_url base_url) method downloaded chosen_count ts)
    /\ 0 <= downloaded <= chosen_count
    /\ downloaded <= MAX_PAGES_DEFAULT
    /\ 1 <= chosen_count.
Proof.
  intros Hne. unfold bind at 1.
  destruct (download_pages w chosen site DELAY_SEC MAX_PAGES_DEFAULT st)
    as [[md_paths|e] st1] eqn:Edl; [|discriminate].
  unfold bind at 1.
  destruct (build_combined md_paths _ _ st1) as [[[]|e] st2]; [|discriminate].
  unfold bind at 1, now, save_text.
  destruct (utf8_encode_strict _) as [data|] eqn:Ee; [|discriminate].
  intros [= <-].
  exists (Z.of_nat (length md_paths)), (Z.of_nat (length chosen)),
         (unix_time w (length (st_requests st2))).
  split.
  - unfold file_text. cbn [st_files]. rewrite lookup_insert_eq.
    apply utf8_decode_strict_encode, Ee.
  - destruct (download_pages_run w chosen site DELAY_SEC MAX_PAGES_DEFAULT
                st st1 md_paths ltac:(discriminate) Edl) as (H1 & H2 & _).
    destruct chosen; [contradiction|]. cbn [length] in *. lia.
Qed.

Lemma run_for_url_manifest (st st' : State) :
  run_for_url w base_url st = (Ret tt, st') ->
  st_files st' !! path_join site (lit "meta.json")
  = st_files st !! path_join site (lit "meta.json")
  \/ exists method downloaded chosen_count ts,
       file_text st' (path_join site (lit "meta.json"))
       = Some (meta_json (normalize_url base_url) method downloaded
                         chosen_count ts)
       /\ In method [lit "llms.txt"; lit "sitemap.xml"; lit "sidebar/nav";
                     lit "ingen"]
       /\ 0 <= downloaded <= chosen_count
       /\ downloaded <= MAX_PAGES_DEFAULT
       /\ 1 <= chosen_count.
Proof.
  unfold run_for_url.
  destruct (str_eqb (normalize_url base_url) []);
    [intros [= <-]; left; reflexivity|].
  rewrite Hsite. unfold bind at 1, lift. unfold bind at 1, ensure_dir.
  unfold bind at 1.
  destruct (discover_pages w (normalize_url base_url) _)
    as [[[[method pages] found]|e] st1] eqn:Ed; [|discriminate].
  destruct (discover_pages_returns w _ _ _ _ Ed) as (Hmethod & _ & _).
  destruct (network_only_discover_pages w _ _ _ _ Ed) as (_ & Hf1 & _).
  cbn [st_files fst snd] in Hf1, Hmethod.
  unfold bind at 1.
  destruct (write_llms_files found site st1) as [[[]|e] st2] eqn:Ew;
    [|discriminate].
  pose proof (writes_only_write_llms_files site found _ _ _ Ew _
                (manifest_is_no_auto_output site)) as Hf2.
  unfold bind at 1.
  destruct (choose_action w (normalize_url base_url) method pages found st2)
    as [[[action chosen]|e] st3] eqn:Ec; [|discriminate].
  unfold choose_action in Ec. apply choose_loop_result in Ec; [|lia].
  destruct Ec as [(_ & _ & _ & Hf3 & _) Hok].
  assert (Hsame : st_files st3 !! path_join site (lit "meta.json")
                  = st_files st !! path_join site (lit "meta.json")).
  { rewrite Hf3, Hf2, Hf1. reflexivity. }
  assert (Hquiet : forall m : M unit,
            writes_only (auto_output site) m -> m st3 = (Ret tt, st') ->
            st_files st' !! path_join site (lit "meta.json")
            = st_files st !! path_join site (lit "meta.json")).
  { intros m Hm Hrun. rewrite <- Hsame.
    apply (Hm _ _ _ Hrun), manifest_is_no_auto_output. }
  assert (Hpages : chosen <> [] ->
            bind (download_pages w chosen site DELAY_SEC MAX_PAGES_DEFAULT)
              (fun md_paths =>
                 bind (build_combined md_paths
                         (path_join site (lit "combined.md"))
                         (normalize_url base_url))
                   (fun _ =>
                      bind (now w)
                        (fun ts =>
                           save_text (path_join site (lit "meta.json"))
                             (meta_json (normalize_url base_url) method
                                (Z.of_nat (length md_paths))
                                (Z.of_nat (length chosen)) ts)))) st3
            = (Ret tt, st') ->
            st_files st' !! path_join site (lit "meta.json")
            = st_files st !! path_join site (lit "meta.json")
            \/ exists method downloaded chosen_count ts,
                 file_text st' (path_join site (lit "meta.json"))
                 = Some (meta_json (normalize_url base_url) method downloaded
                                   chosen_count ts)
                 /\ In method [lit "llms.txt"; lit "sitemap.xml";
                               lit "sidebar/nav"; lit "ingen"]
                 /\ 0 <= downloaded <= chosen_count
                 /\ downloaded <= MAX_PAGES_DEFAULT
                 /\ 1 <= chosen_count).
  { intros Hne Hrun.
    destruct (pages_branch_manifest method chosen st3 st' Hne Hrun)
      as (d & c & ts & H1 & H2).
    right. exists method, d, c, ts.
    split; [exact H1|split; [exact Hmethod|exact H2]]. }
  unfold choice_ok in Hok. cbn [fst snd] in Hok.
  destruct action.
  - apply Hpages. rewrite Hok. discriminate.
  - intros Hrun. left. revert Hrun. apply Hquiet.
    destruct (manifest_get _ found).
    + apply writes_only_save_bytes. repeat right. reflexivity.
    + apply writes_only_bind; [apply writes_only_download_pages|].
      intros md_paths. apply writes_only_build_combined.
  - apply Hpages. destruct Hok as [Hne ->]. exact Hne.
  - apply Hpages. apply Hok.
  - intros [= <-]. left. exact Hsame.
Qed.

End RunManifest.

(** X27. The run manifest counts what was done: when an interactive run
    returns, the [meta.json] of its site directory is either as it was
    before (the answers skip and one document write none), or it is the
    manifest of this target with one of the four discovery methods, a
    number of downloaded pages between zero and the number of chosen
    URLs and at most 250, and at least one chosen URL. *)
Theorem run_manifest_counts (w : World) (base_url site : str) (st st' : State) :
  site_dir_of w (normalize_url base_url) = Ret site ->
  run_for_url w base_url st = (Ret tt, st') ->
  st_files st' !! path_join site (lit "meta.json")
  = st_files st !! path_join site (lit "meta.json")
  \/ exists method downloaded chosen_count ts,
       file_text st' (path_join site (lit "meta.json"))
       = Some (meta_json (normalize_url base_url) method downloaded
                         chosen_count ts)
       /\ In method [lit "llms.txt"; lit "sitemap.xml"; lit "sidebar/nav";
                     lit "ingen"]
       /\ 0 <= downloaded <= chosen_count
       /\ downloaded <= MAX_PAGES_DEFAULT
       /\ 1 <= chosen_count.
Proof. intros Hsite. apply run_for_url_manifest, Hsite. Qed.

Lemma run_manifest_counts_witness :
  let site := lit "/work/docgrab__a.example__docs" in
  let run := run_for_url offline_world (lit "a.example/docs")
                         (init_state [lit "1"]) in
  fst run = Ret tt
  /\ (st_files (snd run) !! path_join site (lit "meta.json")
      = st_files (init_state [lit "1"]) !! path_join site (lit "meta.json")
      \/ exists method downloaded chosen_count ts,
           file_text (snd run) (path_join site (lit "meta.json"))
           = Some (meta_json (normalize_url (lit "a.example/docs")) method
                             downloaded chosen_count ts)
           /\ In method [lit "llms.txt"; lit "sitemap.xml"; lit "sidebar/nav";
                         lit "ingen"]
           /\ 0 <= downloaded <= chosen_count
           /\ downloaded <= MAX_PAGES_DEFAULT
           /\ 1 <= chosen_count).
Proof.
  cbv zeta. split; [vm_compute; reflexivity|].
  apply (run_manifest_counts offline_world (lit "a.example/docs")
           (lit "/work/docgrab__a.example__docs") (init_state [lit "1"]));
    vm_compute; reflexivity.
Defined.
(* ===================================================================== *)
(** ** Discovery: the manifest comes first *)
(* ===================================================================== *)

(** Once the manifest gave no page, discovery names another method and
    hands the manifests on: the rest of [discover_pages], whatever state
    it runs from. *)
Ltac discovery_goes_on found :=
  match goal with
  | |- ?m ?s = (Ret _, _) -> _ =>
      let Hm := fresh "Hm" in
      let Hrun := fresh "Hrun" in
      let H1 := fresh "H" in
      let H2 := fresh "H" in
      assert (Hm : returns m (fun r => snd r = found
                                       /\ fst (fst r) <> lit "llms.txt"));
      [ apply returns_bind_any; intros [|? ?];
        [ apply returns_bind_any; intros [? ?];
          apply returns_bind_any; intros ?;
          apply returns_bind_any; intros [|? ?];
          apply returns_ret; (split; [reflexivity|discriminate])
        | apply returns_ret; split; [reflexivity|discriminate] ]
      | intros Hrun; destruct (Hm _ _ _ Hrun) as [H1 H2];
        cbn [fst snd] in H1, H2; split; [exact H1|];
        intros; contradiction ]
  end.

(** X28. The manifest comes first and costs nothing more: [discover_pages]
    hands on the manifests the probe found, and when it names the method
    [llms.txt], the pages are the URLs taken from the text of the
    [llms.txt] manifest, and no request was made after the probe. *)
Theorem manifest_method_is_first (w : World) (base_url method : str)
    (pages : list str) (found found' : Manifests) (st st1 st' : State) :
  try_llms_files w base_url st = (Ret found, st1) ->
  discover_pages w base_url st = (Ret (method, pages, found'), st') ->
  found' = found
  /\ (method = lit "llms.txt" ->
      st' = st1
      /\ exists fr text,
           manifest_get (lit "llms.txt") found = Some fr
           /\ decode_bytes w (fr_body fr) (fr_headers fr) = Ret text
           /\ extract_urls_from_llms_txt w text base_url = Ret pages).
Proof.
  intros Hprobe. unfold discover_pages, bind at 1. rewrite Hprobe.
  destruct (manifest_get (lit "llms.txt") found) as [fr|] eqn:Eget.
  - unfold bind at 1, bind at 1, lift at 1.
    destruct (decode_bytes w (fr_body fr) (fr_headers fr)) as [text|e]
      eqn:Edec; [|discriminate].
    unfold lift.
    destruct (extract_urls_from_llms_txt w text base_url) as [urls|e]
      eqn:Eurls; [|discriminate].
    destruct urls as [|u us]; [discovery_goes_on found|].
    intros [= <- <- <- <-]. split; [reflexivity|]. intros _.
    split; [reflexivity|]. exists fr, text.
    split; [reflexivity|]. split; [exact Edec|exact Eurls].
  - unfold bind at 1, ret at 1. discovery_goes_on found.
Qed.

Lemma manifest_method_is_first_witness :
  let run :=
    discover_pages listed_page_world (lit "https://example.com/docs")
                   (init_state []) in
  let probe :=
    try_llms_files listed_page_world (lit "https://example.com/docs")
                   (init_state []) in
  match fst run, fst probe with
  | Ret (method, pages, found'), Ret found =>
      method = lit "llms.txt" /\ pages = [lit "https://example.com/docs/a"]
      /\ found' = found /\ snd run = snd probe
  | _, _ => False
  end.
Proof.
  cbv zeta.
  destruct (discover_pages _ _ _) as [[[[method pages] found']|e] st'] eqn:Ed;
    [|vm_compute in Ed; discriminate Ed].
  destruct (try_llms_files _ _ _) as [[found|e] st1] eqn:Ep;
    [|vm_compute in Ep; discriminate Ep].
  cbn [fst snd].
  destruct (manifest_method_is_first _ _ _ _ _ _ _ _ _ Ep Ed) as [Hf Hm].
  assert (Hmp : res_bind
                  (fst (discover_pages listed_page_world
                          (lit "https://example.com/docs") (init_state [])))
                  (fun r => Ret (fst r))
                = Ret (lit "llms.txt", [lit "https://example.com/docs/a"]))
    by (vm_compute; reflexivity).
  rewrite Ed in Hmp. cbn [fst res_bind] in Hmp. injection Hmp as -> ->.
  split; [reflexivity|]. split; [reflexivity|]. split; [exact Hf|].
  apply (Hm eq_refl).
Defined.
